(* ===== verification/_CoqProject ===== *)
-Q . S2P
Prelude.v
Bytes.v
Bisect.v
Float64.v
Entities.v
Codec.v
Fs.v
Platform.v
Format.v
Messages.v
Pager.v
Cache.v
Tree.v
Wal.v
Db.v
Crc.v
CodecFacts.v
PageCodecFacts.v
CodecTheorems.v
PagerFacts.v
PagerTheorems.v
CacheFacts.v
CacheOps.v
CacheTheorems.v
WalFacts.v
WalTheorems.v
Debug.v
TreeSizes.v
TreeShape.v
TreeSteps.v
TreeSearch.v
TreeStore.v
TreeFind.v
TreeSplit.v
TreeBalance.v
TreeRedistribute.v
TreeBorrow.v
TreeMerge.v
TreeCascade.v
TreeOps.v
TreeFrame.v
TreeHeight.v
TreeBudget.v
TreeScan.v
TreeReads.v
TreePages.v
DebugWalk.v
DebugFacts.v
TreeTheorems.v
DbScenarios.v
DbCreation.v
DbFaults.v
DbFacts.v
DbCheckpoint.v
DbDurable.v
DbOps.v
DbRecovery.v
DbStages.v
DbClient.v
DbTheorems.v
Bench.v
BenchText.v
BenchKeys.v
BenchFacts.v
BenchRuns.v
BenchShape.v
BenchSequential.v
BenchMeasure.v
BenchReport.v
BenchTheorems.v
