(* ===== verification/Prelude.v ===== *)
(** * bptreedb: a verification development of the storage engine

    bptreedb ([src/src/bptreedb/]) is an embedded key-value store: a B+ tree of
    fixed-size pages in one data file, behind a buffer pool, with a write-ahead
    log in a second file.  This library models its modules, one file each, and
    the benchmark script that runs on top of them, and proves what the parts
    promise each other and what the database promises its clients.

    ** The program and its model

    - [exceptions.py], and the monad of state and exceptions the methods are
      written in: this file.  A method of a class is a computation on the
      object's record; when it raises, the mutations made so far stay.  The
      class hierarchy and the messages are in [Messages].
    - [with] statements: [with_block], on the [__enter__] and [__exit__] of
      each class.
    - Numbers as text, for the messages and the reports: [Format].
    - [struct], [zlib.crc32], byte strings, [bisect] and double precision, as
      far as the engine uses them: [Bytes], [Bisect], [Float64].
    - [entities.py]: [Entities].  [codec.py] (readers, writers, WAL records,
      meta page, slotted pages, sizes): [Codec].
    - [fs.py]: [Fs].  A file is its visible bytes and those known to be synced,
      and [fsync_file] one step that makes them equal.  [Platform] has the code
      behind that step, over a class of system calls.
    - [pager.py] (data file, meta page, freelist): [Pager].
    - [cache.py] (the LRU pool): [Cache].  Pages are mutable objects that the
      tree holds references to, so they live in an explicit heap and the pool
      maps page ids to addresses; an evicted page is still reachable from the
      variables that hold it.
    - [tree.py]: [Tree].  Search, insertion, deletion and scans, with the loop
      [_balance_and_write_tree] and its splits, redistributions and merges on
      page objects.  A scan is a generator: the record [Scan] is its state
      between two steps.
    - [wal.py]: [Wal].  Append, iteration, replay, truncation of a torn tail,
      rotation through a temporary file.
    - [db.py]: [Db].  Opening with recovery, put, get, delete, scan,
      checkpoint, close.  The tree's pager and pool are shared objects: the
      record [DB] holds the tree, which holds the store of both.
    - [debug.py]: [Debug].  The nodes of the materialized tree are in a table
      and refer to their children by position.
    - [scripts/bench.py], a client of all of the above: [Bench].  The workloads,
      the progress reporter, the snapshot of the tree, a measurement from the
      wiped directory to the sizes of the files, and the presets; [BenchText]:
      the reports and [main].  The random generator and the clocks are an instance of the
      class [World], the parameter of these definitions; [WorldOk] has what
      [random] documents.

    Each definition has the name of the method it translates, with a prefix
    where two modules use the same name ([db_open], [pager_open], [wal_open]).

    ** What is proved

    - Wire format ([CodecFacts], [PageCodecFacts], [Crc], [CodecTheorems]):
      round trips of WAL records, of the meta page and of every page that fits,
      the exact domain of the encoders, detection of torn records and of every
      change of one byte, and termination of the decoder on arbitrary bytes.
    - System calls ([Platform]): for calls that keep what their manuals say,
      [fsync_file] hands the buffered writes over, each at its place, and is the
      step the engine is modelled with, except on a macOS volume without a full
      sync, where the code settles for less; it passes every other error of a
      call on; and no descriptor of a directory stays open.
    - Pager ([PagerFacts], [PagerTheorems]): [PagerInv] ties the file, the meta
      page and the freelist chain; allocation and freeing as a transition
      system on it partition the page ids; closing and opening keep everything.
    - Pool ([CacheFacts], [CacheOps], [CacheTheorems]): the page a client sees
      under an id ([view]); fetching never changes it, dirty pages are neither
      written nor dropped before a flush, a flush makes the file agree.
    - Log ([WalFacts], [WalTheorems]): the log as a list of records; a record
      whose append returned survives any crash, a torn tail is dropped, damage
      before a good record is reported unless it makes a length point past the
      end of the file, rotation keeps a suffix; the loops end on arbitrary files.
    - Tree ([TreeSizes] to [DebugFacts], [TreeTheorems]).  The pages reachable
      from the root are gathered in a ghost tree ([TreeShape]), whose in-order
      walk is one sorted list of separators and records.  [TreeSteps] has the
      three rewrites of the cascade on ghost trees; [TreeStore] relates a ghost
      tree to pool and pager ([Rep]) and has the rules for fetching, changing,
      allocating and freeing a page; [TreeSearch] and [TreeFind] are the
      descent, [TreeSplit], [TreeRedistribute], [TreeBorrow] and [TreeMerge]
      the steps, [TreeBalance] the invariant of the loop and [TreeCascade] the
      loop; [TreeOps], [TreeScan] and [TreeBudget] the operations;
      [TreeReads] keeps a scan between two steps in place while the tree is only
      read.  [TreeFrame]
      shows that no operation of the tree writes the data file, [TreeHeight]
      that the height is logarithmic to the base of the fan-out, [TreePages] that every page id is either
      in the tree or free, once; so no sequence of operations loses a page.  [DebugWalk] relates the walk of the repository's
      checker to the ghost tree and [DebugFacts] shows that the checker accepts
      it.  The theorems: insertion, deletion, search and scan return and agree
      with finite maps, in any sequence, and the checker accepts every tree
      they lead to.
    - Database ([DbFacts] to [DbStages], [DbClient], [DbTheorems]).  [Holding] says that
      an open database holds a map in memory and [Durable] that the data file
      of the last checkpoint and the log hold it too; every public operation
      keeps both.  [DbClient] is a client that makes calls and keeps any number
      of scans, with its specification, a finite map and the scans open on it.
      The theorems: any session refines the specification; after a crash
      the next open serves exactly the records of the calls that returned; a
      put that dies after its log record is completed; a [with] statement keeps
      what its body did, also when that raises; a checkpoint leaves nothing to
      recover, and once its record is in the log a crash at any later point of
      it loses nothing ([DbStages]); errors change nothing.
    - Benchmark script ([BenchKeys] to [BenchReport], [BenchTheorems]).  [ends]
      is the rule for computations that return whatever the [World] gives; every
      runner keeps an invariant on its loop variables and the database
      ([BenchRuns]), the snapshot reports the tree that is there ([BenchShape]),
      and the measurement ends with a closed database ([BenchMeasure]).  The
      theorems: every runner makes the calls of its workload and counts the bytes
      of its puts; the snapshot counts the pages that can be reached; [main]
      returns with a report for each workload, with what it says of operations,
      pages and files; the percentiles of a report are in order; the sequential
      workload is one as long as its numbers fit the keys.
    - [DbScenarios]: whole runs of the model, evaluated one by one as examples,
      that reach what the code does not mean to do: records lost by a crash
      inside a checkpoint, or by an overflow of a small pool; the merge step's
      assertion with keys of very different lengths, which the next open raises
      again; a split that leaves an underfull page; a scan that a close and an
      open of the database let go on after a change.
    - [DbCreation]: a process killed while it creates the database leaves a
      data file that no later open accepts; proved for every stage before the
      meta page is written, every page size and every configuration.
    - [DbFaults]: an append whose sync fails leaves its record in the log, and
      the next append makes it durable; a put that raised comes back after a
      crash.

    ** Bounds

    - The theorems on the tree ask [GoodBounds ps kmax]: pages of at least 128
      bytes (and below [2 ^ 50], where the floating-point thresholds are exact),
      and keys of at most [kmax] bytes with [10 * kmax + 40 <= ps].  Longer keys
      can make the merge step fail ([DbScenarios.merge_assertion_reachable]).
      Records obey the limit of the code.  The page size of a database is below
      [2 ^ 32], the width of its field.
    - The pool must have room for the pages an operation makes dirty:
      [step_cost h] is a bound for a tree of [h] internal levels, [db_cost h]
      adds what logging and checkpoints take.  [fits_config c h] is the test
      on a configuration that the dirty-page threshold of checkpoints leaves
      that room; the height is bounded by the number of records, since a page
      that is two fifths full has [fanout ps kmax] children ([small_map]: fewer
      than [4 * fanout ps kmax ^ h] records).  The default configuration with
      keys of up to 400 bytes has a fan-out of 5 and passes for [h = 13], which
      is over four billion records.
    - [N] counts the page ids and LSNs left below [2 ^ 64].

    ** Fuel

    Loops that are not structural take fuel from the state: the number of
    pages for the descent, the sibling chain, the freelist and the cascade, the
    number of slots for a redistribution, the length of the file for the loops
    over a log, the bytes of all pages for a scan of the benchmark script.  That it is enough is part of the theorems, which give the
    result, not a partial correctness; [OutOfFuel] is no result of theirs.

    ** Crashes

    A crash may lose everything written since the last sync of a file.
    [crash_leaves] is what the next open may find: the synced bytes of the data
    file and any bytes after them, the synced log and a part of one record after
    it.  Crashes between two calls and inside an operation up to its log record
    or after it are covered that way, since nothing but a checkpoint writes
    pages in place ([TreeTheorems.tree_keeps_file]).  A checkpoint writes in place,
    and has a point of no return, its record in the log: a crash after it is
    covered by [DbTheorems.checkpoint_crash_recovers], while one between the
    first page and the record can lose records
    ([DbScenarios.checkpoint_crash_loses_records]).  One inside the creation of
    the database makes it unusable ([DbCreation]).

    ** Not modelled

    - The texts some exceptions are given where they are raised; the types of
      arguments beyond bytes or not.
    - Directory syncs have no effect on the engine's model: the directory
      entries of files are taken to be durable.  A file is opened, replaced or
      removed in one step.  Errors of the operating system are raised in
      [Platform] and [DbFaults] only.
    - Several processes or threads: the program has no locks.
    - A scan reads the current slots of its leaf at every step, where the
      generator holds an iterator on the slot list; they differ only when the
      tree is changed in between, which the version check of the database stops.
    - [__init__.py] (names only); of [scripts/bench.py] the argument parser and
      the JSON encoder, which are the library's: the parsed arguments are the
      record [Namespace], and a JSON report is the record of what the
      dictionary holds. *)

From stdpp Require Export base tactics numbers list gmap sorting.
From Stdlib Require Export ZArith Lia.

#[global] Set Default Goal Selector "!".
Open Scope Z_scope.

(** ** Exceptions

    The exceptions the engine raises ([exceptions.py]) together with the
    built-in ones its code paths can raise.  [OutOfFuel] is not a Python
    exception: it marks a loop of the model that ran out of fuel; each loop
    has a theorem bounding the fuel it needs. *)
Inductive Exn :=
  | DBClosedError
  | DBCorruptedError
  | DBChecksumError (expected actual : Z)
  | DBRecordTooLargeError (limit actual : Z)
  | DBConcurrentPageModificationError
  | DBBufferPoolOverflowError
  | StructError
  | ValueError
  | TypeError
  | AssertionError
  | IndexError
  | KeyError
  | EOFError
  | ZeroDivisionError
  | FileNotFoundError
  | OSError (errno : Z)
  | OutOfFuel.

#[export] Instance Exn_eq_dec : EqDecision Exn.
Proof. solve_decision. Defined.

(** ** Results and the state-and-exception monad *)

Inductive Result (A : Type) :=
  | Ok (a : A)
  | Raise (e : Exn).
Arguments Ok {A} a.
Arguments Raise {A} e.

#[export] Instance Result_ret : MRet Result := fun A a => Ok a.
#[export] Instance Result_bind : MBind Result := fun A B f r =>
  match r with
  | Ok a => f a
  | Raise e => Raise e
  end.

Definition result_map {A B} (f : A -> B) (r : Result A) : Result B :=
  match r with
  | Ok a => Ok (f a)
  | Raise e => Raise e
  end.

(** A computation maps a state to a state and a result: when an exception is
    raised, the mutations made so far stay, as in the source. *)
Definition M (S A : Type) : Type := S -> S * Result A.

#[export] Instance M_ret {S} : MRet (M S) := fun A a s => (s, Ok a).
#[export] Instance M_bind {S} : MBind (M S) := fun A B f m s =>
  match m s with
  | (s', Ok a) => f a s'
  | (s', Raise e) => (s', Raise e)
  end.

Definition raise {S A} (e : Exn) : M S A := fun s => (s, Raise e).
Definition get_state {S} : M S S := fun s => (s, Ok s).
Definition gets {S A} (f : S -> A) : M S A := fun s => (s, Ok (f s)).
Definition put_state {S} (s : S) : M S unit := fun _ => (s, Ok tt).
Definition modify {S} (f : S -> S) : M S unit := fun s => (f s, Ok tt).
Definition lift {S A} (r : Result A) : M S A := fun s => (s, r).

(** [assert b] *)
Definition py_assert {S} (b : bool) : M S unit :=
  if b then mret tt else raise AssertionError.

Definition when {S} (b : bool) (m : M S unit) : M S unit :=
  if b then m else mret tt.

(** Running a computation of a component on the state that holds it. *)
Definition zoom {S T A} (get : S -> T) (set : T -> S -> S) (m : M T A) : M S A :=
  fun s => let '(t, r) := m (get s) in (set t s, r).

(** [try: m; finally: f] *)
Definition try_finally {S A} (m : M S A) (f : M S unit) : M S A := fun s =>
  let '(s1, r) := m s in
  match f s1 with
  | (s2, Ok _) => (s2, r)
  | (s2, Raise e) => (s2, Raise e)
  end.

(** [with manager: body]: [enter] and [exit] are [__enter__] and [__exit__].
    [exit] runs however the body ends; an exception of the body is raised again
    unless [exit] gives [True], one of [exit] takes its place. *)
Definition with_block {S} (enter : M S unit) (exit : M S bool) (body : M S unit) : M S unit :=
  let leave (r : Result unit) : M S unit :=
    suppressed ← exit;
    match r with
    | Raise e => if (suppressed : bool) then mret tt else raise e
    | Ok _ => mret tt
    end in
  let block : M S unit := fun s => let '(s', r) := body s in leave r s' in
  enter;; block.

(** [for x in l: f(x)] *)
Fixpoint mfor {S A} (l : list A) (f : A -> M S unit) : M S unit :=
  match l with
  | [] => mret tt
  | x :: l' => f x;; mfor l' f
  end.

(** The loop keeps an invariant indexed by the elements already treated. *)
Lemma mfor_ind {S A} (I : list A -> S -> Prop) (l : list A) (f : A -> M S unit) s :
  (forall pre x post s, l = pre ++ x :: post -> I pre s ->
     exists s', f x s = (s', Ok tt) /\ I (pre ++ [x]) s') ->
  I [] s -> exists s', mfor l f s = (s', Ok tt) /\ I l s'.
Proof.
  intros Hstep Hnil.
  enough (forall post pre s, l = pre ++ post -> I pre s ->
            exists s', mfor post f s = (s', Ok tt) /\ I l s') as H by (by apply (H l [] s)).
  induction post as [|x post IH]; intros pre s0 Hl Hpre; simpl.
  - exists s0. by rewrite app_nil_r in Hl; subst.
  - destruct (Hstep pre x post s0 Hl Hpre) as (s1 & E1 & H1).
    destruct (IH (pre ++ [x]) s1) as (s2 & E2 & H2); [by rewrite <-app_assoc|done|].
    exists s2. split; [|done]. unfold mbind, M_bind. by rewrite E1.
Qed.

(** ** Weakest preconditions *)

Definition wp {S A} (m : M S A) (Q : Result A -> S -> Prop) (s : S) : Prop :=
  Q (m s).2 (m s).1.

Section wp_rules.
Context {S : Type}.

Lemma wp_ret {A} (a : A) (Q : Result A -> S -> Prop) s :
  Q (Ok a) s -> wp (mret a) Q s.
Proof. done. Qed.

Lemma wp_bind {A B} (m : M S A) (f : A -> M S B) Q s :
  wp m (fun r s' => match r with
                    | Ok a => wp (f a) Q s'
                    | Raise e => Q (Raise e) s'
                    end) s ->
  wp (m ≫= f) Q s.
Proof.
  unfold wp, mbind, M_bind. destruct (m s) as [s' [a|e]]; simpl; done.
Qed.

Lemma wp_mono {A} (m : M S A) (Q Q' : Result A -> S -> Prop) s :
  wp m Q s -> (forall r s', Q r s' -> Q' r s') -> wp m Q' s.
Proof. unfold wp. auto. Qed.

Lemma wp_raise {A} e (Q : Result A -> S -> Prop) s :
  Q (Raise e) s -> wp (raise e) Q s.
Proof. done. Qed.

Lemma wp_gets {A} (f : S -> A) Q s : Q (Ok (f s)) s -> wp (gets f) Q s.
Proof. done. Qed.

Lemma wp_modify (f : S -> S) Q s : Q (Ok tt) (f s) -> wp (modify f) Q s.
Proof. done. Qed.

Lemma wp_lift {A} (r : Result A) (Q : Result A -> S -> Prop) s :
  Q r s -> wp (lift r) Q s.
Proof. done. Qed.

Lemma wp_zoom {T A} (get : S -> T) (set : T -> S -> S) (m : M T A) Q s :
  wp m (fun r t => Q r (set t s)) (get s) -> wp (zoom get set m) Q s.
Proof. unfold wp, zoom. destruct (m (get s)) as [t r]; done. Qed.
End wp_rules.

(** Equational form of a successful or failing bind. *)
Lemma bind_Ok {S A B} (m : M S A) (f : A -> M S B) s s' a :
  m s = (s', Ok a) -> (m ≫= f) s = f a s'.
Proof. unfold mbind, M_bind. by intros ->. Qed.

Lemma bind_Raise {S A B} (m : M S A) (f : A -> M S B) s s' e :
  m s = (s', Raise e) -> (m ≫= f) s = (s', Raise e).
Proof. unfold mbind, M_bind. by intros ->. Qed.

(** ** Python lists *)

Section pylist.
Context {A : Type}.
Implicit Types l : list A.

Definition len (l : list A) : Z := Z.of_nat (length l).

(** [l[i]], negative indices counting from the end. *)
Definition py_index (l : list A) (i : Z) : option nat :=
  let j := if i <? 0 then i + len l else i in
  if (0 <=? j) && (j <? len l) then Some (Z.to_nat j) else None.

Definition py_get (l : list A) (i : Z) : Result A :=
  match py_index l i with
  | Some j => match l !! j with Some x => Ok x | None => Raise IndexError end
  | None => Raise IndexError
  end.

(** The position a slice bound denotes: negative bounds count from the end
    and everything is clamped to [0, len l]. *)
Definition py_bound (l : list A) (i : Z) : nat :=
  let j := if i <? 0 then i + len l else i in
  Z.to_nat (Z.min (Z.max j 0) (len l)).

(** [l[i:j]] *)
Definition py_slice (l : list A) (i j : Z) : list A :=
  take (py_bound l j - py_bound l i) (drop (py_bound l i) l).

(** [l[i:j] = r], for a step of one *)
Definition py_slice_assign (l : list A) (i j : Z) (r : list A) : list A :=
  let a := py_bound l i in
  let b := Nat.max a (py_bound l j) in
  take a l ++ r ++ drop b l.

(** [l.pop(i)]: the element and the remaining list *)
Definition py_pop (l : list A) (i : Z) : Result (A * list A) :=
  match py_index l i with
  | Some j => match l !! j with
              | Some x => Ok (x, take j l ++ drop (S j) l)
              | None => Raise IndexError
              end
  | None => Raise IndexError
  end.

(** [l.insert(i, x)] for a non-negative [i] *)
Definition py_insert (l : list A) (i : nat) (x : A) : list A :=
  take i l ++ x :: drop i l.

Lemma py_get_lookup l i x : l !! i = Some x -> py_get l (Z.of_nat i) = Ok x.
Proof.
  intros Hi. pose proof (lookup_lt_Some _ _ _ Hi). unfold py_get, py_index, len.
  destruct (Z.ltb_spec (Z.of_nat i) 0); [lia|].
  destruct (Z.leb_spec 0 (Z.of_nat i)); [|lia].
  destruct (Z.ltb_spec (Z.of_nat i) (Z.of_nat (length l))); [|lia].
  simpl. by rewrite Nat2Z.id, Hi.
Qed.

Lemma py_index_last l x : py_index (l ++ [x]) (-1) = Some (length l).
Proof.
  unfold py_index, len. rewrite length_app. simpl length.
  destruct (Z.ltb_spec (-1) 0); [|lia].
  destruct (Z.leb_spec 0 (-1 + Z.of_nat (length l + 1))); [|lia].
  destruct (Z.ltb_spec (-1 + Z.of_nat (length l + 1)) (Z.of_nat (length l + 1))); [|lia].
  simpl. f_equal. lia.
Qed.

Lemma py_get_last l x : py_get (l ++ [x]) (-1) = Ok x.
Proof. unfold py_get. by rewrite py_index_last, list_lookup_middle. Qed.

Lemma py_pop_last l x : py_pop (l ++ [x]) (-1) = Ok (x, l).
Proof.
  unfold py_pop. rewrite py_index_last, list_lookup_middle by done.
  rewrite take_app_length, drop_ge by (rewrite length_app; simpl; lia). by rewrite app_nil_r.
Qed.

Lemma py_pop_nil : py_pop (@nil A) (-1) = Raise IndexError.
Proof. done. Qed.

Lemma py_pop_lookup l i x :
  l !! i = Some x -> py_pop l (Z.of_nat i) = Ok (x, take i l ++ drop (S i) l).
Proof.
  intros Hi. pose proof (lookup_lt_Some _ _ _ Hi). unfold py_pop, py_index, len.
  destruct (Z.ltb_spec (Z.of_nat i) 0); [lia|].
  destruct (Z.leb_spec 0 (Z.of_nat i)); [|lia].
  destruct (Z.ltb_spec (Z.of_nat i) (Z.of_nat (length l))); [|lia].
  simpl. by rewrite Nat2Z.id, Hi.
Qed.
End pylist.

(** [bytes(n)] raises on a negative count. *)
Definition py_zeros {A} (zero : A) (n : Z) : Result (list A) :=
  if n <? 0 then Raise ValueError else Ok (replicate (Z.to_nat n) zero).

(** ** [bisect]: the binary searches of the Python library *)

Section bisect.
Context {A : Type} (ltb : A -> A -> bool).

Fixpoint bisect_left_loop (fuel : nat) (a : list A) (x : A) (lo hi : nat) : nat :=
  match fuel with
  | O => lo
  | S fuel =>
      if (lo <? hi)%nat then
        let mid := ((lo + hi) / 2)%nat in
        match a !! mid with
        | Some y => if ltb y x then bisect_left_loop fuel a x (S mid) hi
                    else bisect_left_loop fuel a x lo mid
        | None => lo
        end
      else lo
  end.

Definition bisect_left (a : list A) (x : A) : nat :=
  bisect_left_loop (length a) a x 0 (length a).

Fixpoint bisect_right_loop (fuel : nat) (a : list A) (x : A) (lo hi : nat) : nat :=
  match fuel with
  | O => lo
  | S fuel =>
      if (lo <? hi)%nat then
        let mid := ((lo + hi) / 2)%nat in
        match a !! mid with
        | Some y => if ltb x y then bisect_right_loop fuel a x lo mid
                    else bisect_right_loop fuel a x (S mid) hi
        | None => lo
        end
      else lo
  end.

Definition bisect_right (a : list A) (x : A) : nat :=
  bisect_right_loop (length a) a x 0 (length a).
End bisect.

(** ** Automation *)

Create HintDb bptree.

(** Case analysis on the booleans and matches the goal is stuck on. *)
Ltac destruct_bools :=
  repeat match goal with
  | H : andb _ _ = true |- _ => apply andb_prop in H; destruct H
  | H : (_ <? _)%Z = true |- _ => apply Z.ltb_lt in H
  | H : (_ <? _)%Z = false |- _ => apply Z.ltb_ge in H
  | H : (_ <=? _)%Z = true |- _ => apply Z.leb_le in H
  | H : (_ <=? _)%Z = false |- _ => apply Z.leb_gt in H
  | H : (_ =? _)%Z = true |- _ => apply Z.eqb_eq in H
  | H : (_ =? _)%Z = false |- _ => apply Z.eqb_neq in H
  | H : (_ <? _)%nat = true |- _ => apply Nat.ltb_lt in H
  | H : (_ <? _)%nat = false |- _ => apply Nat.ltb_ge in H
  | H : bool_decide _ = true |- _ => apply bool_decide_eq_true_1 in H
  | H : bool_decide _ = false |- _ => apply bool_decide_eq_false_1 in H
  end.

(** One step of symbolic execution of a monadic program under [wp]. *)
Ltac wp_step :=
  match goal with
  | |- wp (mbind _ _) _ _ => apply wp_bind
  | |- wp (mret _) _ _ => apply wp_ret
  | |- wp (raise _) _ _ => apply wp_raise
  | |- wp (gets _) _ _ => apply wp_gets
  | |- wp (modify _) _ _ => apply wp_modify
  | |- wp (lift _) _ _ => apply wp_lift
  | |- wp (zoom _ _ _) _ _ => apply wp_zoom
  end.
Ltac wp_steps := repeat (wp_step; cbv beta).

(** Running the head of a monadic program on a given state. *)
Ltac mrun :=
  cbv [mbind mret M_bind M_ret get_state gets put_state modify lift raise when];
  cbv beta iota zeta.
Ltac mrun_in H :=
  cbv [mbind mret M_bind M_ret get_state gets put_state modify lift raise when] in H;
  cbv beta iota zeta in H.
