(* ===== verification/Bytes.v ===== *)
(** * Bytes, machine-width integers, CRC-32 and packed structs

    The parts of Python the wire format rests on: byte strings with their
    lexicographic order, unsigned little-endian integers of a fixed width,
    [zlib.crc32], and [struct.Struct] with the field kinds [codec.py] uses
    ([B], [I], [Q] and [ns], little-endian, unpadded). *)

From Stdlib Require Import Strings.Byte.
From S2P Require Import Prelude.

Abbreviation byte := Init.Byte.byte.
Abbreviation bytes := (list Init.Byte.byte).

#[export] Instance byte_eq_dec : EqDecision byte := Byte.byte_eq_dec.

#[export] Program Instance byte_countable : Countable byte :=
  inj_countable Byte.to_N Byte.of_N _.
Next Obligation. intros b. apply Byte.of_to_N. Qed.

(** ** Bytes as integers in [0, 256) *)

Definition byte_to_Z (b : byte) : Z := Z.of_N (Byte.to_N b).
Definition byte_of_Z (z : Z) : byte :=
  default Byte.x00 (Byte.of_N (Z.to_N (z mod 256))).

Lemma byte_to_Z_bound b : 0 <= byte_to_Z b < 256.
Proof. unfold byte_to_Z. pose proof (Byte.to_N_bounded b). lia. Qed.

Lemma byte_to_of_Z z : byte_to_Z (byte_of_Z z) = z mod 256.
Proof.
  unfold byte_to_Z, byte_of_Z.
  pose proof (Z.mod_pos_bound z 256).
  destruct (Byte.of_N (Z.to_N (z mod 256))) as [b|] eqn:E; simpl.
  - apply Byte.to_of_N in E. rewrite E. lia.
  - apply Byte.of_N_None_iff in E. lia.
Qed.

Lemma byte_to_Z_inj a b : byte_to_Z a = byte_to_Z b -> a = b.
Proof.
  unfold byte_to_Z. intros H. apply N2Z.inj in H.
  assert (Some a = Some b) as E; [|by injection E].
  by rewrite <-(Byte.of_to_N a), <-(Byte.of_to_N b), H.
Qed.

Lemma byte_of_to_Z b : byte_of_Z (byte_to_Z b) = b.
Proof.
  apply byte_to_Z_inj. rewrite byte_to_of_Z.
  apply Z.mod_small, byte_to_Z_bound.
Qed.

(** ** The lexicographic order of byte strings *)

Fixpoint bytes_ltb (a b : bytes) : bool :=
  match a, b with
  | _, [] => false
  | [], _ :: _ => true
  | x :: a', y :: b' =>
      (byte_to_Z x <? byte_to_Z y) ||
      ((byte_to_Z x =? byte_to_Z y) && bytes_ltb a' b')
  end.

Definition bytes_lt (a b : bytes) : Prop := bytes_ltb a b = true.
Definition bytes_le (a b : bytes) : Prop := bytes_ltb b a = false.

#[export] Instance bytes_lt_dec : RelDecision bytes_lt.
Proof. intros a b. unfold bytes_lt. apply _. Defined.
#[export] Instance bytes_le_dec : RelDecision bytes_le.
Proof. intros a b. unfold bytes_le. apply _. Defined.

Lemma bytes_ltb_irrefl a : bytes_ltb a a = false.
Proof.
  induction a as [|x a IH]; [done|]. simpl.
  by rewrite Z.ltb_irrefl, Z.eqb_refl, IH.
Qed.

Lemma bytes_ltb_cons x a y b :
  bytes_ltb (x :: a) (y :: b) = true <->
  byte_to_Z x < byte_to_Z y \/ (x = y /\ bytes_ltb a b = true).
Proof.
  simpl. rewrite orb_true_iff, andb_true_iff, Z.ltb_lt, Z.eqb_eq.
  split; intros [H|[H1 H2]]; auto.
  - right. split; [by apply byte_to_Z_inj|done].
  - right. by subst.
Qed.

Lemma bytes_ltb_trans a b c :
  bytes_ltb a b = true -> bytes_ltb b c = true -> bytes_ltb a c = true.
Proof.
  revert b c. induction a as [|x a IH]; intros [|y b] [|z c]; try done.
  rewrite !bytes_ltb_cons.
  intros [H1|[-> H1]] [H2|[-> H2]]; [left; lia|by left|by left|].
  right. eauto.
Qed.

Lemma bytes_ltb_total a b :
  bytes_ltb a b = false -> bytes_ltb b a = false -> a = b.
Proof.
  revert b. induction a as [|x a IH]; intros [|y b]; try done.
  simpl. rewrite !orb_false_iff, !andb_false_iff, !Z.ltb_ge, !Z.eqb_neq.
  intros [H1 H2] [H3 H4].
  assert (byte_to_Z x = byte_to_Z y) as E by lia.
  destruct H2 as [?|H2]; [lia|]. destruct H4 as [?|H4]; [lia|].
  apply byte_to_Z_inj in E. subst. by rewrite (IH b).
Qed.

#[export] Instance bytes_lt_strict : StrictOrder bytes_lt.
Proof.
  split.
  - intros a H. unfold bytes_lt in H. by rewrite bytes_ltb_irrefl in H.
  - intros a b c. apply bytes_ltb_trans.
Qed.

Lemma bytes_le_alt a b : bytes_le a b <-> bytes_lt a b \/ a = b.
Proof.
  unfold bytes_le, bytes_lt. split.
  - intros H. destruct (bytes_ltb a b) eqn:E; [by left|].
    right. by apply bytes_ltb_total.
  - intros [H| ->]; [|apply bytes_ltb_irrefl].
    destruct (bytes_ltb b a) eqn:E; [|done].
    pose proof (bytes_ltb_trans _ _ _ H E) as C.
    by rewrite bytes_ltb_irrefl in C.
Qed.

Lemma bytes_le_refl a : bytes_le a a.
Proof. apply bytes_ltb_irrefl. Qed.

Lemma bytes_nle_lt a b : ~ bytes_le a b <-> bytes_lt b a.
Proof. unfold bytes_le, bytes_lt. by rewrite not_false_iff_true. Qed.

Lemma bytes_nlt_le a b : ~ bytes_lt a b <-> bytes_le b a.
Proof. unfold bytes_le, bytes_lt. by rewrite not_true_iff_false. Qed.

Lemma bytes_le_lt_trans a b c : bytes_le a b -> bytes_lt b c -> bytes_lt a c.
Proof. rewrite bytes_le_alt. intros [H| ->] ?; [|done]. by etrans. Qed.

Lemma bytes_lt_le_trans a b c : bytes_lt a b -> bytes_le b c -> bytes_lt a c.
Proof. rewrite bytes_le_alt. intros ? [H| <-]; [|done]. by etrans. Qed.

Lemma bytes_lt_le a b : bytes_lt a b -> bytes_le a b.
Proof. rewrite bytes_le_alt. by left. Qed.

Lemma bytes_le_trans a b c : bytes_le a b -> bytes_le b c -> bytes_le a c.
Proof.
  rewrite (bytes_le_alt a b). intros [H| ->] ?; [|done].
  apply bytes_lt_le. by eapply bytes_lt_le_trans.
Qed.

Lemma bytes_le_nil a : bytes_le [] a.
Proof. by destruct a. Qed.

#[export] Hint Resolve bytes_le_refl bytes_le_nil bytes_lt_le : bptree.

(** ** Little-endian unsigned integers *)

Fixpoint le_encode (n : nat) (z : Z) : bytes :=
  match n with
  | O => []
  | S n' => byte_of_Z z :: le_encode n' (z / 256)
  end.

Fixpoint le_decode (b : bytes) : Z :=
  match b with
  | [] => 0
  | x :: b' => byte_to_Z x + 256 * le_decode b'
  end.

Lemma le_encode_length n z : length (le_encode n z) = n.
Proof. revert z. induction n as [|n IH]; intros z; simpl; auto. Qed.

Lemma le_decode_bound b : 0 <= le_decode b < 256 ^ len b.
Proof.
  unfold len. induction b as [|x b IH]; simpl length; simpl le_decode; [done|].
  rewrite Nat2Z.inj_succ, Z.pow_succ_r by lia.
  pose proof (byte_to_Z_bound x). lia.
Qed.

Lemma le_decode_encode n z : 0 <= z < 256 ^ Z.of_nat n -> le_decode (le_encode n z) = z.
Proof.
  revert z. induction n as [|n IH]; intros z Hz; simpl.
  - simpl in Hz. lia.
  - rewrite Nat2Z.inj_succ, Z.pow_succ_r in Hz by lia.
    rewrite byte_to_of_Z, IH by (split; [apply Z.div_pos|apply Z.div_lt_upper_bound]; lia).
    pose proof (Z.div_mod z 256). lia.
Qed.

Lemma le_encode_decode b : le_encode (length b) (le_decode b) = b.
Proof.
  induction b as [|x b IH]; simpl; [done|].
  pose proof (byte_to_Z_bound x).
  rewrite (Z.mul_comm 256), Z.div_add, Z.div_small, Z.add_0_l, IH by lia.
  f_equal. apply byte_to_Z_inj. rewrite byte_to_of_Z, Z.mod_add by lia.
  by apply Z.mod_small.
Qed.

(** ** [zlib.crc32]: the reflected CRC-32 of polynomial 0xEDB88320 *)

Definition crc32_poly : Z := 0xEDB88320.

Definition crc32_shift (c : Z) : Z :=
  if Z.testbit c 0 then Z.lxor (Z.shiftr c 1) crc32_poly else Z.shiftr c 1.

Definition crc32_byte (c : Z) (b : byte) : Z :=
  Nat.iter 8 crc32_shift (Z.lxor c (byte_to_Z b)).

Definition crc32 (b : bytes) : Z :=
  Z.lxor (foldl crc32_byte 0xFFFFFFFF b) 0xFFFFFFFF.

Lemma in_width_testbit w z :
  0 <= w -> 0 <= z < 2 ^ w <-> 0 <= z /\ forall i, w <= i -> Z.testbit z i = false.
Proof.
  intros Hw. split.
  - intros Hz. split; [lia|]. intros i Hi.
    destruct (decide (z = 0)) as [->|]; [apply Z.bits_0|].
    apply Z.bits_above_log2; [lia|].
    apply Z.log2_lt_pow2; [lia|].
    apply Z.lt_le_trans with (2 ^ w); [lia|]. apply Z.pow_le_mono_r; lia.
  - intros [Hz Hb]. split; [done|].
    destruct (decide (z = 0)) as [->|]; [by apply Z.pow_pos_nonneg|].
    apply Z.log2_lt_pow2; [lia|].
    destruct (decide (Z.log2 z < w)); [done|].
    pose proof (Z.bit_log2 z ltac:(lia)) as Hl. rewrite Hb in Hl; [done|lia].
Qed.

Lemma lxor_width w a b :
  0 <= w -> 0 <= a < 2 ^ w -> 0 <= b < 2 ^ w -> 0 <= Z.lxor a b < 2 ^ w.
Proof.
  intros Hw Ha Hb. apply in_width_testbit in Ha as [? Ha]; [|done].
  apply in_width_testbit in Hb as [? Hb]; [|done].
  apply in_width_testbit; [done|]. split.
  - apply Z.lxor_nonneg. lia.
  - intros i Hi. by rewrite Z.lxor_spec, Ha, Hb by done.
Qed.

Lemma crc32_shift_width c : 0 <= c < 2 ^ 32 -> 0 <= crc32_shift c < 2 ^ 32.
Proof.
  intros Hc. unfold crc32_shift.
  assert (0 <= Z.shiftr c 1 < 2 ^ 32).
  { rewrite Z.shiftr_div_pow2 by done. split; [by apply Z.div_pos; lia|].
    apply Z.div_lt_upper_bound; lia. }
  destruct (Z.testbit c 0); [|done]. by apply lxor_width.
Qed.

Lemma crc32_width b : 0 <= crc32 b < 2 ^ 32.
Proof.
  unfold crc32. apply lxor_width; [done| |done].
  assert (forall c, 0 <= c < 2 ^ 32 -> 0 <= foldl crc32_byte c b < 2 ^ 32) as H; [|by apply H].
  induction b as [|x b IH]; intros c Hc; simpl; [done|]. apply IH.
  unfold crc32_byte. assert (0 <= Z.lxor c (byte_to_Z x) < 2 ^ 32) as Hx.
  { apply lxor_width; [done|done|]. pose proof (byte_to_Z_bound x). lia. }
  revert Hx. generalize (Z.lxor c (byte_to_Z x)). intros d Hd.
  simpl. by do 8 apply crc32_shift_width.
Qed.

(** ** [struct.Struct] *)

(** A field of a little-endian, unpadded format: [FUint n] is the unsigned
    integer of [n] bytes ([B], [I] and [Q] for 1, 4 and 8), [FBytes n] the
    byte string [ns]. *)
Inductive Field :=
  | FUint (n : nat)
  | FBytes (n : nat).

Inductive Value :=
  | VInt (z : Z)
  | VBytes (b : bytes).

Abbreviation Struct := (list Field).

Definition field_size (f : Field) : nat :=
  match f with FUint n => n | FBytes n => n end.

Definition struct_size (st : Struct) : nat := sum_list_with field_size st.

(** Packing an integer out of the field's range raises [struct.error]; a byte
    string is truncated or zero-padded to the field's size. *)
Definition pack_field (f : Field) (v : Value) : Result bytes :=
  match f, v with
  | FUint n, VInt z =>
      if (0 <=? z) && (z <? 256 ^ Z.of_nat n) then Ok (le_encode n z)
      else Raise StructError
  | FBytes n, VBytes b => Ok (take n b ++ replicate (n - length b) Byte.x00)
  | _, _ => Raise StructError
  end.

Fixpoint struct_pack (st : Struct) (vs : list Value) : Result bytes :=
  match st, vs with
  | [], [] => Ok []
  | f :: st', v :: vs' =>
      b ← pack_field f v;
      r ← struct_pack st' vs';
      mret (b ++ r)
  | _, _ => Raise StructError
  end.

Definition unpack_field (f : Field) (b : bytes) : Value :=
  match f with
  | FUint _ => VInt (le_decode b)
  | FBytes _ => VBytes b
  end.

Fixpoint unpack_fields (st : Struct) (data : bytes) : list Value :=
  match st with
  | [] => []
  | f :: st' =>
      unpack_field f (take (field_size f) data)
        :: unpack_fields st' (drop (field_size f) data)
  end.

(** [st.unpack_from(data, offset)] for a non-negative offset: the buffer must
    hold the whole struct. *)
Definition struct_unpack_from (st : Struct) (data : bytes) (offset : nat) : Result (list Value) :=
  if (offset + struct_size st <=? length data)%nat
  then Ok (unpack_fields st (drop offset data))
  else Raise StructError.

(** [st.unpack(data)]: the buffer must have exactly the size of the struct. *)
Definition struct_unpack (st : Struct) (data : bytes) : Result (list Value) :=
  if (length data =? struct_size st)%nat
  then Ok (unpack_fields st data)
  else Raise StructError.

(** Destructuring the tuple of values a struct yields. *)
Definition value_int (vs : list Value) (i : nat) : Result Z :=
  match vs !! i with Some (VInt z) => Ok z | _ => Raise TypeError end.

(** A value a field can carry through a round trip. *)
Definition field_ok (f : Field) (v : Value) : Prop :=
  match f, v with
  | FUint n, VInt z => 0 <= z < 256 ^ Z.of_nat n
  | FBytes n, VBytes b => length b = n
  | _, _ => False
  end.

Lemma pack_field_ok f v :
  field_ok f v ->
  exists b, pack_field f v = Ok b /\ length b = field_size f /\ unpack_field f b = v.
Proof.
  destruct f as [n|n], v as [z|b]; simpl; try done.
  - intros Hz. destruct (Z.leb_spec 0 z); [|lia].
    destruct (Z.ltb_spec z (256 ^ Z.of_nat n)); [|lia]. simpl.
    eexists. split; [done|]. by rewrite le_encode_length, le_decode_encode.
  - intros <-. eexists. split; [done|].
    rewrite firstn_all, Nat.sub_diag, app_nil_r. done.
Qed.

Lemma struct_pack_ok st vs :
  Forall2 field_ok st vs ->
  exists b, struct_pack st vs = Ok b /\ length b = struct_size st /\
            forall suffix, unpack_fields st (b ++ suffix) = vs.
Proof.
  induction 1 as [|f v st vs Hf _ (b & Hb & Hl & Hu)]; simpl.
  { eexists. by repeat split. }
  destruct (pack_field_ok f v Hf) as (b0 & -> & Hl0 & Hu0). simpl.
  rewrite Hb. simpl. eexists. split; [done|]. split.
  - rewrite length_app, Hl0, Hl. done.
  - intros suffix. rewrite <-app_assoc, <-Hl0, take_app_length, drop_app_length.
    by rewrite Hu0, Hu.
Qed.

Lemma struct_pack_length st vs b : struct_pack st vs = Ok b -> length b = struct_size st.
Proof.
  revert vs b. induction st as [|f st IH]; intros [|v vs] b; simpl; try done.
  - by intros [= <-].
  - destruct (pack_field f v) as [b0|] eqn:E0; [simpl|done].
    destruct (struct_pack st vs) as [r|] eqn:E1; [simpl|done].
    intros [= <-]. rewrite length_app, (IH _ _ E1). unfold struct_size. simpl. f_equal.
    destruct f as [n|n], v as [z|bs]; simpl in E0; try done.
    + destruct (_ && _); [|done]. injection E0 as <-. apply le_encode_length.
    + injection E0 as <-. simpl. rewrite length_app, length_take, length_replicate. lia.
Qed.

(** Test vectors: the CRC-32 check value and a little-endian layout. *)
Example crc32_check :
  crc32 (Byte.x31 :: Byte.x32 :: Byte.x33 :: Byte.x34 :: Byte.x35 :: Byte.x36
           :: Byte.x37 :: Byte.x38 :: Byte.x39 :: []) = 0xCBF43926.
Proof. vm_compute. reflexivity. Qed.

Example le_layout : le_encode 4 0x01020304 = [Byte.x04; Byte.x03; Byte.x02; Byte.x01].
Proof. reflexivity. Qed.

#[global] Arguments le_encode : simpl never.
#[global] Arguments le_decode : simpl never.
#[global] Arguments crc32 : simpl never.
