(* ===== verification/Bisect.v ===== *)
(** * Binary search over sorted keys

    What [bisect_left] and [bisect_right] of the Python library return on a
    sorted list: the partition point of a monotone predicate.  The page layouts
    keep their keys in the strict order [keys_lt]. *)

From S2P Require Import Prelude Bytes.

(** ** Partition points *)

Section partition.
Context {A : Type} (p : A -> bool).
Implicit Types l : list A.

Definition monotone l : Prop :=
  forall j k y z, (j <= k)%nat -> l !! j = Some y -> l !! k = Some z -> p y = true -> p z = true.

(** Everything before [i] fails [p] and everything from [i] on satisfies it. *)
Definition partition_point l (i : nat) : Prop :=
  (i <= length l)%nat /\ forall j y, l !! j = Some y -> p y = true <-> (i <= j)%nat.

Lemma partition_point_unique l i j : partition_point l i -> partition_point l j -> i = j.
Proof.
  enough (forall i j, partition_point l i -> partition_point l j -> (j <= i)%nat) as H.
  { intros Hi Hj. apply Nat.le_antisymm; eauto. }
  clear i j. intros i j [Hi Pi] [Hj Pj]. destruct (decide (j <= i)%nat) as [|Hlt]; [done|].
  destruct (lookup_lt_is_Some_2 l i) as [y Hy]; [lia|].
  apply (Pj i y Hy), (Pi i y Hy). lia.
Qed.

Lemma partition_point_app l1 l2 :
  Forall (fun x => p x = false) l1 -> Forall (fun x => p x = true) l2 ->
  partition_point (l1 ++ l2) (length l1).
Proof.
  intros H1 H2. split; [rewrite length_app; lia|]. intros j y Hj.
  destruct (decide (j < length l1)%nat).
  - rewrite lookup_app_l in Hj by lia. eapply Forall_lookup_1 in H1; [|done].
    rewrite H1. split; [done|lia].
  - rewrite lookup_app_r in Hj by lia. eapply Forall_lookup_1 in H2; [|done].
    rewrite H2. split; [lia|done].
Qed.

Lemma partition_point_take l i : partition_point l i -> Forall (fun x => p x = false) (take i l).
Proof.
  intros [_ H]. apply Forall_lookup. intros j y Hj. apply lookup_take_Some in Hj as [Hj Hlt].
  apply H in Hj. destruct (p y); [|done]. apply proj1 in Hj. specialize (Hj eq_refl). lia.
Qed.

Lemma partition_point_drop l i : partition_point l i -> Forall (fun x => p x = true) (drop i l).
Proof.
  intros [_ H]. apply Forall_lookup. intros j y Hj. rewrite lookup_drop in Hj.
  apply H in Hj. apply Hj. lia.
Qed.
End partition.

(** ** The two searches *)

Section bisect_spec.
Context {A : Type} (ltb : A -> A -> bool).

Lemma bisect_left_loop_spec x l : monotone (fun y => negb (ltb y x)) l ->
  forall fuel lo hi, (hi - lo <= fuel)%nat -> (lo <= hi <= length l)%nat ->
  (forall j y, l !! j = Some y -> (j < lo)%nat -> ltb y x = true) ->
  (forall j y, l !! j = Some y -> (hi <= j)%nat -> ltb y x = false) ->
  partition_point (fun y => negb (ltb y x)) l (bisect_left_loop ltb fuel l x lo hi).
Proof.
  intros Hmono. induction fuel as [|fuel IH]; intros lo hi Hf Hb Hlo Hhi; cbn [bisect_left_loop].
  { assert (lo = hi) as -> by lia. split; [lia|]. intros j y Hj. rewrite negb_true_iff.
    destruct (decide (j < hi)%nat); [|split; [lia|eauto with lia]].
    rewrite (Hlo j y) by done. split; [done|lia]. }
  destruct (Nat.ltb_spec lo hi) as [Hlt|Hge].
  2:{ assert (lo = hi) as -> by lia. split; [lia|]. intros j y Hj. rewrite negb_true_iff.
      destruct (decide (j < hi)%nat); [|split; [lia|eauto with lia]].
      rewrite (Hlo j y) by done. split; [done|lia]. }
  pose proof (Nat.div_mod (lo + hi) 2). pose proof (Nat.mod_upper_bound (lo + hi) 2).
  set (mid := ((lo + hi) / 2)%nat) in *.
  destruct (lookup_lt_is_Some_2 l mid) as [y Hy]; [lia|]. rewrite Hy.
  destruct (ltb y x) eqn:E; apply IH; try lia; try done.
  - intros j z Hj Hlt'. destruct (ltb z x) eqn:Ez; [done|].
    assert (negb (ltb y x) = true); [|by rewrite E in *].
    apply (Hmono j mid z y); [lia|done..|]. by rewrite Ez.
  - intros j z Hj Hle. apply negb_true_iff. apply (Hmono mid j y z); [lia|done..|]. by rewrite E.
Qed.

Lemma bisect_right_loop_spec x l : monotone (ltb x) l ->
  forall fuel lo hi, (hi - lo <= fuel)%nat -> (lo <= hi <= length l)%nat ->
  (forall j y, l !! j = Some y -> (j < lo)%nat -> ltb x y = false) ->
  (forall j y, l !! j = Some y -> (hi <= j)%nat -> ltb x y = true) ->
  partition_point (ltb x) l (bisect_right_loop ltb fuel l x lo hi).
Proof.
  intros Hmono. induction fuel as [|fuel IH]; intros lo hi Hf Hb Hlo Hhi; cbn [bisect_right_loop].
  { assert (lo = hi) as -> by lia. split; [lia|]. intros j y Hj.
    destruct (decide (j < hi)%nat); [|split; [lia|eauto with lia]].
    rewrite (Hlo j y) by done. split; [done|lia]. }
  destruct (Nat.ltb_spec lo hi) as [Hlt|Hge].
  2:{ assert (lo = hi) as -> by lia. split; [lia|]. intros j y Hj.
      destruct (decide (j < hi)%nat); [|split; [lia|eauto with lia]].
      rewrite (Hlo j y) by done. split; [done|lia]. }
  pose proof (Nat.div_mod (lo + hi) 2). pose proof (Nat.mod_upper_bound (lo + hi) 2).
  set (mid := ((lo + hi) / 2)%nat) in *.
  destruct (lookup_lt_is_Some_2 l mid) as [y Hy]; [lia|]. rewrite Hy.
  destruct (ltb x y) eqn:E; apply IH; try lia; try done.
  - intros j z Hj Hle. apply (Hmono mid j y z); [lia|done..].
  - intros j z Hj Hlt'. destruct (ltb x z) eqn:Ez; [|done].
    assert (ltb x y = true); [|by rewrite E in *]. apply (Hmono j mid z y); [lia|done..].
Qed.

Lemma bisect_left_spec x l : monotone (fun y => negb (ltb y x)) l ->
  partition_point (fun y => negb (ltb y x)) l (bisect_left ltb l x).
Proof.
  intros H. apply bisect_left_loop_spec; [done|lia|lia|intros; lia|].
  intros j y Hj Hle. apply lookup_lt_Some in Hj. lia.
Qed.

Lemma bisect_right_spec x l : monotone (ltb x) l ->
  partition_point (ltb x) l (bisect_right ltb l x).
Proof.
  intros H. apply bisect_right_loop_spec; [done|lia|lia|intros; lia|].
  intros j y Hj Hle. apply lookup_lt_Some in Hj. lia.
Qed.

(** Both searches end at the partition point, wherever it is. *)
Lemma bisect_right_app x l1 l2 :
  Forall (fun y => ltb x y = false) l1 -> Forall (fun y => ltb x y = true) l2 ->
  bisect_right ltb (l1 ++ l2) x = length l1.
Proof.
  intros H1 H2. eapply partition_point_unique; [|by apply partition_point_app].
  apply bisect_right_spec. intros j k y z Hjk Hy Hz Hp.
  destruct (decide (j < length l1)%nat).
  - rewrite lookup_app_l in Hy by lia. eapply Forall_lookup_1 in H1; [|done]. congruence.
  - rewrite lookup_app_r in Hz by lia. by eapply Forall_lookup_1 in H2.
Qed.

Lemma bisect_left_app x l1 l2 :
  Forall (fun y => ltb y x = true) l1 -> Forall (fun y => ltb y x = false) l2 ->
  bisect_left ltb (l1 ++ l2) x = length l1.
Proof.
  intros H1 H2. eapply partition_point_unique; [|apply partition_point_app].
  - apply bisect_left_spec. intros j k y z Hjk Hy Hz Hp.
    destruct (decide (j < length l1)%nat).
    + rewrite lookup_app_l in Hy by lia. eapply Forall_lookup_1 in H1; [|done].
      by rewrite H1 in Hp.
    + rewrite lookup_app_r in Hz by lia. eapply Forall_lookup_1 in H2; [|done]. by rewrite H2.
  - eapply Forall_impl; [done|]. by intros y ->.
  - eapply Forall_impl; [done|]. by intros y ->.
Qed.
End bisect_spec.

(** ** Strictly sorted keys *)

Definition keys_lt : list bytes -> Prop := StronglySorted bytes_lt.

Lemma keys_lt_cons k ks : keys_lt (k :: ks) <-> Forall (bytes_lt k) ks /\ keys_lt ks.
Proof.
  split; [intros H; apply StronglySorted_inv in H; tauto|intros [? ?]; by constructor].
Qed.

Lemma keys_lt_app l1 l2 :
  keys_lt (l1 ++ l2) <->
  keys_lt l1 /\ keys_lt l2 /\ Forall (fun x => Forall (bytes_lt x) l2) l1.
Proof.
  induction l1 as [|k l1 IH]; simpl.
  - split; [|tauto]. intros H. repeat split; [constructor|done|constructor].
  - rewrite !keys_lt_cons, IH, Forall_app, Forall_cons. tauto.
Qed.

Lemma keys_lt_take n l : keys_lt l -> keys_lt (take n l).
Proof. rewrite <-(take_drop n l) at 1. rewrite keys_lt_app. tauto. Qed.

Lemma keys_lt_drop n l : keys_lt l -> keys_lt (drop n l).
Proof. rewrite <-(take_drop n l) at 1. rewrite keys_lt_app. tauto. Qed.

Lemma keys_lt_lookup l i j a b :
  keys_lt l -> l !! i = Some a -> l !! j = Some b -> (i < j)%nat -> bytes_lt a b.
Proof.
  intros Hs Ha Hb Hij. rewrite <-(take_drop_middle l i a Ha) in Hs.
  apply keys_lt_app in Hs as (_ & Hs & _). apply keys_lt_cons in Hs as [Hs _].
  eapply Forall_lookup_1; [exact Hs|]. rewrite lookup_drop.
  instantiate (1 := (j - S i)%nat). by replace (S i + (j - S i))%nat with j by lia.
Qed.

(** The position [bisect_left] finds splits the keys into the smaller ones and
    the others; [bisect_right] into the ones at most the key and the greater. *)
Lemma bisect_left_keys ks key : keys_lt ks ->
  Forall (fun k => bytes_lt k key) (take (bisect_left bytes_ltb ks key) ks) /\
  Forall (fun k => bytes_le key k) (drop (bisect_left bytes_ltb ks key) ks).
Proof.
  intros Hs.
  assert (partition_point (fun y => negb (bytes_ltb y key)) ks (bisect_left bytes_ltb ks key)) as P.
  { apply bisect_left_spec. intros i j y z Hij Hy Hz. rewrite !negb_true_iff. intros Hle.
    destruct (decide (i = j)) as [->|]; [by simplify_eq|].
    assert (bytes_lt y z) by (eapply (keys_lt_lookup ks i j); [done..|lia]).
    apply bytes_lt_le. by apply (bytes_le_lt_trans key y z). }
  split.
  - eapply Forall_impl; [by apply partition_point_take|]. intros k. by rewrite negb_false_iff.
  - eapply Forall_impl; [by apply partition_point_drop|]. intros k. by rewrite negb_true_iff.
Qed.

Lemma bisect_right_keys ks key : keys_lt ks ->
  Forall (fun k => bytes_le k key) (take (bisect_right bytes_ltb ks key) ks) /\
  Forall (fun k => bytes_lt key k) (drop (bisect_right bytes_ltb ks key) ks).
Proof.
  intros Hs.
  assert (partition_point (bytes_ltb key) ks (bisect_right bytes_ltb ks key)) as P.
  { apply bisect_right_spec. intros i j y z Hij Hy Hz Hlt.
    destruct (decide (i = j)) as [->|]; [by simplify_eq|].
    apply (bytes_ltb_trans key y z); [done|]. eapply (keys_lt_lookup ks i j); [done..|lia]. }
  split; [by apply partition_point_take|by apply partition_point_drop].
Qed.

Lemma bisect_right_le (A : Type) (ltb : A -> A -> bool) x l :
  monotone (ltb x) l -> (bisect_right ltb l x <= length l)%nat.
Proof. intros H. by apply (bisect_right_spec ltb). Qed.
