(* ===== verification/Float64.v ===== *)
(** * IEEE double precision, as far as the program uses it

    [HALF_FULL_THRESHOLD * page_size_bytes] and [dirty_count / capacity] are
    computed in double precision.  A non-negative double is a mantissa and an
    exponent; a product or a quotient is rounded to 53 bits, ties to even.
    The sums and differences of the benchmark script, which may be negative,
    are rounded the same way.
    Magnitudes stay far from the exponent limits, so overflow and subnormals
    do not arise. *)

From S2P Require Import Prelude.

Record f64 := F64 { f_mant : Z; f_exp : Z }.

(** The exact value of an integer, and the exact comparison Python makes
    between an integer and a float or between two floats. *)
Definition f64_of_int (z : Z) : f64 := F64 z 0.

Definition f64_ltb (a b : f64) : bool :=
  let e := Z.min (f_exp a) (f_exp b) in
  f_mant a * 2 ^ (f_exp a - e) <? f_mant b * 2 ^ (f_exp b - e).

(** Nearest integer to [n / d], ties to even. *)
Definition round_half_even (n d : Z) : Z :=
  let q := n / d in
  let r := n mod d in
  if 2 * r <? d then q
  else if d <? 2 * r then q + 1
  else if Z.even q then q else q + 1.

(** [n / d] scaled by [2 ^ -s], as a numerator and a denominator. *)
Definition scaled (n d s : Z) : Z * Z :=
  if 0 <=? s then (n, d * 2 ^ s) else (n * 2 ^ (- s), d).

(** The double nearest to [n / d * 2 ^ e]: the scale is chosen so that the
    quotient has 53 bits. *)
Definition f64_round (n d e : Z) : f64 :=
  if n <=? 0 then F64 0 0 else
  let s0 := Z.log2 n - Z.log2 d - 52 in
  let '(n0, d0) := scaled n d s0 in
  let s := if n0 / d0 <? 2 ^ 52 then s0 - 1 else s0 in
  let '(n1, d1) := scaled n d s in
  F64 (round_half_even n1 d1) (e + s).

Definition f64_mul (a b : f64) : f64 :=
  f64_round (f_mant a * f_mant b) 1 (f_exp a + f_exp b).

(** [a / b] for two integers. *)
Definition f64_div_int (a b : Z) : Result f64 :=
  if b =? 0 then Raise ZeroDivisionError else Ok (f64_round a b 0).

(** [a / b] for two doubles, the divisor positive. *)
Definition f64_div (a b : f64) : Result f64 :=
  if f_mant b =? 0 then Raise ZeroDivisionError
  else Ok (f64_round (f_mant a) (f_mant b) (f_exp a - f_exp b)).

(** Sums and differences may be negative; rounding is symmetric. *)
Definition f64_opp (a : f64) : f64 := F64 (- f_mant a) (f_exp a).

Definition f64_add (a b : f64) : f64 :=
  let e := Z.min (f_exp a) (f_exp b) in
  let n := f_mant a * 2 ^ (f_exp a - e) + f_mant b * 2 ^ (f_exp b - e) in
  if n <? 0 then f64_opp (f64_round (- n) 1 e) else f64_round n 1 e.

Definition f64_sub (a b : f64) : f64 := f64_add a (f64_opp b).
Definition f64_abs (a : f64) : f64 := F64 (Z.abs (f_mant a)) (f_exp a).

(** [int(a)]: towards zero. *)
Definition f64_trunc (a : f64) : Z :=
  if 0 <=? f_exp a then f_mant a * 2 ^ f_exp a else Z.quot (f_mant a) (2 ^ (- f_exp a)).

(** [sum(l)] of doubles: since Python 3.12 with Neumaier's compensation. *)
Fixpoint sum_compensated (hi lo : f64) (l : list f64) : f64 :=
  match l with
  | [] => if f_mant lo =? 0 then hi else f64_add hi lo
  | x :: l =>
      let t := f64_add hi x in
      let error := if f64_ltb (f64_abs hi) (f64_abs x) then f64_add (f64_sub x t) hi
                   else f64_add (f64_sub hi t) x in
      sum_compensated t (f64_add lo error) l
  end.
Definition f64_sum (l : list f64) : f64 := sum_compensated (F64 0 0) (F64 0 0) l.

(** The double nearest to 0.4. *)
Definition f64_two_fifths : f64 := F64 7205759403792794 (-54).

Example two_fifths_nearest : f64_round 2 5 0 = f64_two_fifths.
Proof. vm_compute. reflexivity. Qed.

(** 0.1 + 0.2 and 0.5 - 0.2 as Python computes them, and a compensated sum. *)
Example add_rounds : f64_ltb (f64_round 3 10 0) (f64_add (f64_round 1 10 0) (f64_round 2 10 0)) = true.
Proof. vm_compute. reflexivity. Qed.

Example sub_exact : let x := f64_sub (f64_round 5 10 0) (f64_round 2 10 0) in
  f64_ltb x (f64_round 3 10 0) = false /\ f64_ltb (f64_round 3 10 0) x = false.
Proof. vm_compute. split; reflexivity. Qed.

Example sum_of_tenths : let x := f64_sum (replicate 10 (f64_round 1 10 0)) in
  f64_ltb x (f64_of_int 1) = false /\ f64_ltb (f64_of_int 1) x = false.
Proof. vm_compute. split; reflexivity. Qed.

Lemma round_half_even_bound n d :
  0 < d -> 2 * (d * round_half_even n d - n) <= d /\ 2 * (n - d * round_half_even n d) <= d.
Proof.
  intros Hd. unfold round_half_even.
  pose proof (Z.div_mod n d). pose proof (Z.mod_pos_bound n d Hd).
  destruct (Z.ltb_spec (2 * (n mod d)) d); [nia|].
  destruct (Z.ltb_spec d (2 * (n mod d))); [nia|].
  destruct (Z.even _); nia.
Qed.

(** Rounding to a multiple of [d] that is closer than half of [d] gives it. *)
Lemma round_half_even_near n d q :
  0 < d -> 2 * Z.abs (n - q * d) < d -> round_half_even n d = q.
Proof.
  intros Hd Hn. pose proof (round_half_even_bound n d Hd).
  set (r := round_half_even n d) in *.
  assert (-1 < r - q < 1); [|lia]. split; nia.
Qed.

(** A product of 53 bits or more is rounded to a multiple of a power of two
    that is at most the product divided by [2 ^ 52]. *)
Lemma f64_round_int n e :
  2 ^ 52 <= n ->
  exists s, 0 <= s /\ 2 ^ s * 2 ^ 52 <= n < 2 ^ s * 2 ^ 53 /\
    f64_round n 1 e = F64 (round_half_even n (2 ^ s)) (e + s).
Proof.
  intros Hn. unfold f64_round. destruct (Z.leb_spec n 0); [lia|].
  change (Z.log2 1) with 0. rewrite Z.sub_0_r.
  assert (52 <= Z.log2 n) as Hl by (by apply Z.log2_le_pow2; lia).
  pose proof (Z.log2_spec n ltac:(lia)) as [Hlo Hhi].
  exists (Z.log2 n - 52). set (s := Z.log2 n - 52) in *.
  unfold scaled. destruct (Z.leb_spec 0 s); [|lia].
  replace (Z.log2 n) with (s + 52) in Hlo, Hhi by lia.
  replace (Z.succ (s + 52)) with (s + 53) in Hhi by lia.
  rewrite !Z.pow_add_r in * by lia. rewrite !Z.mul_1_l.
  pose proof (Z.pow_pos_nonneg 2 s).
  assert (2 ^ 52 <= n / 2 ^ s) by (apply Z.div_le_lower_bound; lia).
  destruct (Z.ltb_spec (n / 2 ^ s) (2 ^ 52)); [lia|].
  destruct (Z.leb_spec 0 s); [|lia]. by repeat split.
Qed.

(** ** The rounding of the half-full threshold is harmless

    For every page size below [2 ^ 50] the comparison with the rounded product
    [0.4 * page_size] is the exact comparison with two fifths of it. *)
Lemma half_full_exact size ps :
  0 <= size -> 0 < ps < 2 ^ 50 ->
  f64_ltb (f64_of_int size) (f64_mul f64_two_fifths (f64_of_int ps)) = (5 * size <? 2 * ps).
Proof.
  intros Hsize Hps. unfold f64_mul, f64_of_int, f64_two_fifths. simpl f_mant. simpl f_exp.
  set (m := 7205759403792794). assert (5 * m = 2 ^ 55 + 2) as Hm by done.
  destruct (f64_round_int (m * ps) (-54)) as (s & Hs & Hr & Hround).
  { assert (2 ^ 52 <= m) by done. nia. }
  change (-54 + 0) with (-54). rewrite Hround. unfold f64_ltb. simpl f_mant. simpl f_exp.
  assert (0 < 2 ^ s) as Hp by (apply Z.pow_pos_nonneg; lia).
  assert (s <= 54) as Hs54.
  { apply Z.le_ngt. intros Hgt. assert (2 ^ 55 <= 2 ^ s) by (apply Z.pow_le_mono_r; lia).
    assert (m < 2 ^ 53) by done. change (2 ^ 55) with 36028797018963968 in *.
    change (2 ^ 52) with 4503599627370496 in *. change (2 ^ 53) with 9007199254740992 in *.
    change (2 ^ 50) with 1125899906842624 in *. nia. }
  rewrite Z.min_r by lia.
  replace (0 - (-54 + s)) with (54 - s) by lia. rewrite Z.sub_diag, Z.mul_1_r.
  set (r := round_half_even (m * ps) (2 ^ s)) in *.
  assert (2 ^ (54 - s) * 2 ^ s = 2 ^ 54) as Hpow by (rewrite <-Z.pow_add_r; f_equal; lia).
  pose proof (round_half_even_bound (m * ps) (2 ^ s) Hp) as [Hb1 Hb2]. fold r in Hb1, Hb2.
  change (2 ^ 55) with 36028797018963968 in *. change (2 ^ 54) with 18014398509481984 in *.
  change (2 ^ 52) with 4503599627370496 in *. change (2 ^ 53) with 9007199254740992 in *.
  change (2 ^ 50) with 1125899906842624 in *.
  apply Bool.eq_iff_eq_true. rewrite !Z.ltb_lt.
  destruct (Z.lt_trichotomy (5 * size) (2 * ps)) as [Hlt|[Heq|Hgt]].
  - split; [done|]. intros _. nia.
  - split; [|lia]. intros Hc. exfalso.
    enough (r = size * 2 ^ (54 - s)) by lia.
    apply round_half_even_near; [done|]. rewrite <-Z.mul_assoc, Hpow.
    replace (m * ps - size * 18014398509481984) with size by nia. nia.
  - split; [|lia]. intros Hc. exfalso. nia.
Qed.
