(* ===== verification/Entities.v ===== *)
(** * Domain entities ([entities.py])

    WAL records and pages, as immutable values; the objects that the buffer
    pool shares by reference are placed in an explicit heap by the file
    [Cache]. *)

From S2P Require Import Prelude Bytes.

Inductive WALRecord :=
  | WALPutRecord (lsn : Z) (key value : bytes)
  | WALDeleteRecord (lsn : Z) (key : bytes)
  | WALCheckpointRecord (lsn root_page_id freelist_head next_page_id : Z).

Definition record_lsn (r : WALRecord) : Z :=
  match r with
  | WALPutRecord lsn _ _ => lsn
  | WALDeleteRecord lsn _ => lsn
  | WALCheckpointRecord lsn _ _ _ => lsn
  end.

Record MetaPage := {
  page_size_bytes : Z;
  root_page_id : Z;
  next_page_id : Z;
  freelist_head_page_id : Z;
  last_checkpoint_lsn : Z;
}.

Record InternalSlot := { islot_key : bytes; child_page_id : Z }.

Record InternalPage := {
  internal_lsn : Z;
  leftmost_child_page_id : Z;
  internal_slots : list InternalSlot;
}.

Record LeafSlot := { lslot_key : bytes; lslot_value : bytes }.

Record LeafPage := {
  leaf_lsn : Z;
  right_sibling_page_id : Z;
  leaf_slots : list LeafSlot;
}.

Record FreelistPage := {
  freelist_lsn : Z;
  next_freelist_page_id : Z;
  freed_page_ids : list Z;
}.

(** The union [InternalPage | LeafPage | FreelistPage]. *)
Inductive Page :=
  | PInternal (p : InternalPage)
  | PLeaf (p : LeafPage)
  | PFreelist (p : FreelistPage).

#[export] Instance WALRecord_eq_dec : EqDecision WALRecord.
Proof. solve_decision. Defined.
#[export] Instance MetaPage_eq_dec : EqDecision MetaPage.
Proof. solve_decision. Defined.
#[export] Instance InternalSlot_eq_dec : EqDecision InternalSlot.
Proof. solve_decision. Defined.
#[export] Instance LeafSlot_eq_dec : EqDecision LeafSlot.
Proof. solve_decision. Defined.
#[export] Instance InternalPage_eq_dec : EqDecision InternalPage.
Proof. solve_decision. Defined.
#[export] Instance LeafPage_eq_dec : EqDecision LeafPage.
Proof. solve_decision. Defined.
#[export] Instance FreelistPage_eq_dec : EqDecision FreelistPage.
Proof. solve_decision. Defined.
#[export] Instance Page_eq_dec : EqDecision Page.
Proof. solve_decision. Defined.

(** Field updates. *)
Definition set_internal_slots (slots : list InternalSlot) (p : InternalPage) : InternalPage :=
  {| internal_lsn := internal_lsn p; leftmost_child_page_id := leftmost_child_page_id p;
     internal_slots := slots |}.
Definition set_leftmost (c : Z) (p : InternalPage) : InternalPage :=
  {| internal_lsn := internal_lsn p; leftmost_child_page_id := c;
     internal_slots := internal_slots p |}.
Definition set_leaf_slots (slots : list LeafSlot) (p : LeafPage) : LeafPage :=
  {| leaf_lsn := leaf_lsn p; right_sibling_page_id := right_sibling_page_id p;
     leaf_slots := slots |}.
Definition set_right_sibling (r : Z) (p : LeafPage) : LeafPage :=
  {| leaf_lsn := leaf_lsn p; right_sibling_page_id := r; leaf_slots := leaf_slots p |}.

(** [page.last_modified_lsn] and its assignment. *)
Definition page_lsn (p : Page) : Z :=
  match p with
  | PInternal p => internal_lsn p
  | PLeaf p => leaf_lsn p
  | PFreelist p => freelist_lsn p
  end.

Definition set_page_lsn (lsn : Z) (p : Page) : Page :=
  match p with
  | PInternal p => PInternal {| internal_lsn := lsn;
                                leftmost_child_page_id := leftmost_child_page_id p;
                                internal_slots := internal_slots p |}
  | PLeaf p => PLeaf {| leaf_lsn := lsn; right_sibling_page_id := right_sibling_page_id p;
                        leaf_slots := leaf_slots p |}
  | PFreelist p => PFreelist {| freelist_lsn := lsn;
                                next_freelist_page_id := next_freelist_page_id p;
                                freed_page_ids := freed_page_ids p |}
  end.

(** The keys of a leaf or an internal page, in slot order. *)
Definition page_keys (p : Page) : list bytes :=
  match p with
  | PInternal p => islot_key <$> internal_slots p
  | PLeaf p => lslot_key <$> leaf_slots p
  | PFreelist _ => []
  end.
