(* ===== verification/Codec.v ===== *)
(** * The wire format ([codec.py])

    Encoders and decoders of WAL records, the meta page and the slotted pages,
    with the buffer reader and writer they are written with, and the size
    functions the tree decides splits and merges by. *)

From S2P Require Import Prelude Bytes Entities.
From Stdlib Require Import Strings.Byte.

Definition UINT32_FIELD : Struct := [FUint 4].
Definition UINT64_FIELD : Struct := [FUint 8].
Definition LENGTH_FIELD : Struct := UINT32_FIELD.
Definition CRC32_FIELD : Struct := UINT32_FIELD.
Definition PAGE_ID_FIELD : Struct := UINT64_FIELD.

Definition WAL_RECORD_HEADER : Struct := [FUint 8; FUint 1].
Definition META_PAGE_NO_CRC : Struct :=
  [FBytes 8; FUint 4; FUint 4; FUint 8; FUint 8; FUint 8; FUint 8].
Definition PAGE_HEADER : Struct :=
  [FUint 1; FBytes 3; FUint 4; FUint 4; FUint 4; FUint 8; FUint 8].
Definition SLOT_ENTRY : Struct := [FUint 4; FUint 4].

Definition sizeof (st : Struct) : Z := Z.of_nat (struct_size st).

(** The ASCII bytes of BPTREEDB. *)
Definition DATA_FILE_MAGIC_PREFIX : bytes := [x42; x50; x54; x52; x45; x45; x44; x42].
Definition DATA_FILE_VERSION : Z := 1.
Definition MIN_PAGE_SIZE : Z := sizeof META_PAGE_NO_CRC + sizeof CRC32_FIELD.

(** [WALOperationType] *)
Definition OP_PUT : Z := 1.
Definition OP_DELETE : Z := 2.
Definition OP_CHECKPOINT : Z := 3.

(** [PageType] *)
Definition TYPE_INTERNAL : Z := 1.
Definition TYPE_LEAF : Z := 2.
Definition TYPE_FREELIST : Z := 3.

(** ** [BufferReader] *)

Record BufferReader := { rd_data : bytes; rd_offset : nat }.

Definition reader_init (data : bytes) : BufferReader := {| rd_data := data; rd_offset := 0 |}.

Definition reader_advance (n : nat) (r : BufferReader) : BufferReader :=
  {| rd_data := rd_data r; rd_offset := rd_offset r + n |}.

Definition read_struct (st : Struct) : M BufferReader (list Value) :=
  r ← get_state;
  value ← lift (struct_unpack_from st (rd_data r) (rd_offset r));
  modify (reader_advance (struct_size st));;
  mret value.

Definition read_bytes (length : Z) : M BufferReader bytes :=
  r ← get_state;
  let value := py_slice (rd_data r) (Z.of_nat (rd_offset r)) (Z.of_nat (rd_offset r) + length) in
  modify (reader_advance (Z.to_nat length));;
  mret value.

(** [read_struct(spec)[i]] for an integer field. *)
Definition read_int (st : Struct) (i : nat) : M BufferReader Z :=
  vs ← read_struct st;
  lift (value_int vs i).

Definition read_length_prefixed_bytes : M BufferReader bytes :=
  length ← read_int LENGTH_FIELD 0;
  read_bytes length.

(** ** [BufferWriter]

    The state is the buffer itself.  [write_struct] first extends the buffer
    with zeros and then packs into the extension. *)

Definition write_struct (st : Struct) (vs : list Value) : M bytes unit :=
  buf ← get_state;
  modify (fun b => b ++ replicate (struct_size st) x00);;
  packed ← lift (struct_pack st vs);
  put_state (buf ++ packed).

Definition write_bytes (value : bytes) : M bytes unit := modify (fun b => b ++ value).

Definition write_length_prefixed_bytes (value : bytes) : M bytes unit :=
  write_struct LENGTH_FIELD [VInt (len value)];;
  write_bytes value.

Definition write_crc32 : M bytes unit :=
  crc ← gets crc32;
  write_struct CRC32_FIELD [VInt crc].

(** [writer = BufferWriter(); ...; bytes(writer)] *)
Definition build (w : M bytes unit) : Result bytes :=
  match w [] with
  | (buf, Ok _) => Ok buf
  | (_, Raise e) => Raise e
  end.

(** [reader = BufferReader(data); ...] *)
Definition parse {A} (r : M BufferReader A) (data : bytes) : Result A :=
  (r (reader_init data)).2.

(** ** Checksums *)

Definition verify_crc32 (data : bytes) : Result unit :=
  let actual_crc32 := crc32 (py_slice data 0 (- sizeof CRC32_FIELD)) in
  vs ← struct_unpack CRC32_FIELD (py_slice data (- sizeof CRC32_FIELD) (len data));
  expected_crc32 ← value_int vs 0;
  if actual_crc32 =? expected_crc32 then mret tt
  else Raise (DBChecksumError expected_crc32 actual_crc32).

(** ** WAL records *)

Definition wal_op_type (record : WALRecord) : Z :=
  match record with
  | WALPutRecord _ _ _ => OP_PUT
  | WALDeleteRecord _ _ => OP_DELETE
  | WALCheckpointRecord _ _ _ _ => OP_CHECKPOINT
  end.

Definition wal_payload (record : WALRecord) : M bytes unit :=
  match record with
  | WALPutRecord _ key value =>
      write_length_prefixed_bytes key;; write_length_prefixed_bytes value
  | WALDeleteRecord _ key => write_length_prefixed_bytes key
  | WALCheckpointRecord _ root_page_id freelist_head next_page_id =>
      write_struct UINT64_FIELD [VInt root_page_id];;
      write_struct UINT64_FIELD [VInt freelist_head];;
      write_struct UINT64_FIELD [VInt next_page_id]
  end.

Definition encode_wal_record (record : WALRecord) : Result bytes :=
  payload ← build (wal_payload record);
  header ← build (write_struct WAL_RECORD_HEADER
                    [VInt (record_lsn record); VInt (wal_op_type record)]);
  let length_field_value := len header + len payload + sizeof CRC32_FIELD in
  build (write_struct LENGTH_FIELD [VInt length_field_value];;
         write_bytes header;;
         write_bytes payload;;
         write_crc32).

Definition wal_body : M BufferReader WALRecord :=
  read_bytes (sizeof LENGTH_FIELD);;
  vs ← read_struct WAL_RECORD_HEADER;
  lsn ← lift (value_int vs 0);
  op_type ← lift (value_int vs 1);
  if op_type =? OP_PUT then
    key ← read_length_prefixed_bytes;
    value ← read_length_prefixed_bytes;
    mret (WALPutRecord lsn key value)
  else if op_type =? OP_DELETE then
    key ← read_length_prefixed_bytes;
    mret (WALDeleteRecord lsn key)
  else if op_type =? OP_CHECKPOINT then
    root_page_id ← read_int UINT64_FIELD 0;
    freelist_head ← read_int UINT64_FIELD 0;
    next_page_id ← read_int UINT64_FIELD 0;
    mret (WALCheckpointRecord lsn root_page_id freelist_head next_page_id)
  else raise ValueError.

Definition decode_wal_record (data : bytes) : Result WALRecord :=
  verify_crc32 data;;
  parse wal_body data.

(** [decode_next_wal_record_from_file]: [data] is what remains of the file
    after the current position; the result carries the number of bytes the
    two reads consumed. *)
Definition decode_next_wal_record (data : bytes) : nat * Result WALRecord :=
  let length_bytes := take (struct_size LENGTH_FIELD) data in
  if negb (length length_bytes =? struct_size LENGTH_FIELD)%nat
  then (length length_bytes, Raise EOFError)
  else
    match (vs ← struct_unpack LENGTH_FIELD length_bytes; value_int vs 0) with
    | Raise e => (length length_bytes, Raise e)
    | Ok record_length =>
        let record_body := take (Z.to_nat record_length) (drop (struct_size LENGTH_FIELD) data) in
        let consumed := (struct_size LENGTH_FIELD + length record_body)%nat in
        if negb (len record_body =? record_length) then (consumed, Raise EOFError)
        else (consumed, decode_wal_record (length_bytes ++ record_body))
    end.

(** ** The meta page *)

Definition encode_meta_page (page : MetaPage) : Result bytes :=
  body ← build (write_struct META_PAGE_NO_CRC
                  [VBytes DATA_FILE_MAGIC_PREFIX; VInt DATA_FILE_VERSION;
                   VInt (page_size_bytes page); VInt (root_page_id page);
                   VInt (next_page_id page); VInt (freelist_head_page_id page);
                   VInt (last_checkpoint_lsn page)];;
                write_crc32);
  zero_padding ← py_zeros x00 (page_size_bytes page - len body);
  mret (body ++ zero_padding).

Definition decode_meta_page (data : bytes) : Result MetaPage :=
  let data := py_slice data 0 (sizeof META_PAGE_NO_CRC + sizeof CRC32_FIELD) in
  if negb (bool_decide (py_slice data 0 (len DATA_FILE_MAGIC_PREFIX) = DATA_FILE_MAGIC_PREFIX))
  then Raise DBCorruptedError
  else
    verify_crc32 data;;
    unpacked ← parse (read_struct META_PAGE_NO_CRC) data;
    page_size ← value_int unpacked 2;
    root ← value_int unpacked 3;
    next ← value_int unpacked 4;
    freelist ← value_int unpacked 5;
    lsn ← value_int unpacked 6;
    mret {| page_size_bytes := page_size; root_page_id := root; next_page_id := next;
            freelist_head_page_id := freelist; last_checkpoint_lsn := lsn |}.

(** ** Slotted pages *)

Definition write_internal_slot (slot : InternalSlot) : M bytes unit :=
  write_length_prefixed_bytes (islot_key slot);;
  write_struct PAGE_ID_FIELD [VInt (child_page_id slot)].

Definition write_leaf_slot (slot : LeafSlot) : M bytes unit :=
  write_length_prefixed_bytes (lslot_key slot);;
  write_length_prefixed_bytes (lslot_value slot).

(** The state of the loop over the slots: the page buffer, [record_end_ptr]
    and the buffer of [slot_writer]. *)
Record SlotPacker := {
  sp_page_buffer : bytes;
  sp_record_end_ptr : Z;
  sp_slot_writer : bytes;
}.

Definition pack_slot {A} (write_slot : A -> M bytes unit) (slot : A) (sp : SlotPacker)
    : Result SlotPacker :=
  record ← build (write_slot slot);
  let record_end_ptr := sp_record_end_ptr sp - len record in
  let page_buffer := py_slice_assign (sp_page_buffer sp) record_end_ptr
                       (record_end_ptr + len record) record in
  entry ← build (write_struct SLOT_ENTRY [VInt record_end_ptr; VInt (len record)]);
  mret {| sp_page_buffer := page_buffer;
          sp_record_end_ptr := record_end_ptr;
          sp_slot_writer := sp_slot_writer sp ++ entry |}.

Fixpoint pack_slots {A} (write_slot : A -> M bytes unit) (slots : list A) (sp : SlotPacker)
    : Result SlotPacker :=
  match slots with
  | [] => Ok sp
  | slot :: slots' =>
      sp' ← pack_slot write_slot slot sp;
      pack_slots write_slot slots' sp'
  end.

Fixpoint write_page_ids (ids : list Z) : M bytes unit :=
  match ids with
  | [] => mret tt
  | page_id :: ids' => write_struct PAGE_ID_FIELD [VInt page_id];; write_page_ids ids'
  end.

(** The header fields that depend on the kind of page: type tag, overloaded
    page id and count. *)
Definition page_header_fields (page : Page) : Z * Z * Z :=
  match page with
  | PInternal p => (TYPE_INTERNAL, leftmost_child_page_id p, len (internal_slots p))
  | PLeaf p => (TYPE_LEAF, right_sibling_page_id p, len (leaf_slots p))
  | PFreelist p => (TYPE_FREELIST, next_freelist_page_id p, len (freed_page_ids p))
  end.

(** The page buffer with its records, the directory (or the freed ids), and
    the bounds of the free space. *)
Definition encode_page_body (page : Page) (page_buffer : bytes)
    : Result (bytes * bytes * Z * Z) :=
  let slotted {A} (write_slot : A -> M bytes unit) (slots : list A) :=
    sp ← pack_slots write_slot slots
           {| sp_page_buffer := page_buffer; sp_record_end_ptr := len page_buffer;
              sp_slot_writer := [] |};
    mret (sp_page_buffer sp, sp_slot_writer sp,
          sizeof PAGE_HEADER + sizeof SLOT_ENTRY * len slots, sp_record_end_ptr sp) in
  match page with
  | PInternal p => slotted write_internal_slot (internal_slots p)
  | PLeaf p => slotted write_leaf_slot (leaf_slots p)
  | PFreelist p =>
      ids ← build (write_page_ids (freed_page_ids p));
      mret (page_buffer, ids, 0, 0)
  end.

Definition encode_page (page : Page) (page_size_bytes : Z) : Result bytes :=
  page_buffer ← py_zeros x00 page_size_bytes;
  let '(page_type, page_id_field_value, count_value) := page_header_fields page in
  '(page_buffer, encoded_records, free_space_start, free_space_end) ←
    encode_page_body page page_buffer;
  header ← build (write_struct PAGE_HEADER
    [VInt page_type; VBytes (replicate 3 x00); VInt count_value; VInt free_space_start;
     VInt free_space_end; VInt (page_lsn page); VInt page_id_field_value]);
  let page_buffer := py_slice_assign page_buffer 0 (len header) header in
  let page_buffer := py_slice_assign page_buffer (len header)
                       (len header + len encoded_records) encoded_records in
  mret page_buffer.

(** [for _ in range(count): l.append(item())] over a reader.  Every item reads
    at least one byte of the buffer, so fuel beyond its length is never used. *)
Fixpoint read_many {A} (fuel : nat) (count : Z) (item : M BufferReader A)
    : M BufferReader (list A) :=
  if count <=? 0 then mret []
  else match fuel with
       | O => raise OutOfFuel
       | S fuel => x ← item; xs ← read_many fuel (count - 1) item; mret (x :: xs)
       end.

Definition internal_record : M BufferReader InternalSlot :=
  key ← read_length_prefixed_bytes;
  child ← read_int PAGE_ID_FIELD 0;
  mret {| islot_key := key; child_page_id := child |}.

Definition leaf_record : M BufferReader LeafSlot :=
  key ← read_length_prefixed_bytes;
  value ← read_length_prefixed_bytes;
  mret {| lslot_key := key; lslot_value := value |}.

(** One directory entry and the record it points at. *)
Definition read_slot {A} (record : M BufferReader A) : M BufferReader A :=
  vs ← read_struct SLOT_ENTRY;
  record_offset ← lift (value_int vs 0);
  record_length ← lift (value_int vs 1);
  data ← gets rd_data;
  lift (parse record (py_slice data record_offset (record_offset + record_length))).

Definition page_body : M BufferReader Page :=
  vs ← read_struct PAGE_HEADER;
  page_type ← lift (value_int vs 0);
  count_value ← lift (value_int vs 2);
  last_modified_lsn ← lift (value_int vs 5);
  page_id_field_value ← lift (value_int vs 6);
  fuel ← gets (fun r => S (length (rd_data r)));
  if page_type =? TYPE_INTERNAL then
    slots ← read_many fuel count_value (read_slot internal_record);
    mret (PInternal {| internal_lsn := last_modified_lsn;
                       leftmost_child_page_id := page_id_field_value;
                       internal_slots := slots |})
  else if page_type =? TYPE_LEAF then
    slots ← read_many fuel count_value (read_slot leaf_record);
    mret (PLeaf {| leaf_lsn := last_modified_lsn;
                   right_sibling_page_id := page_id_field_value;
                   leaf_slots := slots |})
  else if page_type =? TYPE_FREELIST then
    ids ← read_many fuel count_value (read_int PAGE_ID_FIELD 0);
    mret (PFreelist {| freelist_lsn := last_modified_lsn;
                       next_freelist_page_id := page_id_field_value;
                       freed_page_ids := ids |})
  else raise ValueError.

Definition decode_page (data : bytes) : Result Page := parse page_body data.

(** ** Sizes *)

Definition calculate_internal_slot_size (slot : InternalSlot) (include_meta : bool) : Z :=
  let base_size := if include_meta then sizeof SLOT_ENTRY else 0 in
  base_size + sizeof LENGTH_FIELD + len (islot_key slot) + sizeof PAGE_ID_FIELD.

Definition calculate_leaf_slot_size (slot : LeafSlot) (include_meta : bool) : Z :=
  let base_size := if include_meta then sizeof SLOT_ENTRY else 0 in
  base_size + sizeof LENGTH_FIELD * 2 + len (lslot_key slot) + len (lslot_value slot).

(** [calculate_slot_size(slot, include_meta=True)] over the slots of a page. *)
Definition page_slot_sizes (page : Page) : list Z :=
  match page with
  | PInternal p => (fun s => calculate_internal_slot_size s true) <$> internal_slots p
  | PLeaf p => (fun s => calculate_leaf_slot_size s true) <$> leaf_slots p
  | PFreelist _ => []
  end.

Definition calculate_page_size (page : Page) : Z :=
  foldl Z.add (sizeof PAGE_HEADER) (page_slot_sizes page).

Definition calculate_leaf_record_size (key value : bytes) : Z :=
  sizeof LENGTH_FIELD * 2 + len key + len value.

Definition get_max_leaf_record_size (page_size_bytes : Z) : Z :=
  (page_size_bytes - sizeof PAGE_HEADER) / 5 - sizeof SLOT_ENTRY.

Definition get_max_freed_ids_per_freelist_page (page_size_bytes : Z) : Z :=
  (page_size_bytes - sizeof PAGE_HEADER) / sizeof PAGE_ID_FIELD.
