(* ===== verification/Fs.v ===== *)
(** * Files ([fs.py] and the file objects the services hold)

    A file is its visible contents and the contents that are known to be
    durable; [fsync_file] makes them equal.  A crash may lose any write since
    the last fsync. *)

From S2P Require Import Prelude Bytes.
From Stdlib Require Import Strings.Byte.

Record File := {
  f_data : bytes;      (* what a read returns *)
  f_synced : bytes;    (* what is guaranteed to survive a crash *)
}.

Definition empty_file : File := {| f_data := []; f_synced := [] |}.

(** [seek(offset); read(n)] *)
Definition read_at (f : File) (offset n : Z) : bytes :=
  take (Z.to_nat n) (drop (Z.to_nat offset) (f_data f)).

(** [seek(offset); write(data)]: a gap before the offset reads as zeros. *)
Definition splice (old : bytes) (offset : nat) (data : bytes) : bytes :=
  take offset (old ++ replicate (offset - length old) x00) ++ data
    ++ drop (offset + length data) old.

Definition write_at (f : File) (offset : Z) (data : bytes) : File :=
  {| f_data := splice (f_data f) (Z.to_nat offset) data; f_synced := f_synced f |}.

Definition append_data (f : File) (data : bytes) : File :=
  {| f_data := f_data f ++ data; f_synced := f_synced f |}.

(** [seek(pos); truncate()] *)
Definition truncate_at (f : File) (pos : nat) : File :=
  {| f_data := take pos (f_data f); f_synced := f_synced f |}.

(** [fsync_file]: flush and fsync. *)
Definition fsync_file (f : File) : File := {| f_data := f_data f; f_synced := f_data f |}.

(** The file found after a crash that loses everything not yet fsynced, and
    after one that loses nothing (a killed process whose writes had reached
    the operating system). *)
Definition crash_lossy (f : File) : File := {| f_data := f_synced f; f_synced := f_synced f |}.
Definition crash_kept (f : File) : File := {| f_data := f_data f; f_synced := f_data f |}.

(** ** Reading what was written *)

Lemma splice_length old offset data :
  length (splice old offset data) = Nat.max (length old) (offset + length data).
Proof.
  unfold splice. rewrite !length_app, length_take, length_drop, length_app, length_replicate. lia.
Qed.

Lemma splice_read_same old offset data :
  take (length data) (drop offset (splice old offset data)) = data.
Proof.
  unfold splice.
  rewrite drop_app_length' by (rewrite length_take, length_app, length_replicate; lia).
  by rewrite take_app_length.
Qed.

(** Reading a range that the write does not touch and that existed before. *)
Lemma splice_read_other old offset data o n :
  (o + n <= offset)%nat \/ (offset + length data <= o)%nat ->
  (o + n <= length old)%nat ->
  take n (drop o (splice old offset data)) = take n (drop o old).
Proof.
  intros Hdis Hin. apply list_eq. intros i.
  destruct (decide (i < n)%nat) as [Hi|Hi]; [|rewrite !lookup_take_ge by lia; done].
  rewrite !lookup_take_lt, !lookup_drop by lia. unfold splice.
  destruct Hdis as [Hd|Hd].
  - rewrite lookup_app_l by (rewrite length_take, length_app, length_replicate; lia).
    rewrite lookup_take_lt, lookup_app_l by lia. done.
  - rewrite lookup_app_r by (rewrite length_take, length_app, length_replicate; lia).
    rewrite length_take, length_app, length_replicate.
    rewrite lookup_app_r by lia. rewrite lookup_drop. f_equal. lia.
Qed.
