(* ===== verification/Platform.v ===== *)
(** * Syncing through the operating system ([fs.py])

    [Fs.fsync_file] makes the contents of a file durable in one step.  This is
    the code behind it: the system calls are the instance of a class, and the
    laws of the class what their manuals promise. *)

From stdpp Require Import strings.
From S2P Require Import Prelude Bytes Fs.

(** ** System calls *)

(** The calls [fs.py] makes, on a world [W].  [None] is success, [Some errno] an
    [OSError].  A file object is known by its descriptor. *)
Class OS (W : Type) := {
  darwin : bool;                                   (* sys.platform == "darwin" *)
  ENOTSUP : Z;
  EOPNOTSUPP : Z;
  full_fsync : Z -> W -> W * option Z;             (* fcntl.fcntl(fd, fcntl.F_FULLFSYNC) *)
  os_fsync : Z -> W -> W * option Z;               (* os.fsync(fd) *)
  os_flush : Z -> W -> W * option Z;               (* fd.flush() *)
  os_open : string -> W -> W * (Z + Z);            (* os.open(path, os.O_RDONLY) *)
  os_close : Z -> W -> W * option Z;               (* os.close(fd) *)
}.

Section fs.
Context {W : Type} `{OS W}.

Definition syscall (call : W -> W * option Z) : M W unit := fun w =>
  match call w with
  | (w', None) => (w', Ok tt)
  | (w', Some errno) => (w', Raise (OSError errno))
  end.

(** The errors that make [_fsync_fd] fall back on [os.fsync]. *)
Definition unsupported (errno : Z) : bool := (errno =? ENOTSUP) || (errno =? EOPNOTSUPP).

Definition fsync_fd (fd : Z) : M W unit := fun w =>
  if darwin then
    match full_fsync fd w with
    | (w', None) => (w', Ok tt)
    | (w', Some errno) =>
        if unsupported errno then syscall (os_fsync fd) w' else (w', Raise (OSError errno))
    end
  else syscall (os_fsync fd) w.

Definition os_fsync_file (fd : Z) : M W unit :=
  syscall (os_flush fd);;
  fsync_fd fd.

(** A directory that cannot be opened is not synced. *)
Definition fsync_directory (path : string) : M W unit := fun w =>
  match os_open path w with
  | (w', inr _) => (w', Ok tt)
  | (w', inl dir_fd) => try_finally (fsync_fd dir_fd) (syscall (os_close dir_fd)) w'
  end.
End fs.

(** ** What the calls promise *)

(** A write the file object has not handed over yet: at an offset, or at the
    end of the file, as a log opened for appending and the growth of the data
    file do. *)
Inductive Write :=
  | WriteAt (offset : Z) (data : bytes)
  | WriteEnd (data : bytes).

Definition land (f : File) (w : Write) : File :=
  match w with
  | WriteAt offset data => write_at f offset data
  | WriteEnd data => append_data f data
  end.

(** The errors that say a file has no full sync. *)
Definition not_supported {W} `{OS W} (errno : Z) : Prop := errno = ENOTSUP \/ errno = EOPNOTSUPP.

(** [contents] is the file behind a descriptor as the system has it, [pending]
    the writes its file object still buffers, oldest first; [descriptors] are
    the open ones.  A flush hands the writes over in their order.  A plain
    sync that succeeds makes the contents durable except on macOS, where only
    what a read returns is sure to stay; a full one makes them durable
    everywhere.  Of a call that fails nothing is said, but that a full sync
    which is not supported does nothing, that a sync opens and closes nothing,
    and that a close always releases its descriptor. *)
Class OSLaws (W : Type) `{OS W} := {
  contents : W -> Z -> option File;
  pending : W -> Z -> list Write;
  descriptors : W -> gset Z;
  flush_lands fd w w' : os_flush fd w = (w', None) ->
    contents w' fd = (fun f => foldl land f (pending w fd)) <$> contents w fd;
  fsync_durable fd w w' : os_fsync fd w = (w', None) -> darwin = false -> contents w' fd = fsync_file <$> contents w fd;
  full_fsync_durable fd w w' : full_fsync fd w = (w', None) -> contents w' fd = fsync_file <$> contents w fd;
  fsync_reads fd w w' : os_fsync fd w = (w', None) -> f_data <$> contents w' fd = f_data <$> contents w fd;
  refused_keeps fd w w' errno : full_fsync fd w = (w', Some errno) -> not_supported errno -> contents w' fd = contents w fd;
  open_adds path w w' fd : os_open path w = (w', inl fd) -> (fd ∉ descriptors w) /\ (descriptors w' = {[fd]} ∪ descriptors w);
  open_fails path w w' e : os_open path w = (w', inr e) -> descriptors w' = descriptors w;
  close_removes fd w : (descriptors (os_close fd w).1 = descriptors w ∖ {[fd]});
  syncs_keep fd w : descriptors (os_fsync fd w).1 = descriptors w /\ descriptors (full_fsync fd w).1 = descriptors w;
}.

(** The system calls of a sync, the platform's own: the world after them, and
    the error that counts. *)
Inductive synced_with {W} `{OS W} (fd : Z) (w : W) : W -> option Z -> Prop :=
  | SyncPlain w' r : darwin = false -> os_fsync fd w = (w', r) -> synced_with fd w w' r
  | SyncFull w' : darwin = true -> full_fsync fd w = (w', None) -> synced_with fd w w' None
  | SyncRefused w' errno : darwin = true -> full_fsync fd w = (w', Some errno) -> ~ not_supported errno ->
      synced_with fd w w' (Some errno)
  | SyncFallback w1 w' errno r : darwin = true -> full_fsync fd w = (w1, Some errno) -> not_supported errno ->
      os_fsync fd w1 = (w', r) -> synced_with fd w w' r.

Section laws.
Context {W : Type} `{OSLaws W}.

Definition outcome (r : option Z) : Result unit :=
  match r with None => Ok tt | Some errno => Raise (OSError errno) end.

Lemma unsupported_spec errno : reflect (not_supported errno) (unsupported errno).
Proof.
  unfold unsupported, not_supported. apply iff_reflect. rewrite orb_true_iff, !Z.eqb_eq. done.
Qed.

Lemma fsync_fd_synced fd w : exists w' r, fsync_fd fd w = (w', outcome r) /\ synced_with fd w w' r.
Proof.
  unfold fsync_fd, syscall. destruct darwin eqn:Ed.
  - destruct (full_fsync fd w) as [w1 [e|]] eqn:E1; [|exists w1, None; split; [done|by apply SyncFull]].
    destruct (unsupported_spec e) as [Eu|Eu]; [|exists w1, (Some e); split; [done|by apply SyncRefused]].
    destruct (os_fsync fd w1) as [w2 r] eqn:E2. exists w2, r. split; [by destruct r|by eapply SyncFallback].
  - destruct (os_fsync fd w) as [w1 r] eqn:E1. exists w1, r. split; [by destruct r|by apply SyncPlain].
Qed.

(** A sync that succeeds changes no byte that a read returns. *)
Lemma synced_reads fd w w' : synced_with fd w w' None -> f_data <$> contents w' fd = f_data <$> contents w fd.
Proof.
  inversion_clear 1 as [? ? _ E|? _ E| |w1 ? e ? _ E Hu E'].
  - by apply fsync_reads.
  - rewrite (full_fsync_durable fd w w' E). by destruct (contents w fd).
  - rewrite (fsync_reads fd w1 w' E'). by rewrite (refused_keeps fd w w1 e E Hu).
Qed.

(** The full sync is not supported where this file is. *)
Definition no_full_sync (fd : Z) (w : W) : Prop :=
  darwin = true /\ exists errno, (full_fsync fd w).2 = Some errno /\ not_supported errno.

Lemma synced_durable fd w w' : synced_with fd w w' None ->
  contents w' fd = fsync_file <$> contents w fd \/ no_full_sync fd w.
Proof.
  inversion_clear 1 as [? ? Ed E|? Ed E| |? ? e ? Ed E Eu E'].
  - left. by apply fsync_durable.
  - left. by apply full_fsync_durable.
  - right. split; [done|]. exists e. by rewrite E.
Qed.

Lemma fsync_fd_keeps fd w : descriptors (fsync_fd fd w).1 = descriptors w.
Proof.
  unfold fsync_fd, syscall. destruct darwin.
  - pose proof (proj2 (syncs_keep fd w)) as Hk. destruct (full_fsync fd w) as [w1 [e|]]; simpl in Hk; [|done].
    destruct (unsupported e); [|done]. pose proof (proj1 (syncs_keep fd w1)) as Hk1.
    destruct (os_fsync fd w1) as [w2 [e'|]]; simpl in *; congruence.
  - pose proof (proj1 (syncs_keep fd w)) as Hk. by destruct (os_fsync fd w) as [w2 [e'|]].
Qed.

(** C34. [fsync_file] on any system.  When it returns, the buffered writes have
    been handed over, each at its place, and nothing else has changed in the
    file; and the whole file is durable, which is [Fs.fsync_file] of it,
    unless the system is macOS and has answered [F_FULLFSYNC] with one of the
    two errors that say it is not supported there, where the code settles for
    [os.fsync].  When it raises, it is the [OSError] of the flush, or that of the
    sync of the platform: no other error of a call is passed over. *)
Theorem fsync_keeps_promises fd w w' r : os_fsync_file fd w = (w', r) ->
  match r with
  | Ok _ =>
      let written := (fun f => foldl land f (pending w fd)) <$> contents w fd in
      f_data <$> contents w' fd = f_data <$> written /\
      (contents w' fd = fsync_file <$> written \/ exists w1, os_flush fd w = (w1, None) /\ no_full_sync fd w1) /\
      exists w1, os_flush fd w = (w1, None) /\ synced_with fd w1 w' None
  | Raise e => exists errno, e = OSError errno /\
      (os_flush fd w = (w', Some errno) \/
       exists w1, os_flush fd w = (w1, None) /\ synced_with fd w1 w' (Some errno))
  end.
Proof.
  unfold os_fsync_file, mbind, M_bind, syscall. destruct (os_flush fd w) as [w1 [e|]] eqn:E1.
  - intros [= <- <-]. exists e. split; [done|by left].
  - destruct (fsync_fd_synced fd w1) as (w2 & r2 & -> & Hs). intros [= <- <-]. destruct r2 as [e|]; simpl.
    + exists e. split; [done|]. right. by exists w1.
    + rewrite <-(flush_lands fd w w1 E1). split; [by eapply synced_reads|]. split; [|by exists w1].
      destruct (synced_durable fd w1 w2 Hs); [by left|right; by exists w1].
Qed.

(** C35. [fsync_directory] leaves no descriptor open, on whatever path it
    ends.  A directory that cannot be opened is passed over in silence; one that can is
    synced as a file is, and when the sync or the close fails, it raises. *)
Theorem fsync_directory_outcome path w :
  descriptors (fsync_directory path w).1 = descriptors w /\
  match os_open path w with
  | (w1, inr _) => fsync_directory path w = (w1, Ok tt)
  | (w1, inl fd) => exists w2 r, synced_with fd w1 w2 r /\
      fsync_directory path w = ((os_close fd w2).1, match (os_close fd w2).2 with None => outcome r | e => outcome e end)
  end.
Proof.
  unfold fsync_directory. destruct (os_open path w) as [w1 [dir_fd|e]] eqn:E1; [|split; [by eapply open_fails|done]].
  apply open_adds in E1 as [Hn Ed]. unfold try_finally. pose proof (fsync_fd_keeps dir_fd w1) as Hk.
  destruct (fsync_fd_synced dir_fd w1) as (w2 & r & E2 & Hs). rewrite E2 in *. simpl in Hk.
  unfold syscall. pose proof (close_removes dir_fd w2) as Hc.
  rewrite Hk, Ed in Hc. assert (({[dir_fd]} ∪ descriptors w) ∖ {[dir_fd]} = descriptors w) as Hd by (clear -Hn; set_solver).
  rewrite Hd in Hc. split; [by destruct (os_close dir_fd w2) as [w3 [e|]]|].
  exists w2, r. split; [done|]. by destruct (os_close dir_fd w2) as [w3 [e|]].
Qed.
End laws.

(** ** A system *)

(** Two descriptors may be open; the data file is behind descriptor 3, the
    directory behind 4.  [mac] tells the platform, [full] what the full sync
    answers. *)
Record ToyOS := { toy_file : File; toy_buffer : list Write; toy_open : gset Z }.

Definition toy_sync (fd : Z) (w : ToyOS) : ToyOS :=
  {| toy_file := if fd =? 3 then fsync_file (toy_file w) else toy_file w;
     toy_buffer := toy_buffer w; toy_open := toy_open w |}.

Section toy.
Context (mac : bool) (full : option Z).

#[local] Instance toy_os : OS ToyOS := {
  darwin := mac; ENOTSUP := 45; EOPNOTSUPP := 102;
  full_fsync fd w := match full with None => (toy_sync fd w, None) | e => (w, e) end;
  os_fsync fd w := (if mac then w else toy_sync fd w, None);
  os_flush fd w := if fd =? 3 then ({| toy_file := foldl land (toy_file w) (toy_buffer w); toy_buffer := [];
                                       toy_open := toy_open w |}, None) else (w, Some 9);
  os_open path w := if decide (4 ∈ toy_open w) then (w, inr 24)
                    else ({| toy_file := toy_file w; toy_buffer := toy_buffer w; toy_open := {[4]} ∪ toy_open w |}, inl 4);
  os_close fd w := ({| toy_file := toy_file w; toy_buffer := toy_buffer w; toy_open := toy_open w ∖ {[fd]} |}, None);
}.

#[local] Instance toy_laws : OSLaws ToyOS.
Proof.
  refine {| contents w fd := if fd =? 3 then Some (toy_file w) else None; pending w fd := toy_buffer w;
            descriptors w := toy_open w |}.
  - intros fd w w'. simpl. destruct (fd =? 3); [|done]. by intros [= <-].
  - intros fd w w'. simpl. intros [= <-] ->. simpl. by destruct (fd =? 3).
  - intros fd w w'. simpl. destruct full; [done|]. intros [= <-]. simpl. by destruct (fd =? 3).
  - intros fd w w'. simpl. intros [= <-]. destruct mac; simpl; by destruct (fd =? 3).
  - intros fd w w' e. simpl. destruct full; [|done]. by intros [= <- _].
  - intros path w w' fd. simpl. case_decide; [done|]. by intros [= <- <-].
  - intros path w w' e. simpl. case_decide; [|done]. by intros [= <- _].
  - done.
  - intros fd w. split; simpl; [by destruct mac|by destruct full].
Defined.
End toy.

(** A page written over the first byte, and one at the end. *)
Definition toy_world : ToyOS :=
  {| toy_file := {| f_data := [byte_of_Z 1; byte_of_Z 2]; f_synced := [] |};
     toy_buffer := [WriteAt 0 [byte_of_Z 7]; WriteEnd [byte_of_Z 8]]; toy_open := {[3]} |}.

Definition toy_written : bytes := [byte_of_Z 7; byte_of_Z 2; byte_of_Z 8].

(** On Linux and on macOS with a full sync the file is durable; without one, the
    writes are handed over; with a broken disk the call raises. *)
Lemma fsync_keeps_promises_witness :
  (exists w', @os_fsync_file _ (toy_os false None) 3 toy_world = (w', Ok tt) /\
    f_data <$> @contents _ _ (toy_laws false None) w' 3 = Some toy_written) /\
  (exists w', @os_fsync_file _ (toy_os true (Some 45)) 3 toy_world = (w', Ok tt) /\
    f_data <$> @contents _ _ (toy_laws true (Some 45)) w' 3 = Some toy_written) /\
  (exists w' errno, @os_fsync_file _ (toy_os true (Some 5)) 3 toy_world = (w', Raise (OSError 5)) /\ OSError 5 = OSError errno).
Proof.
  split; [|split]; eexists.
  - split; [reflexivity|].
    apply (@fsync_keeps_promises ToyOS (toy_os false None) (toy_laws false None) 3 toy_world _ (Ok tt) eq_refl).
  - split; [reflexivity|].
    apply (@fsync_keeps_promises ToyOS (toy_os true (Some 45)) (toy_laws true (Some 45)) 3 toy_world _ (Ok tt) eq_refl).
  - edestruct (@fsync_keeps_promises ToyOS (toy_os true (Some 5)) (toy_laws true (Some 5)) 3 toy_world _ (Raise (OSError 5)) eq_refl)
      as (errno & He & _).
    exists errno. split; [reflexivity|exact He].
Defined.

(** A directory is opened, synced and closed again; the sync of a broken disk
    raises, and the directory is closed all the same. *)
Lemma fsync_directory_outcome_witness :
  @descriptors _ _ (toy_laws true (Some 5)) (@fsync_directory _ (toy_os true (Some 5)) "db" toy_world).1 = {[3]} /\
  (@fsync_directory _ (toy_os true (Some 5)) "db" toy_world).2 = Raise (OSError 5) /\
  (@fsync_directory _ (toy_os false None) "db" toy_world).2 = Ok tt.
Proof.
  split; [|split; reflexivity].
  exact (proj1 (@fsync_directory_outcome ToyOS (toy_os true (Some 5)) (toy_laws true (Some 5)) "db" toy_world)).
Defined.
