(* ===== verification/Format.v ===== *)
(** * Numbers as text

    The format specifications the program uses: [{n}], [{n:,}], [{x:,.2f}],
    [{x:.1f}], [{v:08x}] and right alignment.  A double is printed as the
    nearest decimal of its exact value, ties to even. *)

From Stdlib Require Import Strings.String Strings.Ascii.
From stdpp Require Import strings.
From S2P Require Import Prelude Float64.

Definition digit_char (d : Z) : ascii := ascii_of_nat (Z.to_nat (if d <? 10 then 48 + d else 87 + d)).
Definition char_digit (c : ascii) : option Z :=
  let n := Z.of_nat (nat_of_ascii c) in
  if (48 <=? n) && (n <? 58) then Some (n - 48)
  else if (97 <=? n) && (n <? 103) then Some (n - 87)
  else None.

(** The last [w] digits of [n] to the base [b]. *)
Fixpoint fixed_digits (b : Z) (w : nat) (n : Z) : string :=
  match w with
  | O => EmptyString
  | S w => fixed_digits b w (n / b) +:+ String (digit_char (n mod b)) EmptyString
  end.

(** How many digits [n] has. *)
Fixpoint count_digits (fuel : nat) (b n : Z) : nat :=
  match fuel with
  | O => 1
  | S fuel => if n <? b then 1 else S (count_digits fuel b (n / b))
  end.

(** The digits of [n], filled up with zeros to [w]. *)
Definition padded_digits (b : Z) (w : nat) (n : Z) : string :=
  fixed_digits b (Nat.max w (count_digits (Z.to_nat (Z.log2 n)) b n)) n.

(** [{n:0wx}] *)
Definition format_hex (w : nat) (n : Z) : string := padded_digits 16 w n.

Definition signed (negative : bool) (s : string) : string := if negative then String "-" s else s.

(** [{n}] *)
Definition format_int (n : Z) : string := signed (n <? 0) (padded_digits 10 1 (Z.abs n)).

(** [{n:,}]: a comma before every third digit from the right. *)
Fixpoint grouped (fuel : nat) (n : Z) : string :=
  match fuel with
  | O => EmptyString
  | S fuel =>
      if n <? 1000 then padded_digits 10 1 n
      else grouped fuel (n / 1000) +:+ String "," (fixed_digits 10 3 (n mod 1000))
  end.

Definition format_nonneg (comma : bool) (n : Z) : string :=
  if comma then grouped (S (Z.to_nat (Z.log2 n))) n else padded_digits 10 1 n.

Definition format_comma (n : Z) : string := signed (n <? 0) (format_nonneg true (Z.abs n)).

(** The nearest integer to [x * 10 ^ d], for a non-negative double. *)
Definition shifted (d : nat) (x : f64) : Z :=
  let '(n, k) := scaled (f_mant x * 10 ^ Z.of_nat d) 1 (- f_exp x) in round_half_even n k.

(** [{x:.df}] and [{x:,.df}] *)
Definition format_fixed (comma : bool) (d : nat) (x : f64) : string :=
  let n := shifted d (f64_abs x) in
  signed (f_mant x <? 0)
    (format_nonneg comma (n / 10 ^ Z.of_nat d) +:+
     match d with O => EmptyString | _ => String "." (fixed_digits 10 d (n mod 10 ^ Z.of_nat d)) end).

(** [{s:>w}] *)
Definition align_right (w : nat) (s : string) : string :=
  string_of_list_ascii (replicate (w - String.length s) " "%char) +:+ s.

(** [s.ljust(w)] *)
Definition align_left (w : nat) (s : string) : string :=
  s +:+ string_of_list_ascii (replicate (w - String.length s) " "%char).

(** ** Reading the text back *)

(** The number the digits of a text make; everything else is skipped. *)
Fixpoint read_from (b acc : Z) (s : string) : Z :=
  match s with
  | EmptyString => acc
  | String c s => read_from b (match char_digit c with Some d => acc * b + d | None => acc end) s
  end.

Definition read_digits (b : Z) (s : string) : Z := read_from b 0 s.

Lemma read_app b s t : forall acc, read_from b acc (s +:+ t) = read_from b (read_from b acc s) t.
Proof. induction s as [|c s IH]; intros acc; [done|]. apply IH. Qed.

Lemma char_of_digit d : 0 <= d < 16 -> char_digit (digit_char d) = Some d.
Proof.
  intros Hd. assert (forallb (fun d => bool_decide (char_digit (digit_char d) = Some d)) (seqZ 0 16) = true) as H by done.
  rewrite forallb_forall in H. specialize (H d). rewrite bool_decide_eq_true in H. apply H, list_elem_of_In, elem_of_seqZ. lia.
Qed.

Lemma read_fixed b w : 1 < b <= 16 -> forall n acc, 0 <= n ->
  read_from b acc (fixed_digits b w n) = acc * b ^ Z.of_nat w + n mod b ^ Z.of_nat w.
Proof.
  intros Hb. induction w as [|w IH]; intros n acc Hn.
  { simpl. rewrite Z.mod_1_r. lia. }
  cbn [fixed_digits]. rewrite read_app, IH by (by apply Z.div_pos; lia).
  cbn [read_from]. rewrite char_of_digit by (pose proof (Z.mod_pos_bound n b); lia).
  rewrite Nat2Z.inj_succ, Z.pow_succ_r by lia. rewrite Z.rem_mul_r by (try lia; apply Z.pow_pos_nonneg; lia). ring.
Qed.

Lemma count_digits_enough b fuel : 1 < b -> forall n, 0 <= n < 2 ^ (Z.of_nat fuel + 1) -> n < b ^ Z.of_nat (count_digits fuel b n).
Proof.
  intros Hb. induction fuel as [|fuel IH]; intros n [Hn Hlt].
  { cbn [count_digits]. change (2 ^ (Z.of_nat 0 + 1)) with 2 in Hlt. change (Z.of_nat 1) with 1. lia. }
  cbn [count_digits]. destruct (Z.ltb_spec n b) as [H|H]; [change (Z.of_nat 1) with 1; lia|].
  rewrite Nat2Z.inj_succ, Z.pow_succ_r by lia.
  assert (n / b < b ^ Z.of_nat (count_digits fuel b (n / b))) as Hq.
  { apply IH. split; [apply Z.div_pos; lia|]. apply Z.div_lt_upper_bound; [lia|].
    rewrite Nat2Z.inj_succ in Hlt. replace (Z.succ (Z.of_nat fuel) + 1) with (Z.succ (Z.of_nat fuel + 1)) in Hlt by lia.
    rewrite Z.pow_succ_r in Hlt by lia. nia. }
  pose proof (Z.div_mod n b ltac:(lia)). pose proof (Z.mod_pos_bound n b ltac:(lia)). nia.
Qed.

Lemma log2_fuel n : 0 <= n -> n < 2 ^ (Z.of_nat (Z.to_nat (Z.log2 n)) + 1).
Proof.
  intros Hn. pose proof (Z.log2_nonneg n). rewrite Z2Nat.id by done.
  destruct (decide (n = 0)) as [->|]; [done|]. apply Z.log2_spec. lia.
Qed.

(** Whole numbers are printed exactly, and so are the fields of a checksum. *)
Lemma read_padded b w n : 1 < b <= 16 -> 0 <= n -> read_digits b (padded_digits b w n) = n.
Proof.
  intros Hb Hn. unfold read_digits, padded_digits. rewrite read_fixed by done. rewrite Z.mul_0_l, Z.add_0_l.
  apply Z.mod_small. split; [done|]. set (c := count_digits _ _ _).
  pose proof (count_digits_enough b (Z.to_nat (Z.log2 n)) ltac:(lia) n (conj Hn (log2_fuel n Hn))) as H. fold c in H.
  eapply Z.lt_le_trans; [exact H|]. apply Z.pow_le_mono_r; lia.
Qed.

Lemma read_grouped fuel : forall n, 0 <= n < 2 ^ Z.of_nat fuel -> read_digits 10 (grouped fuel n) = n.
Proof.
  induction fuel as [|fuel IH]; intros n [Hn Hlt]; [change (2 ^ Z.of_nat 0) with 1 in Hlt; change (0 = n); lia|].
  cbn [grouped]. destruct (Z.ltb_spec n 1000) as [H|H]; [apply read_padded; lia|].
  unfold read_digits in *. rewrite read_app, IH.
  2:{ split; [apply Z.div_pos; lia|]. rewrite Nat2Z.inj_succ, Z.pow_succ_r in Hlt by lia. apply Z.div_lt_upper_bound; nia. }
  change (read_from 10 (n / 1000) (String "," (fixed_digits 10 3 (n mod 1000))))
    with (read_from 10 (n / 1000) (fixed_digits 10 3 (n mod 1000))).
  pose proof (Z.mod_pos_bound n 1000 ltac:(lia)). rewrite read_fixed by lia. change (10 ^ Z.of_nat 3) with 1000.
  rewrite Z.mod_mod by lia. pose proof (Z.div_mod n 1000 ltac:(lia)). lia.
Qed.

Lemma read_nonneg comma n : 0 <= n -> read_digits 10 (format_nonneg comma n) = n.
Proof.
  intros Hn. destruct comma; [|by apply read_padded]. apply read_grouped. split; [done|].
  pose proof (log2_fuel n Hn). by rewrite Nat2Z.inj_succ.
Qed.

Lemma read_signed b negative s : read_digits b (signed negative s) = read_digits b s.
Proof. by destruct negative. Qed.

Lemma shifted_nonneg d x : 0 <= f_mant x -> 0 <= shifted d x.
Proof.
  intros Hm. unfold shifted, scaled. assert (0 <= f_mant x * 10 ^ Z.of_nat d) by (apply Z.mul_nonneg_nonneg; [done|apply Z.pow_nonneg; lia]).
  destruct (Z.leb_spec 0 (- f_exp x)) as [H0|H0].
  - assert (0 <= f_mant x * 10 ^ Z.of_nat d / (1 * 2 ^ (- f_exp x))) as Hq
      by (apply Z.div_pos; [done|]; rewrite Z.mul_1_l; by apply Z.pow_pos_nonneg).
    unfold round_half_even. repeat case_match; lia.
  - assert (0 <= f_mant x * 10 ^ Z.of_nat d * 2 ^ (- - f_exp x)) as Hq
      by (apply Z.mul_nonneg_nonneg; [done|apply Z.pow_nonneg; lia]).
    unfold round_half_even. rewrite Z.div_1_r. repeat case_match; lia.
Qed.

(** Half a unit of the last digit is the largest error. *)
Lemma shifted_nearest d x : let '(n, k) := scaled (f_mant x * 10 ^ Z.of_nat d) 1 (- f_exp x) in
  0 < k /\ 2 * (k * shifted d x - n) <= k /\ 2 * (n - k * shifted d x) <= k.
Proof.
  unfold shifted. destruct (scaled _ _ _) as [n k] eqn:E. assert (0 < k) as Hk.
  { unfold scaled in E. destruct (Z.leb_spec 0 (- f_exp x)); injection E as <- <-; [|done].
    rewrite Z.mul_1_l. by apply Z.pow_pos_nonneg. }
  split; [done|]. by apply round_half_even_bound.
Qed.

(** A double is printed with the digits of the nearest decimal. *)
Lemma read_fixed_point comma d x : read_digits 10 (format_fixed comma d x) = shifted d (f64_abs x).
Proof.
  unfold format_fixed. rewrite read_signed. unfold read_digits at 1. rewrite read_app.
  pose proof (shifted_nonneg d (f64_abs x) ltac:(simpl; lia)) as Hn. set (n := shifted d (f64_abs x)) in *.
  assert (0 < 10 ^ Z.of_nat d) as Hp by (apply Z.pow_pos_nonneg; lia).
  change (read_from 10 0 (format_nonneg comma (n / 10 ^ Z.of_nat d))) with (read_digits 10 (format_nonneg comma (n / 10 ^ Z.of_nat d))).
  rewrite read_nonneg by (apply Z.div_pos; lia). pose proof (Z.div_mod n (10 ^ Z.of_nat d) ltac:(lia)).
  destruct d as [|d]; [simpl read_from; change (10 ^ Z.of_nat 0) with 1 in *; rewrite Z.div_1_r; done|].
  cbn [read_from]. change (char_digit ".") with (@None Z). cbn iota beta.
  rewrite read_fixed by (try lia; apply Z.mod_pos_bound; lia). rewrite Z.mod_mod by lia. lia.
Qed.

(** ** Samples *)

Example format_comma_sample : (format_comma 1234567, format_comma 999, format_comma (-1000)) = ("1,234,567", "999", "-1,000")%string.
Proof. vm_compute. reflexivity. Qed.
Example format_fixed_sample :
  (format_fixed true 2 (f64_round 123456789 1000 0), format_fixed false 1 (f64_round 5 100 0), format_fixed true 0 (F64 5 (-1)),
   format_fixed false 3 (F64 0 0)) = ("123,456.79", "0.1", "2", "0.000")%string.
Proof. vm_compute. reflexivity. Qed.
Example format_hex_sample : (format_hex 8 48879, format_hex 8 (2 ^ 32)) = ("0000beef", "100000000")%string.
Proof. vm_compute. reflexivity. Qed.
Example align_right_sample : align_right 6 "1.5" = "   1.5"%string.
Proof. vm_compute. reflexivity. Qed.
