(* ===== verification/Messages.v ===== *)
(** * The texts of the engine's errors ([exceptions.py])

    The class hierarchy, and the message an error carries when it is raised
    without one of its own. *)

From Stdlib Require Import Strings.String Strings.Ascii.
From stdpp Require Import strings.
From S2P Require Import Prelude Float64 Format.

(** ** The hierarchy *)

Inductive ExnClass :=
  | CException
  | CDBError
  | CDBClosedError
  | CDBCorruptedError
  | CDBChecksumError
  | CDBRecordTooLargeError
  | CDBConcurrentPageModificationError
  | CDBBufferPoolOverflowError.

#[export] Instance ExnClass_eq_dec : EqDecision ExnClass.
Proof. solve_decision. Defined.

Definition class_of (e : Exn) : ExnClass :=
  match e with
  | DBClosedError => CDBClosedError
  | DBCorruptedError => CDBCorruptedError
  | DBChecksumError _ _ => CDBChecksumError
  | DBRecordTooLargeError _ _ => CDBRecordTooLargeError
  | DBConcurrentPageModificationError => CDBConcurrentPageModificationError
  | DBBufferPoolOverflowError => CDBBufferPoolOverflowError
  | _ => CException
  end.

(** A class and its bases, the nearest first. *)
Definition bases (c : ExnClass) : list ExnClass :=
  match c with
  | CException => [CException]
  | CDBError => [CDBError; CException]
  | CDBChecksumError => [CDBChecksumError; CDBCorruptedError; CDBError; CException]
  | c => [c; CDBError; CException]
  end.

(** [isinstance(e, c)], the test of [except c:] *)
Definition isinstance (e : Exn) (c : ExnClass) : bool := bool_decide (c ∈ bases (class_of e)).

(** ** The messages *)

Open Scope string_scope.

Definition message (e : Exn) : option string :=
  match e with
  | DBClosedError => Some "The database is not opened"
  | DBCorruptedError => Some "The database is corrupted"
  | DBChecksumError expected actual =>
      Some ("Checksum mismatch: expected 0x" +:+ format_hex 8 expected +:+ ", actual 0x" +:+ format_hex 8 actual)
  | DBRecordTooLargeError limit actual =>
      Some ("The database record is too large (limit: " +:+ format_int limit +:+ " bytes, actual: " +:+
            format_int actual +:+ " bytes)")
  | DBConcurrentPageModificationError => Some "The database was modified during iteration"
  | DBBufferPoolOverflowError => Some "Buffer pool is at capacity, cannot add new pages"
  | _ => None
  end.

Example checksum_message : message (DBChecksumError 0 3735928559) =
  Some "Checksum mismatch: expected 0x00000000, actual 0xdeadbeef".
Proof. vm_compute. reflexivity. Qed.
Example too_large_message : message (DBRecordTooLargeError 804 814) =
  Some "The database record is too large (limit: 804 bytes, actual: 814 bytes)".
Proof. vm_compute. reflexivity. Qed.

Close Scope string_scope.

(** Exactly the errors of the engine have a message of their own. *)
Lemma message_of_db_error e : is_Some (message e) <-> isinstance e CDBError = true.
Proof. unfold isinstance. destruct e; (split; intros H; [try (by destruct H); done|try done; by eexists]). Qed.

Lemma append_length (s t : string) : String.length (s +:+ t) = (String.length s + String.length t)%nat.
Proof. induction s as [|c s IH]; [done|]. change (S (String.length (s +:+ t)) = S (String.length s + String.length t)). by rewrite IH. Qed.

Lemma fixed_digits_length b w : forall n, String.length (fixed_digits b w n) = w.
Proof. induction w as [|w IH]; intros n; [done|]. cbn [fixed_digits]. rewrite append_length, IH. simpl. lia. Qed.

Lemma string_app_inj (a b c d : string) : String.length a = String.length b -> a +:+ c = b +:+ d -> a = b /\ c = d.
Proof.
  revert b. induction a as [|x a IH]; intros [|y b] Hl E; try done. injection E as -> E. injection Hl as Hl.
  by destruct (IH b Hl E) as [-> ->].
Qed.

(** A CRC takes eight hexadecimal digits. *)
Lemma crc_digits n : 0 <= n < 2 ^ 32 -> format_hex 8 n = fixed_digits 16 8 n.
Proof.
  intros Hn. unfold format_hex, padded_digits. f_equal. apply Nat.max_l.
  assert (forall fuel k m, 0 <= m < 16 ^ (Z.of_nat k + 1) -> (count_digits fuel 16 m <= S k)%nat) as H.
  { induction fuel as [|fuel IH]; intros k m Hm; cbn [count_digits]; [lia|].
    destruct (Z.ltb_spec m 16) as [H16|H16]; [lia|]. destruct k as [|k]; [change (16 ^ (Z.of_nat 0 + 1)) with 16 in Hm; lia|].
    apply le_n_S, IH. split; [apply Z.div_pos; lia|]. apply Z.div_lt_upper_bound; [lia|].
    rewrite <-Z.pow_succ_r by lia. replace (Z.succ (Z.of_nat k + 1)) with (Z.of_nat (S k) + 1) by lia. lia. }
  apply (H _ 7%nat). change (16 ^ (Z.of_nat 7 + 1)) with (2 ^ 32). exact Hn.
Qed.

(** The message of a checksum error has both checksums. *)
Lemma checksum_message_inj e1 a1 e2 a2 : 0 <= e1 < 2 ^ 32 -> 0 <= a1 < 2 ^ 32 -> 0 <= e2 < 2 ^ 32 -> 0 <= a2 < 2 ^ 32 ->
  message (DBChecksumError e1 a1) = message (DBChecksumError e2 a2) -> e1 = e2 /\ a1 = a2.
Proof.
  intros H1 H2 H3 H4. unfold message. rewrite !crc_digits by done. intros E%(inj Some).
  apply string_app_inj in E as [_ E]; [|done].
  apply string_app_inj in E as [Ee E]; [|by rewrite !fixed_digits_length].
  apply string_app_inj in E as [_ Ea]; [|done].
  assert (forall x, 0 <= x < 2 ^ 32 -> read_digits 16 (fixed_digits 16 8 x) = x) as Hr.
  { intros x Hx. unfold read_digits. rewrite read_fixed by lia. change (16 ^ Z.of_nat 8) with (2 ^ 32). by rewrite Z.mod_small. }
  split; [rewrite <-(Hr e1), <-(Hr e2) by done; by rewrite Ee|rewrite <-(Hr a1), <-(Hr a2) by done; by rewrite Ea].
Qed.
