(* ===== verification/Pager.v ===== *)
(** * The pager ([pager.py])

    Owns the data file: page reads and writes at page offsets, the meta page,
    and the freelist of reusable pages. *)

From S2P Require Import Prelude Bytes Entities Codec Fs.
From Stdlib Require Import Strings.Byte.

Definition META_PAGE_ID : Z := 0.
Definition DEFAULT_ROOT_PAGE_ID : Z := 1.

Record PagerStats := {
  page_reads : Z;
  page_writes : Z;
  pages_allocated : Z;
  pages_freed : Z;
  pages_reused_from_freelist : Z;
  meta_flushes : Z;
  pager_fsyncs : Z;
}.

Definition pager_stats_zero : PagerStats :=
  {| page_reads := 0; page_writes := 0; pages_allocated := 0; pages_freed := 0;
     pages_reused_from_freelist := 0; meta_flushes := 0; pager_fsyncs := 0 |}.

Inductive PagerCounter :=
  | CPageReads | CPageWrites | CPagesAllocated | CPagesFreed
  | CPagesReused | CMetaFlushes | CPagerFsyncs.

(** [self.stats.<counter> += 1] *)
Definition bump_stat (c : PagerCounter) (s : PagerStats) : PagerStats :=
  let inc c' n := match c, c' with
    | CPageReads, CPageReads | CPageWrites, CPageWrites | CPagesAllocated, CPagesAllocated
    | CPagesFreed, CPagesFreed | CPagesReused, CPagesReused | CMetaFlushes, CMetaFlushes
    | CPagerFsyncs, CPagerFsyncs => n + 1
    | _, _ => n
    end in
  {| page_reads := inc CPageReads (page_reads s);
     page_writes := inc CPageWrites (page_writes s);
     pages_allocated := inc CPagesAllocated (pages_allocated s);
     pages_freed := inc CPagesFreed (pages_freed s);
     pages_reused_from_freelist := inc CPagesReused (pages_reused_from_freelist s);
     meta_flushes := inc CMetaFlushes (meta_flushes s);
     pager_fsyncs := inc CPagerFsyncs (pager_fsyncs s) |}.

(** [pg_disk] is the file at [self.path], [None] while it does not exist;
    [pg_is_open] says that [self._file] is not [None]. *)
Record Pager := {
  pg_disk : option File;
  pg_is_open : bool;
  pg_page_size_bytes : Z;
  pg_meta_page : option MetaPage;
  pg_is_meta_dirty : bool;
  pg_freelist_cache : gmap Z FreelistPage;
  pg_dirty_freelist_page_ids : gset Z;
  pg_stats : PagerStats;
}.

Definition set_disk (f : File) (p : Pager) : Pager :=
  {| pg_disk := Some f; pg_is_open := pg_is_open p; pg_page_size_bytes := pg_page_size_bytes p;
     pg_meta_page := pg_meta_page p; pg_is_meta_dirty := pg_is_meta_dirty p;
     pg_freelist_cache := pg_freelist_cache p;
     pg_dirty_freelist_page_ids := pg_dirty_freelist_page_ids p; pg_stats := pg_stats p |}.
Definition set_is_open (b : bool) (p : Pager) : Pager :=
  {| pg_disk := pg_disk p; pg_is_open := b; pg_page_size_bytes := pg_page_size_bytes p;
     pg_meta_page := pg_meta_page p; pg_is_meta_dirty := pg_is_meta_dirty p;
     pg_freelist_cache := pg_freelist_cache p;
     pg_dirty_freelist_page_ids := pg_dirty_freelist_page_ids p; pg_stats := pg_stats p |}.
Definition set_page_size (n : Z) (p : Pager) : Pager :=
  {| pg_disk := pg_disk p; pg_is_open := pg_is_open p; pg_page_size_bytes := n;
     pg_meta_page := pg_meta_page p; pg_is_meta_dirty := pg_is_meta_dirty p;
     pg_freelist_cache := pg_freelist_cache p;
     pg_dirty_freelist_page_ids := pg_dirty_freelist_page_ids p; pg_stats := pg_stats p |}.
Definition set_meta (m : MetaPage) (dirty : bool) (p : Pager) : Pager :=
  {| pg_disk := pg_disk p; pg_is_open := pg_is_open p; pg_page_size_bytes := pg_page_size_bytes p;
     pg_meta_page := Some m; pg_is_meta_dirty := dirty;
     pg_freelist_cache := pg_freelist_cache p;
     pg_dirty_freelist_page_ids := pg_dirty_freelist_page_ids p; pg_stats := pg_stats p |}.
Definition set_freelists (c : gmap Z FreelistPage) (d : gset Z) (p : Pager) : Pager :=
  {| pg_disk := pg_disk p; pg_is_open := pg_is_open p; pg_page_size_bytes := pg_page_size_bytes p;
     pg_meta_page := pg_meta_page p; pg_is_meta_dirty := pg_is_meta_dirty p;
     pg_freelist_cache := c; pg_dirty_freelist_page_ids := d; pg_stats := pg_stats p |}.
Definition bump (c : PagerCounter) (p : Pager) : Pager :=
  {| pg_disk := pg_disk p; pg_is_open := pg_is_open p; pg_page_size_bytes := pg_page_size_bytes p;
     pg_meta_page := pg_meta_page p; pg_is_meta_dirty := pg_is_meta_dirty p;
     pg_freelist_cache := pg_freelist_cache p;
     pg_dirty_freelist_page_ids := pg_dirty_freelist_page_ids p;
     pg_stats := bump_stat c (pg_stats p) |}.

(** [Pager.__init__], on a path whose file is [disk]. *)
Definition pager_init (disk : option File) (page_size_bytes : Z) : Result Pager :=
  if page_size_bytes <? MIN_PAGE_SIZE then Raise ValueError
  else Ok {| pg_disk := disk; pg_is_open := false; pg_page_size_bytes := page_size_bytes;
             pg_meta_page := None; pg_is_meta_dirty := false; pg_freelist_cache := ∅;
             pg_dirty_freelist_page_ids := ∅; pg_stats := pager_stats_zero |}.

(** [assert self._file is not None], giving the file. *)
Definition open_file : M Pager File :=
  p ← get_state;
  match pg_is_open p, pg_disk p with
  | true, Some f => mret f
  | _, _ => raise AssertionError
  end.

(** [assert self._meta_page is not None], giving the meta page. *)
Definition meta_page : M Pager MetaPage :=
  p ← get_state;
  match pg_meta_page p with
  | Some m => mret m
  | None => raise AssertionError
  end.

Definition page_count : M Pager Z :=
  m ← meta_page;
  mret (next_page_id m).

Definition read_page (page_id : Z) : M Pager bytes :=
  f ← open_file;
  p ← get_state;
  let data := read_at f (page_id * pg_page_size_bytes p) (pg_page_size_bytes p) in
  if negb (page_id =? META_PAGE_ID) && negb (len data =? pg_page_size_bytes p)
  then raise DBCorruptedError
  else modify (bump CPageReads);; mret data.

Definition write_page (page_id : Z) (data : bytes) : M Pager unit :=
  f ← open_file;
  p ← get_state;
  modify (set_disk (write_at f (page_id * pg_page_size_bytes p) data));;
  modify (bump CPageWrites).

Definition fsync : M Pager unit :=
  f ← open_file;
  modify (set_disk (fsync_file f));;
  modify (bump CPagerFsyncs).

(** [get_meta] returns a copy. *)
Definition get_meta : M Pager MetaPage := meta_page.

(** [update_meta]: the keyword arguments are an update of the fields. *)
Definition update_meta (fields : MetaPage -> MetaPage) : M Pager unit :=
  m ← meta_page;
  modify (set_meta (fields m) true).

Definition with_root (r : Z) (m : MetaPage) : MetaPage :=
  {| page_size_bytes := page_size_bytes m; root_page_id := r; next_page_id := next_page_id m;
     freelist_head_page_id := freelist_head_page_id m;
     last_checkpoint_lsn := last_checkpoint_lsn m |}.
Definition with_next (n : Z) (m : MetaPage) : MetaPage :=
  {| page_size_bytes := page_size_bytes m; root_page_id := root_page_id m; next_page_id := n;
     freelist_head_page_id := freelist_head_page_id m;
     last_checkpoint_lsn := last_checkpoint_lsn m |}.
Definition with_freelist_head (h : Z) (m : MetaPage) : MetaPage :=
  {| page_size_bytes := page_size_bytes m; root_page_id := root_page_id m;
     next_page_id := next_page_id m; freelist_head_page_id := h;
     last_checkpoint_lsn := last_checkpoint_lsn m |}.
Definition with_checkpoint_lsn (l : Z) (m : MetaPage) : MetaPage :=
  {| page_size_bytes := page_size_bytes m; root_page_id := root_page_id m;
     next_page_id := next_page_id m; freelist_head_page_id := freelist_head_page_id m;
     last_checkpoint_lsn := l |}.

Definition flush_meta : M Pager unit :=
  m ← meta_page;
  data ← lift (encode_meta_page m);
  write_page META_PAGE_ID data;;
  modify (set_meta m false);;
  modify (bump CMetaFlushes).

Definition extend_file_by_one_page : M Pager unit :=
  f ← open_file;
  p ← get_state;
  zeros ← lift (py_zeros x00 (pg_page_size_bytes p));
  modify (set_disk (append_data f zeros)).

Definition bump_allocate_one_page : M Pager Z :=
  m ← meta_page;
  let page_id := next_page_id m in
  extend_file_by_one_page;;
  update_meta (with_next (page_id + 1));;
  modify (bump CPagesAllocated);;
  mret page_id.

(** ** The freelist *)

Definition get_freelist_page (page_id : Z) : M Pager FreelistPage :=
  p ← get_state;
  match pg_freelist_cache p !! page_id with
  | Some page => mret page
  | None =>
      data ← read_page page_id;
      page ← lift (decode_page data);
      match page with
      | PFreelist page =>
          modify (fun p => set_freelists (<[page_id := page]> (pg_freelist_cache p))
                             (pg_dirty_freelist_page_ids p) p);;
          mret page
      | _ => raise AssertionError
      end
  end.

Definition read_freelist_head_page : M Pager FreelistPage :=
  m ← meta_page;
  get_freelist_page (freelist_head_page_id m).

Definition mark_freelist_page_dirty (page_id : Z) (page : FreelistPage) : M Pager unit :=
  modify (fun p => set_freelists (<[page_id := page]> (pg_freelist_cache p))
                     ({[page_id]} ∪ pg_dirty_freelist_page_ids p) p).

(** [_freelist_cache.pop(page_id, None); _dirty_freelist_page_ids.discard(page_id)] *)
Definition forget_freelist_page (page_id : Z) : M Pager unit :=
  modify (fun p => set_freelists (delete page_id (pg_freelist_cache p))
                     (pg_dirty_freelist_page_ids p ∖ {[page_id]}) p).

Definition set_freed_page_ids (ids : list Z) (p : FreelistPage) : FreelistPage :=
  {| freelist_lsn := freelist_lsn p; next_freelist_page_id := next_freelist_page_id p;
     freed_page_ids := ids |}.

Definition flush_dirty_freelist_pages : M Pager unit :=
  p ← get_state;
  mfor (merge_sort Z.le (elements (pg_dirty_freelist_page_ids p))) (fun page_id =>
    p ← get_state;
    match pg_freelist_cache p !! page_id with
    | None => mret tt
    | Some page =>
        data ← lift (encode_page (PFreelist page) (pg_page_size_bytes p));
        write_page page_id data
    end);;
  modify (fun p => set_freelists (pg_freelist_cache p) ∅ p).

Definition allocate_page : M Pager Z :=
  m ← meta_page;
  let head := freelist_head_page_id m in
  if negb (head =? 0) then
    freelist_page ← read_freelist_head_page;
    match py_pop (freed_page_ids freelist_page) (-1) with
    | Ok (page_id, rest) =>
        mark_freelist_page_dirty head (set_freed_page_ids rest freelist_page);;
        forget_freelist_page page_id;;
        modify (bump CPagesReused);;
        mret page_id
    | Raise _ =>
        (* The head page is exhausted: recycle it. *)
        update_meta (with_freelist_head (next_freelist_page_id freelist_page));;
        forget_freelist_page head;;
        modify (bump CPagesReused);;
        mret head
    end
  else bump_allocate_one_page.

(** The tail of [free_page]: a freshly grown page becomes the freelist head. *)
Definition push_freelist_head (page_id : Z) : M Pager unit :=
  new_head_page_id ← bump_allocate_one_page;
  m ← meta_page;
  mark_freelist_page_dirty new_head_page_id
    {| freelist_lsn := 0; next_freelist_page_id := freelist_head_page_id m;
       freed_page_ids := [page_id] |};;
  update_meta (with_freelist_head new_head_page_id).

Definition free_page (page_id : Z) : M Pager unit :=
  m ← meta_page;
  modify (bump CPagesFreed);;
  let head := freelist_head_page_id m in
  if negb (head =? 0) then
    freelist_page ← read_freelist_head_page;
    p ← get_state;
    let max_entries := get_max_freed_ids_per_freelist_page (pg_page_size_bytes p) in
    if len (freed_page_ids freelist_page) <? max_entries then
      mark_freelist_page_dirty head
        (set_freed_page_ids (freed_page_ids freelist_page ++ [page_id]) freelist_page)
    else push_freelist_head page_id
  else push_freelist_head page_id.

(** ** Opening and closing *)

Definition bootstrap_initial_db : M Pager unit :=
  p ← get_state;
  modify (set_meta {| page_size_bytes := pg_page_size_bytes p;
                      root_page_id := DEFAULT_ROOT_PAGE_ID;
                      next_page_id := DEFAULT_ROOT_PAGE_ID;
                      freelist_head_page_id := 0; last_checkpoint_lsn := 0 |}
            (pg_is_meta_dirty p));;
  leaf_page_id ← allocate_page;
  data ← lift (encode_page (PLeaf {| leaf_lsn := 0; right_sibling_page_id := 0;
                                     leaf_slots := [] |}) (pg_page_size_bytes p));
  write_page leaf_page_id data;;
  flush_meta;;
  fsync.

Definition pager_open : M Pager unit :=
  p ← get_state;
  if pg_is_open p then mret tt
  else match pg_disk p with
  | None =>
      modify (set_disk empty_file);;
      modify (set_is_open true);;
      bootstrap_initial_db
  | Some _ =>
      modify (set_is_open true);;
      data ← read_page META_PAGE_ID;
      m ← lift (decode_meta_page data);
      p ← get_state;
      modify (set_meta m (pg_is_meta_dirty p));;
      modify (set_page_size (page_size_bytes m))
  end.

Definition pager_close : M Pager unit :=
  p ← get_state;
  if negb (pg_is_open p) then mret tt
  else
    when (negb (bool_decide (pg_dirty_freelist_page_ids p = ∅))) flush_dirty_freelist_pages;;
    p ← get_state;
    when (pg_is_meta_dirty p) flush_meta;;
    fsync;;
    modify (set_is_open false);;
    modify (set_freelists ∅ ∅).

(** [with Pager(...) as pager:] *)
Definition pager_enter : M Pager unit := pager_open.
Definition pager_exit : M Pager bool := pager_close;; mret false.
