(* ===== verification/Cache.v ===== *)
(** * The buffer pool ([cache.py])

    An LRU cache of decoded pages.  The pool hands out references: a page
    object lives in a heap, the cache entry and the local variables of the
    tree's operations hold its address, and an evicted object stays reachable
    through those variables only. *)

From S2P Require Import Prelude Bytes Entities Codec Fs Pager Float64.

(** ** The object heap *)

Abbreviation loc := Z.

Record Heap := { heap_next : loc; heap_objects : gmap loc Page }.

Definition empty_heap : Heap := {| heap_next := 0; heap_objects := ∅ |}.

(** ** The pool *)

Record CachedPage := { cp_page : loc; cp_is_dirty : bool }.

Record BufferPoolStats := {
  cache_hits : Z;
  cache_misses : Z;
  evictions : Z;
  flushes : Z;
  dirty_pages_flushed : Z;
}.

Definition pool_stats_zero : BufferPoolStats :=
  {| cache_hits := 0; cache_misses := 0; evictions := 0; flushes := 0; dirty_pages_flushed := 0 |}.

(** [bp_cache] is the [OrderedDict], oldest entry first. *)
Record BufferPool := {
  bp_capacity_pages : Z;
  bp_cache : list (Z * CachedPage);
  bp_eviction_enabled : bool;
  bp_stats : BufferPoolStats;
}.

Definition pool_init (capacity_pages : Z) : BufferPool :=
  {| bp_capacity_pages := capacity_pages; bp_cache := []; bp_eviction_enabled := true;
     bp_stats := pool_stats_zero |}.

(** The pager, the pool and the objects they share. *)
Record Store := { st_pager : Pager; st_pool : BufferPool; st_heap : Heap }.

Definition set_pager (p : Pager) (s : Store) : Store :=
  {| st_pager := p; st_pool := st_pool s; st_heap := st_heap s |}.
Definition set_cache (c : list (Z * CachedPage)) (s : Store) : Store :=
  {| st_pager := st_pager s;
     st_pool := {| bp_capacity_pages := bp_capacity_pages (st_pool s); bp_cache := c;
                   bp_eviction_enabled := bp_eviction_enabled (st_pool s);
                   bp_stats := bp_stats (st_pool s) |};
     st_heap := st_heap s |}.
Definition set_eviction (b : bool) (s : Store) : Store :=
  {| st_pager := st_pager s;
     st_pool := {| bp_capacity_pages := bp_capacity_pages (st_pool s);
                   bp_cache := bp_cache (st_pool s); bp_eviction_enabled := b;
                   bp_stats := bp_stats (st_pool s) |};
     st_heap := st_heap s |}.
Definition set_pool_stats (t : BufferPoolStats) (s : Store) : Store :=
  {| st_pager := st_pager s;
     st_pool := {| bp_capacity_pages := bp_capacity_pages (st_pool s);
                   bp_cache := bp_cache (st_pool s);
                   bp_eviction_enabled := bp_eviction_enabled (st_pool s);
                   bp_stats := t |};
     st_heap := st_heap s |}.
Definition set_heap (h : Heap) (s : Store) : Store :=
  {| st_pager := st_pager s; st_pool := st_pool s; st_heap := h |}.

Definition on_pager {A} (m : M Pager A) : M Store A := zoom st_pager set_pager m.

Definition cache_of (s : Store) : list (Z * CachedPage) := bp_cache (st_pool s).

Definition add_hit (t : BufferPoolStats) : BufferPoolStats :=
  {| cache_hits := cache_hits t + 1; cache_misses := cache_misses t; evictions := evictions t;
     flushes := flushes t; dirty_pages_flushed := dirty_pages_flushed t |}.
Definition add_miss (t : BufferPoolStats) : BufferPoolStats :=
  {| cache_hits := cache_hits t; cache_misses := cache_misses t + 1; evictions := evictions t;
     flushes := flushes t; dirty_pages_flushed := dirty_pages_flushed t |}.
Definition add_eviction (t : BufferPoolStats) : BufferPoolStats :=
  {| cache_hits := cache_hits t; cache_misses := cache_misses t; evictions := evictions t + 1;
     flushes := flushes t; dirty_pages_flushed := dirty_pages_flushed t |}.
Definition add_flush (t : BufferPoolStats) : BufferPoolStats :=
  {| cache_hits := cache_hits t; cache_misses := cache_misses t; evictions := evictions t;
     flushes := flushes t + 1; dirty_pages_flushed := dirty_pages_flushed t |}.
Definition add_dirty_flushed (t : BufferPoolStats) : BufferPoolStats :=
  {| cache_hits := cache_hits t; cache_misses := cache_misses t; evictions := evictions t;
     flushes := flushes t; dirty_pages_flushed := dirty_pages_flushed t + 1 |}.

Definition count_stat (f : BufferPoolStats -> BufferPoolStats) : M Store unit :=
  modify (fun s => set_pool_stats (f (bp_stats (st_pool s))) s).

(** ** Objects *)

(** Reading an object through a reference. *)
Definition deref (l : loc) : M Store Page :=
  s ← get_state;
  match heap_objects (st_heap s) !! l with
  | Some p => mret p
  | None => raise KeyError
  end.

(** Mutating an object in place. *)
Definition assign (l : loc) (p : Page) : M Store unit :=
  modify (fun s => set_heap {| heap_next := heap_next (st_heap s);
                               heap_objects := <[l := p]> (heap_objects (st_heap s)) |} s).

(** Creating an object. *)
Definition new_object (p : Page) : M Store loc :=
  s ← get_state;
  let l := heap_next (st_heap s) in
  modify (set_heap {| heap_next := l + 1;
                      heap_objects := <[l := p]> (heap_objects (st_heap s)) |});;
  mret l.

(** ** The ordered dictionary *)

Fixpoint cache_find (page_id : Z) (c : list (Z * CachedPage)) : option CachedPage :=
  match c with
  | [] => None
  | (k, cp) :: c' => if decide (k = page_id) then Some cp else cache_find page_id c'
  end.

(** [del self._cache[page_id]], or [pop(page_id, None)]. *)
Definition cache_remove (page_id : Z) (c : list (Z * CachedPage)) : list (Z * CachedPage) :=
  filter (fun e => fst e <> page_id) c.

(** [move_to_end(page_id)] *)
Definition cache_move_to_end (page_id : Z) (cp : CachedPage) (c : list (Z * CachedPage))
    : list (Z * CachedPage) :=
  cache_remove page_id c ++ [(page_id, cp)].

(** Setting the dirty bit of an entry where it stands. *)
Definition cache_set_dirty (page_id : Z) (d : bool) (c : list (Z * CachedPage))
    : list (Z * CachedPage) :=
  (fun e => if decide (fst e = page_id)
            then (fst e, {| cp_page := cp_page (snd e); cp_is_dirty := d |}) else e) <$> c.

Definition dirty_entries (c : list (Z * CachedPage)) : list (Z * CachedPage) :=
  filter (fun e => cp_is_dirty (snd e) = true) c.

Definition dirty_count (s : Store) : Z := len (dirty_entries (cache_of s)).

Definition dirty_ratio (s : Store) : Result f64 :=
  f64_div_int (dirty_count s) (bp_capacity_pages (st_pool s)).

Definition get_dirty_page_ids (s : Store) : list Z := fst <$> dirty_entries (cache_of s).

(** ** Operations *)

(** [eviction_disabled]: the previous flag is restored also on an exception. *)
Definition eviction_disabled {S A} (get : S -> Store) (set : Store -> S -> S) (m : M S A) : M S A :=
  fun s =>
    let previous := bp_eviction_enabled (st_pool (get s)) in
    let '(s', r) := m (set (set_eviction false (get s)) s) in
    (set (set_eviction previous (get s')) s', r).

Definition evict_oldest_clean_page_if_full : M Store unit :=
  s ← get_state;
  if negb (bp_eviction_enabled (st_pool s)) then mret tt
  else if bp_capacity_pages (st_pool s) <=? len (cache_of s) then
    match list_find (fun e => cp_is_dirty (snd e) = false) (cache_of s) with
    | None => raise DBBufferPoolOverflowError
    | Some (_, (page_id_to_evict, _)) =>
        modify (set_cache (cache_remove page_id_to_evict (cache_of s)));;
        count_stat add_eviction
    end
  else mret tt.

Definition pool_get (page_id : Z) : M Store loc :=
  s ← get_state;
  match cache_find page_id (cache_of s) with
  | Some cp =>
      modify (set_cache (cache_move_to_end page_id cp (cache_of s)));;
      count_stat add_hit;;
      mret (cp_page cp)
  | None =>
      evict_oldest_clean_page_if_full;;
      data ← on_pager (read_page page_id);
      page ← lift (decode_page data);
      match page with
      | PFreelist _ => raise AssertionError
      | _ =>
          l ← new_object page;
          modify (fun s => set_cache (cache_of s ++
                    [(page_id, {| cp_page := l; cp_is_dirty := false |})]) s);;
          count_stat add_miss;;
          mret l
      end
  end.

(** [page] is a newly created object. *)
Definition pool_insert (page_id : Z) (page : loc) (lsn : Z) : M Store unit :=
  s ← get_state;
  py_assert (bool_decide (cache_find page_id (cache_of s) = None));;
  evict_oldest_clean_page_if_full;;
  p ← deref page;
  assign page (set_page_lsn lsn p);;
  modify (fun s => set_cache (cache_of s ++
            [(page_id, {| cp_page := page; cp_is_dirty := true |})]) s).

Definition mark_dirty (page_id : Z) (lsn : Z) : M Store unit :=
  s ← get_state;
  match cache_find page_id (cache_of s) with
  | None => raise KeyError
  | Some cp =>
      modify (set_cache (cache_set_dirty page_id true (cache_of s)));;
      p ← deref (cp_page cp);
      assign (cp_page cp) (set_page_lsn (Z.max (page_lsn p) lsn) p)
  end.

Definition pool_delete (page_id : Z) : M Store unit :=
  modify (fun s => set_cache (cache_remove page_id (cache_of s)) s).

(** One round of the loop of [flush_all]. *)
Definition flush_entry (e : Z * CachedPage) : M Store unit :=
  if cp_is_dirty (snd e) then
    page ← deref (cp_page (snd e));
    s ← get_state;
    data ← lift (encode_page page (pg_page_size_bytes (st_pager s)));
    on_pager (write_page (fst e) data);;
    modify (fun s => set_cache (cache_set_dirty (fst e) false (cache_of s)) s);;
    count_stat add_dirty_flushed
  else mret tt.

Definition flush_all : M Store unit :=
  count_stat add_flush;;
  s ← get_state;
  mfor (cache_of s) flush_entry.
