(* ===== verification/Tree.v ===== *)
(** * The B+ tree ([tree.py])

    Search, insertion, deletion, range scans, and the rebalancing cascade.
    Every operation works on page objects through references obtained from the
    buffer pool, as in the source. *)

From S2P Require Import Prelude Bytes Float64 Entities Codec Fs Pager Cache.

Record PathItem := { parent_page_id : Z; parent_slot_index : Z }.

Record LeafSearchResult := {
  leaf_page_id : Z;
  leaf_page : loc;
  leaf_path : list PathItem;
}.

Record TreeStats := {
  leaf_splits : Z;
  internal_splits : Z;
  leaf_merges : Z;
  internal_merges : Z;
  leaf_redistributes : Z;
  internal_redistributes : Z;
  root_collapses : Z;
}.

Definition tree_stats_zero : TreeStats :=
  {| leaf_splits := 0; internal_splits := 0; leaf_merges := 0; internal_merges := 0;
     leaf_redistributes := 0; internal_redistributes := 0; root_collapses := 0 |}.

Inductive TreeCounter :=
  | CLeafSplits | CInternalSplits | CLeafMerges | CInternalMerges
  | CLeafRedistributes | CInternalRedistributes | CRootCollapses.

Definition bump_tree_stat (c : TreeCounter) (s : TreeStats) : TreeStats :=
  let inc c' n := match c, c' with
    | CLeafSplits, CLeafSplits | CInternalSplits, CInternalSplits
    | CLeafMerges, CLeafMerges | CInternalMerges, CInternalMerges
    | CLeafRedistributes, CLeafRedistributes
    | CInternalRedistributes, CInternalRedistributes
    | CRootCollapses, CRootCollapses => n + 1
    | _, _ => n
    end in
  {| leaf_splits := inc CLeafSplits (leaf_splits s);
     internal_splits := inc CInternalSplits (internal_splits s);
     leaf_merges := inc CLeafMerges (leaf_merges s);
     internal_merges := inc CInternalMerges (internal_merges s);
     leaf_redistributes := inc CLeafRedistributes (leaf_redistributes s);
     internal_redistributes := inc CInternalRedistributes (internal_redistributes s);
     root_collapses := inc CRootCollapses (root_collapses s) |}.

(** The tree with the pager and the pool it refers to. *)
Record BPlusTree := { tr_store : Store; tr_stats : TreeStats }.

Definition set_store (s : Store) (t : BPlusTree) : BPlusTree :=
  {| tr_store := s; tr_stats := tr_stats t |}.

Definition in_store {A} (m : M Store A) : M BPlusTree A := zoom tr_store set_store m.
Definition in_pager {A} (m : M Pager A) : M BPlusTree A := in_store (on_pager m).

Definition count_tree (c : TreeCounter) : M BPlusTree unit :=
  modify (fun t => {| tr_store := tr_store t; tr_stats := bump_tree_stat c (tr_stats t) |}).

Definition tree_page_size_bytes : M BPlusTree Z :=
  m ← in_pager get_meta;
  mret (page_size_bytes m).

Definition tree_root_page_id : M BPlusTree Z :=
  m ← in_pager get_meta;
  mret (root_page_id m).

(** ** Sizes and thresholds *)

Definition HALF_FULL_THRESHOLD : f64 := f64_two_fifths.

(** The two tests on a page of a tree whose page size is [ps]. *)
Definition page_overpopulated (ps : Z) (page : Page) : bool :=
  ps <? calculate_page_size page.

Definition page_underpopulated (ps : Z) (page : Page) : bool :=
  f64_ltb (f64_of_int (calculate_page_size page)) (f64_mul HALF_FULL_THRESHOLD (f64_of_int ps)).

Definition is_page_overpopulated (page : Page) : M BPlusTree bool :=
  ps ← tree_page_size_bytes;
  mret (page_overpopulated ps page).

Definition is_page_underpopulated (page : Page) : M BPlusTree bool :=
  ps ← tree_page_size_bytes;
  mret (page_underpopulated ps page).

Definition raise_if_record_too_large (key value : bytes) : M BPlusTree unit :=
  ps ← tree_page_size_bytes;
  let max_leaf_record_size := get_max_leaf_record_size ps in
  let current_leaf_record_size := calculate_leaf_record_size key value in
  if max_leaf_record_size <? current_leaf_record_size
  then raise (DBRecordTooLargeError max_leaf_record_size current_leaf_record_size)
  else mret tt.

(** ** Descent *)

(** The child an internal page routes a key to, with the slot index followed. *)
Definition route (p : InternalPage) (key : bytes) : Result (Z * Z) :=
  let slot_idx := Z.of_nat (bisect_right bytes_ltb (islot_key <$> internal_slots p) key) - 1 in
  if slot_idx =? -1 then Ok (slot_idx, leftmost_child_page_id p)
  else slot ← py_get (internal_slots p) slot_idx; mret (slot_idx, child_page_id slot).

Fixpoint descend (fuel : nat) (key : bytes) (page_id : Z) (page : loc) (path : list PathItem)
    : M BPlusTree LeafSearchResult :=
  p ← in_store (deref page);
  match p with
  | PInternal ip =>
      match fuel with
      | O => raise OutOfFuel
      | S fuel =>
          '(slot_idx, child) ← lift (route ip key);
          let path := path ++ [{| parent_page_id := page_id; parent_slot_index := slot_idx |}] in
          child_page ← in_store (pool_get child);
          descend fuel key child child_page path
      end
  | _ => mret {| leaf_page_id := page_id; leaf_page := page; leaf_path := path |}
  end.

(** A descent of an acyclic tree visits each page at most once, so the number
    of pages bounds its length. *)
Definition find_leaf (key : bytes) : M BPlusTree LeafSearchResult :=
  fuel ← in_pager page_count;
  page_id ← tree_root_page_id;
  page ← in_store (pool_get page_id);
  descend (Z.to_nat fuel) key page_id page [].

(** A page object known to be a leaf or an internal page. *)
Definition deref_leaf (l : loc) : M BPlusTree LeafPage :=
  p ← in_store (deref l);
  match p with PLeaf p => mret p | _ => raise AssertionError end.

Definition deref_internal (l : loc) : M BPlusTree InternalPage :=
  p ← in_store (deref l);
  match p with PInternal p => mret p | _ => raise AssertionError end.

(** [bisect.bisect_left(leaf_page.slots, key, key=_KEY_GETTER)] *)
Definition leaf_position (slots : list LeafSlot) (key : bytes) : nat :=
  bisect_left bytes_ltb (lslot_key <$> slots) key.

(** The slot at the position of a key, if it holds that key. *)
Definition leaf_lookup (slots : list LeafSlot) (key : bytes) : option LeafSlot :=
  slot ← slots !! leaf_position slots key;
  if decide (lslot_key slot = key) then Some slot else None.

Definition search (key : bytes) : M BPlusTree (option bytes) :=
  r ← find_leaf key;
  p ← deref_leaf (leaf_page r);
  mret (lslot_value <$> leaf_lookup (leaf_slots p) key).

(** ** Splitting *)

(** [slot_cumulative_sizes] *)
Fixpoint cumulative (acc : Z) (sizes : list Z) : list Z :=
  match sizes with
  | [] => []
  | x :: sizes' => (acc + x) :: cumulative (acc + x) sizes'
  end.

(** The two halves of a hypothetical split. *)
Definition split_halves (page : Page) (split_slot_idx : nat) : Result (Page * Page) :=
  match page with
  | PLeaf p =>
      let half slots := PLeaf {| leaf_lsn := 0; right_sibling_page_id := 0; leaf_slots := slots |} in
      Ok (half (take split_slot_idx (leaf_slots p)), half (drop split_slot_idx (leaf_slots p)))
  | PInternal p =>
      let half slots := PInternal {| internal_lsn := 0; leftmost_child_page_id := 0;
                                     internal_slots := slots |} in
      Ok (half (take split_slot_idx (internal_slots p)),
          half (drop (S split_slot_idx) (internal_slots p)))
  | PFreelist _ => Raise ValueError
  end.

Definition split_halves_are_balanced (ps : Z) (page : Page) (split_slot_idx : nat) : bool :=
  match split_halves page split_slot_idx with
  | Ok (lhs, rhs) => negb (page_underpopulated ps lhs || page_underpopulated ps rhs)
  | Raise _ => false
  end.

(** [0, +1, -1, +2, -2, ...] *)
Definition split_offsets (slot_count : nat) : list Z :=
  0 :: flat_map (fun offset => [Z.of_nat offset; - Z.of_nat offset]) (seq 1 (slot_count - 1)).

Definition choose_split_point (ps : Z) (page : Page) (slot_cumulative_sizes : list Z)
    : Result nat :=
  total_body ← py_get slot_cumulative_sizes (-1);
  let byte_midpoint := bisect_right Z.ltb slot_cumulative_sizes (total_body / 2) in
  let slot_count := length slot_cumulative_sizes in
  let acceptable offset :=
    let candidate := Z.of_nat byte_midpoint + offset in
    (1 <=? candidate) && (candidate <? Z.of_nat slot_count)
      && split_halves_are_balanced ps page (Z.to_nat candidate) in
  mret (match list_find (fun offset => acceptable offset = true) (split_offsets slot_count) with
        | Some (_, offset) => Z.to_nat (Z.of_nat byte_midpoint + offset)
        | None => byte_midpoint
        end).

Definition split_slot_index (ps : Z) (page : Page) : Result nat :=
  choose_split_point ps page (cumulative 0 (page_slot_sizes page)).

(** The left half, the new sibling and the promoted key of a split at [i], the
    new sibling having the page id [new_id]. *)
Definition split_leaf (p : LeafPage) (i : nat) (new_id lsn : Z) : LeafPage * LeafPage :=
  (set_right_sibling new_id (set_leaf_slots (take i (leaf_slots p)) p),
   {| leaf_lsn := lsn; right_sibling_page_id := right_sibling_page_id p;
      leaf_slots := drop i (leaf_slots p) |}).

Definition split_internal (p : InternalPage) (i : nat) (median : InternalSlot) (lsn : Z)
    : InternalPage * InternalPage :=
  (set_internal_slots (take i (internal_slots p)) p,
   {| internal_lsn := lsn; leftmost_child_page_id := child_page_id median;
      internal_slots := drop (S i) (internal_slots p) |}).

(** [bisect.insort(parent_page.slots, slot, key=_KEY_GETTER)] *)
Definition insort_internal (slot : InternalSlot) (slots : list InternalSlot) : list InternalSlot :=
  py_insert slots (bisect_right bytes_ltb (islot_key <$> slots) (islot_key slot)) slot.

Definition insort_leaf (slot : LeafSlot) (slots : list LeafSlot) : list LeafSlot :=
  py_insert slots (bisect_right bytes_ltb (lslot_key <$> slots) (lslot_key slot)) slot.

(** The mutation of the page and the creation of its sibling: the id and the
    object of the sibling, and the promoted key. *)
Definition split_page_objects (page : loc) (lsn : Z) : M BPlusTree (Z * loc * bytes) :=
  ps ← tree_page_size_bytes;
  p ← in_store (deref page);
  i ← lift (split_slot_index ps p);
  match p with
  | PLeaf lp =>
      new_sibling_page_id ← in_pager allocate_page;
      let '(lhs, rhs) := split_leaf lp i new_sibling_page_id lsn in
      first ← lift (py_get (leaf_slots rhs) 0);
      in_store (assign page (PLeaf lhs));;
      new_sibling_page ← in_store (new_object (PLeaf rhs));
      count_tree CLeafSplits;;
      mret (new_sibling_page_id, new_sibling_page, lslot_key first)
  | PInternal ip =>
      new_sibling_page_id ← in_pager allocate_page;
      median ← lift (py_get (internal_slots ip) (Z.of_nat i));
      let '(lhs, rhs) := split_internal ip i median lsn in
      in_store (assign page (PInternal lhs));;
      new_sibling_page ← in_store (new_object (PInternal rhs));
      count_tree CInternalSplits;;
      mret (new_sibling_page_id, new_sibling_page, islot_key median)
  | PFreelist _ => raise ValueError
  end.

Definition split_page (page_id : Z) (parent_page_id : option Z) (page : loc) (lsn : Z)
    : M BPlusTree (Z * loc) :=
  '(new_sibling_page_id, new_sibling_page, promoted_key) ← split_page_objects page lsn;
  in_store (mark_dirty page_id lsn);;
  in_store (pool_insert new_sibling_page_id new_sibling_page lsn);;
  let slot := {| islot_key := promoted_key; child_page_id := new_sibling_page_id |} in
  match parent_page_id with
  | None =>
      new_root_page_id ← in_pager allocate_page;
      new_root_page ← in_store (new_object (PInternal
        {| internal_lsn := lsn; leftmost_child_page_id := page_id; internal_slots := [slot] |}));
      in_store (pool_insert new_root_page_id new_root_page lsn);;
      in_pager (update_meta (with_root new_root_page_id));;
      mret (new_root_page_id, new_root_page)
  | Some parent_page_id =>
      parent_page ← in_store (pool_get parent_page_id);
      parent ← deref_internal parent_page;
      in_store (assign parent_page
        (PInternal (set_internal_slots (insort_internal slot (internal_slots parent)) parent)));;
      mret (parent_page_id, parent_page)
  end.

(** ** Redistribution *)

(** The three pages a redistribution works on. *)
Record Trio := { donor : Page; recipient : Page; parent : InternalPage }.

(** [parent_slot.key = key], the slot being the one at [idx] in the parent. *)
Definition set_separator (idx : nat) (key : bytes) (p : InternalPage) : InternalPage :=
  set_internal_slots
    (alter (fun s => {| islot_key := key; child_page_id := child_page_id s |}) idx
       (internal_slots p)) p.

(** One round of the loop: a slot moves from the donor to the recipient.  The
    pages are returned as they stand when an exception is raised. *)
Definition transfer_slot (idx : nat) (donor_is_left : bool) (t : Trio) : Trio * Result unit :=
  match donor t, recipient t with
  | PLeaf d, PLeaf r =>
      if donor_is_left then
        match py_pop (leaf_slots d) (-1) with
        | Raise e => (t, Raise e)
        | Ok (slot, rest) =>
            ({| donor := PLeaf (set_leaf_slots rest d);
                recipient := PLeaf (set_leaf_slots (slot :: leaf_slots r) r);
                parent := set_separator idx (lslot_key slot) (parent t) |}, Ok tt)
        end
      else
        match py_pop (leaf_slots d) 0 with
        | Raise e => (t, Raise e)
        | Ok (slot, rest) =>
            let d := PLeaf (set_leaf_slots rest d) in
            let r := PLeaf (set_leaf_slots (leaf_slots r ++ [slot]) r) in
            match py_get rest 0 with
            | Raise e => ({| donor := d; recipient := r; parent := parent t |}, Raise e)
            | Ok first => ({| donor := d; recipient := r;
                              parent := set_separator idx (lslot_key first) (parent t) |}, Ok tt)
            end
        end
  | PInternal d, PInternal r =>
      match internal_slots (parent t) !! idx with
      | None => (t, Raise IndexError)
      | Some parent_slot =>
          if donor_is_left then
            let pulled := {| islot_key := islot_key parent_slot;
                             child_page_id := leftmost_child_page_id r |} in
            let r := set_internal_slots (pulled :: internal_slots r) r in
            match py_pop (internal_slots d) (-1) with
            | Raise e => ({| donor := donor t; recipient := PInternal r; parent := parent t |}, Raise e)
            | Ok (last, rest) =>
                ({| donor := PInternal (set_internal_slots rest d);
                    recipient := PInternal (set_leftmost (child_page_id last) r);
                    parent := set_separator idx (islot_key last) (parent t) |}, Ok tt)
            end
          else
            let pulled := {| islot_key := islot_key parent_slot;
                             child_page_id := leftmost_child_page_id d |} in
            let r := set_internal_slots (internal_slots r ++ [pulled]) r in
            match py_pop (internal_slots d) 0 with
            | Raise e => ({| donor := donor t; recipient := PInternal r; parent := parent t |}, Raise e)
            | Ok (first, rest) =>
                ({| donor := PInternal (set_leftmost (child_page_id first) (set_internal_slots rest d));
                    recipient := PInternal r;
                    parent := set_separator idx (islot_key first) (parent t) |}, Ok tt)
            end
      end
  | _, _ => (t, Raise AssertionError)
  end.

(** Putting the slots and the leftmost children of the backups back. *)
Definition restore_page (backup p : Page) : Page :=
  match backup, p with
  | PLeaf b, PLeaf p => PLeaf (set_leaf_slots (leaf_slots b) p)
  | PInternal b, PInternal p =>
      PInternal (set_leftmost (leftmost_child_page_id b) (set_internal_slots (internal_slots b) p))
  | _, _ => p
  end.

Definition restore_trio (backup t : Trio) : Trio :=
  {| donor := restore_page (donor backup) (donor t);
     recipient := restore_page (recipient backup) (recipient t);
     parent := set_internal_slots (internal_slots (parent backup)) (parent t) |}.

(** Each round moves a slot out of the donor, so its slots bound the rounds. *)
Fixpoint redistribute_loop (fuel : nat) (ps : Z) (idx : nat) (donor_is_left : bool)
    (backup t : Trio) : Trio * Result bool :=
  if page_underpopulated ps (recipient t) then
    match fuel with
    | O => (t, Raise OutOfFuel)
    | S fuel =>
        match transfer_slot idx donor_is_left t with
        | (t', Raise e) => (t', Raise e)
        | (t', Ok _) =>
            if page_underpopulated ps (donor t')
            then (restore_trio backup t', Ok false)
            else redistribute_loop fuel ps idx donor_is_left backup t'
        end
    end
  else (t, Ok true).

Definition redistribute (ps : Z) (idx : nat) (donor_is_left : bool) (t : Trio)
    : Trio * Result bool :=
  redistribute_loop (S (length (page_keys (donor t)))) ps idx donor_is_left t t.

Definition try_redistribute_slots (donor_page recipient_page parent_page : loc)
    (parent_separator_idx : Z) (donor_is_left : bool) : M BPlusTree bool :=
  ps ← tree_page_size_bytes;
  d ← in_store (deref donor_page);
  r ← in_store (deref recipient_page);
  p ← deref_internal parent_page;
  lift (py_get (internal_slots p) parent_separator_idx);;
  let '(t, res) := redistribute ps (Z.to_nat parent_separator_idx) donor_is_left
                     {| donor := d; recipient := r; parent := p |} in
  in_store (assign parent_page (PInternal (parent t)));;
  in_store (assign donor_page (donor t));;
  in_store (assign recipient_page (recipient t));;
  lift res.

(** ** Siblings *)

(** The ids of the siblings under the same parent, [-1] where there is none. *)
Definition sibling_ids (parent_page : InternalPage) (parent_slot_idx : Z) : Z * Z :=
  let slots := internal_slots parent_page in
  let child i := match slots !! Z.to_nat i with Some s => child_page_id s | None => -1 end in
  let lhs := if parent_slot_idx =? 0 then leftmost_child_page_id parent_page
              else if (0 <? parent_slot_idx) && (parent_slot_idx <? len slots)
              then child (parent_slot_idx - 1) else -1 in
  let rhs := if (parent_slot_idx =? -1) && (1 <=? len slots) then child 0
               else if (0 <=? parent_slot_idx) && (parent_slot_idx <? len slots - 1)
               then child (parent_slot_idx + 1) else -1 in
  (lhs, rhs).

Definition sibling_page (id : Z) : M BPlusTree (option loc) :=
  if id <? 0 then mret None else l ← in_store (pool_get id); mret (Some l).

Definition determine_same_parent_siblings (parent_page : InternalPage) (parent_slot_idx : Z)
    : M BPlusTree ((Z * option loc) * (Z * option loc)) :=
  let '(left_sibling_id, right_sibling_id) := sibling_ids parent_page parent_slot_idx in
  left_sibling_page ← sibling_page left_sibling_id;
  right_sibling_page ← sibling_page right_sibling_id;
  mret ((left_sibling_id, left_sibling_page), (right_sibling_id, right_sibling_page)).

(** ** Merging *)

(** The merged page, built before anything is mutated. *)
Definition merge_probe (into from : Page) (separator_key : bytes) : Result Page :=
  match into, from with
  | PLeaf a, PLeaf b =>
      Ok (PLeaf {| leaf_lsn := 0; right_sibling_page_id := right_sibling_page_id b;
                   leaf_slots := leaf_slots a ++ leaf_slots b |})
  | PInternal a, PInternal b =>
      Ok (PInternal {| internal_lsn := 0; leftmost_child_page_id := leftmost_child_page_id a;
                       internal_slots := internal_slots a ++
                         {| islot_key := separator_key;
                            child_page_id := leftmost_child_page_id b |} :: internal_slots b |})
  | _, _ => Raise AssertionError
  end.

(** The surviving page takes the slots of the probe, and a leaf its right link. *)
Definition apply_merge (into probe : Page) : Page :=
  match into, probe with
  | PLeaf a, PLeaf p =>
      PLeaf (set_right_sibling (right_sibling_page_id p) (set_leaf_slots (leaf_slots p) a))
  | PInternal a, PInternal p => PInternal (set_internal_slots (internal_slots p) a)
  | _, _ => into
  end.

Definition is_leaf (p : Page) : bool := match p with PLeaf _ => true | _ => false end.

(** A sibling and whether it is the left one. *)
Abbreviation Sibling := (Z * option loc)%type.

(** What the loops over the siblings come to: nothing done, or done with the
    parent to revisit, if any. *)
Abbreviation Revisit := (option (Z * loc)).

Definition redistribute_with (page_id : Z) (page : loc) (parent_id : Z) (parent_page : loc)
    (parent_slot_idx lsn : Z) (sib : Sibling) (donor_is_left : bool)
    : M BPlusTree (option Revisit) :=
  match sib with
  | (_, None) => mret None
  | (sibling_page_id, Some sibling_page) =>
      let separator_idx := if donor_is_left then parent_slot_idx else parent_slot_idx + 1 in
      ok ← try_redistribute_slots sibling_page page parent_page separator_idx donor_is_left;
      if ok : bool then
        in_store (mark_dirty page_id lsn);;
        in_store (mark_dirty sibling_page_id lsn);;
        p ← in_store (deref page);
        count_tree (if is_leaf p then CLeafRedistributes else CInternalRedistributes);;
        pp ← in_store (deref parent_page);
        over ← is_page_overpopulated pp;
        under ← is_page_underpopulated pp;
        if (over || under : bool) then mret (Some (Some (parent_id, parent_page)))
        else in_store (mark_dirty parent_id lsn);; mret (Some None)
      else mret None
  end.

(** The separator key an internal merge pulls down; a leaf merge reads none. *)
Definition separator_key (into : Page) (parent : InternalPage) (separator_idx : Z) : Result bytes :=
  match into with
  | PInternal _ => s ← py_get (internal_slots parent) separator_idx; mret (islot_key s)
  | _ => Ok []
  end.

Definition merge_with (page_id : Z) (page : loc) (parent_id : Z) (parent_page : loc)
    (parent_slot_idx lsn : Z) (sib : Sibling) (sibling_is_left : bool)
    : M BPlusTree (option Revisit) :=
  match sib with
  | (_, None) => mret None
  | (sibling_page_id, Some sibling_page) =>
      let '(into_id, from_id, into_page, from_page, separator_idx) :=
        if sibling_is_left
        then (sibling_page_id, page_id, sibling_page, page, parent_slot_idx)
        else (page_id, sibling_page_id, page, sibling_page, parent_slot_idx + 1) in
      ps ← tree_page_size_bytes;
      into ← in_store (deref into_page);
      from ← in_store (deref from_page);
      pp ← deref_internal parent_page;
      key ← lift (separator_key into pp separator_idx);
      probe ← lift (merge_probe into from key);
      if ps <? calculate_page_size probe then mret None
      else
        in_store (assign into_page (apply_merge into probe));;
        '(_, rest) ← lift (py_pop (internal_slots pp) separator_idx);
        in_store (assign parent_page (PInternal (set_internal_slots rest pp)));;
        in_store (mark_dirty into_id lsn);;
        in_store (mark_dirty parent_id lsn);;
        in_store (pool_delete from_id);;
        in_pager (free_page from_id);;
        count_tree (if is_leaf into then CLeafMerges else CInternalMerges);;
        root ← tree_root_page_id;
        if bool_decide (rest = []) && (parent_id =? root) then
          in_pager (update_meta (with_root (leftmost_child_page_id pp)));;
          in_store (pool_delete root);;
          in_pager (free_page root);;
          count_tree CRootCollapses;;
          mret (Some None)
        else mret (Some (Some (parent_id, parent_page)))
  end.

Definition redistribute_or_merge_page (page_id : Z) (parent : option PathItem) (page : loc)
    (lsn : Z) : M BPlusTree Revisit :=
  match parent with
  | None => mret None
  | Some item =>
      let parent_id := parent_page_id item in
      let idx := parent_slot_index item in
      parent_page ← in_store (pool_get parent_id);
      pp ← deref_internal parent_page;
      '(lhs, rhs) ← determine_same_parent_siblings pp idx;
      r ← redistribute_with page_id page parent_id parent_page idx lsn lhs true;
      match r with Some out => mret out | None =>
      r ← redistribute_with page_id page parent_id parent_page idx lsn rhs false;
      match r with Some out => mret out | None =>
      r ← merge_with page_id page parent_id parent_page idx lsn lhs true;
      match r with Some out => mret out | None =>
      r ← merge_with page_id page parent_id parent_page idx lsn rhs false;
      match r with Some out => mret out | None => raise AssertionError
      end end end end
  end.

(** ** The cascade *)

(** One round: [Some] is the page pushed back on the stack. *)
Definition balance_step (page_id : Z) (page : loc) (path_item : option PathItem) (lsn : Z)
    : M BPlusTree Revisit :=
  p ← in_store (deref page);
  over ← is_page_overpopulated p;
  if over : bool then
    modified_parent ← split_page page_id (parent_page_id <$> path_item) page lsn;
    mret (Some modified_parent)
  else
    under ← is_page_underpopulated p;
    root ← tree_root_page_id;
    if (under : bool) && negb (page_id =? root) then
      redistribute_or_merge_page page_id path_item page lsn
    else
      in_store (mark_dirty page_id lsn);;
      mret None.

(** The page stack holds one page at a time; [path] is the path stack, the
    leaf's parent first. *)
Fixpoint balance_loop (fuel : nat) (page_id : Z) (page : loc) (path : list PathItem) (lsn : Z)
    : M BPlusTree unit :=
  match fuel with
  | O => raise OutOfFuel
  | S fuel =>
      next ← balance_step page_id page (head path) lsn;
      match next with
      | None => mret tt
      | Some (page_id', page') => balance_loop fuel page_id' page' (tail path) lsn
      end
  end.

(** Each round takes an item off the path; a split of the root adds one round
    for the new root. *)
Definition balance_and_write_tree (page_id : Z) (page : loc) (path : list PathItem) (lsn : Z)
    : M BPlusTree unit :=
  balance_loop (length path + 2) page_id page (reverse path) lsn.

(** ** Insertion and deletion *)

(** The slots of a leaf after an insertion or an overwrite. *)
Definition leaf_upsert (key value : bytes) (slots : list LeafSlot) : list LeafSlot :=
  let new := {| lslot_key := key; lslot_value := value |} in
  match leaf_lookup slots key with
  | Some _ => <[leaf_position slots key := new]> slots
  | None => insort_leaf new slots
  end.

Definition insert (key value : bytes) (lsn : Z) : M BPlusTree unit :=
  raise_if_record_too_large key value;;
  r ← find_leaf key;
  p ← deref_leaf (leaf_page r);
  in_store (assign (leaf_page r) (PLeaf (set_leaf_slots (leaf_upsert key value (leaf_slots p)) p)));;
  balance_and_write_tree (leaf_page_id r) (leaf_page r) (leaf_path r) lsn.

Definition tree_delete (key : bytes) (lsn : Z) : M BPlusTree bool :=
  r ← find_leaf key;
  p ← deref_leaf (leaf_page r);
  match leaf_lookup (leaf_slots p) key with
  | None => mret false
  | Some _ =>
      '(_, rest) ← lift (py_pop (leaf_slots p) (Z.of_nat (leaf_position (leaf_slots p) key)));
      in_store (assign (leaf_page r) (PLeaf (set_leaf_slots rest p)));;
      balance_and_write_tree (leaf_page_id r) (leaf_page r) (leaf_path r) lsn;;
      mret true
  end.

(** ** Scanning

    A scan is a generator: nothing runs before the first [next], and each
    resumption goes on to the following [yield]. *)

Inductive ScanPhase :=
  | ScanStart                           (* not started *)
  | ScanSuspended (page : loc) (idx : nat)  (* suspended at the yield of slot [idx] *)
  | ScanDone.

Record Scan := {
  sc_start : option bytes;
  sc_end : option bytes;
  sc_phase : ScanPhase;
}.

Definition with_phase (ph : ScanPhase) (g : Scan) : Scan :=
  {| sc_start := sc_start g; sc_end := sc_end g; sc_phase := ph |}.

Definition scan (start_key_inclusive end_key_exclusive : option bytes) : Scan :=
  {| sc_start := start_key_inclusive; sc_end := end_key_exclusive; sc_phase := ScanStart |}.

(** [end_key_exclusive is not None and slot.key >= end_key_exclusive] *)
Definition past_end (e : option bytes) (key : bytes) : bool :=
  match e with Some e => negb (bytes_ltb key e) | None => false end.

(** From slot [idx] of a leaf to the next yield: along the leaf, then along the
    sibling chain.  [check] is the outcome of the version checker. *)
Fixpoint scan_from (fuel : nat) (check : Result unit) (e : option bytes) (page : loc) (idx : nat)
    : M BPlusTree (option (bytes * bytes) * ScanPhase) :=
  p ← deref_leaf page;
  match leaf_slots p !! idx with
  | Some slot =>
      if past_end e (lslot_key slot) then mret (None, ScanDone)
      else
        lift check;;
        mret (Some (lslot_key slot, lslot_value slot), ScanSuspended page idx)
  | None =>
      if 0 <? right_sibling_page_id p then
        match fuel with
        | O => raise OutOfFuel
        | S fuel =>
            next_page ← in_store (pool_get (right_sibling_page_id p));
            scan_from fuel check e next_page 0
        end
      else mret (None, ScanDone)
  end.

Definition scan_next (check : Result unit) (g : Scan)
    : M BPlusTree (option (bytes * bytes) * Scan) :=
  fuel ← in_pager page_count;
  '(out, ph) ←
    match sc_phase g with
    | ScanDone => mret (None, ScanDone)
    | ScanStart =>
        let start_key := default [] (sc_start g) in
        r ← find_leaf start_key;
        p ← deref_leaf (leaf_page r);
        scan_from (Z.to_nat fuel) check (sc_end g) (leaf_page r)
          (leaf_position (leaf_slots p) start_key)
    | ScanSuspended page idx =>
        lift check;;
        scan_from (Z.to_nat fuel) check (sc_end g) page (S idx)
    end;
  mret (out, with_phase ph g).
