(* ===== verification/Wal.v ===== *)
(** * The write-ahead log ([wal.py])

    An append-only file of records, fsynced on every append, with replay,
    torn-tail truncation and rotation through a temporary file. *)

From S2P Require Import Prelude Bytes Entities Codec Fs.

Record WALStats := {
  records_appended : Z;
  bytes_appended : Z;
  wal_fsyncs : Z;
  records_replayed : Z;
  truncations : Z;
}.

Definition wal_stats_zero : WALStats :=
  {| records_appended := 0; bytes_appended := 0; wal_fsyncs := 0; records_replayed := 0;
     truncations := 0 |}.

(** [wal_disk] is the file at [self.path] and [wal_temp] the one at
    [self.checkpoint_temp_path]; [wal_pos] is the position of the handle
    [self._fd], meaningful while [wal_is_open]. *)
Record WAL := {
  wal_disk : option File;
  wal_temp : option File;
  wal_is_open : bool;
  wal_pos : nat;
  wal_current_lsn : Z;
  wal_stats : WALStats;
}.

(** [WAL.__init__], on a directory holding the given files. *)
Definition wal_init (disk temp : option File) : WAL :=
  {| wal_disk := disk; wal_temp := temp; wal_is_open := false; wal_pos := 0;
     wal_current_lsn := 0; wal_stats := wal_stats_zero |}.

Definition wal_with (disk temp : option File) (is_open : bool) (pos : nat) (w : WAL) : WAL :=
  {| wal_disk := disk; wal_temp := temp; wal_is_open := is_open; wal_pos := pos;
     wal_current_lsn := wal_current_lsn w; wal_stats := wal_stats w |}.
Definition set_wal_file (f : File) (pos : nat) (w : WAL) : WAL :=
  wal_with (Some f) (wal_temp w) (wal_is_open w) pos w.
Definition set_wal_temp (t : option File) (w : WAL) : WAL :=
  wal_with (wal_disk w) t (wal_is_open w) (wal_pos w) w.
Definition set_wal_pos (pos : nat) (w : WAL) : WAL :=
  wal_with (wal_disk w) (wal_temp w) (wal_is_open w) pos w.
Definition set_lsn (lsn : Z) (w : WAL) : WAL :=
  {| wal_disk := wal_disk w; wal_temp := wal_temp w; wal_is_open := wal_is_open w;
     wal_pos := wal_pos w; wal_current_lsn := lsn; wal_stats := wal_stats w |}.
Definition set_wal_stats (f : WALStats -> WALStats) (w : WAL) : WAL :=
  {| wal_disk := wal_disk w; wal_temp := wal_temp w; wal_is_open := wal_is_open w;
     wal_pos := wal_pos w; wal_current_lsn := wal_current_lsn w;
     wal_stats := f (wal_stats w) |}.

Definition count_append (n : Z) (s : WALStats) : WALStats :=
  {| records_appended := records_appended s + 1; bytes_appended := bytes_appended s + n;
     wal_fsyncs := wal_fsyncs s + 1; records_replayed := records_replayed s;
     truncations := truncations s |}.
Definition count_fsync (s : WALStats) : WALStats :=
  {| records_appended := records_appended s; bytes_appended := bytes_appended s;
     wal_fsyncs := wal_fsyncs s + 1; records_replayed := records_replayed s;
     truncations := truncations s |}.
Definition count_replayed (s : WALStats) : WALStats :=
  {| records_appended := records_appended s; bytes_appended := bytes_appended s;
     wal_fsyncs := wal_fsyncs s; records_replayed := records_replayed s + 1;
     truncations := truncations s |}.
Definition count_truncation (s : WALStats) : WALStats :=
  {| records_appended := records_appended s; bytes_appended := bytes_appended s;
     wal_fsyncs := wal_fsyncs s; records_replayed := records_replayed s;
     truncations := truncations s + 1 |}.

(** [assert self._fd is not None], giving the file. *)
Definition wal_file : M WAL File :=
  w ← get_state;
  match wal_is_open w, wal_disk w with
  | true, Some f => mret f
  | _, _ => raise AssertionError
  end.

(** Opening in append mode leaves the position at the end. *)
Definition wal_open : M WAL unit :=
  w ← get_state;
  if wal_is_open w then mret tt
  else
    modify (set_wal_temp None);;
    modify (set_lsn 0);;
    let f := default empty_file (wal_disk w) in
    modify (fun w => wal_with (Some f) (wal_temp w) true (length (f_data f)) w).

Definition wal_close : M WAL unit :=
  w ← get_state;
  if negb (wal_is_open w) then mret tt
  else
    f ← wal_file;
    modify (set_wal_file (fsync_file f) (wal_pos w));;
    modify (set_wal_stats count_fsync);;
    modify (fun w => wal_with (wal_disk w) (wal_temp w) false 0 w).

(** [with WAL(...) as wal:] *)
Definition wal_enter : M WAL unit := wal_open.
Definition wal_exit : M WAL bool := wal_close;; mret false.

(** [size_bytes]: [stat] raises when the file is missing. *)
Definition wal_size_bytes (w : WAL) : Result Z :=
  match wal_disk w with
  | Some f => Ok (len (f_data f))
  | None => Raise FileNotFoundError
  end.

(** [_append]: the handle is in append mode, so the write goes to the end. *)
Definition wal_append (record : WALRecord) : M WAL Z :=
  f ← wal_file;
  encoded ← lift (encode_wal_record record);
  modify (set_lsn (record_lsn record));;
  let f := append_data f encoded in
  modify (set_wal_file f (length (f_data f)));;
  modify (set_wal_file (fsync_file f) (length (f_data f)));;
  modify (set_wal_stats (count_append (len encoded)));;
  mret (record_lsn record).

Definition append_put (key value : bytes) : M WAL Z :=
  w ← get_state;
  wal_append (WALPutRecord (wal_current_lsn w + 1) key value).

Definition append_delete (key : bytes) : M WAL Z :=
  w ← get_state;
  wal_append (WALDeleteRecord (wal_current_lsn w + 1) key).

Definition append_checkpoint (root_page_id freelist_head next_page_id : Z) : M WAL Z :=
  w ← get_state;
  wal_append (WALCheckpointRecord (wal_current_lsn w + 1) root_page_id freelist_head next_page_id).

(** ** Iteration over the records

    [_iter_records] is a generator; its local variables are [last_lsn] and the
    flag of an earlier broken record.  [iter_next] runs it from one [yield] to
    the next. *)

Record WALIter := { it_last_lsn : Z; it_broken : bool }.

Definition iter_start : WALIter := {| it_last_lsn := 0; it_broken := false |}.

(** Reading one record from the handle's position. *)
Definition read_record : M WAL (Result WALRecord) :=
  f ← wal_file;
  w ← get_state;
  let '(consumed, r) := decode_next_wal_record (drop (wal_pos w) (f_data f)) in
  modify (set_wal_pos (wal_pos w + consumed));;
  mret r.

(** Every round that goes on consumes the four bytes of a length prefix, so
    the size of the file bounds the rounds. *)
Fixpoint iter_next (fuel : nat) (it : WALIter) : M WAL (option (WALRecord * WALIter)) :=
  match fuel with
  | O => raise OutOfFuel
  | S fuel =>
      r ← read_record;
      match r with
      | Ok record =>
          if it_broken it then raise DBCorruptedError
          else if negb (it_last_lsn it =? 0) && negb (record_lsn record =? it_last_lsn it + 1)
          then raise DBCorruptedError
          else mret (Some (record, {| it_last_lsn := record_lsn record; it_broken := it_broken it |}))
      | Raise (DBChecksumError _ _) =>
          iter_next fuel {| it_last_lsn := it_last_lsn it; it_broken := true |}
      | Raise EOFError => mret None
      | Raise e => raise e
      end
  end.

Definition iter_fuel : M WAL nat :=
  f ← wal_file;
  mret (S (length (f_data f))).

(** [for record in self._iter_records(): body] with the local variables of the
    loop as an accumulator; the body may act on a larger state that the log is
    one part of. *)
Section for_records.
Context {S : Type} (get : S -> WAL) (set : WAL -> S -> S).

Fixpoint for_records_loop {B} (fuel step_fuel : nat) (it : WALIter) (acc : B)
    (body : B -> WALRecord -> M S B) : M S B :=
  match fuel with
  | O => raise OutOfFuel
  | Datatypes.S fuel =>
      next ← zoom get set (iter_next step_fuel it);
      match next with
      | None => mret acc
      | Some (record, it') =>
          acc' ← body acc record;
          for_records_loop fuel step_fuel it' acc' body
      end
  end.

Definition for_records {B} (acc : B) (body : B -> WALRecord -> M S B) : M S B :=
  fuel ← zoom get set iter_fuel;
  zoom get set (modify (set_wal_pos 0));;
  for_records_loop fuel fuel iter_start acc body.

(** The body of the loop of [replay]; the accumulator is
    [last_good_file_pos]. *)
Definition replay_record (callback : WALRecord -> M S unit) (_ : nat) (record : WALRecord)
    : M S nat :=
  pos ← zoom get set (gets wal_pos);
  zoom get set (modify (set_lsn (record_lsn record)));;
  zoom get set (modify (set_wal_stats count_replayed));;
  callback record;;
  mret pos.

Definition truncate_tail (last_good_file_pos : nat) : M WAL unit :=
  f ← wal_file;
  modify (set_wal_file (truncate_at f last_good_file_pos) last_good_file_pos);;
  f ← wal_file;
  modify (set_wal_file (fsync_file f) last_good_file_pos);;
  modify (set_wal_stats count_fsync).

Definition replay (callback : WALRecord -> M S unit) : M S unit :=
  zoom get set wal_file;;
  zoom get set (modify (set_lsn 0));;
  last_good_file_pos ← for_records 0%nat (replay_record callback);
  zoom get set (truncate_tail last_good_file_pos).
End for_records.

(** All the records, for a read-only pass. *)
Definition peek_records : M WAL (list WALRecord) :=
  for_records id (fun w _ => w) [] (fun acc record => mret (acc ++ [record])).

(** Copying a record at or after [lsn] to the temporary file. *)
Definition copy_record (lsn : Z) (_ : unit) (record : WALRecord) : M WAL unit :=
  if lsn <=? record_lsn record then
    encoded ← lift (encode_wal_record record);
    modify (fun w => set_wal_temp
      (Some (append_data (default empty_file (wal_temp w)) encoded)) w)
  else mret tt.

(** The rotation: fill the temporary file, fsync it, rename it over the log
    and reopen. *)
Definition truncate_before (lsn : Z) : M WAL unit :=
  wal_file;;
  modify (set_wal_temp (Some empty_file));;
  for_records id (fun w _ => w) tt (copy_record lsn);;
  modify (fun w => set_wal_temp (fsync_file <$> wal_temp w) w);;
  w ← get_state;
  let f := default empty_file (wal_temp w) in
  modify (fun w => wal_with (Some f) None true (length (f_data f)) w);;
  modify (set_wal_stats count_truncation).
