(* ===== verification/Db.v ===== *)
(** * The database facade ([db.py])

    Ties the tree, its pager and buffer pool, and the write-ahead log together:
    opening with recovery, the public operations, and checkpoints. *)

From S2P Require Import Prelude Bytes Float64 Entities Codec Fs Pager Cache Tree Wal.

Definition DEFAULT_PAGE_SIZE : Z := 4096.

Record DB := {
  db_tree : BPlusTree;
  db_wal : WAL;
  db_checkpoint_wal_size_bytes : Z;
  db_checkpoint_dirty_page_ratio : f64;
  db_is_opened : bool;
  db_version_counter : Z;
  db_recovery_last_checkpoint_lsn : Z;
}.

Definition set_tree (t : BPlusTree) (d : DB) : DB :=
  {| db_tree := t; db_wal := db_wal d;
     db_checkpoint_wal_size_bytes := db_checkpoint_wal_size_bytes d;
     db_checkpoint_dirty_page_ratio := db_checkpoint_dirty_page_ratio d;
     db_is_opened := db_is_opened d; db_version_counter := db_version_counter d;
     db_recovery_last_checkpoint_lsn := db_recovery_last_checkpoint_lsn d |}.
Definition set_wal (w : WAL) (d : DB) : DB :=
  {| db_tree := db_tree d; db_wal := w;
     db_checkpoint_wal_size_bytes := db_checkpoint_wal_size_bytes d;
     db_checkpoint_dirty_page_ratio := db_checkpoint_dirty_page_ratio d;
     db_is_opened := db_is_opened d; db_version_counter := db_version_counter d;
     db_recovery_last_checkpoint_lsn := db_recovery_last_checkpoint_lsn d |}.
Definition set_opened (b : bool) (d : DB) : DB :=
  {| db_tree := db_tree d; db_wal := db_wal d;
     db_checkpoint_wal_size_bytes := db_checkpoint_wal_size_bytes d;
     db_checkpoint_dirty_page_ratio := db_checkpoint_dirty_page_ratio d;
     db_is_opened := b; db_version_counter := db_version_counter d;
     db_recovery_last_checkpoint_lsn := db_recovery_last_checkpoint_lsn d |}.
Definition set_version (v : Z) (d : DB) : DB :=
  {| db_tree := db_tree d; db_wal := db_wal d;
     db_checkpoint_wal_size_bytes := db_checkpoint_wal_size_bytes d;
     db_checkpoint_dirty_page_ratio := db_checkpoint_dirty_page_ratio d;
     db_is_opened := db_is_opened d; db_version_counter := v;
     db_recovery_last_checkpoint_lsn := db_recovery_last_checkpoint_lsn d |}.
Definition set_recovery_lsn (l : Z) (d : DB) : DB :=
  {| db_tree := db_tree d; db_wal := db_wal d;
     db_checkpoint_wal_size_bytes := db_checkpoint_wal_size_bytes d;
     db_checkpoint_dirty_page_ratio := db_checkpoint_dirty_page_ratio d;
     db_is_opened := db_is_opened d; db_version_counter := db_version_counter d;
     db_recovery_last_checkpoint_lsn := l |}.

Definition db_store (d : DB) : Store := tr_store (db_tree d).
Definition set_db_store (s : Store) (d : DB) : DB := set_tree (set_store s (db_tree d)) d.

Definition in_tree {A} (m : M BPlusTree A) : M DB A := zoom db_tree set_tree m.
Definition in_pool {A} (m : M Store A) : M DB A := zoom db_store set_db_store m.
Definition db_pager {A} (m : M Pager A) : M DB A := in_pool (on_pager m).
Definition in_wal {A} (m : M WAL A) : M DB A := zoom db_wal set_wal m.

(** The files a data directory holds. *)
Record DataDir := {
  dir_data : option File;       (* bptreedb.dat *)
  dir_wal : option File;        (* bptreedb.wal *)
  dir_wal_temp : option File;   (* bptreedb.wal.new *)
}.

Definition empty_dir : DataDir := {| dir_data := None; dir_wal := None; dir_wal_temp := None |}.

(** The directory as a database object sees it now, and as a crash leaves it. *)
Definition data_dir (d : DB) : DataDir :=
  {| dir_data := pg_disk (st_pager (db_store d)); dir_wal := wal_disk (db_wal d);
     dir_wal_temp := wal_temp (db_wal d) |}.

Definition map_dir (f : File -> File) (d : DataDir) : DataDir :=
  {| dir_data := f <$> dir_data d; dir_wal := f <$> dir_wal d;
     dir_wal_temp := f <$> dir_wal_temp d |}.

Record Config := {
  cfg_page_size_bytes : Z;
  cfg_cache_capacity_pages : Z;
  cfg_checkpoint_wal_size_bytes : Z;
  cfg_checkpoint_dirty_page_ratio : f64;
}.

(** The default arguments of the constructor; one half is [1 * 2 ^ -1]. *)
Definition default_config : Config :=
  {| cfg_page_size_bytes := DEFAULT_PAGE_SIZE; cfg_cache_capacity_pages := 256;
     cfg_checkpoint_wal_size_bytes := 4 * 1024 * 1024;
     cfg_checkpoint_dirty_page_ratio := F64 1 (-1) |}.

(** [DB.__init__] *)
Definition db_init (c : Config) (dir : DataDir) : Result DB :=
  pager ← pager_init (dir_data dir) (cfg_page_size_bytes c);
  mret {| db_tree := {| tr_store := {| st_pager := pager;
                                       st_pool := pool_init (cfg_cache_capacity_pages c);
                                       st_heap := empty_heap |};
                        tr_stats := tree_stats_zero |};
          db_wal := wal_init (dir_wal dir) (dir_wal_temp dir);
          db_checkpoint_wal_size_bytes := cfg_checkpoint_wal_size_bytes c;
          db_checkpoint_dirty_page_ratio := cfg_checkpoint_dirty_page_ratio c;
          db_is_opened := false; db_version_counter := 0;
          db_recovery_last_checkpoint_lsn := 0 |}.

(** ** Checkpoints *)

(** The first half, up to the first fsync of the data file. *)
Definition checkpoint_flush : M DB unit :=
  in_pool flush_all;;
  db_pager flush_dirty_freelist_pages;;
  db_pager fsync.

Definition checkpoint : M DB unit :=
  w ← gets db_wal;
  let checkpoint_lsn := wal_current_lsn w + 1 in
  checkpoint_flush;;
  meta ← db_pager get_meta;
  in_wal (append_checkpoint (root_page_id meta) (freelist_head_page_id meta) (next_page_id meta));;
  db_pager (update_meta (with_checkpoint_lsn checkpoint_lsn));;
  db_pager flush_meta;;
  db_pager fsync;;
  in_wal (truncate_before checkpoint_lsn).

(** [or] evaluates the dirty ratio only when the log is small enough. *)
Definition should_checkpoint (d : DB) : Result bool :=
  size ← wal_size_bytes (db_wal d);
  if db_checkpoint_wal_size_bytes d <? size then Ok true
  else
    ratio ← dirty_ratio (db_store d);
    Ok (f64_ltb (db_checkpoint_dirty_page_ratio d) ratio).

Definition maybe_checkpoint : M DB unit :=
  d ← get_state;
  should ← lift (should_checkpoint d);
  when should checkpoint.

(** ** Recovery *)

Definition apply_wal_record (record : WALRecord) : M DB unit :=
  d ← get_state;
  if record_lsn record <=? db_recovery_last_checkpoint_lsn d then mret tt
  else match record with
  | WALPutRecord lsn key value => in_tree (insert key value lsn)
  | WALDeleteRecord lsn key => in_tree (tree_delete key lsn);; mret tt
  | WALCheckpointRecord _ _ _ _ => mret tt
  end.

(** The body of the loop that looks for the newest checkpoint record. *)
Definition newer_checkpoint (latest : option WALRecord) (record : WALRecord) : option WALRecord :=
  match record with
  | WALCheckpointRecord lsn _ _ _ =>
      match latest with
      | None => Some record
      | Some l => if record_lsn l <? lsn then Some record else latest
      end
  | _ => latest
  end.

Definition repair_pager_meta_from_wal_checkpoint : M DB unit :=
  meta ← db_pager get_meta;
  latest_checkpoint ← for_records db_wal set_wal None
    (fun latest record => mret (newer_checkpoint latest record));
  match latest_checkpoint with
  | Some (WALCheckpointRecord lsn root freelist_head next) =>
      if lsn <=? last_checkpoint_lsn meta then mret tt
      else db_pager (update_meta (fun m =>
        with_checkpoint_lsn lsn (with_next next (with_freelist_head freelist_head (with_root root m)))))
  | _ => mret tt
  end.

Definition recover : M DB unit :=
  eviction_disabled db_store set_db_store (
    repair_pager_meta_from_wal_checkpoint;;
    meta ← db_pager get_meta;
    modify (set_recovery_lsn (last_checkpoint_lsn meta));;
    replay db_wal set_wal apply_wal_record);;
  checkpoint.

(** [try: m; except Exception: handler; raise] *)
Definition on_exception {S A} (m : M S A) (handler : M S unit) : M S A := fun s =>
  match m s with
  | (s', Ok a) => (s', Ok a)
  | (s', Raise e) =>
      match handler s' with
      | (s'', Ok _) => (s'', Raise e)
      | (s'', Raise e') => (s'', Raise e')
      end
  end.

Definition db_open : M DB unit :=
  db_pager pager_open;;
  in_wal wal_open;;
  on_exception recover (in_wal wal_close;; db_pager pager_close);;
  modify (set_opened true).

(** [try: m; finally: f], the cleanup raising nothing. *)
Definition finally {S A} (m : M S A) (f : S -> S) : M S A := fun s =>
  let '(s', r) := m s in (f s', r).

Definition db_close : M DB unit :=
  d ← get_state;
  if negb (db_is_opened d) then mret tt
  else
    finally (checkpoint;; in_wal wal_close;; db_pager pager_close)
      (fun d => set_version 0 (set_opened false d)).

(** [with DB(...) as db:] opens the database and closes it at the end. *)
Definition db_enter : M DB unit := db_open.
Definition db_exit : M DB bool := db_close;; mret false.

(** ** The public operations *)

(** An argument as the caller passes it. *)
Inductive PyArg :=
  | PyBytes (b : bytes)
  | PyOther.

Definition check_if_opened : M DB unit :=
  d ← get_state;
  if db_is_opened d then mret tt else raise DBClosedError.

Definition ensure_bytes_type (a : PyArg) : M DB bytes :=
  match a with PyBytes b => mret b | PyOther => raise TypeError end.

Definition bump_version : M DB unit :=
  modify (fun d => set_version (db_version_counter d + 1) d).

Definition put (key value : PyArg) : M DB unit :=
  check_if_opened;;
  key ← ensure_bytes_type key;
  value ← ensure_bytes_type value;
  in_tree (raise_if_record_too_large key value);;
  maybe_checkpoint;;
  lsn ← in_wal (append_put key value);
  in_tree (insert key value lsn);;
  bump_version;;
  maybe_checkpoint.

Definition get (key : PyArg) : M DB (option bytes) :=
  check_if_opened;;
  key ← ensure_bytes_type key;
  in_tree (search key).

Definition db_delete (key : PyArg) : M DB bool :=
  check_if_opened;;
  key ← ensure_bytes_type key;
  found ← in_tree (search key);
  match found with
  | None => mret false
  | Some _ =>
      maybe_checkpoint;;
      lsn ← in_wal (append_delete key);
      was_deleted ← in_tree (tree_delete key lsn);
      py_assert was_deleted;;
      bump_version;;
      maybe_checkpoint;;
      mret true
  end.

(** A scan of the database remembers the version it was created at. *)
Record DBScan := { ds_scan : Scan; ds_version_snapshot : Z }.

Definition ensure_optional_bytes (a : option PyArg) : M DB (option bytes) :=
  match a with
  | None => mret None
  | Some a => b ← ensure_bytes_type a; mret (Some b)
  end.

Definition db_scan (start_key_inclusive end_key_exclusive : option PyArg) : M DB DBScan :=
  check_if_opened;;
  s ← ensure_optional_bytes start_key_inclusive;
  e ← ensure_optional_bytes end_key_exclusive;
  version_snapshot ← gets db_version_counter;
  mret {| ds_scan := scan s e; ds_version_snapshot := version_snapshot |}.

Definition check_version (version_snapshot : Z) (d : DB) : Result unit :=
  if version_snapshot =? db_version_counter d then Ok tt
  else Raise DBConcurrentPageModificationError.

Definition db_scan_next (g : DBScan) : M DB (option (bytes * bytes) * DBScan) :=
  check ← gets (check_version (ds_version_snapshot g));
  '(out, sc) ← in_tree (scan_next check (ds_scan g));
  mret (out, {| ds_scan := sc; ds_version_snapshot := ds_version_snapshot g |}).
