(* ===== verification/Crc.v ===== *)
(** * Error detection by CRC-32

    On 32-bit states a CRC step is injective in the state and in the byte, so
    two buffers that differ in a single byte have different checksums. *)

From S2P Require Import Prelude Bytes.

Definition state32 (c : Z) : Prop := 0 <= c < 2 ^ 32.

Lemma shiftr1_width c : state32 c -> 0 <= Z.shiftr c 1 < 2 ^ 31.
Proof.
  unfold state32. intros Hc. rewrite Z.shiftr_div_pow2 by done.
  split; [apply Z.div_pos; lia|]. apply Z.div_lt_upper_bound; [done|].
  change (2 ^ 1 * 2 ^ 31) with (2 ^ 32). lia.
Qed.

(** The top bit of a shifted state tells whether the bit shifted out was set. *)
Lemma crc32_shift_top c : state32 c -> Z.testbit (crc32_shift c) 31 = Z.testbit c 0.
Proof.
  intros Hc. pose proof (shiftr1_width c Hc) as Hs.
  apply in_width_testbit in Hs as [_ Hs]; [|done].
  unfold crc32_shift. destruct (Z.testbit c 0).
  - rewrite Z.lxor_spec, Hs by done. done.
  - by apply Hs.
Qed.

Lemma crc32_shift_inj c d :
  state32 c -> state32 d -> crc32_shift c = crc32_shift d -> c = d.
Proof.
  intros Hc Hd E.
  assert (Z.testbit c 0 = Z.testbit d 0) as E0
    by (rewrite <-!crc32_shift_top by done; by rewrite E).
  assert (Z.shiftr c 1 = Z.shiftr d 1) as E1.
  { unfold crc32_shift in E. rewrite <-E0 in E. destruct (Z.testbit c 0); [|done].
    apply (f_equal (fun z => Z.lxor z crc32_poly)) in E.
    by rewrite !Z.lxor_assoc, Z.lxor_nilpotent, !Z.lxor_0_r in E. }
  rewrite !Z.bit0_odd in E0. rewrite <-!Z.div2_spec in E1.
  rewrite (Z.div2_odd c), (Z.div2_odd d), E0, E1. done.
Qed.

Lemma crc32_shift_state c : state32 c -> state32 (crc32_shift c).
Proof. apply crc32_shift_width. Qed.

Lemma iter_shift_state n c : state32 c -> state32 (Nat.iter n crc32_shift c).
Proof. intros Hc. induction n; simpl; [done|]. by apply crc32_shift_state. Qed.

Lemma iter_shift_inj n c d :
  state32 c -> state32 d -> Nat.iter n crc32_shift c = Nat.iter n crc32_shift d -> c = d.
Proof.
  intros Hc Hd. induction n as [|n IH]; [done|]. simpl. intros E.
  apply IH, crc32_shift_inj; try done; by apply iter_shift_state.
Qed.

Lemma lxor_byte_state c b : state32 c -> state32 (Z.lxor c (byte_to_Z b)).
Proof.
  intros Hc. apply lxor_width; [done|done|]. pose proof (byte_to_Z_bound b).
  change (2 ^ 32) with 4294967296. lia.
Qed.

Lemma crc32_byte_state c b : state32 c -> state32 (crc32_byte c b).
Proof. intros Hc. by apply iter_shift_state, lxor_byte_state. Qed.

Lemma lxor_cancel_l a b c : Z.lxor a b = Z.lxor a c -> b = c.
Proof.
  intros E. apply (f_equal (Z.lxor a)) in E.
  by rewrite <-!Z.lxor_assoc, Z.lxor_nilpotent, !Z.lxor_0_l in E.
Qed.

Lemma lxor_cancel_r a b c : Z.lxor b a = Z.lxor c a -> b = c.
Proof. rewrite !(Z.lxor_comm _ a). apply lxor_cancel_l. Qed.

Lemma crc32_byte_inj_state c d b :
  state32 c -> state32 d -> crc32_byte c b = crc32_byte d b -> c = d.
Proof.
  intros Hc Hd E. apply iter_shift_inj in E; [|by apply lxor_byte_state..].
  by apply lxor_cancel_r in E.
Qed.

Lemma crc32_byte_inj_byte c x y :
  state32 c -> crc32_byte c x = crc32_byte c y -> x = y.
Proof.
  intros Hc E. apply iter_shift_inj in E; [|by apply lxor_byte_state..].
  apply lxor_cancel_l in E. by apply byte_to_Z_inj.
Qed.

Lemma fold_state w c : state32 c -> state32 (foldl crc32_byte c w).
Proof. revert c. induction w as [|b w IH]; intros c Hc; simpl; [done|]. by apply IH, crc32_byte_state. Qed.

Lemma fold_inj w c d :
  state32 c -> state32 d -> foldl crc32_byte c w = foldl crc32_byte d w -> c = d.
Proof.
  revert c d. induction w as [|b w IH]; intros c d Hc Hd; simpl; [done|]. intros E.
  apply IH in E; [|by apply crc32_byte_state..]. by eapply crc32_byte_inj_state.
Qed.

(** Two buffers that differ in exactly one byte have different checksums. *)
Lemma crc32_single_byte a x y b : x <> y -> crc32 (a ++ x :: b) <> crc32 (a ++ y :: b).
Proof.
  intros Hne E. apply Hne. unfold crc32 in E. apply lxor_cancel_r in E.
  rewrite !foldl_app in E. simpl in E.
  assert (state32 (foldl crc32_byte 4294967295 a)) by (by apply fold_state).
  apply fold_inj in E; [|by apply crc32_byte_state..].
  by eapply crc32_byte_inj_byte.
Qed.

Lemma crc32_insert w i x y :
  w !! i = Some y -> x <> y -> crc32 (<[i := x]> w) <> crc32 w.
Proof.
  intros Hi Hne. pose proof (lookup_lt_Some _ _ _ Hi).
  rewrite <-(take_drop_middle _ _ _ Hi) at 2.
  rewrite insert_take_drop by done. by apply crc32_single_byte.
Qed.
