(* ===== verification/CodecFacts.v ===== *)
(** * Round trips and error behaviour of the wire format

    A calculus for writers ([writes]) and readers ([reads]), the closed form of
    every encoder, and the round trips of WAL records and meta pages. *)

From S2P Require Import Prelude Bytes Entities Codec.
From Stdlib Require Import Strings.Byte.

(** ** Writers *)

(** [m] appends [out] to whatever the buffer holds. *)
Definition writes (m : M bytes unit) (out : bytes) : Prop :=
  forall buf, m buf = (buf ++ out, Ok tt).

(** [m] raises [e] whatever the buffer holds. *)
Definition write_fails (m : M bytes unit) (e : Exn) : Prop :=
  forall buf, exists buf', m buf = (buf', Raise e).

Lemma build_writes m out : writes m out -> build m = Ok out.
Proof. unfold build. by intros ->. Qed.

Lemma build_fails m e : write_fails m e -> build m = Raise e.
Proof. unfold build. intros H. by destruct (H []) as [? ->]. Qed.

Lemma writes_seq m1 m2 b1 b2 : writes m1 b1 -> writes m2 b2 -> writes (m1;; m2) (b1 ++ b2).
Proof.
  intros H1 H2 buf. rewrite (bind_Ok m1 _ _ _ _ (H1 buf)), H2. by rewrite app_assoc.
Qed.

Lemma write_fails_l m1 m2 e : write_fails m1 e -> write_fails (m1;; m2) e.
Proof.
  intros H buf. destruct (H buf) as [buf' Hb]. exists buf'. by rewrite (bind_Raise m1 _ _ _ _ Hb).
Qed.

Lemma write_fails_r m1 m2 b e : writes m1 b -> write_fails m2 e -> write_fails (m1;; m2) e.
Proof.
  intros H1 H2 buf. rewrite (bind_Ok m1 _ _ _ _ (H1 buf)). apply H2.
Qed.

Lemma write_struct_writes st vs b : struct_pack st vs = Ok b -> writes (write_struct st vs) b.
Proof. intros H buf. unfold write_struct. mrun. by rewrite H. Qed.

Lemma write_struct_fails st vs e : struct_pack st vs = Raise e -> write_fails (write_struct st vs) e.
Proof. intros H buf. eexists. unfold write_struct. mrun. by rewrite H. Qed.

Lemma write_bytes_writes b : writes (write_bytes b) b.
Proof. done. Qed.

(** Whether an integer fits the field of [n] bytes. *)
Definition fits (n : nat) (z : Z) : bool := (0 <=? z) && (z <? 256 ^ Z.of_nat n).

Lemma fits_spec n z : fits n z = true <-> 0 <= z < 256 ^ Z.of_nat n.
Proof. unfold fits. rewrite andb_true_iff, Z.leb_le, Z.ltb_lt. done. Qed.

Lemma pack_int n z :
  struct_pack [FUint n] [VInt z] = if fits n z then Ok (le_encode n z) else Raise StructError.
Proof.
  simpl. fold (fits n z). destruct (fits n z); simpl; [|done]. by rewrite app_nil_r.
Qed.

Lemma pack_cons_int n z st vs :
  struct_pack (FUint n :: st) (VInt z :: vs) =
    if fits n z then b ← struct_pack st vs; mret (le_encode n z ++ b) else Raise StructError.
Proof. simpl. fold (fits n z). by destruct (fits n z). Qed.

Lemma write_int_writes n z :
  fits n z = true -> writes (write_struct [FUint n] [VInt z]) (le_encode n z).
Proof. intros H. apply write_struct_writes. by rewrite pack_int, H. Qed.

Lemma write_int_fails n z :
  fits n z = false -> write_fails (write_struct [FUint n] [VInt z]) StructError.
Proof. intros H. apply write_struct_fails. by rewrite pack_int, H. Qed.

(** The layout of a length-prefixed byte string. *)
Definition prefixed (b : bytes) : bytes := le_encode 4 (len b) ++ b.

Lemma write_prefixed_writes b :
  fits 4 (len b) = true -> writes (write_length_prefixed_bytes b) (prefixed b).
Proof.
  intros H. apply writes_seq; [by apply write_int_writes|apply write_bytes_writes].
Qed.

Lemma write_prefixed_fails b :
  fits 4 (len b) = false -> write_fails (write_length_prefixed_bytes b) StructError.
Proof. intros H. apply write_fails_l. by apply write_int_fails. Qed.

Lemma write_crc32_run buf : write_crc32 buf = (buf ++ le_encode 4 (crc32 buf), Ok tt).
Proof.
  unfold write_crc32. cbn [gets mbind M_bind].
  apply write_int_writes. apply fits_spec. apply crc32_width.
Qed.

(** ** Readers *)

(** What is left to read. *)
Definition remaining (r : BufferReader) : bytes := drop (rd_offset r) (rd_data r).

(** From a reader positioned at [b], [m] yields [a] and stops right after [b]. *)
Definition reads {A} (m : M BufferReader A) (b : bytes) (a : A) : Prop :=
  forall r suffix, remaining r = b ++ suffix ->
    exists r', m r = (r', Ok a) /\ rd_data r' = rd_data r /\ remaining r' = suffix.

Lemma remaining_advance n r b suffix :
  remaining r = b ++ suffix -> length b = n -> remaining (reader_advance n r) = suffix.
Proof.
  unfold remaining. simpl. intros H <-. rewrite <-drop_drop, H. apply drop_app_length.
Qed.

Lemma reads_bind {A B} (m : M BufferReader A) (f : A -> M BufferReader B) b1 b2 a c :
  reads m b1 a -> reads (f a) b2 c -> reads (m ≫= f) (b1 ++ b2) c.
Proof.
  intros H1 H2 r suffix Hr. rewrite <-app_assoc in Hr.
  destruct (H1 r _ Hr) as (r1 & E1 & D1 & R1). destruct (H2 r1 _ R1) as (r2 & E2 & D2 & R2).
  exists r2. rewrite (bind_Ok m f _ _ _ E1). rewrite D2, D1. done.
Qed.

Lemma reads_ret {A} (a : A) : reads (mret a) [] a.
Proof. intros r suffix Hr. exists r. done. Qed.

Lemma reads_lift {A B} (x : A) (f : A -> M BufferReader B) b c :
  reads (f x) b c -> reads (lift (Ok x) ≫= f) b c.
Proof. done. Qed.

Lemma parse_reads {A} (m : M BufferReader A) b suffix a :
  reads m b a -> parse m (b ++ suffix) = Ok a.
Proof.
  intros H. unfold parse. destruct (H (reader_init (b ++ suffix)) suffix) as (r & -> & _); done.
Qed.

Lemma parse_reads_all {A} (m : M BufferReader A) b a : reads m b a -> parse m b = Ok a.
Proof. intros H. rewrite <-(app_nil_r b). by apply parse_reads. Qed.

Lemma remaining_length r : length (remaining r) = (length (rd_data r) - rd_offset r)%nat.
Proof. apply length_drop. Qed.

Lemma reads_struct st vs b :
  (0 < struct_size st)%nat ->
  Forall2 field_ok st vs -> struct_pack st vs = Ok b -> reads (read_struct st) b vs.
Proof.
  intros Hpos Hok Hpack r suffix Hr.
  destruct (struct_pack_ok st vs Hok) as (b' & Hb' & Hlen & Hunpack).
  assert (b' = b) as -> by congruence.
  assert (length (remaining r) = length b + length suffix)%nat as Hrl
    by (rewrite Hr; apply length_app).
  rewrite remaining_length in Hrl.
  unfold read_struct. unfold struct_unpack_from.
  destruct (rd_offset r + struct_size st <=? length (rd_data r))%nat eqn:E.
  2: { apply Nat.leb_gt in E. lia. }
  mrun. rewrite E. change (drop (rd_offset r) (rd_data r)) with (remaining r). rewrite Hr, Hunpack.
  eexists. split; [done|]. split; [done|]. by eapply remaining_advance.
Qed.

Lemma reads_int n z :
  (0 < n)%nat -> fits n z = true -> reads (read_int [FUint n] 0) (le_encode n z) z.
Proof.
  intros Hn Hz. rewrite <-(app_nil_r (le_encode n z)). eapply reads_bind.
  - apply reads_struct with (vs := [VInt z]).
    + simpl. unfold struct_size. simpl. lia.
    + constructor; [|constructor]. by apply fits_spec.
    + by rewrite pack_int, Hz.
  - apply reads_ret.
Qed.

Lemma py_slice_remaining r b suffix :
  remaining r = b ++ suffix ->
  py_slice (rd_data r) (Z.of_nat (rd_offset r)) (Z.of_nat (rd_offset r) + len b) = b.
Proof.
  intros Hr. unfold py_slice, py_bound, len.
  destruct (Z.ltb_spec (Z.of_nat (rd_offset r)) 0); [lia|].
  destruct (Z.ltb_spec (Z.of_nat (rd_offset r) + Z.of_nat (length b)) 0); [lia|].
  assert (length (remaining r) = length b + length suffix)%nat as Hrl
    by (rewrite Hr; apply length_app).
  rewrite remaining_length in Hrl.
  destruct (decide (length b = 0)%nat) as [Hb0|].
  - apply nil_length_inv in Hb0 as ->. simpl. rewrite Z.add_0_r, Nat.sub_diag. done.
  - replace (Z.to_nat (Z.min (Z.max (Z.of_nat (rd_offset r)) 0)
      (Z.of_nat (length (rd_data r))))) with (rd_offset r) by lia.
    change (drop (rd_offset r) (rd_data r)) with (remaining r). rewrite Hr.
    match goal with |- take ?k _ = _ => replace k with (length b) by lia end.
    apply take_app_length.
Qed.

Lemma reads_bytes b : reads (read_bytes (len b)) b b.
Proof.
  intros r suffix Hr. unfold read_bytes. mrun. rewrite (py_slice_remaining r b suffix Hr).
  eexists. split; [done|]. split; [done|]. eapply remaining_advance; [done|]. unfold len. lia.
Qed.

Lemma reads_prefixed b :
  fits 4 (len b) = true -> reads read_length_prefixed_bytes (prefixed b) b.
Proof.
  intros H. apply (reads_bind _ _ (le_encode 4 (len b)) b (len b)).
  - apply (reads_int 4); [lia|done].
  - apply reads_bytes.
Qed.


(** ** Checksummed buffers *)

Lemma py_slice_take {A} (l : list A) n : 0 <= n -> py_slice l 0 n = take (Z.to_nat n) l.
Proof.
  intros Hn. unfold py_slice, py_bound, len.
  destruct (Z.ltb_spec 0 0); [lia|]. destruct (Z.ltb_spec n 0); [lia|].
  replace (Z.to_nat (Z.min (Z.max 0 0) _)) with 0%nat by lia. rewrite drop_0, Nat.sub_0_r.
  destruct (decide (length l <= Z.to_nat n)%nat); [rewrite !take_ge by lia; done|f_equal; lia].
Qed.

Lemma py_slice_all_but {A} (a b : list A) :
  (0 < length b)%nat -> py_slice (a ++ b) 0 (- len b) = a.
Proof.
  intros Hb. unfold py_slice, py_bound, len. rewrite length_app.
  destruct (Z.ltb_spec 0 0); [lia|].
  destruct (Z.ltb_spec (- Z.of_nat (length b)) 0); [|lia].
  transitivity (take (length a) (drop 0 (a ++ b))); [|apply take_app_length].
  f_equal; [lia|f_equal; lia].
Qed.

Lemma py_slice_last {A} (a b : list A) :
  (0 < length b)%nat -> py_slice (a ++ b) (- len b) (len (a ++ b)) = b.
Proof.
  intros Hb. unfold py_slice, py_bound, len. rewrite length_app.
  destruct (Z.ltb_spec (- Z.of_nat (length b)) 0); [|lia].
  destruct (Z.ltb_spec (Z.of_nat (length a + length b)) 0); [lia|].
  transitivity (take (length b) (drop (length a) (a ++ b))).
  - f_equal; [lia|f_equal; lia].
  - rewrite drop_app_length. apply firstn_all.
Qed.

(** A buffer followed by its CRC. *)
Definition with_crc (w : bytes) : bytes := w ++ le_encode 4 (crc32 w).

Lemma crc_fits w : fits 4 (crc32 w) = true.
Proof. apply fits_spec, crc32_width. Qed.

Lemma struct_unpack_int n b :
  length b = n -> struct_unpack [FUint n] b = Ok [VInt (le_decode b)].
Proof.
  intros <-. unfold struct_unpack, struct_size. simpl. rewrite Nat.add_0_r, Nat.eqb_refl.
  by rewrite firstn_all.
Qed.

(** The checksum test on a buffer split before its last four bytes. *)
Lemma verify_crc32_split w c :
  length c = 4%nat ->
  verify_crc32 (w ++ c) =
    if crc32 w =? le_decode c then Ok tt else Raise (DBChecksumError (le_decode c) (crc32 w)).
Proof.
  intros Hc. unfold verify_crc32. change (sizeof CRC32_FIELD) with 4.
  replace 4 with (len c) by (unfold len; lia).
  rewrite py_slice_all_but, py_slice_last by lia.
  unfold CRC32_FIELD, UINT32_FIELD. rewrite struct_unpack_int by done. done.
Qed.

Lemma verify_with_crc w : verify_crc32 (with_crc w) = Ok tt.
Proof.
  unfold with_crc. rewrite verify_crc32_split by apply le_encode_length.
  rewrite le_decode_encode by apply crc32_width. by rewrite Z.eqb_refl.
Qed.

(** ** WAL records *)

Definition payload_wire (r : WALRecord) : bytes :=
  match r with
  | WALPutRecord _ key value => prefixed key ++ prefixed value
  | WALDeleteRecord _ key => prefixed key
  | WALCheckpointRecord _ root freelist next =>
      le_encode 8 root ++ le_encode 8 freelist ++ le_encode 8 next
  end.

Definition payload_fits (r : WALRecord) : bool :=
  match r with
  | WALPutRecord _ key value => fits 4 (len key) && fits 4 (len value)
  | WALDeleteRecord _ key => fits 4 (len key)
  | WALCheckpointRecord _ root freelist next => fits 8 root && fits 8 freelist && fits 8 next
  end.

Definition header_wire (r : WALRecord) : bytes :=
  le_encode 8 (record_lsn r) ++ le_encode 1 (wal_op_type r).

(** The value of the length prefix: header, payload and checksum. *)
Definition wal_length (r : WALRecord) : Z := 13 + len (payload_wire r).

(** The bytes of a record and the condition under which it has them. *)
Definition wal_wire (r : WALRecord) : bytes :=
  with_crc (le_encode 4 (wal_length r) ++ header_wire r ++ payload_wire r).

Definition wal_fits (r : WALRecord) : bool :=
  fits 8 (record_lsn r) && payload_fits r && fits 4 (wal_length r).

Lemma op_type_fits r : fits 1 (wal_op_type r) = true.
Proof. by destruct r. Qed.

Lemma payload_writes r : payload_fits r = true -> writes (wal_payload r) (payload_wire r).
Proof.
  destruct r as [lsn k v|lsn k|lsn a b c]; cbn [wal_payload payload_wire payload_fits];
    rewrite ?andb_true_iff.
  - intros [? ?]. by apply writes_seq; apply write_prefixed_writes.
  - apply write_prefixed_writes.
  - intros [[? ?] ?].
    apply writes_seq; [|apply writes_seq]; by apply (write_int_writes 8).
Qed.

Lemma payload_write_fails r :
  payload_fits r = false -> write_fails (wal_payload r) StructError.
Proof.
  destruct r as [lsn k v|lsn k|lsn a b c]; cbn [wal_payload payload_fits]; intros H.
  - destruct (fits 4 (len k)) eqn:Hk; simpl in H.
    + eapply write_fails_r; [by apply write_prefixed_writes|by apply write_prefixed_fails].
    + by apply write_fails_l, write_prefixed_fails.
  - by apply write_prefixed_fails.
  - destruct (fits 8 a) eqn:Ha; simpl in H; [|by apply write_fails_l, write_int_fails].
    eapply write_fails_r; [by apply write_int_writes|].
    destruct (fits 8 b) eqn:Hb; simpl in H; [|by apply write_fails_l, write_int_fails].
    eapply write_fails_r; [by apply write_int_writes|by apply write_int_fails].
Qed.

Lemma header_writes r :
  fits 8 (record_lsn r) = true ->
  writes (write_struct WAL_RECORD_HEADER [VInt (record_lsn r); VInt (wal_op_type r)]) (header_wire r).
Proof.
  intros H. apply write_struct_writes. unfold WAL_RECORD_HEADER.
  by rewrite pack_cons_int, H, pack_int, op_type_fits.
Qed.

Lemma header_wire_length r : length (header_wire r) = 9%nat.
Proof. unfold header_wire. by rewrite length_app, !le_encode_length. Qed.

Lemma record_writer_run w1 w2 w3 :
  fits 4 w1 = true ->
  build (write_struct LENGTH_FIELD [VInt w1];; write_bytes w2;; write_bytes w3;; write_crc32)
  = Ok (with_crc (le_encode 4 w1 ++ w2 ++ w3)).
Proof.
  intros H. unfold build.
  rewrite (bind_Ok _ _ _ _ _ (write_int_writes 4 w1 H [])).
  rewrite (bind_Ok _ _ _ _ _ (write_bytes_writes w2 _)).
  rewrite (bind_Ok _ _ _ _ _ (write_bytes_writes w3 _)).
  rewrite write_crc32_run. unfold with_crc. by rewrite <-!app_assoc.
Qed.

(** The closed form of the encoder, on every branch. *)
Lemma encode_wal_record_eq r :
  encode_wal_record r = if wal_fits r then Ok (wal_wire r) else Raise StructError.
Proof.
  unfold encode_wal_record, wal_fits.
  destruct (payload_fits r) eqn:Hp.
  2: { rewrite (build_fails (wal_payload r) StructError) by by apply payload_write_fails.
       by rewrite andb_false_r. }
  rewrite (build_writes _ _ (payload_writes r Hp)). simpl.
  destruct (fits 8 (record_lsn r)) eqn:Hl.
  2: { rewrite (build_fails _ StructError); [done|].
       apply write_struct_fails. unfold WAL_RECORD_HEADER. by rewrite pack_cons_int, Hl. }
  rewrite (build_writes _ _ (header_writes r Hl)). simpl.
  replace (len (header_wire r) + len (payload_wire r) + sizeof CRC32_FIELD) with (wal_length r).
  2: { unfold wal_length, len. rewrite header_wire_length. change (sizeof CRC32_FIELD) with 4. lia. }
  destruct (fits 4 (wal_length r)) eqn:Hw.
  - by apply record_writer_run.
  - rewrite (build_fails _ StructError); [done|]. apply write_fails_l. by apply write_int_fails.
Qed.

Lemma wal_body_reads r :
  wal_fits r = true ->
  reads wal_body (le_encode 4 (wal_length r) ++ header_wire r ++ payload_wire r) r.
Proof.
  unfold wal_fits. rewrite !andb_true_iff. intros [[Hl Hp] Hw]. unfold wal_body.
  eapply reads_bind.
  { pose proof (reads_bytes (le_encode 4 (wal_length r))) as H.
    unfold len in H. rewrite le_encode_length in H. apply H. }
  apply (reads_bind _ _ _ _ [VInt (record_lsn r); VInt (wal_op_type r)]).
  { apply reads_struct; [unfold struct_size; simpl; lia| |].
    - constructor; [by apply fits_spec|]. constructor; [|constructor].
      apply fits_spec, op_type_fits.
    - unfold WAL_RECORD_HEADER. by rewrite pack_cons_int, Hl, pack_int, op_type_fits. }
  do 2 apply reads_lift.
  destruct r as [lsn k v|lsn k|lsn a b c]; cbn [payload_wire payload_fits wal_op_type] in *;
    rewrite ?andb_true_iff in Hp; destruct_and?; cbn [Z.eqb Pos.eqb OP_PUT OP_DELETE OP_CHECKPOINT].
  - eapply reads_bind; [by apply reads_prefixed|].
    rewrite <-(app_nil_r (prefixed v)). eapply reads_bind; [by apply reads_prefixed|].
    apply reads_ret.
  - rewrite <-(app_nil_r (prefixed k)). eapply reads_bind; [by apply reads_prefixed|].
    apply reads_ret.
  - eapply reads_bind; [apply (reads_int 8); [lia|done]|].
    eapply reads_bind; [apply (reads_int 8); [lia|done]|].
    rewrite <-(app_nil_r (le_encode 8 c)). eapply reads_bind; [apply (reads_int 8); [lia|done]|].
    apply reads_ret.
Qed.

Lemma decode_wal_wire r : wal_fits r = true -> decode_wal_record (wal_wire r) = Ok r.
Proof.
  intros H. unfold decode_wal_record, wal_wire. rewrite verify_with_crc.
  cbn. unfold with_crc. by apply parse_reads, wal_body_reads.
Qed.

Lemma wal_wire_length r : len (wal_wire r) = 4 + wal_length r.
Proof.
  unfold wal_wire, with_crc, wal_length, len.
  rewrite !length_app, !le_encode_length, header_wire_length. lia.
Qed.

(** The prefix of a record: its length field and what follows. *)
Definition wal_rest (r : WALRecord) : bytes :=
  header_wire r ++ payload_wire r ++
    le_encode 4 (crc32 (le_encode 4 (wal_length r) ++ header_wire r ++ payload_wire r)).

Lemma wal_wire_split r : wal_wire r = le_encode 4 (wal_length r) ++ wal_rest r.
Proof. unfold wal_wire, with_crc, wal_rest. by rewrite <-!app_assoc. Qed.

Lemma wal_rest_length r : len (wal_rest r) = wal_length r.
Proof.
  pose proof (wal_wire_length r) as H. rewrite wal_wire_split in H.
  unfold len in *. rewrite length_app, le_encode_length in H. lia.
Qed.

Lemma wal_length_pos r : 13 <= wal_length r.
Proof. unfold wal_length, len. lia. Qed.

(** Reading the length prefix of a file that holds at least four bytes. *)
Lemma decode_next_with_length n rest :
  fits 4 n = true ->
  decode_next_wal_record (le_encode 4 n ++ rest) =
    let body := take (Z.to_nat n) rest in
    if len body =? n then ((4 + length body)%nat, decode_wal_record (le_encode 4 n ++ body))
    else ((4 + length body)%nat, Raise EOFError).
Proof.
  intros Hn. unfold decode_next_wal_record. change (struct_size LENGTH_FIELD) with 4%nat.
  rewrite take_app_length', drop_app_length' by by rewrite le_encode_length.
  rewrite le_encode_length. simpl negb. cbv iota. unfold LENGTH_FIELD, UINT32_FIELD.
  rewrite struct_unpack_int by apply le_encode_length. cbn.
  rewrite le_decode_encode by by apply fits_spec. by destruct (_ =? n).
Qed.

Lemma decode_next_wal_wire r rest :
  wal_fits r = true ->
  decode_next_wal_record (wal_wire r ++ rest) = (length (wal_wire r), Ok r).
Proof.
  intros H. pose proof H as Hf. unfold wal_fits in Hf. rewrite !andb_true_iff in Hf.
  destruct Hf as [_ Hw]. pose proof (wal_rest_length r) as Hl. unfold len in Hl.
  rewrite wal_wire_split, <-app_assoc, decode_next_with_length by done. cbv zeta.
  rewrite take_app_length' by lia. unfold len. rewrite Hl, Z.eqb_refl.
  rewrite <-wal_wire_split, decode_wal_wire by done.
  rewrite wal_wire_split, length_app, le_encode_length. done.
Qed.

(** A strict prefix of a record is never taken for a record. *)
Lemma decode_next_torn r n :
  wal_fits r = true -> (n < length (wal_wire r))%nat ->
  (decode_next_wal_record (take n (wal_wire r))).2 = Raise EOFError.
Proof.
  intros H Hn. pose proof H as Hf. unfold wal_fits in Hf. rewrite !andb_true_iff in Hf.
  destruct Hf as [_ Hw]. pose proof (wal_rest_length r) as Hl. unfold len in Hl.
  destruct (decide (n < 4)%nat).
  - unfold decode_next_wal_record. change (struct_size LENGTH_FIELD) with 4%nat.
    rewrite take_take, length_take. destruct (Nat.eqb_spec ((4 `min` n) `min` length (wal_wire r)) 4); [lia|].
    done.
  - rewrite wal_wire_split, take_app_ge in * by (rewrite le_encode_length; lia).
    rewrite length_app, le_encode_length in Hn. rewrite le_encode_length.
    rewrite decode_next_with_length by done. cbv zeta.
    destruct (Z.eqb_spec (len (take (Z.to_nat (wal_length r)) (take (n - 4) (wal_rest r)))) (wal_length r)); [|done].
    unfold len in *. rewrite !length_take in *. lia.
Qed.
