(* ===== verification/PageCodecFacts.v ===== *)
(** * Round trips of the meta page and of the slotted pages

    The layout of an encoded page (header, slot directory growing forward, gap,
    records packed backward) and its decoding. *)

From S2P Require Import Prelude Bytes Entities Codec CodecFacts.
From Stdlib Require Import Strings.Byte.

(** ** The meta page *)

Definition meta_fits (m : MetaPage) : bool :=
  fits 4 (page_size_bytes m) && fits 8 (root_page_id m) && fits 8 (next_page_id m)
    && fits 8 (freelist_head_page_id m) && fits 8 (last_checkpoint_lsn m).

Definition meta_values (m : MetaPage) : list Value :=
  [VBytes DATA_FILE_MAGIC_PREFIX; VInt DATA_FILE_VERSION; VInt (page_size_bytes m);
   VInt (root_page_id m); VInt (next_page_id m); VInt (freelist_head_page_id m);
   VInt (last_checkpoint_lsn m)].

Definition meta_rest (m : MetaPage) : bytes :=
  le_encode 4 DATA_FILE_VERSION ++ le_encode 4 (page_size_bytes m)
    ++ le_encode 8 (root_page_id m) ++ le_encode 8 (next_page_id m)
    ++ le_encode 8 (freelist_head_page_id m) ++ le_encode 8 (last_checkpoint_lsn m).

Definition meta_wire (m : MetaPage) : bytes := DATA_FILE_MAGIC_PREFIX ++ meta_rest m.

Lemma meta_wire_length m : length (meta_wire m) = 48%nat.
Proof. unfold meta_wire, meta_rest. rewrite !length_app, !le_encode_length. done. Qed.

Lemma pack_meta m :
  struct_pack META_PAGE_NO_CRC (meta_values m) =
    if meta_fits m then Ok (meta_wire m) else Raise StructError.
Proof.
  unfold META_PAGE_NO_CRC, meta_values, meta_fits, meta_wire, meta_rest.
  cbn [struct_pack pack_field]. change (len _) with 8.
  repeat match goal with |- context [(0 <=? ?z) && (?z <? 256 ^ Z.of_nat ?n)] =>
    change ((0 <=? z) && (z <? 256 ^ Z.of_nat n)) with (fits n z) end.
  destruct (fits 4 (page_size_bytes m)); [|done].
  destruct (fits 8 (root_page_id m)); [|done].
  destruct (fits 8 (next_page_id m)); [|done].
  destruct (fits 8 (freelist_head_page_id m)); [|done].
  destruct (fits 8 (last_checkpoint_lsn m)); [|done].
  cbn [andb mbind Result_bind mret Result_ret]. by rewrite app_nil_r.
Qed.

Lemma meta_writer_run m :
  meta_fits m = true ->
  build (write_struct META_PAGE_NO_CRC (meta_values m);; write_crc32) = Ok (with_crc (meta_wire m)).
Proof.
  intros H. unfold build.
  assert (writes (write_struct META_PAGE_NO_CRC (meta_values m)) (meta_wire m)) as Hw
    by (apply write_struct_writes; by rewrite pack_meta, H).
  by rewrite (bind_Ok _ _ _ _ _ (Hw [])), write_crc32_run.
Qed.

(** The closed form of the encoder, on every branch. *)
Lemma encode_meta_page_eq m :
  encode_meta_page m =
    if meta_fits m then
      if page_size_bytes m <? MIN_PAGE_SIZE then Raise ValueError
      else Ok (with_crc (meta_wire m) ++ replicate (Z.to_nat (page_size_bytes m - 52)) x00)
    else Raise StructError.
Proof.
  unfold encode_meta_page. fold (meta_values m).
  destruct (meta_fits m) eqn:H.
  - rewrite meta_writer_run by done. cbn [mbind Result_bind].
    assert (len (with_crc (meta_wire m)) = 52) as ->.
    { unfold with_crc, len. rewrite length_app, meta_wire_length, le_encode_length. done. }
    unfold py_zeros. change MIN_PAGE_SIZE with 52.
    destruct (Z.ltb_spec (page_size_bytes m - 52) 0), (Z.ltb_spec (page_size_bytes m) 52);
      try lia; done.
  - rewrite (build_fails _ StructError); [done|].
    apply write_fails_l, write_struct_fails. by rewrite pack_meta, H.
Qed.

Lemma py_slice_prefix {A} (a b : list A) : py_slice (a ++ b) 0 (len a) = a.
Proof. rewrite py_slice_take by (unfold len; lia). unfold len. rewrite Nat2Z.id. apply take_app_length. Qed.

Lemma unpack_meta m suffix :
  meta_fits m = true ->
  parse (read_struct META_PAGE_NO_CRC) (meta_wire m ++ suffix) = Ok (meta_values m).
Proof.
  intros H. apply parse_reads. apply reads_struct.
  - unfold struct_size. simpl. lia.
  - unfold meta_fits in H. rewrite !andb_true_iff in H. destruct H as [[[[? ?] ?] ?] ?].
    repeat (apply List.Forall2_cons; [first [by apply fits_spec|done]|]). apply List.Forall2_nil.
  - by rewrite pack_meta, H.
Qed.

Lemma decode_meta_wire m suffix :
  meta_fits m = true -> decode_meta_page (with_crc (meta_wire m) ++ suffix) = Ok m.
Proof.
  intros H. unfold decode_meta_page.
  change (sizeof META_PAGE_NO_CRC + sizeof CRC32_FIELD) with 52.
  assert (len (with_crc (meta_wire m)) = 52) as Hl.
  { unfold with_crc, len. rewrite length_app, meta_wire_length, le_encode_length. done. }
  rewrite <-Hl, py_slice_prefix. cbv zeta.
  assert (py_slice (with_crc (meta_wire m)) 0 (len DATA_FILE_MAGIC_PREFIX) = DATA_FILE_MAGIC_PREFIX)
    as Hmagic.
  { unfold with_crc, meta_wire. rewrite <-app_assoc. apply py_slice_prefix. }
  rewrite Hmagic, bool_decide_eq_true_2 by done. cbn [negb]. rewrite verify_with_crc.
  cbn [mbind Result_bind]. unfold with_crc. rewrite unpack_meta by done. by destruct m.
Qed.

(** ** Records of slots *)

Definition internal_slot_wire (s : InternalSlot) : bytes :=
  prefixed (islot_key s) ++ le_encode 8 (child_page_id s).
Definition leaf_slot_wire (s : LeafSlot) : bytes :=
  prefixed (lslot_key s) ++ prefixed (lslot_value s).

Definition internal_slot_fits (s : InternalSlot) : Prop :=
  fits 4 (len (islot_key s)) = true /\ fits 8 (child_page_id s) = true.
Definition leaf_slot_fits (s : LeafSlot) : Prop :=
  fits 4 (len (lslot_key s)) = true /\ fits 4 (len (lslot_value s)) = true.

Lemma internal_slot_writes s :
  internal_slot_fits s -> writes (write_internal_slot s) (internal_slot_wire s).
Proof.
  intros [? ?]. apply writes_seq; [by apply write_prefixed_writes|by apply (write_int_writes 8)].
Qed.

Lemma leaf_slot_writes s : leaf_slot_fits s -> writes (write_leaf_slot s) (leaf_slot_wire s).
Proof. intros [? ?]. apply writes_seq; by apply write_prefixed_writes. Qed.

Lemma internal_record_parse s :
  internal_slot_fits s -> parse internal_record (internal_slot_wire s) = Ok s.
Proof.
  intros [? ?]. apply parse_reads_all. eapply reads_bind; [by apply reads_prefixed|].
  rewrite <-(app_nil_r (le_encode _ _)). eapply reads_bind; [apply (reads_int 8); [lia|done]|].
  destruct s. apply reads_ret.
Qed.

Lemma leaf_record_parse s : leaf_slot_fits s -> parse leaf_record (leaf_slot_wire s) = Ok s.
Proof.
  intros [? ?]. apply parse_reads_all. eapply reads_bind; [by apply reads_prefixed|].
  rewrite <-(app_nil_r (prefixed (lslot_value s))). eapply reads_bind; [by apply reads_prefixed|].
  destruct s. apply reads_ret.
Qed.

(** The encoded sizes are the sizes the tree reckons with. *)
Lemma internal_slot_wire_length s :
  len (internal_slot_wire s) = calculate_internal_slot_size s false.
Proof.
  unfold internal_slot_wire, prefixed, calculate_internal_slot_size, len.
  rewrite !length_app, !le_encode_length.
  change (sizeof LENGTH_FIELD) with 4. change (sizeof PAGE_ID_FIELD) with 8. lia.
Qed.

Lemma leaf_slot_wire_length s : len (leaf_slot_wire s) = calculate_leaf_slot_size s false.
Proof.
  unfold leaf_slot_wire, prefixed, calculate_leaf_slot_size, len.
  rewrite !length_app, !le_encode_length.
  change (sizeof LENGTH_FIELD) with 4. lia.
Qed.

(** ** The slot directory and the packed records *)

(** The directory of records packed backward from offset [e]. *)
Fixpoint directory (e : Z) (rs : list bytes) : bytes :=
  match rs with
  | [] => []
  | r :: rs' => le_encode 4 (e - len r) ++ le_encode 4 (len r) ++ directory (e - len r) rs'
  end.

(** The records as they lie on the page: the last one first. *)
Definition packed (rs : list bytes) : bytes := concat (reverse rs).

Lemma packed_cons r rs : packed (r :: rs) = packed rs ++ r.
Proof. unfold packed. rewrite reverse_cons, concat_app. simpl. by rewrite app_nil_r. Qed.

Lemma directory_length e rs : length (directory e rs) = (8 * length rs)%nat.
Proof.
  revert e. induction rs as [|r rs IH]; intros e; cbn [directory]; [done|].
  rewrite !length_app, !le_encode_length, IH. simpl. lia.
Qed.

Lemma slice_assign_mid {A} (a b c r : list A) :
  len r = len b -> py_slice_assign (a ++ b ++ c) (len a) (len a + len r) r = a ++ r ++ c.
Proof.
  intros Hr. unfold py_slice_assign, py_bound. unfold len in *. rewrite !length_app.
  destruct (Z.ltb_spec (Z.of_nat (length a)) 0); [lia|].
  destruct (Z.ltb_spec (Z.of_nat (length a) + Z.of_nat (length r)) 0); [lia|].
  rewrite take_app_length' by lia. do 2 f_equal.
  rewrite app_assoc. apply drop_app_length'. rewrite length_app. lia.
Qed.

Lemma slice_assign_zeros ptr r tail :
  len r <= ptr ->
  py_slice_assign (replicate (Z.to_nat ptr) x00 ++ tail) (ptr - len r) (ptr - len r + len r) r
  = replicate (Z.to_nat (ptr - len r)) x00 ++ r ++ tail.
Proof.
  intros Hr. unfold len in *.
  replace (Z.to_nat ptr) with (Z.to_nat (ptr - Z.of_nat (length r)) + length r)%nat by lia.
  rewrite replicate_add, <-app_assoc.
  pose proof (slice_assign_mid (replicate (Z.to_nat (ptr - Z.of_nat (length r))) x00)
    (replicate (length r) x00) tail r) as H. unfold len in H.
  rewrite !length_replicate in H.
  replace (Z.of_nat (Z.to_nat (ptr - Z.of_nat (length r)))) with (ptr - Z.of_nat (length r)) in H by lia.
  by apply H.
Qed.

Section slotted.
Context {A : Type} (write_slot : A -> M bytes unit) (record : M BufferReader A)
  (wire : A -> bytes) (slot_ok : A -> Prop).
Hypothesis Hwrites : forall s, slot_ok s -> writes (write_slot s) (wire s).
Hypothesis Hparse : forall s, slot_ok s -> parse record (wire s) = Ok s.

Definition total (rs : list bytes) : Z := foldr (fun r n => len r + n) 0 rs.

Lemma total_nonneg rs : 0 <= total rs.
Proof. induction rs; simpl; unfold len; lia. Qed.

Lemma total_packed rs : len (packed rs) = total rs.
Proof.
  induction rs as [|r rs IH]; [done|]. rewrite packed_cons. simpl.
  rewrite <-IH. unfold len. rewrite length_app. lia.
Qed.

Lemma pack_slots_ok slots ptr w tail :
  Forall slot_ok slots -> total (wire <$> slots) <= ptr < 2 ^ 32 ->
  pack_slots write_slot slots
    {| sp_page_buffer := replicate (Z.to_nat ptr) x00 ++ tail; sp_record_end_ptr := ptr;
       sp_slot_writer := w |} =
  Ok {| sp_page_buffer := replicate (Z.to_nat (ptr - total (wire <$> slots))) x00
                            ++ packed (wire <$> slots) ++ tail;
        sp_record_end_ptr := ptr - total (wire <$> slots);
        sp_slot_writer := w ++ directory ptr (wire <$> slots) |}.
Proof.
  intros Hok. revert ptr w tail. induction Hok as [|s slots Hs Hok IH]; intros ptr w tail Hp.
  { simpl. by rewrite Z.sub_0_r, app_nil_r. }
  rewrite fmap_cons in *. cbn [total foldr] in Hp. fold (total (wire <$> slots)) in Hp.
  pose proof (total_nonneg (wire <$> slots)). set (r := wire s) in *.
  cbn [pack_slots]. unfold pack_slot. rewrite (build_writes _ _ (Hwrites s Hs)). fold r.
  cbn [mbind Result_bind mret Result_ret]. cbn [sp_page_buffer sp_record_end_ptr sp_slot_writer].
  assert (0 <= len r) by (unfold len; lia). change (2 ^ 32) with (256 ^ Z.of_nat 4) in *.
  assert (fits 4 (ptr - len r) = true) as F1 by (apply fits_spec; lia).
  assert (fits 4 (len r) = true) as F2 by (apply fits_spec; lia).
  rewrite (build_writes _ (le_encode 4 (ptr - len r) ++ le_encode 4 (len r))).
  2: { apply write_struct_writes. unfold SLOT_ENTRY. by rewrite pack_cons_int, F1, pack_int, F2. }
  rewrite slice_assign_zeros by lia. cbn [mbind Result_bind mret Result_ret]. rewrite IH by lia.
  cbn [total foldr directory]. fold (total (wire <$> slots)).
  rewrite packed_cons, <-!app_assoc.
  by replace (ptr - len r - total (wire <$> slots)) with (ptr - (len r + total (wire <$> slots))) by lia.
Qed.

(** One directory entry leads to the record it describes. *)
Lemma read_slot_ok s r0 (e : Z) front back suffix :
  slot_ok s -> e < 2 ^ 32 ->
  rd_data r0 = front ++ wire s ++ back -> len front + len (wire s) = e ->
  remaining r0 = directory e [wire s] ++ suffix ->
  exists r1, read_slot record r0 = (r1, Ok s) /\ rd_data r1 = rd_data r0 /\ remaining r1 = suffix.
Proof.
  intros Hs He Hd Hf Hr. set (w := wire s) in *.
  assert (0 <= len w /\ 0 <= len front) as [? ?] by (unfold len; lia).
  change (2 ^ 32) with (256 ^ Z.of_nat 4) in He.
  assert (fits 4 (e - len w) = true) as F1 by (apply fits_spec; lia).
  assert (fits 4 (len w) = true) as F2 by (apply fits_spec; lia).
  cbn [directory] in Hr. rewrite app_nil_r in Hr.
  destruct (reads_struct SLOT_ENTRY [VInt (e - len w); VInt (len w)]
    (le_encode 4 (e - len w) ++ le_encode 4 (len w))) with (r := r0) (suffix := suffix)
    as (r1 & E1 & D1 & R1).
  { unfold struct_size. simpl. lia. }
  { repeat (apply List.Forall2_cons; [by apply fits_spec|]). apply List.Forall2_nil. }
  { unfold SLOT_ENTRY. by rewrite pack_cons_int, F1, pack_int, F2. }
  { done. }
  exists r1. split; [|done]. unfold read_slot. rewrite (bind_Ok _ _ _ _ _ E1). mrun.
  rewrite D1, Hd.
  cbn [value_int lookup list_lookup].
  pose proof (py_slice_remaining {| rd_data := front ++ w ++ back; rd_offset := length front |}
    w back) as P.
  cbn [rd_data rd_offset] in P.
  replace (e - len w) with (Z.of_nat (length front)) by (unfold len in *; lia).
  rewrite P by (unfold remaining; cbn [rd_data rd_offset]; apply drop_app_length).
  unfold w. by rewrite Hparse.
Qed.

Lemma read_slots_ok slots : forall fuel r0 e front tail suffix,
  Forall slot_ok slots -> (length slots <= fuel)%nat -> e < 2 ^ 32 ->
  rd_data r0 = front ++ packed (wire <$> slots) ++ tail ->
  len front + total (wire <$> slots) = e ->
  remaining r0 = directory e (wire <$> slots) ++ suffix ->
  exists r1, read_many fuel (len slots) (read_slot record) r0 = (r1, Ok slots).
Proof.
  induction slots as [|s slots IH]; intros fuel r0 e front tail suffix Hok Hfuel He Hd Hf Hr.
  { exists r0. by destruct fuel. }
  inversion_clear Hok. destruct fuel as [|fuel]; [simpl in Hfuel; lia|].
  rewrite fmap_cons in *. rewrite packed_cons in Hd.
  cbn [total foldr] in Hf. fold (total (wire <$> slots)) in Hf.
  cbn [directory] in Hr. rewrite <-!app_assoc in *.
  pose proof (total_packed (wire <$> slots)) as Hp.
  destruct (read_slot_ok s r0 e (front ++ packed (wire <$> slots)) tail
    (directory (e - len (wire s)) (wire <$> slots) ++ suffix)) as (r1 & E1 & D1 & R1); try done.
  { by rewrite <-app_assoc. }
  { unfold len in *. rewrite length_app. lia. }
  destruct (IH fuel r1 (e - len (wire s)) front (wire s ++ tail) suffix) as (r2 & E2); try done.
  { simpl in Hfuel. lia. }
  { unfold len. lia. }
  { by rewrite D1, Hd. }
  { lia. }
  exists r2. cbn [read_many].
  destruct (Z.leb_spec (len (s :: slots)) 0) as [Hl|_]; [unfold len in Hl; simpl in Hl; lia|].
  rewrite (bind_Ok _ _ _ _ _ E1).
  replace (len (s :: slots) - 1) with (len slots) by (unfold len; simpl; lia).
  by rewrite (bind_Ok _ _ _ _ _ E2).
Qed.
End slotted.

(** ** Whole pages *)

(** A page header, as [encode_page] lays it out. *)
Definition header_values (page : Page) (fstart fend : Z) : list Value :=
  let '(t, link, count) := page_header_fields page in
  [VInt t; VBytes (replicate 3 x00); VInt count; VInt fstart; VInt fend;
   VInt (page_lsn page); VInt link].

Definition page_header_wire (page : Page) (fstart fend : Z) : bytes :=
  let '(t, link, count) := page_header_fields page in
  le_encode 1 t ++ replicate 3 x00 ++ le_encode 4 count ++ le_encode 4 fstart
    ++ le_encode 4 fend ++ le_encode 8 (page_lsn page) ++ le_encode 8 link.

Lemma page_header_wire_length page fstart fend :
  length (page_header_wire page fstart fend) = 32%nat.
Proof.
  unfold page_header_wire. destruct (page_header_fields page) as [[t link] count].
  by rewrite !length_app, !le_encode_length, length_replicate.
Qed.

(** The header fields are in range. *)
Definition header_fits (page : Page) (fstart fend : Z) : Prop :=
  let '(t, link, count) := page_header_fields page in
  fits 4 count = true /\ fits 4 fstart = true /\ fits 4 fend = true /\
  fits 8 (page_lsn page) = true /\ fits 8 link = true.

Lemma type_fits page : fits 1 (page_header_fields page).1.1 = true.
Proof. by destruct page. Qed.

Lemma pack_header page fstart fend :
  header_fits page fstart fend ->
  struct_pack PAGE_HEADER (header_values page fstart fend) =
    Ok (page_header_wire page fstart fend).
Proof.
  unfold header_fits, header_values, page_header_wire. pose proof (type_fits page) as Ht.
  destruct (page_header_fields page) as [[t link] count]. cbn [fst] in Ht.
  intros (H1 & H2 & H3 & H4 & H5). unfold PAGE_HEADER. rewrite pack_cons_int, Ht.
  cbn [struct_pack pack_field].
  repeat match goal with |- context [(0 <=? ?z) && (?z <? 256 ^ Z.of_nat ?n)] =>
    change ((0 <=? z) && (z <? 256 ^ Z.of_nat n)) with (fits n z) end.
  rewrite H1, H2, H3, H4, H5. cbn [mbind Result_bind mret Result_ret].
  rewrite app_nil_r. done.
Qed.

Lemma reads_header page fstart fend :
  header_fits page fstart fend ->
  reads (read_struct PAGE_HEADER) (page_header_wire page fstart fend) (header_values page fstart fend).
Proof.
  intros H. apply reads_struct; [unfold struct_size; simpl; lia| |by apply pack_header].
  unfold header_fits, header_values in *. pose proof (type_fits page) as Ht.
  destruct (page_header_fields page) as [[t link] count]. cbn [fst] in Ht.
  destruct H as (H1 & H2 & H3 & H4 & H5).
  repeat (apply List.Forall2_cons; [first [by apply fits_spec|done]|]). apply List.Forall2_nil.
Qed.

(** Header and directory overwrite the first bytes of the buffer. *)
Lemma overwrite_front (h d : bytes) n tail :
  (length h + length d <= n)%nat ->
  py_slice_assign (py_slice_assign (replicate n x00 ++ tail) 0 (len h) h)
    (len h) (len h + len d) d
  = h ++ d ++ replicate (n - length h - length d) x00 ++ tail.
Proof.
  intros Hn. replace n with (length h + (length d + (n - length h - length d)))%nat at 1 by lia.
  rewrite !replicate_add, <-!app_assoc.
  assert (forall X, py_slice_assign (replicate (length h) x00 ++ X) 0 (len h) h = h ++ X) as ->.
  { intros X. apply (slice_assign_mid [] _ _ h). unfold len. by rewrite length_replicate. }
  apply slice_assign_mid. unfold len. by rewrite length_replicate.
Qed.

Lemma foldl_add_sum a l : foldl Z.add a l = a + foldr Z.add 0 l.
Proof. revert a. induction l as [|x l IH]; intros a; simpl; [lia|]. rewrite IH. lia. Qed.

Lemma sum_sizes {A} (size : A -> Z) (wire : A -> bytes) (slots : list A) :
  (forall s, size s = 8 + len (wire s)) ->
  foldr Z.add 0 (size <$> slots) = 8 * len (wire <$> slots) + total (wire <$> slots).
Proof.
  intros H. induction slots as [|s slots IH]; [done|].
  rewrite !fmap_cons. cbn [foldr total]. fold (total (wire <$> slots)). rewrite IH, H.
  unfold len. simpl length. lia.
Qed.

(** What a slotted page of either kind is for the codec: the records of its
    slots, how they are packed, and how they are read back. *)
Record Slotted (page : Page) (wires : list bytes) : Prop := {
  slotted_pack : forall ptr, total wires <= ptr < 2 ^ 32 ->
    encode_page_body page (replicate (Z.to_nat ptr) x00) =
      Ok (replicate (Z.to_nat (ptr - total wires)) x00 ++ packed wires, directory ptr wires,
          32 + 8 * len wires, ptr - total wires);
  slotted_size : calculate_page_size page = 32 + 8 * len wires + total wires;
  slotted_count : (page_header_fields page).2 = len wires;
  slotted_read : forall r0 ps fstart fend front suffix,
    ps < 2 ^ 32 ->
    header_fits page fstart fend ->
    (length wires <= length (rd_data r0))%nat ->
    rd_data r0 = front ++ packed wires ->
    len front + total wires = ps ->
    remaining r0 = page_header_wire page fstart fend ++ directory ps wires ++ suffix ->
    (page_body r0).2 = Ok page;
}.

Lemma replicate_to_nat_len {A} (x : A) n : 0 <= n -> len (replicate (Z.to_nat n) x) = n.
Proof. unfold len. rewrite length_replicate. lia. Qed.

Lemma internal_slotted p :
  Forall internal_slot_fits (internal_slots p) ->
  Slotted (PInternal p) (internal_slot_wire <$> internal_slots p).
Proof.
  intros Hok. split.
  - intros ptr Hp. unfold encode_page_body. rewrite replicate_to_nat_len.
    2: { pose proof (total_nonneg (internal_slot_wire <$> internal_slots p)). lia. }
    pose proof (pack_slots_ok write_internal_slot internal_slot_wire internal_slot_fits
      internal_slot_writes (internal_slots p) ptr [] [] Hok Hp) as E.
    rewrite !app_nil_r in E. rewrite E. cbn. do 3 f_equal.
    unfold len. by rewrite length_fmap.
  - unfold calculate_page_size, page_slot_sizes. rewrite foldl_add_sum.
    rewrite (sum_sizes _ internal_slot_wire); [change (sizeof PAGE_HEADER) with 32; lia|].
    intros s. rewrite internal_slot_wire_length. unfold calculate_internal_slot_size.
    change (sizeof SLOT_ENTRY) with 8. lia.
  - cbn. unfold len. by rewrite length_fmap.
  - intros r0 ps fstart fend front suffix Hps Hfit Hlen Hd Hf Hr. unfold page_body.
    destruct (reads_header _ _ _ Hfit r0 _ Hr) as (r1 & E1 & D1 & R1).
    rewrite (bind_Ok _ _ _ _ _ E1).
    set (vs := header_values _ _ _).
    change (value_int vs 0) with (@Ok Z TYPE_INTERNAL).
    change (value_int vs 2) with (Ok (len (internal_slots p))).
    change (value_int vs 5) with (Ok (internal_lsn p)).
    change (value_int vs 6) with (Ok (leftmost_child_page_id p)). mrun.
    change (TYPE_INTERNAL =? TYPE_INTERNAL) with true. cbv iota.
    rewrite <-D1 in Hd, Hlen. rewrite length_fmap in Hlen.
    destruct (read_slots_ok internal_record internal_slot_wire internal_slot_fits
      internal_record_parse (internal_slots p) (S (length (rd_data r1))) r1 ps front [] suffix)
      as (r2 & E2); try done; [lia| |].
    { by rewrite app_nil_r. }
    rewrite E2. by destruct p.
Qed.

Lemma leaf_slotted p :
  Forall leaf_slot_fits (leaf_slots p) ->
  Slotted (PLeaf p) (leaf_slot_wire <$> leaf_slots p).
Proof.
  intros Hok. split.
  - intros ptr Hp. unfold encode_page_body. rewrite replicate_to_nat_len.
    2: { pose proof (total_nonneg (leaf_slot_wire <$> leaf_slots p)). lia. }
    pose proof (pack_slots_ok write_leaf_slot leaf_slot_wire leaf_slot_fits
      leaf_slot_writes (leaf_slots p) ptr [] [] Hok Hp) as E.
    rewrite !app_nil_r in E. rewrite E. cbn. do 3 f_equal.
    unfold len. by rewrite length_fmap.
  - unfold calculate_page_size, page_slot_sizes. rewrite foldl_add_sum.
    rewrite (sum_sizes _ leaf_slot_wire); [change (sizeof PAGE_HEADER) with 32; lia|].
    intros s. rewrite leaf_slot_wire_length. unfold calculate_leaf_slot_size.
    change (sizeof SLOT_ENTRY) with 8. lia.
  - cbn. unfold len. by rewrite length_fmap.
  - intros r0 ps fstart fend front suffix Hps Hfit Hlen Hd Hf Hr. unfold page_body.
    destruct (reads_header _ _ _ Hfit r0 _ Hr) as (r1 & E1 & D1 & R1).
    rewrite (bind_Ok _ _ _ _ _ E1).
    set (vs := header_values _ _ _).
    change (value_int vs 0) with (@Ok Z TYPE_LEAF).
    change (value_int vs 2) with (Ok (len (leaf_slots p))).
    change (value_int vs 5) with (Ok (leaf_lsn p)).
    change (value_int vs 6) with (Ok (right_sibling_page_id p)). mrun.
    change (TYPE_LEAF =? TYPE_INTERNAL) with false. change (TYPE_LEAF =? TYPE_LEAF) with true.
    cbv iota. rewrite <-D1 in Hd, Hlen. rewrite length_fmap in Hlen.
    destruct (read_slots_ok leaf_record leaf_slot_wire leaf_slot_fits
      leaf_record_parse (leaf_slots p) (S (length (rd_data r1))) r1 ps front [] suffix)
      as (r2 & E2); try done; [lia| |].
    { by rewrite app_nil_r. }
    rewrite E2. by destruct p.
Qed.

(** The 64-bit fields of a page fit their fields on disk. *)
Definition page_ids_fit (page : Page) : Prop :=
  fits 8 (page_lsn page) = true /\ fits 8 (page_header_fields page).1.2 = true.

(** A slotted page that fits the page size round-trips, and fills the page
    exactly. *)
Lemma slotted_round_trip page wires ps :
  Slotted page wires -> page_ids_fit page -> calculate_page_size page <= ps < 2 ^ 32 ->
  exists b, encode_page page ps = Ok b /\ len b = ps /\ decode_page b = Ok page.
Proof.
  intros HS [Hlsn Hlink] Hps. pose proof (slotted_size _ _ HS) as Hsize.
  pose proof (slotted_count _ _ HS) as Hcount.
  pose proof (total_nonneg wires). assert (0 <= len wires) by (unfold len; lia).
  set (fs := 32 + 8 * len wires) in *. set (fe := ps - total wires).
  assert (header_fits page fs fe) as Hfit.
  { unfold header_fits. destruct (page_header_fields page) as [[t link] count]. cbn [fst snd] in *.
    change (2 ^ 32) with (256 ^ Z.of_nat 4) in Hps. subst count.
    repeat split; try done; apply fits_spec; lia. }
  set (hd := page_header_wire page fs fe). set (dir := directory ps wires).
  assert (length hd = 32%nat) as Hhd by apply page_header_wire_length.
  assert (length dir = (8 * length wires)%nat) as Hdir by apply directory_length.
  set (gap := replicate (Z.to_nat fe - 32 - 8 * length wires) x00).
  assert (encode_page page ps = Ok (hd ++ dir ++ gap ++ packed wires)) as Henc.
  { unfold encode_page, py_zeros. destruct (Z.ltb_spec ps 0); [lia|]. cbn [mbind Result_bind].
    pose proof (pack_header _ _ _ Hfit) as Hpack. unfold header_values in Hpack.
    destruct (page_header_fields page) as [[t link] count] eqn:E.
    rewrite (slotted_pack _ _ HS) by lia. cbn [mbind Result_bind].
    fold fs fe.
    rewrite (build_writes _ _ (write_struct_writes _ _ _ Hpack)). cbn [mbind Result_bind].
    fold hd dir. cbn [mret Result_ret].
    rewrite overwrite_front by (rewrite Hhd, Hdir; unfold fe, len in *; lia).
    unfold gap. by rewrite Hhd, Hdir. }
  assert (len (hd ++ dir ++ gap ++ packed wires) = ps) as Hlen.
  { pose proof (total_packed wires) as Hp. unfold gap, fe, len in *.
    rewrite !length_app, length_replicate. lia. }
  eexists. split; [done|]. split; [done|].
  unfold decode_page, parse.
  apply (slotted_read _ _ HS _ ps fs fe (hd ++ dir ++ gap) (gap ++ packed wires)); try done.
  - lia.
  - cbn [reader_init rd_data]. unfold len in *. lia.
  - cbn [reader_init rd_data]. by rewrite <-!app_assoc.
  - pose proof (total_packed wires) as Hp. unfold len in *. rewrite !length_app in *. lia.
Qed.
