(* ===== verification/CodecTheorems.v ===== *)
(** * Properties of the wire format

    Round trips of every encoder, torn-record and corruption detection, and the
    agreement between the sizes the tree computes and the bytes on disk. *)

From S2P Require Import Prelude Bytes Entities Codec Crc CodecFacts PageCodecFacts.
From Stdlib Require Import Strings.Byte.

(** ** The freelist page *)

Fixpoint ids_wire (ids : list Z) : bytes :=
  match ids with
  | [] => []
  | i :: ids' => le_encode 8 i ++ ids_wire ids'
  end.

Lemma ids_wire_length ids : length (ids_wire ids) = (8 * length ids)%nat.
Proof.
  induction ids as [|i ids IH]; [done|]. cbn [ids_wire].
  rewrite length_app, le_encode_length, IH. simpl. lia.
Qed.

Lemma ids_writes ids :
  Forall (fun i => fits 8 i = true) ids -> writes (write_page_ids ids) (ids_wire ids).
Proof.
  induction 1 as [|i ids Hi _ IH]; cbn [write_page_ids ids_wire].
  - intros buf. by rewrite app_nil_r.
  - apply writes_seq; [by apply (write_int_writes 8)|done].
Qed.

Lemma ids_read ids fuel r0 suffix :
  Forall (fun i => fits 8 i = true) ids -> (length ids <= fuel)%nat ->
  remaining r0 = ids_wire ids ++ suffix ->
  exists r1, read_many fuel (len ids) (read_int PAGE_ID_FIELD 0) r0 = (r1, Ok ids).
Proof.
  intros Hok. revert fuel r0. induction Hok as [|i ids Hi _ IH]; intros fuel r0 Hf Hr.
  { exists r0. by destruct fuel. }
  destruct fuel as [|fuel]; [simpl in Hf; lia|]. cbn [ids_wire] in Hr. rewrite <-app_assoc in Hr.
  destruct (reads_int 8 i ltac:(lia) Hi r0 _ Hr) as (r1 & E1 & _ & R1).
  destruct (IH fuel r1) as (r2 & E2); [simpl in Hf; lia|done|].
  exists r2. cbn [read_many].
  destruct (Z.leb_spec (len (i :: ids)) 0) as [Hl|_]; [unfold len in Hl; simpl in Hl; lia|].
  change PAGE_ID_FIELD with [FUint 8] in *. rewrite (bind_Ok _ _ _ _ _ E1).
  replace (len (i :: ids) - 1) with (len ids) by (unfold len; simpl; lia).
  by rewrite (bind_Ok _ _ _ _ _ E2).
Qed.

Lemma freelist_round_trip p ps :
  page_ids_fit (PFreelist p) -> Forall (fun i => fits 8 i = true) (freed_page_ids p) ->
  32 <= ps < 2 ^ 32 -> len (freed_page_ids p) <= get_max_freed_ids_per_freelist_page ps ->
  exists b, encode_page (PFreelist p) ps = Ok b /\ len b = ps /\ decode_page b = Ok (PFreelist p).
Proof.
  intros [Hlsn Hlink] Hids Hps Hmax. cbn [page_lsn page_header_fields fst snd] in *.
  unfold get_max_freed_ids_per_freelist_page in Hmax.
  change (sizeof PAGE_HEADER) with 32 in Hmax. change (sizeof PAGE_ID_FIELD) with 8 in Hmax.
  assert (8 * len (freed_page_ids p) <= ps - 32) as Hroom.
  { pose proof (Z.mul_div_le (ps - 32) 8). lia. }
  set (hd := page_header_wire (PFreelist p) 0 0). set (dir := ids_wire (freed_page_ids p)).
  assert (length hd = 32%nat) as Hhd by apply page_header_wire_length.
  assert (length dir = (8 * length (freed_page_ids p))%nat) as Hdir by apply ids_wire_length.
  assert (header_fits (PFreelist p) 0 0) as Hfit.
  { unfold header_fits. cbn [page_header_fields]. change (2 ^ 32) with (256 ^ Z.of_nat 4) in Hps.
    repeat split; try done. apply fits_spec. unfold len in *. lia. }
  set (gap := replicate (Z.to_nat ps - 32 - 8 * length (freed_page_ids p)) x00).
  assert (encode_page (PFreelist p) ps = Ok (hd ++ dir ++ gap)) as Henc.
  { unfold encode_page, py_zeros. destruct (Z.ltb_spec ps 0); [lia|]. cbn [mbind Result_bind].
    cbn [page_header_fields encode_page_body].
    rewrite (build_writes _ _ (ids_writes _ Hids)). cbn [mbind Result_bind mret Result_ret].
    pose proof (pack_header _ _ _ Hfit) as Hpack. unfold header_values in Hpack.
    cbn [page_header_fields] in Hpack.
    rewrite (build_writes _ _ (write_struct_writes _ _ _ Hpack)). cbn [mbind Result_bind].
    fold hd dir. cbn [mret Result_ret].
    pose proof (overwrite_front hd dir (Z.to_nat ps) []) as Ho. rewrite !app_nil_r in Ho.
    rewrite Ho by (rewrite Hhd, Hdir; unfold len in *; lia). unfold gap. by rewrite Hhd, Hdir. }
  eexists. split; [done|]. split.
  { unfold gap, len in *. rewrite !length_app, length_replicate. lia. }
  unfold decode_page, parse, page_body.
  destruct (reads_header _ _ _ Hfit (reader_init (hd ++ dir ++ gap)) (dir ++ gap)) as (r1 & E1 & D1 & R1);
    [done|].
  rewrite (bind_Ok _ _ _ _ _ E1). set (vs := header_values _ _ _).
  change (value_int vs 0) with (@Ok Z TYPE_FREELIST).
  change (value_int vs 2) with (Ok (len (freed_page_ids p))).
  change (value_int vs 5) with (Ok (freelist_lsn p)).
  change (value_int vs 6) with (Ok (next_freelist_page_id p)). mrun.
  change (TYPE_FREELIST =? TYPE_INTERNAL) with false. change (TYPE_FREELIST =? TYPE_LEAF) with false.
  change (TYPE_FREELIST =? TYPE_FREELIST) with true. cbv iota.
  destruct (ids_read (freed_page_ids p) (S (length (rd_data r1))) r1 gap) as (r2 & E2); try done.
  { rewrite D1. cbn [reader_init rd_data]. rewrite !length_app. lia. }
  rewrite E2. by destruct p.
Qed.

(** ** Slots that fit a page fit their fields *)

Lemma leaf_slot_size_parts s : 0 <= len (lslot_key s) /\ 0 <= len (lslot_value s) /\
  calculate_leaf_slot_size s true = 16 + len (lslot_key s) + len (lslot_value s).
Proof.
  unfold calculate_leaf_slot_size, len. cbv zeta iota. change (sizeof SLOT_ENTRY) with 8.
  change (sizeof LENGTH_FIELD) with 4. lia.
Qed.

Lemma internal_slot_size_parts s : 0 <= len (islot_key s) /\
  calculate_internal_slot_size s true = 20 + len (islot_key s).
Proof.
  unfold calculate_internal_slot_size, len. cbv zeta iota. change (sizeof SLOT_ENTRY) with 8.
  change (sizeof LENGTH_FIELD) with 4. change (sizeof PAGE_ID_FIELD) with 8. lia.
Qed.

Lemma sum_member {A} (size : A -> Z) (slots : list A) s :
  (forall x, 0 <= size x) -> s ∈ slots -> size s <= foldr Z.add 0 (size <$> slots).
Proof.
  intros Hpos Hs. induction slots as [|x slots IH]; [by apply not_elem_of_nil in Hs|].
  assert (0 <= foldr Z.add 0 (size <$> slots)).
  { clear -Hpos. induction slots as [|y slots IH]; [done|].
    rewrite fmap_cons. cbn [foldr]. specialize (Hpos y). lia. }
  rewrite fmap_cons. cbn [foldr]. pose proof (Hpos x). apply elem_of_cons in Hs as [->|Hs]; [lia|].
  specialize (IH Hs). lia.
Qed.

Lemma leaf_slots_fit p ps :
  calculate_page_size (PLeaf p) <= ps < 2 ^ 32 -> Forall leaf_slot_fits (leaf_slots p).
Proof.
  intros Hps. apply Forall_forall. intros s Hs.
  unfold calculate_page_size, page_slot_sizes in Hps. rewrite foldl_add_sum in Hps.
  change (sizeof PAGE_HEADER) with 32 in Hps.
  pose proof (sum_member (fun s => calculate_leaf_slot_size s true) (leaf_slots p) s) as Hm.
  destruct (leaf_slot_size_parts s) as (? & ? & Es). cbv beta in Hm. rewrite Es in Hm.
  assert (16 + len (lslot_key s) + len (lslot_value s) < 2 ^ 32).
  { eapply Z.le_lt_trans; [apply Hm; [|done]|lia].
    intros x. destruct (leaf_slot_size_parts x) as (? & ? & ->). lia. }
  change (2 ^ 32) with (256 ^ Z.of_nat 4) in *. split; apply fits_spec; lia.
Qed.

Lemma internal_slots_fit p ps :
  calculate_page_size (PInternal p) <= ps < 2 ^ 32 ->
  Forall (fun s => fits 8 (child_page_id s) = true) (internal_slots p) ->
  Forall internal_slot_fits (internal_slots p).
Proof.
  intros Hps Hc. apply Forall_forall. intros s Hs.
  unfold calculate_page_size, page_slot_sizes in Hps. rewrite foldl_add_sum in Hps.
  change (sizeof PAGE_HEADER) with 32 in Hps.
  pose proof (sum_member (fun s => calculate_internal_slot_size s true) (internal_slots p) s) as Hm.
  destruct (internal_slot_size_parts s) as (? & Es). cbv beta in Hm. rewrite Es in Hm.
  assert (20 + len (islot_key s) < 2 ^ 32).
  { eapply Z.le_lt_trans; [apply Hm; [|done]|lia].
    intros x. destruct (internal_slot_size_parts x) as (? & ->). lia. }
  change (2 ^ 32) with (256 ^ Z.of_nat 4) in *. split.
  - apply fits_spec. lia.
  - rewrite Forall_forall in Hc. by apply Hc.
Qed.

(** The conditions under which a page can be written to a page of [ps] bytes:
    it fits, and its ids and LSN fit eight bytes. *)
Definition page_encodable (ps : Z) (page : Page) : Prop :=
  page_ids_fit page /\
  match page with
  | PLeaf _ => calculate_page_size page <= ps < 2 ^ 32
  | PInternal p => calculate_page_size page <= ps < 2 ^ 32 /\
      Forall (fun s => fits 8 (child_page_id s) = true) (internal_slots p)
  | PFreelist p => 32 <= ps < 2 ^ 32 /\
      len (freed_page_ids p) <= get_max_freed_ids_per_freelist_page ps /\
      Forall (fun i => fits 8 i = true) (freed_page_ids p)
  end.

Lemma page_round_trip page ps :
  page_encodable ps page ->
  exists b, encode_page page ps = Ok b /\ len b = ps /\ decode_page b = Ok page.
Proof.
  intros [Hids H]. destruct page as [p|p|p].
  - destruct H as [Hps Hc]. eapply slotted_round_trip; [|done|done].
    apply internal_slotted. by eapply internal_slots_fit.
  - eapply slotted_round_trip; [|done|done]. apply leaf_slotted. by eapply leaf_slots_fit.
  - destruct H as (? & ? & ?). by apply freelist_round_trip.
Qed.

(** ** Decoding always ends *)

(** [m] moves forward: on success it has consumed a byte of the buffer. *)
Definition consumes {A} (m : M BufferReader A) : Prop :=
  forall r, match m r with
            | (r', Ok _) => rd_data r' = rd_data r /\ (rd_offset r < rd_offset r')%nat /\
                            (rd_offset r' <= length (rd_data r))%nat
            | (_, Raise e) => e <> OutOfFuel
            end.

Lemma value_int_no_fuel vs i : value_int vs i <> Raise OutOfFuel.
Proof. unfold value_int. destruct (vs !! i) as [[]|]; done. Qed.

Lemma read_struct_run st r :
  read_struct st r =
    if (rd_offset r + struct_size st <=? length (rd_data r))%nat
    then (reader_advance (struct_size st) r, Ok (unpack_fields st (drop (rd_offset r) (rd_data r))))
    else (r, Raise StructError).
Proof. unfold read_struct, struct_unpack_from. mrun. by destruct (_ <=? _)%nat. Qed.

Lemma read_many_fuel {A} (item : M BufferReader A) fuel count r :
  consumes item -> (length (rd_data r) - rd_offset r < fuel)%nat ->
  (read_many fuel count item r).2 <> Raise OutOfFuel.
Proof.
  intros Hitem. revert count r. induction fuel as [|fuel IH]; intros count r Hf; [lia|].
  cbn [read_many]. destruct (count <=? 0); [done|].
  pose proof (Hitem r) as Hi. unfold mbind, M_bind.
  destruct (item r) as [r1 [x|e]]; [|simpl; congruence].
  destruct Hi as (D & O1 & O2). specialize (IH (count - 1) r1).
  destruct (read_many fuel (count - 1) item r1) as [r2 [xs|e]]; [done|].
  apply IH. rewrite D. lia.
Qed.

(** Reading a record raises no fuel error. *)
Definition no_fuel_error {A} (m : M BufferReader A) : Prop := forall r, (m r).2 <> Raise OutOfFuel.

Lemma no_fuel_bind {A B} (m : M BufferReader A) (f : A -> M BufferReader B) :
  no_fuel_error m -> (forall a, no_fuel_error (f a)) -> no_fuel_error (m ≫= f).
Proof.
  intros Hm Hf r. specialize (Hm r). unfold mbind, M_bind.
  destruct (m r) as [r' [a|e]]; [apply Hf|].
  simpl in *. intros [= ->]. done.
Qed.

Lemma no_fuel_lift {A} (x : Result A) : x <> Raise OutOfFuel -> no_fuel_error (lift x).
Proof. by intros H r. Qed.

Lemma no_fuel_read_struct st : no_fuel_error (read_struct st).
Proof. intros r. rewrite read_struct_run. by destruct (_ <=? _)%nat. Qed.

Lemma no_fuel_read_int st i : no_fuel_error (read_int st i).
Proof.
  apply no_fuel_bind; [apply no_fuel_read_struct|]. intros vs. apply no_fuel_lift, value_int_no_fuel.
Qed.

Lemma no_fuel_prefixed : no_fuel_error read_length_prefixed_bytes.
Proof. apply no_fuel_bind; [apply no_fuel_read_int|]. by intros n r. Qed.

Lemma no_fuel_internal_record : no_fuel_error internal_record.
Proof.
  apply no_fuel_bind; [apply no_fuel_prefixed|]. intros k.
  apply no_fuel_bind; [apply no_fuel_read_int|]. by intros c r.
Qed.

Lemma no_fuel_leaf_record : no_fuel_error leaf_record.
Proof.
  apply no_fuel_bind; [apply no_fuel_prefixed|]. intros k.
  apply no_fuel_bind; [apply no_fuel_prefixed|]. by intros c r.
Qed.

Lemma consumes_read_slot {A} (record : M BufferReader A) :
  no_fuel_error record -> consumes (read_slot record).
Proof.
  intros Hrec r. unfold read_slot. unfold mbind at 1, M_bind at 1. rewrite read_struct_run.
  change (struct_size SLOT_ENTRY) with 8%nat.
  destruct (rd_offset r + 8 <=? length (rd_data r))%nat eqn:E; [|done]. apply Nat.leb_le in E.
  set (vs := unpack_fields _ _).
  pose proof (value_int_no_fuel vs 0). pose proof (value_int_no_fuel vs 1).
  mrun. destruct (value_int vs 0) as [o|e]; [|congruence].
  destruct (value_int vs 1) as [l|e]; [|congruence].
  unfold parse. cbn [reader_advance rd_data].
  specialize (Hrec (reader_init (py_slice (rd_data r) o (o + l)))).
  destruct (record _) as [r' [x|e]]; cbn [snd] in *; [|congruence].
  cbn [reader_advance rd_offset rd_data]. split; [done|lia].
Qed.

Lemma consumes_read_id : consumes (read_int PAGE_ID_FIELD 0).
Proof.
  intros r. unfold read_int. unfold mbind, M_bind. rewrite read_struct_run.
  change (struct_size PAGE_ID_FIELD) with 8%nat.
  destruct (rd_offset r + 8 <=? length (rd_data r))%nat eqn:E; [|done]. apply Nat.leb_le in E.
  cbn [unpack_fields PAGE_ID_FIELD UINT64_FIELD unpack_field lift value_int lookup list_lookup reader_advance rd_offset rd_data].
  split; [done|lia].
Qed.

Lemma page_body_no_fuel : no_fuel_error page_body.
Proof.
  unfold page_body. apply no_fuel_bind; [apply no_fuel_read_struct|]. intros vs.
  do 4 (apply no_fuel_bind; [apply no_fuel_lift, value_int_no_fuel|]; intros ?).
  intros r. unfold mbind at 1, M_bind at 1. cbn [gets]. revert r.
  assert (forall A (item : M BufferReader A) (k : list A -> M BufferReader Page) c r,
    consumes item -> (forall l, no_fuel_error (k l)) ->
    ((read_many (S (length (rd_data r))) c item ≫= k) r).2 <> Raise OutOfFuel) as Hmany.
  { intros A item k c r Hi Hk. pose proof (read_many_fuel item (S (length (rd_data r))) c r Hi).
    unfold mbind, M_bind. destruct (read_many _ _ _ _) as [r' [l|e]].
    - apply Hk.
    - specialize (H ltac:(lia)). simpl in *. intros [= ->]. done. }
  intros r. destruct (_ =? TYPE_INTERNAL).
  { apply Hmany; [apply consumes_read_slot, no_fuel_internal_record|]. by intros l r'. }
  destruct (_ =? TYPE_LEAF).
  { apply Hmany; [apply consumes_read_slot, no_fuel_leaf_record|]. by intros l r'. }
  destruct (_ =? TYPE_FREELIST); [|done].
  apply Hmany; [apply consumes_read_id|]. by intros l r'.
Qed.

(** Changing a byte of a record changes its checksum or the stored one. *)
Lemma wire_corrupted r i x y :
  wal_wire r !! i = Some y -> x <> y ->
  exists expected actual,
    decode_wal_record (<[i := x]> (wal_wire r)) = Raise (DBChecksumError expected actual).
Proof.
  intros Hi Hne.
  unfold wal_wire, with_crc in *. set (w := le_encode 4 (wal_length r) ++ _) in *.
  assert (exists w' c', <[i := x]> (w ++ le_encode 4 (crc32 w)) = w' ++ c' /\ length c' = 4%nat /\
    crc32 w' <> le_decode c') as (w' & c' & E & Hc & Hcrc).
  { pose proof (crc32_width w) as Hw. destruct (decide (i < length w)%nat) as [Hlt|Hge].
    - exists (<[i := x]> w), (le_encode 4 (crc32 w)). rewrite insert_app_l by done.
      split; [done|]. split; [apply le_encode_length|]. rewrite le_decode_encode by done.
      apply crc32_insert with y; [|done]. by rewrite lookup_app_l in Hi.
    - exists w, (<[i - length w := x]> (le_encode 4 (crc32 w)))%nat.
      replace i with (length w + (i - length w))%nat at 1 by lia. rewrite insert_app_r.
      split; [done|]. split; [by rewrite length_insert, le_encode_length|].
      rewrite lookup_app_r in Hi by lia. intros E.
      assert (<[(i - length w)%nat := x]> (le_encode 4 (crc32 w)) = le_encode 4 (crc32 w)) as Eq.
      { rewrite E at 2. rewrite <-(le_encode_decode (<[_ := x]> _)) at 1.
        by rewrite length_insert, le_encode_length. }
      apply (f_equal (fun l => l !! (i - length w)%nat)) in Eq.
      rewrite list_lookup_insert_eq in Eq by (by eapply lookup_lt_Some). congruence. }
  rewrite E. unfold decode_wal_record. rewrite verify_crc32_split by done.
  destruct (Z.eqb_spec (crc32 w') (le_decode c')); [done|]. cbn. eauto.
Qed.

(** ** The properties *)

(** C20. A record that the encoder accepts is read back from a log file exactly,
    whatever follows it in the file, and reading it consumes exactly its own
    bytes. *)
Theorem wal_record_round_trip r b rest :
  encode_wal_record r = Ok b ->
  decode_next_wal_record (b ++ rest) = (length b, Ok r).
Proof.
  rewrite encode_wal_record_eq. destruct (wal_fits r) eqn:H; [|done]. intros [= <-].
  by apply decode_next_wal_wire.
Qed.

Definition sample_put : WALRecord := WALPutRecord 7 [x61; x62] [x63].

Lemma wal_record_round_trip_witness :
  exists b, encode_wal_record sample_put = Ok b /\
    decode_next_wal_record (b ++ [x00; x01]) = (length b, Ok sample_put).
Proof.
  eexists. split; [vm_compute; reflexivity|]. apply wal_record_round_trip. vm_compute. reflexivity.
Defined.

(** The encoder accepts a record exactly when its LSN and page ids fit 64
    bits and its lengths, that of the whole record included, fit 32 bits;
    otherwise it raises [struct.error]. *)
Theorem encode_wal_record_accepts r :
  (exists b, encode_wal_record r = Ok b) /\ wal_fits r = true \/
  encode_wal_record r = Raise StructError /\ wal_fits r = false.
Proof. rewrite encode_wal_record_eq. destruct (wal_fits r); eauto. Qed.

(** Torn tail: no strict prefix of an encoded record is taken for a record;
    reading it reports the end of the file. *)
Theorem torn_record_is_eof r b n :
  encode_wal_record r = Ok b -> (n < length b)%nat ->
  (decode_next_wal_record (take n b)).2 = Raise EOFError.
Proof.
  rewrite encode_wal_record_eq. destruct (wal_fits r) eqn:H; [|done]. intros [= <-] Hn.
  by apply decode_next_torn.
Qed.

Lemma torn_record_is_eof_witness :
  exists b, encode_wal_record sample_put = Ok b /\ (20 < length b)%nat /\
    (decode_next_wal_record (take 20 b)).2 = Raise EOFError.
Proof.
  eexists. split; [vm_compute; reflexivity|]. split; [vm_compute; lia|].
  apply (torn_record_is_eof sample_put); [vm_compute; reflexivity|vm_compute; lia].
Defined.

(** C21. Corruption: changing any single byte of an encoded record, its length
    prefix and its checksum included, makes decoding that buffer raise a
    checksum error. *)
Theorem wal_corruption_detected r b i x y :
  encode_wal_record r = Ok b -> b !! i = Some y -> x <> y ->
  exists expected actual, decode_wal_record (<[i := x]> b) = Raise (DBChecksumError expected actual).
Proof.
  rewrite encode_wal_record_eq. destruct (wal_fits r) eqn:Hf; [|done]. intros [= <-].
  apply wire_corrupted.
Qed.

Lemma wal_corruption_detected_witness :
  exists b expected actual, encode_wal_record sample_put = Ok b /\
    decode_wal_record (<[14%nat := x99]> b) = Raise (DBChecksumError expected actual).
Proof.
  eexists. cut (exists e a, decode_wal_record (<[14%nat := x99]>
    (match encode_wal_record sample_put with Ok b => b | Raise _ => [] end)) = Raise (DBChecksumError e a)).
  - intros (e & a & H). exists e, a. split; [vm_compute; reflexivity|]. exact H.
  - apply (wal_corruption_detected sample_put _ 14 x99 x00); [vm_compute; reflexivity|vm_compute; reflexivity|].
    intros E. apply (f_equal byte_to_Z) in E. vm_compute in E. discriminate E.
Defined.

(** C22. Every page that fits its page size round-trips: the encoder fills the
    page to exactly the page size, and decoding gives the same page back.
    [page_encodable] measures internal and leaf pages by
    [calculate_page_size], the size the tree decides splits and merges by, and
    freelist pages by their capacity. *)
Theorem encode_decode_page page ps :
  page_encodable ps page ->
  exists b, encode_page page ps = Ok b /\ len b = ps /\ decode_page b = Ok page.
Proof. apply page_round_trip. Qed.

Definition sample_leaf : Page :=
  PLeaf {| leaf_lsn := 3; right_sibling_page_id := 9;
           leaf_slots := [{| lslot_key := [x61]; lslot_value := [x62; x63] |};
                          {| lslot_key := [x64]; lslot_value := [] |}] |}.

Lemma encode_decode_page_witness :
  page_encodable 68 sample_leaf /\
  exists b, encode_page sample_leaf 68 = Ok b /\ len b = 68 /\ decode_page b = Ok sample_leaf.
Proof.
  assert (page_encodable 68 sample_leaf) as H by (vm_compute; repeat split; discriminate).
  split; [exact H|]. apply (encode_decode_page sample_leaf 68). exact H.
Defined.

(** The meta page: the encoder raises [struct.error] when a field is out of
    range, [ValueError] when the page cannot hold it, and otherwise produces
    exactly one page, from whose bytes, whatever follows them, the meta page
    is decoded. *)
Theorem meta_page_round_trip m :
  match encode_meta_page m with
  | Ok b => len b = page_size_bytes m /\ forall suffix, decode_meta_page (b ++ suffix) = Ok m
  | Raise e => e = StructError /\ meta_fits m = false \/
               e = ValueError /\ page_size_bytes m < MIN_PAGE_SIZE
  end.
Proof.
  rewrite encode_meta_page_eq. destruct (meta_fits m) eqn:Hf; [|by left].
  destruct (Z.ltb_spec (page_size_bytes m) MIN_PAGE_SIZE) as [Hlt|Hge]; [by right|].
  change MIN_PAGE_SIZE with 52 in Hge. split.
  - unfold len, with_crc. rewrite !length_app, meta_wire_length, le_encode_length, length_replicate. lia.
  - intros suffix. rewrite <-app_assoc. by apply decode_meta_wire.
Qed.

(** Decoding any bytes as a page ends: the loop over the slot count never
    needs more rounds than the buffer has bytes, whatever count a damaged
    header holds. *)
Theorem decode_page_terminates data : decode_page data <> Raise OutOfFuel.
Proof. apply page_body_no_fuel. Qed.
