(* ===== verification/PagerFacts.v ===== *)
(** * The pager's invariant and its operations

    Pages as the bytes at their offset of the data file, the freelist as the
    chain of pages it is, and the invariant [PagerInv] that every operation of
    the pager keeps; the theorems are in the file [PagerTheorems]. *)

From S2P Require Import Prelude Bytes Entities Codec Fs Pager CodecFacts PageCodecFacts CodecTheorems.
From Stdlib Require Import Strings.Byte.

(** ** Pages of the data file *)

Definition page_at (f : File) (ps id : Z) : bytes := read_at f (id * ps) ps.

(** What a fresh read of a page gives. *)
Definition disk_page (f : File) (ps id : Z) : option Page :=
  match decode_page (page_at f ps id) with Ok page => Some page | Raise _ => None end.

(** The freelist page as the pager sees it: cached, or read from the file. *)
Definition freelist_at (p : Pager) (f : File) (id : Z) : option FreelistPage :=
  match pg_freelist_cache p !! id with
  | Some fp => Some fp
  | None => match disk_page f (pg_page_size_bytes p) id with
            | Some (PFreelist fp) => Some fp
            | _ => None
            end
  end.

(** [chain look h heads freed]: following the links from [h] visits the
    freelist pages [heads], which together hold the ids [freed]. *)
Inductive chain (look : Z -> option FreelistPage) : Z -> list Z -> list Z -> Prop :=
  | chain_nil : chain look 0 [] []
  | chain_cons h fp heads freed :
      h <> 0 -> look h = Some fp -> chain look (next_freelist_page_id fp) heads freed ->
      chain look h (h :: heads) (freed_page_ids fp ++ freed).

(** ** The invariant

    [f] is the open data file, [m] the meta page in memory, [heads] the pages
    of the freelist and [freed] the page ids they hold. *)
Record PagerInv (p : Pager) (f : File) (m : MetaPage) (heads freed : list Z) : Prop := {
  inv_open : pg_is_open p = true;
  inv_disk : pg_disk p = Some f;
  inv_meta : pg_meta_page p = Some m;
  inv_size : page_size_bytes m = pg_page_size_bytes p;
  inv_size_bound : MIN_PAGE_SIZE <= pg_page_size_bytes p < 2 ^ 32;
  inv_next : 1 <= next_page_id m <= 2 ^ 64;
  inv_length : next_page_id m * pg_page_size_bytes p <= len (f_data f);
  inv_chain : chain (freelist_at p f) (freelist_head_page_id m) heads freed;
  inv_nodup : NoDup (heads ++ freed);
  inv_range : Forall (fun i => 0 < i < next_page_id m) (heads ++ freed);
  inv_encodable : Forall (fun h => forall fp, freelist_at p f h = Some fp ->
    page_encodable (pg_page_size_bytes p) (PFreelist fp)) heads;
  inv_cached : forall h fp, pg_freelist_cache p !! h = Some fp -> h ∈ heads;
  inv_dirty : forall h, h ∈ pg_dirty_freelist_page_ids p -> is_Some (pg_freelist_cache p !! h);
  inv_clean : forall h fp, pg_freelist_cache p !! h = Some fp ->
    h ∉ pg_dirty_freelist_page_ids p -> disk_page f (pg_page_size_bytes p) h = Some (PFreelist fp);
  inv_meta_clean : pg_is_meta_dirty p = false ->
    decode_meta_page (page_at f (pg_page_size_bytes p) META_PAGE_ID) = Ok m;
}.

(** ** Reading pages after writes *)

Lemma page_at_length f ps id :
  0 <= id -> 0 <= ps -> (id + 1) * ps <= len (f_data f) -> len (page_at f ps id) = ps.
Proof.
  intros Hid Hps Hl. unfold page_at, read_at, len in *. rewrite length_take, length_drop.
  rewrite Z.mul_add_distr_r in Hl. nia.
Qed.

Lemma page_at_write_same f ps id data :
  len data = ps -> page_at (write_at f (id * ps) data) ps id = data.
Proof.
  intros Hd. unfold page_at, read_at. simpl.
  replace (Z.to_nat ps) with (length data) by (unfold len in Hd; lia). apply splice_read_same.
Qed.

Lemma page_at_write_other f ps id j data :
  len data = ps -> 0 <= id -> 0 <= j -> id <> j -> (j + 1) * ps <= len (f_data f) ->
  page_at (write_at f (id * ps) data) ps j = page_at f ps j.
Proof.
  intros Hd Hid Hj Hne Hl. unfold page_at, read_at. simpl. unfold len in *.
  apply splice_read_other; [|lia].
  destruct (Z.lt_total id j) as [?|[?|?]]; [right|done|left].
  - assert (id * ps + ps <= j * ps) by nia. lia.
  - assert (j * ps + ps <= id * ps) by nia. lia.
Qed.

Lemma page_at_append f ps j data :
  0 <= j -> 0 <= ps -> (j + 1) * ps <= len (f_data f) ->
  page_at (append_data f data) ps j = page_at f ps j.
Proof.
  intros Hj Hps Hl. unfold page_at, read_at, len in *. simpl.
  rewrite drop_app_le by nia. rewrite take_app_le; [done|]. rewrite length_drop. nia.
Qed.

Lemma write_length f pos data : len (f_data f) <= len (f_data (write_at f pos data)).
Proof. unfold len. simpl. rewrite splice_length. lia. Qed.

(** ** The chain *)

Lemma chain_ext look look' h heads freed :
  chain look h heads freed -> (forall x, x ∈ heads -> look x = look' x) ->
  chain look' h heads freed.
Proof.
  induction 1 as [|h fp heads freed Hh Hl Hc IH]; intros He; [constructor|].
  econstructor; [done| |].
  - rewrite <-He; [done|]. set_solver.
  - apply IH. set_solver.
Qed.

Lemma chain_heads_nonzero look h heads freed : chain look h heads freed -> h <> 0 ->
  exists fp heads' freed', look h = Some fp /\ heads = h :: heads' /\
    freed = freed_page_ids fp ++ freed' /\ chain look (next_freelist_page_id fp) heads' freed'.
Proof. intros Hc Hh. inversion Hc; subst; [done|]. eauto 10. Qed.

Lemma chain_zero look heads freed : chain look 0 heads freed -> heads = [] /\ freed = [].
Proof. intros Hc. inversion Hc; subst; done. Qed.

Lemma chain_links look h heads freed : chain look h heads freed -> h = 0 \/ h ∈ heads.
Proof. destruct 1; [by left|right; set_solver]. Qed.

Lemma chain_found look h heads freed x : chain look h heads freed -> x ∈ heads -> is_Some (look x).
Proof.
  induction 1 as [|h fp heads freed Hh Hl Hc IH]; intros Hx; [set_solver|].
  apply elem_of_cons in Hx as [->|Hx]; [by eexists|]. by apply IH.
Qed.

Lemma chain_uncons look h' h hs freed : chain look h' (h :: hs) freed ->
  h' = h /\ h <> 0 /\ exists fp freed', look h = Some fp /\ freed = freed_page_ids fp ++ freed' /\
    chain look (next_freelist_page_id fp) hs freed'.
Proof. intros Hc. inversion Hc; subst. eauto 10. Qed.

(** ** Reading under the invariant *)

Section operations.
Context (p : Pager) (f : File) (m : MetaPage) (heads freed : list Z).
Context (Hinv : PagerInv p f m heads freed).

Lemma ps_pos : 52 <= pg_page_size_bytes p < 2 ^ 32.
Proof. exact (inv_size_bound _ _ _ _ _ Hinv). Qed.

Lemma open_file_run : open_file p = (p, Ok f).
Proof. unfold open_file. mrun. by rewrite (inv_open _ _ _ _ _ Hinv), (inv_disk _ _ _ _ _ Hinv). Qed.

Lemma meta_page_run : meta_page p = (p, Ok m).
Proof. unfold meta_page. mrun. by rewrite (inv_meta _ _ _ _ _ Hinv). Qed.

Lemma page_in_file id : 0 <= id < next_page_id m ->
  (id + 1) * pg_page_size_bytes p <= len (f_data f).
Proof.
  intros Hid. pose proof (inv_length _ _ _ _ _ Hinv). pose proof ps_pos.
  transitivity (next_page_id m * pg_page_size_bytes p); [|done]. nia.
Qed.

Lemma read_page_run id : 0 <= id < next_page_id m ->
  read_page id p = (bump CPageReads p, Ok (page_at f (pg_page_size_bytes p) id)).
Proof.
  intros Hid. unfold read_page. rewrite (bind_Ok _ _ _ _ _ open_file_run). mrun.
  fold (page_at f (pg_page_size_bytes p) id).
  rewrite page_at_length; [|lia|pose proof ps_pos; lia|by apply page_in_file].
  by rewrite Z.eqb_refl, andb_false_r.
Qed.

Lemma head_in_range h : h ∈ heads -> 0 < h < next_page_id m.
Proof.
  intros Hh. pose proof (inv_range _ _ _ _ _ Hinv) as Hr. rewrite Forall_app in Hr.
  destruct Hr as [Hr _]. rewrite Forall_forall in Hr. by apply Hr.
Qed.

Lemma inv_bump c : PagerInv (bump c p) f m heads freed.
Proof. destruct Hinv. by split. Qed.

(** Caching a page of the freelist changes nothing. *)
Lemma freelist_at_load h fp x : freelist_at p f h = Some fp ->
  freelist_at (set_freelists (<[h := fp]> (pg_freelist_cache p)) (pg_dirty_freelist_page_ids p) p) f x
  = freelist_at p f x.
Proof.
  intros Hh. unfold freelist_at at 1. simpl. destruct (decide (h = x)) as [->|].
  - by rewrite lookup_insert_eq.
  - by rewrite lookup_insert_ne.
Qed.

Lemma inv_load h fp : h ∈ heads -> freelist_at p f h = Some fp ->
  PagerInv (set_freelists (<[h := fp]> (pg_freelist_cache p)) (pg_dirty_freelist_page_ids p) p)
    f m heads freed.
Proof.
  intros Hh Hfp. destruct Hinv. split; try done; cbn [set_freelists pg_freelist_cache
    pg_dirty_freelist_page_ids pg_page_size_bytes].
  - eapply chain_ext; [done|]. intros x _. by rewrite freelist_at_load.
  - eapply Forall_impl; [done|]. intros x Hx gp. rewrite freelist_at_load by done. apply Hx.
  - intros x gp. destruct (decide (h = x)) as [<-|]; [done|]. rewrite lookup_insert_ne; eauto.
  - intros x Hx. destruct (decide (h = x)) as [<-|]; [rewrite lookup_insert_eq; eauto|].
    rewrite lookup_insert_ne; eauto.
  - intros x gp. destruct (decide (h = x)) as [<-|].
    + rewrite lookup_insert_eq. intros [= <-] Hd. unfold freelist_at in Hfp.
      destruct (pg_freelist_cache p !! h) eqn:E; [|destruct (disk_page _ _ h) as [[]|]; congruence].
      simplify_eq. eauto.
    + rewrite lookup_insert_ne by done. eauto.
Qed.

(** [_get_freelist_page] of a page of the chain: its contents, and a state
    that differs in the cache and the counters only. *)
Lemma get_freelist_page_run h fp : h ∈ heads -> freelist_at p f h = Some fp ->
  exists p', get_freelist_page h p = (p', Ok fp) /\ PagerInv p' f m heads freed /\
    (forall x, freelist_at p' f x = freelist_at p f x) /\
    pg_page_size_bytes p' = pg_page_size_bytes p.
Proof.
  intros Hh Hfp. pose proof (head_in_range h Hh). unfold get_freelist_page.
  destruct (pg_freelist_cache p !! h) as [gp|] eqn:E.
  - exists p. mrun. rewrite E. assert (gp = fp) as -> by (unfold freelist_at in Hfp; rewrite E in Hfp; congruence).
    done.
  - assert (decode_page (page_at f (pg_page_size_bytes p) h) = Ok (PFreelist fp)) as Hd.
    { unfold freelist_at, disk_page in Hfp. rewrite E in Hfp.
      destruct (decode_page _) as [[]|]; congruence. }
    eexists. rewrite (bind_Ok get_state _ p p p eq_refl), E.
    rewrite (bind_Ok _ _ _ _ _ (read_page_run h ltac:(lia))). rewrite Hd. mrun.
    split; [done|]. split; [|split; [|done]].
    + pose proof (inv_load h fp Hh Hfp) as Hi. destruct Hi. by split.
    + intros x. by rewrite <-(freelist_at_load h fp x Hfp).
Qed.
End operations.

(** ** The updates of the freelist *)

(** The head page's entry list is replaced; the ids leave or enter the list at
    its end. *)
Definition with_head_page (h : Z) (fp : FreelistPage) (p : Pager) : Pager :=
  set_freelists (<[h := fp]> (pg_freelist_cache p)) ({[h]} ∪ pg_dirty_freelist_page_ids p) p.

Definition without_page (id : Z) (p : Pager) : Pager :=
  set_freelists (delete id (pg_freelist_cache p)) (pg_dirty_freelist_page_ids p ∖ {[id]}) p.

Lemma freelist_at_with_head p f h fp x :
  freelist_at (with_head_page h fp p) f x = if decide (x = h) then Some fp else freelist_at p f x.
Proof.
  unfold freelist_at at 1. simpl. destruct (decide (x = h)) as [->|].
  - by rewrite lookup_insert_eq.
  - by rewrite lookup_insert_ne.
Qed.

Lemma inv_with_head p f m h hs fp fp' freed freed' :
  PagerInv p f m (h :: hs) (freed_page_ids fp ++ freed) ->
  freelist_at p f h = Some fp ->
  page_encodable (pg_page_size_bytes p) (PFreelist fp') ->
  next_freelist_page_id fp' = next_freelist_page_id fp ->
  freed' = freed_page_ids fp' ++ freed ->
  NoDup ((h :: hs) ++ freed') -> Forall (fun i => 0 < i < next_page_id m) ((h :: hs) ++ freed') ->
  PagerInv (with_head_page h fp' p) f m (h :: hs) freed'.
Proof.
  intros Hinv Hfp Henc Hlink -> Hnd Hrange. destruct Hinv. split; try done; cbn [with_head_page
    set_freelists pg_freelist_cache pg_dirty_freelist_page_ids pg_page_size_bytes].
  - apply chain_uncons in inv_chain0 as (-> & Hh & fp0 & fr & Hl & Hfr & Hc).
    assert (fp0 = fp) as -> by congruence. apply app_inv_head in Hfr as <-.
    econstructor; [done|by rewrite freelist_at_with_head, decide_True|].
    rewrite Hlink. eapply chain_ext; [done|]. intros x Hx. rewrite freelist_at_with_head, decide_False; [done|].
    intros ->. apply NoDup_app in Hnd as (Hnd & _). by apply NoDup_cons in Hnd as [? _].
  - apply Forall_forall. intros x Hx gp. rewrite freelist_at_with_head.
    destruct (decide (x = h)); [by intros [= <-]|]. rewrite Forall_forall in inv_encodable0. by apply inv_encodable0.
  - intros x gp. destruct (decide (h = x)) as [<-|]; [set_solver|]. rewrite lookup_insert_ne; eauto.
  - intros x. destruct (decide (h = x)) as [<-|]; [rewrite lookup_insert_eq; eauto|].
    rewrite lookup_insert_ne by done. set_solver.
  - intros x gp. destruct (decide (h = x)) as [<-|]; [set_solver|].
    rewrite lookup_insert_ne by done. intros. eapply inv_clean0; [done|]. set_solver.
Qed.

(** Forgetting a page that is not in the chain. *)
Lemma inv_without p f m heads freed id :
  PagerInv p f m heads freed -> id ∉ heads -> PagerInv (without_page id p) f m heads freed.
Proof.
  intros Hinv Hid. destruct Hinv.
  assert (forall x, x ∈ heads -> freelist_at (without_page id p) f x = freelist_at p f x) as He.
  { intros x Hx. unfold freelist_at. simpl. rewrite lookup_delete_ne; [done|]. by intros ->. }
  split; try done; cbn [without_page set_freelists pg_freelist_cache pg_dirty_freelist_page_ids pg_page_size_bytes].
  - eapply chain_ext; [done|]. intros. by rewrite He.
  - apply Forall_forall. intros x Hx gp. rewrite He by done.
    rewrite Forall_forall in inv_encodable0. by apply inv_encodable0.
  - intros x gp Hx. apply lookup_delete_Some in Hx as [_ Hx]. eauto.
  - intros x Hx. apply elem_of_difference in Hx as [Hx Hne]. rewrite lookup_delete_ne by set_solver. eauto.
  - intros x gp Hx. apply lookup_delete_Some in Hx as [Hne Hx]. intros Hd. eapply inv_clean0; set_solver.
Qed.

(** The exhausted head leaves the chain. *)
Lemma inv_drop_head p f m h hs fp freed :
  PagerInv p f m (h :: hs) freed -> freelist_at p f h = Some fp -> freed_page_ids fp = [] ->
  PagerInv (without_page h (set_meta (with_freelist_head (next_freelist_page_id fp) m) true p)) f
    (with_freelist_head (next_freelist_page_id fp) m) hs freed.
Proof.
  intros Hinv Hfp Hnil. destruct Hinv.
  apply chain_uncons in inv_chain0 as (_ & Hh & fp0 & fr & Hl & -> & Hc).
  assert (fp0 = fp) as -> by congruence.
  rewrite Hnil in *. simpl in *. apply NoDup_cons in inv_nodup0 as [Hnin Hnd].
  apply Forall_cons in inv_range0 as [_ Hrange]. apply Forall_cons in inv_encodable0 as [_ Henc].
  assert (h ∉ hs) as Hhs by (intros ?; apply Hnin; set_solver).
  assert (forall x, x ∈ hs -> freelist_at (without_page h (set_meta (with_freelist_head
    (next_freelist_page_id fp) m) true p)) f x = freelist_at p f x) as He.
  { intros x Hx. unfold freelist_at. simpl. rewrite lookup_delete_ne; [done|]. by intros ->. }
  split; try done; cbn [without_page set_meta set_freelists pg_freelist_cache pg_dirty_freelist_page_ids pg_page_size_bytes].
  - eapply chain_ext; [exact Hc|]. intros. by rewrite He.
  - apply Forall_forall. intros x Hx gp. rewrite He by done. rewrite Forall_forall in Henc. by apply Henc.
  - intros x gp Hx. apply lookup_delete_Some in Hx as [Hne Hx]. apply inv_cached0 in Hx. set_solver.
  - intros x Hx. apply elem_of_difference in Hx as [Hx Hne]. rewrite lookup_delete_ne by set_solver. eauto.
  - intros x gp Hx. apply lookup_delete_Some in Hx as [Hne Hx]. intros Hd. eapply inv_clean0; set_solver.
Qed.

(** The file grows by a page. *)
Definition grown (p : Pager) (f : File) (m : MetaPage) : Pager :=
  bump CPagesAllocated (set_meta (with_next (next_page_id m + 1) m) true
    (set_disk (append_data f (replicate (Z.to_nat (pg_page_size_bytes p)) x00)) p)).

Lemma bump_allocate_run p f m heads freed : PagerInv p f m heads freed ->
  bump_allocate_one_page p = (grown p f m, Ok (next_page_id m)).
Proof.
  intros Hinv. unfold bump_allocate_one_page, extend_file_by_one_page.
  rewrite (bind_Ok _ _ _ _ _ (meta_page_run _ _ _ _ _ Hinv)). mrun.
  rewrite (open_file_run _ _ _ _ _ Hinv). unfold py_zeros.
  destruct (Z.ltb_spec (pg_page_size_bytes p) 0); [pose proof (ps_pos _ _ _ _ _ Hinv); lia|].
  unfold update_meta, meta_page. mrun. cbn [set_disk pg_meta_page].
  rewrite (inv_meta _ _ _ _ _ Hinv). done.
Qed.

Lemma inv_grown p f m heads freed : PagerInv p f m heads freed -> next_page_id m < 2 ^ 64 ->
  PagerInv (grown p f m) (append_data f (replicate (Z.to_nat (pg_page_size_bytes p)) x00))
    (with_next (next_page_id m + 1) m) heads freed.
Proof.
  intros Hinv Hn. pose proof (ps_pos _ _ _ _ _ Hinv) as Hps.
  assert (forall x, x ∈ heads -> page_at (append_data f (replicate (Z.to_nat (pg_page_size_bytes p)) x00))
    (pg_page_size_bytes p) x = page_at f (pg_page_size_bytes p) x) as Hp.
  { intros x Hx. pose proof (head_in_range _ _ _ _ _ Hinv x Hx).
    apply page_at_append; [lia|lia|]. apply (page_in_file _ _ _ _ _ Hinv). lia. }
  assert (forall x, x ∈ heads -> freelist_at (grown p f m) (append_data f
    (replicate (Z.to_nat (pg_page_size_bytes p)) x00)) x = freelist_at p f x) as He.
  { intros x Hx. unfold freelist_at, disk_page. simpl. by rewrite Hp. }
  destruct Hinv. split; try done; simpl.
  - lia.
  - unfold len in *. rewrite length_app, length_replicate. lia.
  - eapply chain_ext; [done|]. intros. by rewrite He.
  - eapply Forall_impl; [done|]. simpl. lia.
  - apply Forall_forall. intros x Hx gp. rewrite He by done.
    rewrite Forall_forall in inv_encodable0. by apply inv_encodable0.
  - intros x gp Hx Hd. unfold disk_page. rewrite Hp by eauto. by apply inv_clean0.
Qed.

(** A new head page that holds one id. *)
Definition new_head_page (m : MetaPage) (id : Z) : FreelistPage :=
  {| freelist_lsn := 0; next_freelist_page_id := freelist_head_page_id m; freed_page_ids := [id] |}.

Lemma new_head_encodable p f m heads freed id : PagerInv p f m heads freed ->
  0 < id < 2 ^ 64 -> page_encodable (pg_page_size_bytes p) (PFreelist (new_head_page m id)).
Proof.
  intros Hinv Hid. pose proof (ps_pos _ _ _ _ _ Hinv) as Hps.
  assert (0 <= freelist_head_page_id m < 2 ^ 64).
  { destruct (chain_links _ _ _ _ (inv_chain _ _ _ _ _ Hinv)) as [->|Hh]; [done|].
    pose proof (head_in_range _ _ _ _ _ Hinv _ Hh). pose proof (inv_next _ _ _ _ _ Hinv). lia. }
  change (2 ^ 64) with (256 ^ Z.of_nat 8) in *.
  repeat split; simpl.
  - apply fits_spec. lia.
  - lia.
  - lia.
  - unfold get_max_freed_ids_per_freelist_page. change (sizeof PAGE_HEADER) with 32.
    change (sizeof PAGE_ID_FIELD) with 8. unfold len. simpl.
    apply Z.div_le_lower_bound; lia.
  - constructor; [|constructor]. apply fits_spec. lia.
Qed.

Lemma inv_push_head p f m heads freed id :
  PagerInv p f m heads freed ->
  0 < id < next_page_id m -> id ∉ heads ++ freed ->
  forall h, 0 < h < next_page_id m -> h <> id -> h ∉ heads ++ freed ->
  PagerInv (set_meta (with_freelist_head h m) true (with_head_page h (new_head_page m id) p)) f
    (with_freelist_head h m) (h :: heads) (id :: freed).
Proof.
  intros Hinv Hid Hidn h Hh Hne Hhn.
  pose proof (new_head_encodable _ _ _ _ _ id Hinv) as Henc.
  assert (h ∉ heads) as Hhh by set_solver.
  assert (forall x, x ∈ heads -> freelist_at (set_meta (with_freelist_head h m) true
    (with_head_page h (new_head_page m id) p)) f x = freelist_at p f x) as He.
  { intros x Hx. etransitivity; [exact (freelist_at_with_head p f h (new_head_page m id) x)|].
    rewrite decide_False; [done|]. by intros ->. }
  assert (freelist_at (set_meta (with_freelist_head h m) true
    (with_head_page h (new_head_page m id) p)) f h = Some (new_head_page m id)) as Hnew.
  { etransitivity; [exact (freelist_at_with_head p f h (new_head_page m id) h)|]. by rewrite decide_True. }
  destruct Hinv. split; try done; cbn [with_head_page set_meta set_freelists pg_freelist_cache
     pg_dirty_freelist_page_ids pg_page_size_bytes with_freelist_head freelist_head_page_id next_page_id].
  - apply (chain_cons _ h (new_head_page m id)); [lia|done|].
    eapply chain_ext; [done|]. intros. by rewrite He.
  - simpl. apply NoDup_cons. split; [set_solver|].
    rewrite <-Permutation_middle. apply NoDup_cons. done.
  - simpl. rewrite Forall_cons, <-Permutation_middle, Forall_cons. done.
  - apply Forall_cons. split.
    + intros gp. rewrite Hnew. intros [= <-]. apply Henc. lia.
    + apply Forall_forall. intros x Hx gp. rewrite He by done.
      rewrite Forall_forall in inv_encodable0. by apply inv_encodable0.
  - intros x gp. destruct (decide (h = x)) as [<-|]; [set_solver|]. rewrite lookup_insert_ne by done. set_solver.
  - intros x. destruct (decide (h = x)) as [<-|]; [rewrite lookup_insert_eq; eauto|].
    rewrite lookup_insert_ne by done. set_solver.
  - intros x gp. destruct (decide (h = x)) as [<-|]; [set_solver|].
    rewrite lookup_insert_ne by done. intros. eapply inv_clean0; [done|]. set_solver.
Qed.

(** ** Allocation and deallocation *)

(** What an allocation promises. *)
Record Allocated (p : Pager) (f : File) (m : MetaPage) (free : list Z)
    (p' : Pager) (f' : File) (m' : MetaPage) (free' : list Z) (id : Z) : Prop := {
  al_id : (id :: free' ≡ₚ free /\ next_page_id m' = next_page_id m /\ f' = f) \/
          (free = [] /\ free' = [] /\ id = next_page_id m /\ next_page_id m' = next_page_id m + 1);
  al_root : root_page_id m' = root_page_id m;
  al_size : pg_page_size_bytes p' = pg_page_size_bytes p;
  al_pages : forall j, 0 <= j < next_page_id m ->
    page_at f' (pg_page_size_bytes p) j = page_at f (pg_page_size_bytes p) j;
}.

Lemma NoDup_fresh (id n : Z) heads freed :
  Forall (fun i => 0 < i < n) (heads ++ freed) -> n <= id -> id ∉ heads ++ freed.
Proof. intros Hr Hn Hin. rewrite Forall_forall in Hr. apply Hr in Hin. lia. Qed.

Lemma take_encodable ps fp rest id : page_encodable ps (PFreelist fp) ->
  freed_page_ids fp = rest ++ [id] ->
  page_encodable ps (PFreelist (set_freed_page_ids rest fp)).
Proof.
  intros [Hfit (Hps & Hmax & Hids)] Hf. rewrite Hf in *. apply Forall_app in Hids as [Hids _].
  unfold len in Hmax. rewrite length_app in Hmax. simpl in Hmax.
  repeat split; simpl; try apply Hfit; try lia; [|done]. unfold len. lia.
Qed.

(** The head page gives up its last id. *)
Lemma inv_pop p f m h hs fp rest id tl :
  PagerInv p f m (h :: hs) ((rest ++ [id]) ++ tl) -> freelist_at p f h = Some fp ->
  freed_page_ids fp = rest ++ [id] ->
  PagerInv (without_page id (with_head_page h (set_freed_page_ids rest fp) p)) f m (h :: hs) (rest ++ tl).
Proof.
  intros Hinv Hfp Hf.
  assert ((h :: hs) ++ (rest ++ [id]) ++ tl ≡ₚ id :: (h :: hs) ++ rest ++ tl) as Hperm.
  { rewrite <-(app_assoc rest). simpl. rewrite <-!Permutation_middle. apply perm_swap. }
  pose proof (inv_nodup _ _ _ _ _ Hinv) as Hnd. rewrite Hperm in Hnd.
  apply NoDup_cons in Hnd as [Hid Hnd].
  pose proof (inv_range _ _ _ _ _ Hinv) as Hr. rewrite Hperm in Hr. apply Forall_cons in Hr as [_ Hr].
  pose proof (inv_encodable _ _ _ _ _ Hinv) as He. apply Forall_cons in He as [He _].
  apply inv_without; [|set_solver].
  rewrite <-Hf in Hinv. eapply inv_with_head; [done..| | |done|done|done]; [|done].
  eapply take_encodable; eauto.
Qed.

Lemma allocate_page_ok p f m heads freed :
  PagerInv p f m heads freed -> next_page_id m < 2 ^ 64 ->
  exists p' f' m' heads' freed' id, allocate_page p = (p', Ok id) /\
    PagerInv p' f' m' heads' freed' /\
    Allocated p f m (heads ++ freed) p' f' m' (heads' ++ freed') id.
Proof.
  intros Hinv Hn. unfold allocate_page. rewrite (bind_Ok _ _ _ _ _ (meta_page_run _ _ _ _ _ Hinv)).
  cbv zeta. destruct (Z.eqb_spec (freelist_head_page_id m) 0) as [Hz|Hnz]; cbn [negb].
  - rewrite (bump_allocate_run _ _ _ _ _ Hinv).
    do 6 eexists. split; [done|]. split; [by apply inv_grown|].
    pose proof (inv_chain _ _ _ _ _ Hinv) as Hc. rewrite Hz in Hc. apply chain_zero in Hc as [-> ->].
    split; try done; [by right|]. intros j Hj. pose proof (ps_pos _ _ _ _ _ Hinv).
    apply page_at_append; [lia|lia|]. by apply (page_in_file _ _ _ _ _ Hinv).
  - destruct (chain_heads_nonzero _ _ _ _ (inv_chain _ _ _ _ _ Hinv) Hnz)
      as (fp & hs & tl & Hfp & -> & -> & Hc).
    set (h := freelist_head_page_id m) in *.
    destruct (get_freelist_page_run p f m _ _ Hinv h fp) as (p1 & E1 & Hinv1 & Hfl1 & Hps1); [set_solver|done|].
    unfold read_freelist_head_page.
    rewrite (bind_Ok _ _ p p1 fp) by (by rewrite (bind_Ok _ _ _ _ _ (meta_page_run _ _ _ _ _ Hinv))).
    assert (freelist_at p1 f h = Some fp) as Hfp1 by (by rewrite Hfl1).
    destruct (freed_page_ids fp) as [|id rest _] eqn:Hf using rev_ind.
    + rewrite py_pop_nil. unfold update_meta, meta_page. mrun. rewrite (inv_meta _ _ _ _ _ Hinv1).
      do 6 eexists. split; [reflexivity|]. split.
      * apply inv_bump. apply inv_drop_head; [exact Hinv1|done|done].
      * split; try done. by left.
    + rewrite py_pop_last. do 6 eexists. split; [reflexivity|]. split.
      * apply inv_bump. by eapply inv_pop.
      * split; try done. left. split; [|done]. rewrite <-(app_assoc rest). simpl.
        rewrite <-!Permutation_middle. apply perm_swap.
Qed.

(** What a deallocation promises: the page is free, and at most one page more,
    the file having grown to hold a new page of the list. *)
Record Freed (p : Pager) (f : File) (m : MetaPage) (free : list Z)
    (p' : Pager) (f' : File) (m' : MetaPage) (free' : list Z) (id : Z) : Prop := {
  fr_free : (free' ≡ₚ id :: free /\ next_page_id m' = next_page_id m) \/
            (free' ≡ₚ id :: next_page_id m :: free /\ next_page_id m' = next_page_id m + 1);
  fr_root : root_page_id m' = root_page_id m;
  fr_size : pg_page_size_bytes p' = pg_page_size_bytes p;
  fr_pages : forall j, 0 <= j < next_page_id m ->
    page_at f' (pg_page_size_bytes p) j = page_at f (pg_page_size_bytes p) j;
  fr_last : exists h fp l, freelist_head_page_id m' = h /\ h <> 0 /\
    freelist_at p' f' h = Some fp /\ freed_page_ids fp = l ++ [id];
}.

Lemma push_freelist_head_ok p f m heads freed id :
  PagerInv p f m heads freed -> next_page_id m < 2 ^ 64 ->
  0 < id < next_page_id m -> id ∉ heads ++ freed ->
  exists p' f' m' heads' freed', push_freelist_head id p = (p', Ok tt) /\
    PagerInv p' f' m' heads' freed' /\ Freed p f m (heads ++ freed) p' f' m' (heads' ++ freed') id.
Proof.
  intros Hinv Hn Hid Hfresh. unfold push_freelist_head.
  rewrite (bind_Ok _ _ _ _ _ (bump_allocate_run _ _ _ _ _ Hinv)).
  pose proof (inv_grown _ _ _ _ _ Hinv Hn) as Hg.
  pose proof (inv_next _ _ _ _ _ Hinv). pose proof (ps_pos _ _ _ _ _ Hinv).
  rewrite (bind_Ok _ _ _ _ _ (meta_page_run _ _ _ _ _ Hg)).
  unfold update_meta, meta_page, mark_freelist_page_dirty. mrun.
  cbn [grown bump set_meta set_freelists pg_meta_page].
  do 5 eexists. split; [reflexivity|]. split.
  - apply (inv_push_head _ _ _ _ _ id Hg); [simpl; lia|done|simpl; lia|lia|].
    eapply NoDup_fresh; [apply (inv_range _ _ _ _ _ Hinv)|lia].
  - split; try done.
    + right. split; [|done]. simpl. rewrite <-Permutation_middle. apply perm_swap.
    + intros j Hj. apply page_at_append; [lia|lia|]. by apply (page_in_file _ _ _ _ _ Hinv).
    + exists (next_page_id m), (new_head_page m id), []. split; [done|]. split; [lia|]. split; [|done].
      etransitivity; [exact (freelist_at_with_head _ _ _ _ _)|]. by rewrite decide_True.
Qed.

Lemma append_encodable ps fp id : page_encodable ps (PFreelist fp) -> 0 < id < 2 ^ 64 ->
  len (freed_page_ids fp) < get_max_freed_ids_per_freelist_page ps ->
  page_encodable ps (PFreelist (set_freed_page_ids (freed_page_ids fp ++ [id]) fp)).
Proof.
  intros [Hfit (Hps & Hmax & Hids)] Hid Hlt. change (2 ^ 64) with (256 ^ Z.of_nat 8) in Hid.
  repeat split; simpl; try apply Hfit; try lia.
  - unfold len in *. rewrite length_app. simpl. lia.
  - apply Forall_app. split; [done|]. constructor; [|done]. apply fits_spec. lia.
Qed.

Lemma free_page_ok p f m heads freed id :
  PagerInv p f m heads freed -> next_page_id m < 2 ^ 64 ->
  0 < id < next_page_id m -> id ∉ heads ++ freed ->
  exists p' f' m' heads' freed', free_page id p = (p', Ok tt) /\
    PagerInv p' f' m' heads' freed' /\ Freed p f m (heads ++ freed) p' f' m' (heads' ++ freed') id.
Proof.
  intros Hinv Hn Hid Hfresh. unfold free_page.
  rewrite (bind_Ok _ _ _ _ _ (meta_page_run _ _ _ _ _ Hinv)).
  rewrite (bind_Ok (modify _) _ p (bump CPagesFreed p) tt eq_refl). cbv zeta.
  pose proof (inv_bump _ _ _ _ _ Hinv CPagesFreed) as Hinv0.
  assert (forall p' f' m' free', Freed (bump CPagesFreed p) f m (heads ++ freed) p' f' m' free' id ->
     Freed p f m (heads ++ freed) p' f' m' free' id) as Hconv by (intros ???? []; by split).
  destruct (Z.eqb_spec (freelist_head_page_id m) 0) as [Hz|Hnz]; cbn [negb].
  { destruct (push_freelist_head_ok _ _ _ _ _ id Hinv0 Hn Hid Hfresh) as (p' & f' & m' & hs & fr & E & Hi & Hf).
    eauto 10. }
  destruct (chain_heads_nonzero _ _ _ _ (inv_chain _ _ _ _ _ Hinv0) Hnz)
    as (fp & hs & tl & Hfp & -> & -> & Hc).
  set (h := freelist_head_page_id m) in *.
  destruct (get_freelist_page_run _ f m _ _ Hinv0 h fp) as (p1 & E1 & Hinv1 & Hfl1 & Hps1); [set_solver|done|].
  unfold read_freelist_head_page.
  rewrite (bind_Ok _ _ _ p1 fp) by (by rewrite (bind_Ok _ _ _ _ _ (meta_page_run _ _ _ _ _ Hinv0))).
  rewrite (bind_Ok get_state _ p1 p1 p1 eq_refl).
  destruct (Z.ltb_spec (len (freed_page_ids fp)) (get_max_freed_ids_per_freelist_page (pg_page_size_bytes p1))).
  - assert (freelist_at p1 f h = Some fp) as Hfp1 by (by rewrite Hfl1).
    pose proof (inv_encodable _ _ _ _ _ Hinv1) as He. apply Forall_cons in He as [He _].
    pose proof (inv_next _ _ _ _ _ Hinv).
    assert ((h :: hs) ++ (freed_page_ids fp ++ [id]) ++ tl ≡ₚ id :: (h :: hs) ++ freed_page_ids fp ++ tl) as Hperm.
    { rewrite <-(app_assoc (freed_page_ids fp)). simpl. rewrite <-!Permutation_middle. apply perm_swap. }
    do 5 eexists. split; [reflexivity|]. split.
    + eapply inv_with_head; [exact Hinv1|done| |done|reflexivity| |].
      * apply append_encodable; [by apply He|lia|done].
      * simpl freed_page_ids. rewrite Hperm. apply NoDup_cons. split; [done|]. apply (inv_nodup _ _ _ _ _ Hinv).
      * simpl freed_page_ids. rewrite Hperm. apply Forall_cons. split; [done|]. apply (inv_range _ _ _ _ _ Hinv).
    + apply Hconv. split; try done.
      * left. split; [|done]. exact Hperm.
      * exists h, (set_freed_page_ids (freed_page_ids fp ++ [id]) fp), (freed_page_ids fp).
        split; [done|]. split; [done|]. split; [|done].
        etransitivity; [exact (freelist_at_with_head _ _ _ _ _)|]. by rewrite decide_True.
  - destruct (push_freelist_head_ok p1 f m _ _ id Hinv1 Hn Hid Hfresh) as (p' & f' & m' & hs' & fr & E & Hi & Hf).
    do 5 eexists. split; [exact E|]. split; [done|]. apply Hconv.
    destruct Hf. split; try done; [by rewrite fr_size0|]. by rewrite Hps1 in fr_pages0.
Qed.

(** An allocation takes the last id of the head page. *)
Lemma allocate_page_last p f m heads freed fp l id :
  PagerInv p f m heads freed -> freelist_head_page_id m <> 0 ->
  freelist_at p f (freelist_head_page_id m) = Some fp -> freed_page_ids fp = l ++ [id] ->
  (allocate_page p).2 = Ok id.
Proof.
  intros Hinv Hnz Hfp Hf. unfold allocate_page.
  rewrite (bind_Ok _ _ _ _ _ (meta_page_run _ _ _ _ _ Hinv)). cbv zeta.
  destruct (Z.eqb_spec (freelist_head_page_id m) 0) as [Hz|_]; [done|]. cbn [negb].
  destruct (get_freelist_page_run p f m _ _ Hinv (freelist_head_page_id m) fp) as (p1 & E1 & _).
  { destruct (chain_links _ _ _ _ (inv_chain _ _ _ _ _ Hinv)); done. }
  { done. }
  unfold read_freelist_head_page.
  rewrite (bind_Ok _ _ p p1 fp) by (by rewrite (bind_Ok _ _ _ _ _ (meta_page_run _ _ _ _ _ Hinv))).
  by rewrite Hf, py_pop_last.
Qed.

(** ** Writing pages back *)

(** A page may be written unless it is a clean page of the freelist. *)
Definition writable (p : Pager) (heads : list Z) (id : Z) : Prop :=
  id ∉ heads \/ (is_Some (pg_freelist_cache p !! id) /\ id ∈ pg_dirty_freelist_page_ids p).

Definition written (p : Pager) (f : File) (id : Z) (data : bytes) : Pager :=
  bump CPageWrites (set_disk (write_at f (id * pg_page_size_bytes p) data) p).

Lemma write_page_run p f m heads freed id data : PagerInv p f m heads freed ->
  write_page id data p = (written p f id data, Ok tt).
Proof.
  intros Hinv. unfold write_page. rewrite (bind_Ok _ _ _ _ _ (open_file_run _ _ _ _ _ Hinv)). done.
Qed.

Lemma inv_write p f m heads freed id data : PagerInv p f m heads freed ->
  len data = pg_page_size_bytes p -> 0 < id -> writable p heads id ->
  PagerInv (written p f id data) (write_at f (id * pg_page_size_bytes p) data) m heads freed.
Proof.
  intros Hinv Hd Hid Hw.
  assert (forall x, 0 <= x < next_page_id m -> x <> id ->
    page_at (write_at f (id * pg_page_size_bytes p) data) (pg_page_size_bytes p) x =
    page_at f (pg_page_size_bytes p) x) as Hp.
  { intros x Hx Hne. apply page_at_write_other; try done; [lia|lia|].
    by apply (page_in_file _ _ _ _ _ Hinv). }
  assert (forall x, x ∈ heads -> freelist_at (written p f id data)
    (write_at f (id * pg_page_size_bytes p) data) x = freelist_at p f x) as He.
  { intros x Hx. unfold freelist_at, disk_page. simpl.
    destruct (pg_freelist_cache p !! x) eqn:E; [done|]. rewrite Hp; [done| |].
    - pose proof (head_in_range _ _ _ _ _ Hinv x Hx). lia.
    - intros ->. destruct Hw as [?|[[? Hc] _]]; [done|]. congruence. }
  pose proof (head_in_range _ _ _ _ _ Hinv) as Hr.
  destruct Hinv. split; try done; simpl.
  - etransitivity; [done|]. apply write_length.
  - eapply chain_ext; [done|]. intros. by rewrite He.
  - apply Forall_forall. intros x Hx gp. rewrite He by done.
    rewrite Forall_forall in inv_encodable0. by apply inv_encodable0.
  - intros x gp Hx Hn. unfold disk_page. rewrite Hp; [by apply inv_clean0| |].
    + apply inv_cached0, Hr in Hx. lia.
    + intros ->. destruct Hw as [Hw|[_ ?]]; [by apply Hw, (inv_cached0 _ gp)|done].
  - intros Hm. rewrite Hp; [auto|unfold META_PAGE_ID; lia|unfold META_PAGE_ID; lia].
Qed.

(** [flush_dirty_freelist_pages] writes the cached pages of the list back and
    leaves every other page alone. *)
Record FlushedUpTo (p0 p : Pager) (f0 f : File) (m : MetaPage) (heads freed : list Z)
    (done : list Z) : Prop := {
  fu_inv : PagerInv p f m heads freed;
  fu_cache : pg_freelist_cache p = pg_freelist_cache p0;
  fu_dirty : pg_dirty_freelist_page_ids p = pg_dirty_freelist_page_ids p0;
  fu_meta_dirty : pg_is_meta_dirty p = pg_is_meta_dirty p0;
  fu_size : pg_page_size_bytes p = pg_page_size_bytes p0;
  fu_done : forall x fp, x ∈ done -> pg_freelist_cache p0 !! x = Some fp ->
    disk_page f (pg_page_size_bytes p0) x = Some (PFreelist fp);
  fu_others : forall j, 0 <= j < next_page_id m -> j ∉ pg_dirty_freelist_page_ids p0 ->
    page_at f (pg_page_size_bytes p0) j = page_at f0 (pg_page_size_bytes p0) j;
}.

Lemma flush_step p0 p f0 f m heads freed l x :
  FlushedUpTo p0 p f0 f m heads freed l -> x ∈ pg_dirty_freelist_page_ids p0 ->
  exists fp b, pg_freelist_cache p0 !! x = Some fp /\
    encode_page (PFreelist fp) (pg_page_size_bytes p) = Ok b /\
    FlushedUpTo p0 (written p f x b) f0 (write_at f (x * pg_page_size_bytes p) b) m heads freed (l ++ [x]).
Proof.
  intros [Hinv Hc Hd Hm Hs Hl Ho] Hx.
  destruct (inv_dirty _ _ _ _ _ Hinv x) as [fp Hfp]; [by rewrite Hd|].
  assert (x ∈ heads) as Hh by (by eapply (inv_cached _ _ _ _ _ Hinv)).
  pose proof (head_in_range _ _ _ _ _ Hinv x Hh) as Hr.
  pose proof (inv_encodable _ _ _ _ _ Hinv) as He. rewrite Forall_forall in He.
  destruct (page_round_trip (PFreelist fp) (pg_page_size_bytes p)) as (b & Eb & Lb & Db).
  { apply (He x Hh). unfold freelist_at. by rewrite Hfp. }
  exists fp, b. split; [by rewrite <-Hc|]. split; [done|].
  split; [apply inv_write; try done; [lia|right; rewrite Hd; eauto]|done|done|done|done| |].
  - intros y fp' Hy Hfp'. rewrite Hs. rewrite Hs in Lb. unfold disk_page.
    destruct (decide (y = x)) as [->|Hne].
    + rewrite page_at_write_same by done. rewrite Db. congruence.
    + assert (y ∈ l) as Hyl by set_solver.
      assert (0 < y < next_page_id m).
      { apply (head_in_range _ _ _ _ _ Hinv), (inv_cached _ _ _ _ _ Hinv _ fp'). by rewrite Hc. }
      rewrite page_at_write_other; try done; [by apply (Hl y)|lia|lia|].
      rewrite <-Hs. apply (page_in_file _ _ _ _ _ Hinv). lia.
  - intros j Hj Hjd. rewrite Hs. rewrite page_at_write_other; [by apply Ho| |lia|lia|by intros ->|].
    + by rewrite <-Hs.
    + rewrite <-Hs. by apply (page_in_file _ _ _ _ _ Hinv).
Qed.

Lemma flush_freelist_ok p f m heads freed : PagerInv p f m heads freed ->
  exists p' f', flush_dirty_freelist_pages p = (p', Ok tt) /\
    PagerInv p' f' m heads freed /\
    pg_dirty_freelist_page_ids p' = ∅ /\ pg_freelist_cache p' = pg_freelist_cache p /\
    pg_is_meta_dirty p' = pg_is_meta_dirty p /\ pg_page_size_bytes p' = pg_page_size_bytes p /\
    (forall j, 0 <= j < next_page_id m -> j ∉ heads ->
       page_at f' (pg_page_size_bytes p) j = page_at f (pg_page_size_bytes p) j).
Proof.
  intros Hinv. unfold flush_dirty_freelist_pages. rewrite (bind_Ok get_state _ p p p eq_refl).
  set (l := merge_sort Z.le _).
  assert (forall x, x ∈ l <-> x ∈ pg_dirty_freelist_page_ids p) as Hl.
  { intros x. unfold l. rewrite merge_sort_Permutation. apply elem_of_elements. }
  match goal with |- context [mfor l ?body] => set (bd := body) end.
  destruct (mfor_ind (fun pre s => exists f', FlushedUpTo p s f f' m heads freed pre) l bd p)
    as (p' & E & f' & Hf).
  - intros pre x post s Hls (f' & Hf).
    destruct (flush_step _ _ _ _ _ _ _ _ x Hf) as (fp & b & Hfp & Eb & Hf').
    { apply Hl. rewrite Hls. set_solver. }
    eexists. split; [|eexists; exact Hf']. unfold bd.
    rewrite (bind_Ok get_state _ s s s eq_refl), (fu_cache _ _ _ _ _ _ _ _ Hf), Hfp, Eb. mrun.
    apply (write_page_run _ _ _ _ _ _ _ (fu_inv _ _ _ _ _ _ _ _ Hf)).
  - exists f. split; try done. intros x fp Hx. by apply elem_of_nil in Hx.
  - destruct Hf as [Hinv' Hc Hd Hm Hs Hdone Ho].
    exists (set_freelists (pg_freelist_cache p') ∅ p'), f'. rewrite (bind_Ok _ _ _ _ _ E).
    split; [done|]. split.
    { destruct Hinv'. split; try done; simpl.
      intros h fp Hh _. destruct (decide (h ∈ pg_dirty_freelist_page_ids p)) as [Hin|Hin].
      - rewrite Hs. apply Hdone; [by apply Hl|by rewrite <-Hc].
      - apply inv_clean0; [done|by rewrite Hd]. }
    split; [done|]. split; [done|]. split; [done|]. split; [done|].
    intros j Hj Hjh. apply Ho; [done|]. intros Hin.
    destruct (inv_dirty _ _ _ _ _ Hinv j Hin) as [fp Hfp]. by apply Hjh, (inv_cached _ _ _ _ _ Hinv _ fp).
Qed.

(** ** The meta page *)

Lemma encode_meta_ok m : meta_fits m = true -> MIN_PAGE_SIZE <= page_size_bytes m ->
  exists b, encode_meta_page m = Ok b /\ len b = page_size_bytes m /\
    exists suffix, b = with_crc (meta_wire m) ++ suffix.
Proof.
  intros Hf Hs. rewrite encode_meta_page_eq, Hf.
  destruct (Z.ltb_spec (page_size_bytes m) MIN_PAGE_SIZE) as [?|_]; [lia|].
  eexists. split; [done|]. split; [|by eexists].
  change MIN_PAGE_SIZE with 52 in Hs. unfold len, with_crc.
  rewrite !length_app, meta_wire_length, le_encode_length, length_replicate. lia.
Qed.

Lemma flush_meta_ok p f m heads freed : PagerInv p f m heads freed -> meta_fits m = true ->
  exists p' f', flush_meta p = (p', Ok tt) /\ PagerInv p' f' m heads freed /\
    pg_is_meta_dirty p' = false /\ pg_dirty_freelist_page_ids p' = pg_dirty_freelist_page_ids p /\
    pg_freelist_cache p' = pg_freelist_cache p /\ pg_page_size_bytes p' = pg_page_size_bytes p /\
    forall j, 0 < j < next_page_id m ->
      page_at f' (pg_page_size_bytes p) j = page_at f (pg_page_size_bytes p) j.
Proof.
  intros Hinv Hfit. pose proof (ps_pos _ _ _ _ _ Hinv) as Hps.
  pose proof (inv_size _ _ _ _ _ Hinv) as Hsz.
  destruct (encode_meta_ok m Hfit) as (b & Eb & Lb & suf & ->); [by rewrite Hsz; apply (inv_size_bound _ _ _ _ _ Hinv)|].
  unfold flush_meta. rewrite (bind_Ok _ _ _ _ _ (meta_page_run _ _ _ _ _ Hinv)), Eb.
  rewrite (bind_Ok (lift _) _ p p _ eq_refl).
  rewrite (bind_Ok _ _ _ _ _ (write_page_run _ _ _ _ _ META_PAGE_ID _ Hinv)). mrun.
  set (b := with_crc (meta_wire m) ++ suf) in *.
  assert (forall j, 0 < j < next_page_id m -> page_at (write_at f (META_PAGE_ID * pg_page_size_bytes p) b)
    (pg_page_size_bytes p) j = page_at f (pg_page_size_bytes p) j) as Hp.
  { intros j Hj. apply page_at_write_other; [by rewrite Lb|done|lia|unfold META_PAGE_ID; lia|].
    apply (page_in_file _ _ _ _ _ Hinv). lia. }
  do 2 eexists. split; [reflexivity|]. split; [|by split_and!].
  pose proof (head_in_range _ _ _ _ _ Hinv) as Hr.
  destruct Hinv. split; try done; simpl.
  - etransitivity; [done|]. apply write_length.
  - eapply chain_ext; [done|]. intros x Hx. unfold freelist_at, disk_page. simpl. by rewrite Hp by auto.
  - apply Forall_forall. intros x Hx gp. rewrite Forall_forall in inv_encodable0.
    unfold freelist_at, disk_page. simpl. rewrite Hp by auto. by apply inv_encodable0.
  - intros x gp Hx Hn. unfold disk_page. rewrite Hp by eauto. by apply inv_clean0.
  - intros _. rewrite page_at_write_same by (by rewrite Lb). by apply decode_meta_wire.
Qed.

Lemma fsync_run p f m heads freed : PagerInv p f m heads freed ->
  fsync p = (bump CPagerFsyncs (set_disk (fsync_file f) p), Ok tt).
Proof. intros Hinv. unfold fsync. by rewrite (bind_Ok _ _ _ _ _ (open_file_run _ _ _ _ _ Hinv)). Qed.

Lemma inv_fsync p f m heads freed : PagerInv p f m heads freed ->
  PagerInv (bump CPagerFsyncs (set_disk (fsync_file f) p)) (fsync_file f) m heads freed.
Proof. intros Hinv. by destruct Hinv. Qed.

(** ** Closing and opening *)

(** A file that has the pages of a pager with the meta page [m]: all but, maybe,
    the meta page. *)
Record DiskPages (f : File) (m : MetaPage) (heads freed : list Z) : Prop := {
  di_size : MIN_PAGE_SIZE <= page_size_bytes m < 2 ^ 32;
  di_next : 1 <= next_page_id m <= 2 ^ 64;
  di_length : next_page_id m * page_size_bytes m <= len (f_data f);
  di_chain : chain (fun x => match disk_page f (page_size_bytes m) x with
                             | Some (PFreelist fp) => Some fp
                             | _ => None
                             end) (freelist_head_page_id m) heads freed;
  di_nodup : NoDup (heads ++ freed);
  di_range : Forall (fun i => 0 < i < next_page_id m) (heads ++ freed);
  di_encodable : Forall (fun h => forall fp, disk_page f (page_size_bytes m) h = Some (PFreelist fp) ->
    page_encodable (page_size_bytes m) (PFreelist fp)) heads;
}.

(** The meta page a file of pages of [ps] bytes begins with. *)
Definition begins_with (f : File) (ps : Z) (m : MetaPage) : Prop :=
  decode_meta_page (page_at f ps META_PAGE_ID) = Ok m.

(** A file from which a pager can be opened: the state is all on disk. *)
Record DiskInv (f : File) (m : MetaPage) (heads freed : list Z) : Prop := {
  di_pages : DiskPages f m heads freed;
  di_meta : begins_with f (page_size_bytes m) m;
}.

(** Without dirty pages of the freelist the file has all pages. *)
Lemma disk_pages_of_clean p f m heads freed : PagerInv p f m heads freed ->
  pg_dirty_freelist_page_ids p = ∅ -> DiskPages f m heads freed.
Proof.
  intros Hinv Hd. destruct Hinv. rewrite <-inv_size0 in *.
  assert (forall x, freelist_at p f x = match disk_page f (page_size_bytes m) x with
                             | Some (PFreelist fp) => Some fp
                             | _ => None
                             end) as He.
  { intros x. unfold freelist_at. rewrite <-inv_size0.
    destruct (pg_freelist_cache p !! x) as [fp|] eqn:E; [|done].
    apply inv_clean0 in E as ->; [done|]. rewrite Hd. apply not_elem_of_empty. }
  split; try done; auto.
  - eapply chain_ext; [done|]. auto.
  - eapply Forall_impl; [done|]. intros x Hx fp Hfp. apply Hx. by rewrite He, Hfp.
Qed.

(** With nothing dirty the file alone holds the state. *)
Lemma disk_inv_of_clean p f m heads freed : PagerInv p f m heads freed ->
  pg_is_meta_dirty p = false -> pg_dirty_freelist_page_ids p = ∅ -> DiskInv f m heads freed.
Proof.
  intros Hinv Hm Hd. split; [by eapply disk_pages_of_clean|]. unfold begins_with.
  rewrite (inv_size _ _ _ _ _ Hinv). by apply (inv_meta_clean _ _ _ _ _ Hinv).
Qed.

(** The decoder reads the meta page off the first bytes, however many the
    configured page size made it read. *)
Lemma decode_meta_prefix d n1 n2 : 52 <= n1 -> 52 <= n2 ->
  decode_meta_page (take (Z.to_nat n1) d) = decode_meta_page (take (Z.to_nat n2) d).
Proof.
  assert (forall n, 52 <= n -> py_slice (take (Z.to_nat n) d) 0 52 = take 52 d) as H.
  { intros n Hn. rewrite py_slice_take, take_take by lia. f_equal. lia. }
  intros H1 H2. unfold decode_meta_page.
  change (sizeof META_PAGE_NO_CRC + sizeof CRC32_FIELD) with 52. by rewrite !H.
Qed.

(** Opening a file reads the meta page it begins with; with the meta page that
    belongs to the pages, the pager is that of the file. *)
Lemma pager_open_reads f m m0 heads freed ps p :
  DiskPages f m heads freed -> begins_with f (page_size_bytes m) m0 -> page_size_bytes m0 = page_size_bytes m ->
  MIN_PAGE_SIZE <= ps -> pager_init (Some f) ps = Ok p ->
  exists p', pager_open p = (p', Ok tt) /\ pg_meta_page p' = Some m0 /\ pg_is_meta_dirty p' = false /\
    pg_page_size_bytes p' = page_size_bytes m /\
    forall b, (b = false -> m0 = m) -> PagerInv (set_meta m b p') f m heads freed.
Proof.
  intros [] Hm0 Em Hps Hp. unfold pager_init in Hp.
  destruct (Z.ltb_spec ps MIN_PAGE_SIZE) as [?|_]; [lia|]. injection Hp as <-.
  unfold pager_open. mrun. cbn [pg_is_open pg_disk].
  unfold read_page, open_file. mrun. cbn [set_is_open pg_is_open pg_disk pg_page_size_bytes].
  change (negb (META_PAGE_ID =? META_PAGE_ID)) with false. cbn [andb].
  pose proof Hm0 as Hmeta. unfold begins_with, page_at, read_at, META_PAGE_ID in Hm0. rewrite Z.mul_0_l in Hm0.
  unfold read_at, META_PAGE_ID. rewrite Z.mul_0_l.
  change MIN_PAGE_SIZE with 52 in *. rewrite (decode_meta_prefix _ ps (page_size_bytes m)) by lia.
  rewrite Hm0. eexists. split; [done|]. split; [done|]. split; [done|]. split; [exact Em|].
  intros b Hb. split; try done; simpl; try rewrite Em; try done.
  - eapply Forall_impl; [done|]. intros x Hx fp Hfp. apply Hx. cbv [freelist_at] in Hfp. simpl in Hfp.
    rewrite lookup_empty in Hfp. destruct (disk_page f (page_size_bytes m) x) as [[]|]; congruence.
  - intros Hbf. rewrite <-(Hb Hbf) at 2. exact Hmeta.
Qed.

Lemma pager_open_existing f m heads freed ps p :
  DiskInv f m heads freed -> MIN_PAGE_SIZE <= ps -> pager_init (Some f) ps = Ok p ->
  exists p', pager_open p = (p', Ok tt) /\ PagerInv p' f m heads freed /\
    pg_page_size_bytes p' = page_size_bytes m.
Proof.
  intros [Hd Hm] Hps Hp.
  destruct (pager_open_reads f m m heads freed ps p Hd Hm eq_refl Hps Hp) as (p' & E & Em & Eb & Es & Hinv).
  exists p'. split; [done|]. split; [|done]. specialize (Hinv false (fun _ => eq_refl)).
  replace (set_meta m false p') with p' in Hinv; [done|]. destruct p'. simpl in *. by subst.
Qed.

Lemma pager_close_ok p f m heads freed : PagerInv p f m heads freed -> meta_fits m = true ->
  exists p' f', pager_close p = (p', Ok tt) /\ pg_disk p' = Some f' /\ pg_is_open p' = false /\
    f_synced f' = f_data f' /\ DiskInv f' m heads freed /\
    forall j, 0 < j < next_page_id m -> j ∉ heads ->
      page_at f' (pg_page_size_bytes p) j = page_at f (pg_page_size_bytes p) j.
Proof.
  intros Hinv Hfit. unfold pager_close. rewrite (bind_Ok get_state _ p p p eq_refl).
  rewrite (inv_open _ _ _ _ _ Hinv). cbn [negb].
  assert (exists p1 f1, when (negb (bool_decide (pg_dirty_freelist_page_ids p = ∅)))
      flush_dirty_freelist_pages p = (p1, Ok tt) /\ PagerInv p1 f1 m heads freed /\
      pg_dirty_freelist_page_ids p1 = ∅ /\ pg_page_size_bytes p1 = pg_page_size_bytes p /\
      forall j, 0 <= j < next_page_id m -> j ∉ heads ->
        page_at f1 (pg_page_size_bytes p) j = page_at f (pg_page_size_bytes p) j)
    as (p1 & f1 & E1 & H1 & D1 & S1 & P1).
  { case_bool_decide as Hd; simpl.
    - exists p, f. done.
    - destruct (flush_freelist_ok _ _ _ _ _ Hinv) as (p1 & f1 & E & ? & ? & ? & ? & ? & ?).
      exists p1, f1. done. }
  rewrite (bind_Ok _ _ _ _ _ E1), (bind_Ok get_state _ p1 p1 p1 eq_refl).
  assert (exists p2 f2, when (pg_is_meta_dirty p1) flush_meta p1 = (p2, Ok tt) /\
      PagerInv p2 f2 m heads freed /\ pg_is_meta_dirty p2 = false /\
      pg_dirty_freelist_page_ids p2 = ∅ /\ pg_page_size_bytes p2 = pg_page_size_bytes p /\
      forall j, 0 < j < next_page_id m ->
        page_at f2 (pg_page_size_bytes p) j = page_at f1 (pg_page_size_bytes p) j)
    as (p2 & f2 & E2 & H2 & M2 & D2 & S2 & P2).
  { destruct (pg_is_meta_dirty p1) eqn:Hd; simpl.
    - destruct (flush_meta_ok _ _ _ _ _ H1 Hfit) as (p2 & f2 & E & ? & ? & ? & ? & ? & HP).
      exists p2, f2. rewrite S1 in *. split_and!; try done. congruence.
    - exists p1, f1. done. }
  rewrite (bind_Ok _ _ _ _ _ E2), (bind_Ok _ _ _ _ _ (fsync_run _ _ _ _ _ H2)). mrun.
  do 2 eexists. split; [reflexivity|]. split; [done|]. split; [done|]. split; [done|]. split.
  - apply (disk_inv_of_clean _ _ _ _ _ (inv_fsync _ _ _ _ _ H2)); done.
  - intros j Hj Hjh. etransitivity; [by apply P2|]. apply P1; [lia|done].
Qed.

Definition initial_meta (ps : Z) : MetaPage :=
  {| page_size_bytes := ps; root_page_id := DEFAULT_ROOT_PAGE_ID;
     next_page_id := DEFAULT_ROOT_PAGE_ID + 1; freelist_head_page_id := 0; last_checkpoint_lsn := 0 |}.

Definition empty_leaf : LeafPage := {| leaf_lsn := 0; right_sibling_page_id := 0; leaf_slots := [] |}.

Lemma initial_meta_fits ps : MIN_PAGE_SIZE <= ps < 2 ^ 32 -> meta_fits (initial_meta ps) = true.
Proof.
  change MIN_PAGE_SIZE with 52. intros Hps. unfold meta_fits. rewrite !andb_true_iff.
  change (2 ^ 32) with (256 ^ Z.of_nat 4) in Hps.
  split_and!; try reflexivity. apply fits_spec. simpl. lia.
Qed.

Lemma meta_page_run' p m : pg_meta_page p = Some m -> meta_page p = (p, Ok m).
Proof. intros H. unfold meta_page. mrun. by rewrite H. Qed.

Lemma open_file_run' p f : pg_is_open p = true -> pg_disk p = Some f -> open_file p = (p, Ok f).
Proof. intros H1 H2. unfold open_file. mrun. by rewrite H1, H2. Qed.

(** A pager opened where there is no file: a meta page and an empty leaf. *)
Lemma pager_open_fresh ps p : MIN_PAGE_SIZE <= ps < 2 ^ 32 -> pager_init None ps = Ok p ->
  exists p' f, pager_open p = (p', Ok tt) /\ PagerInv p' f (initial_meta ps) [] [] /\
    f_synced f = f_data f /\ pg_is_meta_dirty p' = false /\
    disk_page f ps DEFAULT_ROOT_PAGE_ID = Some (PLeaf empty_leaf) /\ len (f_data f) = 2 * ps.
Proof.
  intros Hps Hp. pose proof Hps as Hps'. change MIN_PAGE_SIZE with 52 in Hps'.
  unfold pager_init in Hp. destruct (Z.ltb_spec ps MIN_PAGE_SIZE) as [?|_]; [lia|]. injection Hp as <-.
  destruct (page_round_trip (PLeaf empty_leaf) ps) as (b & Eb & Lb & Db).
  { split; [by vm_compute|]. change (calculate_page_size _) with 32. lia. }
  destruct (encode_meta_ok (initial_meta ps)) as (c & Ec & Lc & suf & Hc); [by apply initial_meta_fits|simpl; lia|].
  set (p0 := {| pg_disk := None |}).
  set (p1 := set_meta (with_next DEFAULT_ROOT_PAGE_ID (initial_meta ps)) false
               (set_is_open true (set_disk empty_file p0))).
  set (f2 := append_data empty_file (replicate (Z.to_nat ps) x00)).
  set (p2 := bump CPagesAllocated (set_meta (initial_meta ps) true (set_disk f2 p1))).
  assert (allocate_page p1 = (p2, Ok DEFAULT_ROOT_PAGE_ID)) as E1.
  { unfold allocate_page. rewrite (bind_Ok _ _ _ _ _ (meta_page_run' p1 _ eq_refl)).
    cbv zeta. change (freelist_head_page_id _ =? 0) with true. cbn [negb].
    unfold bump_allocate_one_page, extend_file_by_one_page, update_meta.
    rewrite (bind_Ok _ _ _ _ _ (meta_page_run' p1 _ eq_refl)). mrun.
    rewrite (open_file_run' p1 _ eq_refl eq_refl). unfold py_zeros.
    change (pg_page_size_bytes p1) with ps. destruct (Z.ltb_spec ps 0); [lia|].
    fold f2. by rewrite (meta_page_run' (set_disk f2 p1) _ eq_refl). }
  set (f3 := write_at f2 (DEFAULT_ROOT_PAGE_ID * ps) b).
  set (p3 := bump CPageWrites (set_disk f3 p2)).
  assert (write_page DEFAULT_ROOT_PAGE_ID b p2 = (p3, Ok tt)) as E2 by done.
  set (f4 := write_at f3 (META_PAGE_ID * ps) c).
  set (p4 := bump CMetaFlushes (set_meta (initial_meta ps) false (bump CPageWrites (set_disk f4 p3)))).
  assert (flush_meta p3 = (p4, Ok tt)) as E3.
  { unfold flush_meta. rewrite (bind_Ok _ _ _ _ _ (meta_page_run' p3 _ eq_refl)), Ec. done. }
  assert (len (f_data f4) = 2 * ps) as Lf4.
  { unfold f4, f3, f2, len in *. simpl. rewrite !splice_length, length_replicate.
    unfold DEFAULT_ROOT_PAGE_ID, META_PAGE_ID. simpl in Lc. lia. }
  exists (bump CPagerFsyncs (set_disk (fsync_file f4) p4)), (fsync_file f4).
  split; [|split; [|split; [done|split; [done|split; [|exact Lf4]]]]].
  - change (pager_open p0) with (bootstrap_initial_db (set_is_open true (set_disk empty_file p0))).
    unfold bootstrap_initial_db. rewrite (bind_Ok get_state _ _ _ _ eq_refl).
    rewrite (bind_Ok (modify _) _ _ p1 tt eq_refl), (bind_Ok _ _ _ _ _ E1).
    change (pg_page_size_bytes _) with ps. fold empty_leaf. rewrite Eb.
    by rewrite (bind_Ok (lift _) _ p2 p2 b eq_refl), (bind_Ok _ _ _ _ _ E2), (bind_Ok _ _ _ _ _ E3).
  - split; try done.
    + change (2 * ps <= len (f_data f4)). lia.
    + constructor.
    + constructor.
    + intros _. change (decode_meta_page (page_at f4 ps META_PAGE_ID) = Ok (initial_meta ps)).
      unfold f4. rewrite page_at_write_same by done. rewrite Hc. by apply decode_meta_wire, initial_meta_fits.
  - unfold disk_page. change (page_at (fsync_file f4) ps DEFAULT_ROOT_PAGE_ID) with (page_at f4 ps DEFAULT_ROOT_PAGE_ID).
    unfold f4. rewrite page_at_write_other; [|done|done|done|done|].
    + unfold f3. rewrite page_at_write_same by done. by rewrite Db.
    + unfold f3, f2, len in *. simpl. rewrite splice_length, length_replicate. unfold DEFAULT_ROOT_PAGE_ID. lia.
Qed.
