(* ===== verification/PagerTheorems.v ===== *)
(** * Properties of the pager

    Page reads and writes, the page allocator as a transition system, and
    what closing and reopening the data file preserves. *)

From S2P Require Import Prelude Bytes Entities Codec Fs Pager CodecFacts PageCodecFacts.
From S2P Require Import CodecTheorems PagerFacts.
From Stdlib Require Import Strings.Byte.

(** ** The allocator as a transition system

    A state is the pager with the set of page ids handed out and not freed
    since; a client frees only what it was handed. *)

Definition below_limit (p : Pager) : Prop :=
  exists m, pg_meta_page p = Some m /\ next_page_id m < 2 ^ 64.

Inductive AllocStep : Pager * gset Z -> Pager * gset Z -> Prop :=
  | step_allocate p p' used id :
      below_limit p -> allocate_page p = (p', Ok id) -> AllocStep (p, used) (p', {[id]} ∪ used)
  | step_free p p' used id :
      below_limit p -> id ∈ used -> free_page id p = (p', Ok tt) ->
      AllocStep (p, used) (p', used ∖ {[id]}).

(** The pages handed out and the free pages partition the file. *)
Definition Partition (p : Pager) (used : gset Z) : Prop :=
  exists f m heads freed, PagerInv p f m heads freed /\
    (forall i, 0 < i < next_page_id m <-> i ∈ used \/ i ∈ heads ++ freed) /\
    (forall i, i ∈ used -> i ∉ heads ++ freed).

Lemma below_limit_inv p f m heads freed :
  PagerInv p f m heads freed -> below_limit p -> next_page_id m < 2 ^ 64.
Proof. intros Hi (m' & Hm & Hl). pose proof (inv_meta _ _ _ _ _ Hi). congruence. Qed.

Lemma allocate_used p used p' id :
  Partition p used -> below_limit p -> allocate_page p = (p', Ok id) ->
  id ∉ used /\ Partition p' ({[id]} ∪ used).
Proof.
  intros (f & m & hs & fr & Hinv & Hall & Hdis) Hl E.
  pose proof (below_limit_inv _ _ _ _ _ Hinv Hl) as Hn.
  destruct (allocate_page_ok _ _ _ _ _ Hinv Hn) as (p2 & f' & m' & hs' & fr' & id' & E' & Hinv' & [Hid _ _ _]).
  rewrite E in E'. injection E' as <- <-. pose proof (inv_next _ _ _ _ _ Hinv).
  pose proof (inv_nodup _ _ _ _ _ Hinv) as Hnd.
  destruct Hid as [(Hperm & Hnx & _)|(Hnil & Hnil' & -> & Hnx)].
  - rewrite <-Hperm in Hnd. apply NoDup_cons in Hnd as [Hnin _].
    assert (id ∈ hs ++ fr) as Hin by (rewrite <-Hperm; set_solver).
    split; [intros Hu; by apply (Hdis id)|]. exists f', m', hs', fr'.
    split; [done|]. rewrite Hnx. split; intros i.
    + rewrite Hall, <-Hperm, elem_of_cons. set_solver.
    + rewrite elem_of_union, elem_of_singleton. intros [->|Hi]; [done|].
      intros Hi'. apply (Hdis i Hi). rewrite <-Hperm. set_solver.
  - split; [intros Hu; assert (0 < next_page_id m < next_page_id m) by (apply Hall; by left); lia|].
    exists f', m', hs', fr'. split; [done|]. rewrite Hnx, Hnil'. rewrite Hnil in *. split; intros i.
    + specialize (Hall i). split.
      * intros Hi. destruct (decide (i = next_page_id m)) as [->|]; [set_solver|].
        assert (0 < i < next_page_id m) as Hb by lia. apply Hall in Hb. set_solver.
      * rewrite elem_of_union, elem_of_singleton. intros [[->|Hi]|Hi]; [lia| |set_solver].
        assert (0 < i < next_page_id m) by (apply Hall; by left). lia.
    + intros _ Hi. by apply elem_of_nil in Hi.
Qed.

Lemma free_used p used p' id :
  Partition p used -> below_limit p -> id ∈ used -> free_page id p = (p', Ok tt) ->
  Partition p' (used ∖ {[id]}).
Proof.
  intros (f & m & hs & fr & Hinv & Hall & Hdis) Hl Hu E.
  pose proof (below_limit_inv _ _ _ _ _ Hinv Hl) as Hn. pose proof (inv_next _ _ _ _ _ Hinv).
  destruct (free_page_ok _ _ _ _ _ id Hinv Hn) as (p2 & f' & m' & hs' & fr' & E' & Hinv' & [Hid _ _ _ _]).
  { apply Hall. by left. }
  { by apply Hdis. }
  rewrite E in E'. injection E' as <-.
  exists f', m', hs', fr'. split; [done|].
  destruct Hid as [(Hperm & ->)|(Hperm & ->)]; split; intros i; rewrite Hperm.
  - rewrite Hall, elem_of_cons, elem_of_difference, elem_of_singleton.
    destruct (decide (i = id)); set_solver.
  - specialize (Hdis i). set_solver.
  - rewrite !elem_of_cons, elem_of_difference, elem_of_singleton. specialize (Hall i).
    destruct (decide (i = id)) as [->|]; [split; [by auto|intros _]|].
    + assert (0 < id < next_page_id m) by (apply Hall; by left). lia.
    + split.
      * intros Hi. destruct (decide (i = next_page_id m)); [by auto|].
        assert (0 < i < next_page_id m) as Hb by lia. apply Hall in Hb. tauto.
      * intros [[Hi _]|[->|[->|Hi]]]; [|done|lia|];
          assert (0 < i < next_page_id m) by (apply Hall; tauto); lia.
  - intros [Hi Hne]%elem_of_difference. rewrite !elem_of_cons. intros [->|[->|Hf]].
    + set_solver.
    + assert (0 < next_page_id m < next_page_id m) by (apply Hall; by left). lia.
    + by apply (Hdis i).
Qed.

Lemma partition_reachable st st' :
  rtc AllocStep st st' -> Partition st.1 st.2 -> Partition st'.1 st'.2.
Proof.
  induction 1 as [st|st st2 st' Hstep Hsteps IH]; intros Hp; [done|]. apply IH.
  inversion Hstep; subst; [by eapply allocate_used|by eapply free_used].
Qed.

(** ** Properties *)

(** Reading back: after [write_page] of a full page, [read_page] of that
    page returns the bytes written, and every other page that read as a full
    page before still reads the same bytes. *)
Theorem read_page_after_write p f id data :
  pg_is_open p = true -> pg_disk p = Some f -> 0 <= id -> len data = pg_page_size_bytes p ->
  exists p', write_page id data p = (p', Ok tt) /\
    (read_page id p').2 = Ok data /\
    forall j d, 0 <= j -> j <> id -> len d = pg_page_size_bytes p ->
      (read_page j p).2 = Ok d -> (read_page j p').2 = Ok d.
Proof.
  intros Ho Hd Hid Hl. exists (written p f id data).
  set (ps := pg_page_size_bytes p) in *.
  assert (forall j q g, pg_is_open q = true -> pg_disk q = Some g -> pg_page_size_bytes q = ps ->
    (read_page j q).2 = if negb (j =? META_PAGE_ID) && negb (len (page_at g ps j) =? ps)
                        then Raise DBCorruptedError else Ok (page_at g ps j)) as Hread.
  { intros j q g Hq Hg Hs. unfold read_page. rewrite (bind_Ok _ _ _ _ _ (open_file_run' _ _ Hq Hg)).
    mrun. rewrite Hs. fold (page_at g ps j). by destruct (_ && _). }
  split; [|split].
  - unfold write_page. by rewrite (bind_Ok _ _ _ _ _ (open_file_run' _ _ Ho Hd)).
  - rewrite (Hread id (written p f id data) _ Ho eq_refl eq_refl).
    fold ps. by rewrite page_at_write_same, Hl, Z.eqb_refl, andb_false_r.
  - intros j d Hj Hne Hld. rewrite (Hread j p f Ho Hd eq_refl).
    destruct (_ && _) eqn:E; [done|]. intros [= <-].
    rewrite (Hread j (written p f id data) _ Ho eq_refl eq_refl). fold ps.
    rewrite page_at_write_other; [by rewrite E|done|done|done|done|].
    unfold page_at, read_at, len in Hld. rewrite length_take, length_drop in Hld. unfold len in *. 
    destruct (decide (ps = 0)); [nia|]. lia.
Qed.

(** A small data file: pages of 64 bytes, the root leaf on page 1, and page 3
    listing page 2 as free; nothing but the list page is yet to be written. *)
Definition sample_freelist : FreelistPage :=
  {| freelist_lsn := 0; next_freelist_page_id := 0; freed_page_ids := [2] |}.

Definition fresh_pager (ps : Z) : Pager :=
  match pager_init None ps with
  | Ok p => (pager_open p).1
  | Raise _ => {| pg_disk := None; pg_is_open := false; pg_page_size_bytes := 0; pg_meta_page := None;
                  pg_is_meta_dirty := false; pg_freelist_cache := ∅;
                  pg_dirty_freelist_page_ids := ∅; pg_stats := pager_stats_zero |}
  end.

Definition run_alloc (p : Pager) : Pager := (allocate_page p).1.
Definition run_free (id : Z) (p : Pager) : Pager := (free_page id p).1.

Definition sample_pager : Pager := run_free 2 (run_alloc (fresh_pager 64)).
Definition sample_file : File := default empty_file (pg_disk sample_pager).
Definition sample_meta : MetaPage := default (initial_meta 64) (pg_meta_page sample_pager).

Lemma sample_pager_inv : PagerInv sample_pager sample_file sample_meta [3] [2].
Proof.
  assert (pg_freelist_cache sample_pager = {[3 := sample_freelist]}) as Hc by (vm_compute; reflexivity).
  assert (pg_dirty_freelist_page_ids sample_pager = {[3]}) as Hd by (vm_compute; reflexivity).
  split.
  1-4: vm_compute; reflexivity.
  1-3: vm_compute; repeat split; discriminate.
  - apply (chain_cons _ 3 sample_freelist [] []); [done|vm_compute; reflexivity|constructor].
  - apply (bool_decide_unpack _). vm_compute. exact I.
  - apply (bool_decide_unpack _). vm_compute. exact I.
  - constructor; [|constructor]. intros fp. unfold freelist_at. rewrite Hc, lookup_singleton_eq.
    intros [= <-].
    assert (pg_page_size_bytes sample_pager = 64) as -> by (vm_compute; reflexivity).
    split; [split; reflexivity|]. split; [lia|]. split; [vm_compute; discriminate|].
    constructor; [reflexivity|constructor].
  - intros h fp. rewrite Hc. intros [<- _]%lookup_singleton_Some. by left.
  - intros h. rewrite Hd, Hc. intros ->%elem_of_singleton. rewrite lookup_singleton_eq. by eexists.
  - intros h fp. rewrite Hd, Hc. intros [<- _]%lookup_singleton_Some Hn.
    exfalso. apply Hn. apply elem_of_singleton. reflexivity.
  - vm_compute. discriminate.
Qed.

Lemma read_page_after_write_witness :
  len (replicate 64 x61) = pg_page_size_bytes sample_pager /\
  exists p', write_page 2 (replicate 64 x61) sample_pager = (p', Ok tt) /\
    (read_page 2 p').2 = Ok (replicate 64 x61) /\
    forall j d, 0 <= j -> j <> 2 -> len d = pg_page_size_bytes sample_pager ->
      (read_page j sample_pager).2 = Ok d -> (read_page j p').2 = Ok d.
Proof.
  split; [by vm_compute|].
  apply (read_page_after_write sample_pager sample_file 2 (replicate 64 x61)); vm_compute; first [reflexivity|discriminate].
Defined.

(** C23. The allocator never hands out a page twice and never loses one: in
    every state reached from a fresh database by allocations and by frees of
    pages in use, the pages in use and the pages on the freelist (list pages
    included) are disjoint and together are all the pages of the file but the
    meta page; and another allocation succeeds with a page not in use. *)
Theorem allocator_partition ps p0 p used :
  MIN_PAGE_SIZE <= ps < 2 ^ 32 -> pager_init None ps = Ok p0 ->
  rtc AllocStep ((pager_open p0).1, {[DEFAULT_ROOT_PAGE_ID]}) (p, used) ->
  exists f m heads freed, PagerInv p f m heads freed /\
    (forall i, 0 < i < next_page_id m <-> i ∈ used \/ i ∈ heads ++ freed) /\
    (forall i, i ∈ used -> i ∉ heads ++ freed) /\
    (next_page_id m < 2 ^ 64 -> exists p' id, allocate_page p = (p', Ok id) /\ id ∉ used).
Proof.
  intros Hps Hp Hsteps.
  destruct (pager_open_fresh ps p0 Hps Hp) as (p1 & f1 & E1 & Hinv1 & _). rewrite E1 in Hsteps.
  assert (Partition p1 {[DEFAULT_ROOT_PAGE_ID]}) as Hpart.
  { exists f1, (initial_meta ps), [], []. split; [done|]. simpl. unfold DEFAULT_ROOT_PAGE_ID.
    split; intros i; [rewrite elem_of_singleton, elem_of_nil; lia|by intros _ ?%elem_of_nil]. }
  destruct (partition_reachable _ _ Hsteps Hpart) as (f & m & hs & fr & Hinv & Hall & Hdis).
  cbn [fst snd] in *.
  exists f, m, hs, fr. split; [done|]. split; [done|]. split; [done|]. intros Hn.
  destruct (allocate_page_ok _ _ _ _ _ Hinv Hn) as (p' & f' & m' & hs' & fr' & id & E & _ & _).
  exists p', id. split; [done|]. eapply (allocate_used p used); [by exists f, m, hs, fr| |done].
  exists m. split; [apply (inv_meta _ _ _ _ _ Hinv)|done].
Qed.

Definition sample_used : gset Z := ({[2]} ∪ {[DEFAULT_ROOT_PAGE_ID]}) ∖ {[2]}.

Lemma allocator_partition_witness :
  exists f m heads freed, PagerInv sample_pager f m heads freed /\
    (forall i, 0 < i < next_page_id m <-> i ∈ sample_used \/ i ∈ heads ++ freed) /\
    (forall i, i ∈ sample_used -> i ∉ heads ++ freed) /\
    (next_page_id m < 2 ^ 64 ->
       exists p' id, allocate_page sample_pager = (p', Ok id) /\ id ∉ sample_used).
Proof.
  destruct (pager_init None 64) as [p0|] eqn:E; [|discriminate].
  assert ((pager_open p0).1 = fresh_pager 64) as E1 by (unfold fresh_pager; by rewrite E).
  apply (allocator_partition 64 p0 sample_pager sample_used); [vm_compute; split; congruence|exact E|]. rewrite E1.
  assert (allocate_page (fresh_pager 64) = (run_alloc (fresh_pager 64), Ok 2)) as Ea by (vm_compute; reflexivity).
  eapply rtc_l.
  - apply (step_allocate _ (run_alloc (fresh_pager 64)) _ 2); [|exact Ea].
    exists (initial_meta 64). split; vm_compute; reflexivity.
  - apply rtc_once. apply (step_free _ _ _ 2); [|apply elem_of_union_l, elem_of_singleton; reflexivity|].
    + exists (with_next 3 (initial_meta 64)). split; vm_compute; reflexivity.
    + assert ((free_page 2 (run_alloc (fresh_pager 64))).2 = Ok tt) as Eb by (vm_compute; reflexivity).
      unfold sample_pager, run_free.
      rewrite (surjective_pairing (free_page 2 _)) at 1. by rewrite Eb.
Defined.

(** Freed pages are reused first, last freed first: an allocation right
    after [free_page id] returns [id], and gives the state of the freelist
    back as a set: what was free stays free. *)
Theorem free_then_allocate p f m heads freed id :
  PagerInv p f m heads freed -> next_page_id m < 2 ^ 64 - 1 ->
  0 < id < next_page_id m -> id ∉ heads ++ freed ->
  exists p1 p2 f2 m2 heads2 freed2, free_page id p = (p1, Ok tt) /\
    allocate_page p1 = (p2, Ok id) /\ PagerInv p2 f2 m2 heads2 freed2 /\
    root_page_id m2 = root_page_id m /\
    (forall i, i ∈ heads ++ freed -> i ∈ heads2 ++ freed2) /\
    (forall j, 0 <= j < next_page_id m ->
      page_at f2 (pg_page_size_bytes p) j = page_at f (pg_page_size_bytes p) j).
Proof.
  intros Hinv Hn Hid Hfresh.
  destruct (free_page_ok _ _ _ _ _ id Hinv ltac:(lia) Hid Hfresh)
    as (p1 & f1 & m1 & hs1 & fr1 & E1 & Hinv1 & [Hfr Hroot Hsz Hpg (h & fp & l & Hh & Hnz & Hfp & Hl)]).
  assert (next_page_id m1 < 2 ^ 64) as Hn1 by lia.
  destruct (allocate_page_ok _ _ _ _ _ Hinv1 Hn1) as (p2 & f2 & m2 & hs2 & fr2 & id2 & E2 & Hinv2 & [Hal Hroot2 _ Hpg2]).
  subst h. pose proof (allocate_page_last _ _ _ _ _ _ _ _ Hinv1 Hnz Hfp Hl) as Hid2.
  rewrite E2 in Hid2. injection Hid2 as ->.
  exists p1, p2, f2, m2, hs2, fr2. split; [done|]. split; [done|]. split; [done|].
  split; [congruence|]. split.
  - intros i Hi. destruct Hal as [(Hperm & _)|(Hnil & _ & _ & _)].
    + assert (i ∈ hs1 ++ fr1) as Hi1 by (destruct Hfr as [[-> _]|[-> _]]; set_solver).
      rewrite <-Hperm in Hi1. apply elem_of_cons in Hi1 as [->|?]; done.
    + rewrite Hnil in Hfr. destruct Hfr as [[Hp _]|[Hp _]]; by apply Permutation_nil_l in Hp || by apply Permutation_nil in Hp.
  - intros j Hj. rewrite Hsz in Hpg2. rewrite Hpg2; [by apply Hpg|lia].
Qed.

Lemma free_then_allocate_witness :
  1 ∉ [3] ++ [2] /\
  exists p1 p2 f2 m2 heads2 freed2, free_page 1 sample_pager = (p1, Ok tt) /\
    allocate_page p1 = (p2, Ok 1) /\ PagerInv p2 f2 m2 heads2 freed2 /\
    root_page_id m2 = root_page_id sample_meta /\
    (forall i, i ∈ [3] ++ [2] -> i ∈ heads2 ++ freed2) /\
    (forall j, 0 <= j < next_page_id sample_meta ->
      page_at f2 (pg_page_size_bytes sample_pager) j =
      page_at sample_file (pg_page_size_bytes sample_pager) j).
Proof.
  assert (1 ∉ [3] ++ [2]) as Hn by (apply (bool_decide_unpack _); vm_compute; exact I).
  split; [exact Hn|].
  apply (free_then_allocate sample_pager sample_file sample_meta [3] [2] 1 sample_pager_inv);
    [vm_compute; reflexivity|vm_compute; split; reflexivity|exact Hn].
Defined.

(** C24. Closing and reopening: [close] leaves a synced file from which a pager
    configured with any page size opens with the page size, the meta page and
    the freelist of the closed one, and with every page outside the list
    unchanged. *)
Theorem close_then_open p f m heads freed ps :
  PagerInv p f m heads freed -> meta_fits m = true -> MIN_PAGE_SIZE <= ps ->
  exists p' f', pager_close p = (p', Ok tt) /\ pg_disk p' = Some f' /\ f_synced f' = f_data f' /\
    exists q q', pager_init (Some f') ps = Ok q /\ pager_open q = (q', Ok tt) /\
      PagerInv q' f' m heads freed /\ pg_page_size_bytes q' = pg_page_size_bytes p /\
      forall j, 0 < j < next_page_id m -> j ∉ heads ->
        page_at f' (pg_page_size_bytes p) j = page_at f (pg_page_size_bytes p) j.
Proof.
  intros Hinv Hfit Hps.
  destruct (pager_close_ok _ _ _ _ _ Hinv Hfit) as (p' & f' & E & Hd & _ & Hs & Hdisk & Hp).
  exists p', f'. split; [done|]. split; [done|]. split; [done|].
  destruct (pager_init (Some f') ps) as [q|] eqn:Eq; [|unfold pager_init in Eq; destruct (Z.ltb_spec ps MIN_PAGE_SIZE); [lia|done]].
  destruct (pager_open_existing _ _ _ _ _ _ Hdisk Hps Eq) as (q' & E' & Hinv' & Hsz).
  exists q, q'. rewrite Hsz, (inv_size _ _ _ _ _ Hinv). eauto.
Qed.

Lemma close_then_open_witness :
  pg_is_meta_dirty sample_pager = true /\
  exists p' f', pager_close sample_pager = (p', Ok tt) /\ pg_disk p' = Some f' /\ f_synced f' = f_data f' /\
    exists q q', pager_init (Some f') 4096 = Ok q /\ pager_open q = (q', Ok tt) /\
      PagerInv q' f' sample_meta [3] [2] /\ pg_page_size_bytes q' = pg_page_size_bytes sample_pager /\
      forall j, 0 < j < next_page_id sample_meta -> j ∉ [3] ->
        page_at f' (pg_page_size_bytes sample_pager) j =
        page_at sample_file (pg_page_size_bytes sample_pager) j.
Proof.
  split; [vm_compute; reflexivity|].
  apply (close_then_open sample_pager sample_file sample_meta [3] [2] 4096 sample_pager_inv);
    [vm_compute; reflexivity|vm_compute; discriminate].
Defined.
