(* ===== verification/CacheFacts.v ===== *)
(** * The buffer pool's invariant

    The page a client sees under an id ([view]): the cached object if there is
    one, the page on disk otherwise.  [StoreInv] says that the pool and the
    pager agree; the operations of the pool keep it and keep the view. *)

From S2P Require Import Prelude Bytes Entities Codec Fs Pager Cache CodecFacts PageCodecFacts.
From S2P Require Import CodecTheorems PagerFacts.

(** ** The ordered dictionary *)

Implicit Types c : list (Z * CachedPage).

Lemma cache_find_Some page_id c cp :
  cache_find page_id c = Some cp -> (page_id, cp) ∈ c.
Proof.
  induction c as [|[k x] c IH]; [done|]. simpl. case_decide as Hk.
  - intros [= ->]. subst. left.
  - intros H. right. auto.
Qed.

Lemma cache_find_None page_id c : cache_find page_id c = None <-> page_id ∉ c.*1.
Proof.
  induction c as [|[k x] c IH]; simpl; [split; [by intros _ ?%elem_of_nil|done]|].
  rewrite elem_of_cons. case_decide as Hk; [subst; split; [done|by intros []; left]|].
  rewrite IH. split; [intros H [?|?]; congruence || done|tauto].
Qed.

Lemma cache_find_nodup page_id c cp :
  NoDup c.*1 -> (page_id, cp) ∈ c -> cache_find page_id c = Some cp.
Proof.
  induction c as [|[k x] c IH]; [by intros _ ?%elem_of_nil|]. simpl.
  rewrite NoDup_cons. intros [Hk Hnd] [[= -> ->]|H]%elem_of_cons; [by rewrite decide_True|].
  case_decide; [|auto]. subst. destruct Hk. apply list_elem_of_fmap. by exists (page_id, cp).
Qed.

Lemma cache_find_app page_id c1 c2 :
  cache_find page_id (c1 ++ c2) =
    match cache_find page_id c1 with Some cp => Some cp | None => cache_find page_id c2 end.
Proof. induction c1 as [|[k x] c1 IH]; simpl; [done|]. by case_decide. Qed.

Lemma cache_find_remove page_id id c :
  cache_find id (cache_remove page_id c) = if decide (id = page_id) then None else cache_find id c.
Proof.
  unfold cache_remove. induction c as [|[k x] c IH]; [by case_decide|].
  rewrite filter_cons. simpl. destruct (decide (k <> page_id)) as [Hk|Hk]; simpl.
  - rewrite IH. repeat case_decide; congruence.
  - apply dec_stable in Hk. subst. rewrite IH. repeat case_decide; congruence.
Qed.

Lemma cache_find_move page_id cp id c :
  cache_find id (cache_move_to_end page_id cp c) =
    if decide (id = page_id) then Some cp else cache_find id c.
Proof.
  unfold cache_move_to_end. rewrite cache_find_app, cache_find_remove. simpl.
  repeat case_decide; try congruence. by destruct (cache_find id c).
Qed.

Lemma cache_find_set_dirty page_id d id c :
  cache_find id (cache_set_dirty page_id d c) =
    if decide (id = page_id)
    then (fun cp => {| cp_page := cp_page cp; cp_is_dirty := d |}) <$> cache_find id c
    else cache_find id c.
Proof.
  unfold cache_set_dirty. induction c as [|[k x] c IH]; [by case_decide|].
  rewrite fmap_cons. simpl. destruct (decide (k = page_id)) as [->|Hk]; simpl.
  - destruct (decide (page_id = id)) as [->|]; [by rewrite decide_True|].
    exact IH.
  - destruct (decide (k = id)) as [->|]; [by rewrite decide_False|]. exact IH.
Qed.

Lemma cache_remove_sub page_id c e : e ∈ cache_remove page_id c <-> e.1 <> page_id /\ e ∈ c.
Proof. unfold cache_remove. by rewrite list_elem_of_filter. Qed.

Lemma cache_remove_absent page_id c : page_id ∉ c.*1 -> cache_remove page_id c = c.
Proof.
  unfold cache_remove. induction c as [|[k x] c IH]; [done|]. rewrite fmap_cons, not_elem_of_cons.
  intros [Hk Hc]. rewrite filter_cons_True by (simpl in *; congruence). by rewrite IH.
Qed.

Lemma NoDup_remove_keys page_id c : NoDup c.*1 -> NoDup (cache_remove page_id c).*1.
Proof.
  unfold cache_remove. induction c as [|[k x] c IH]; [done|]. rewrite fmap_cons. simpl.
  rewrite NoDup_cons. intros [Hk Hc]. rewrite filter_cons. case_decide; [|auto].
  rewrite fmap_cons, NoDup_cons. split; [|auto]. intros Hin. apply Hk. simpl in *.
  apply list_elem_of_fmap in Hin as (e & He & Hin). apply list_elem_of_filter in Hin as [_ Hin].
  apply list_elem_of_fmap. by exists e.
Qed.

Lemma cache_remove_length page_id c cp :
  NoDup c.*1 -> cache_find page_id c = Some cp -> S (length (cache_remove page_id c)) = length c.
Proof.
  induction c as [|[k x] c IH]; [done|]. simpl. rewrite NoDup_cons. intros [Hk Hnd].
  unfold cache_remove in *. rewrite filter_cons. simpl. case_decide as E.
  - subst. intros _. rewrite decide_False by tauto. f_equal.
    pose proof (cache_remove_absent page_id c Hk) as Ha. unfold cache_remove in Ha. by rewrite Ha.
  - intros Hf. rewrite decide_True by done. simpl. f_equal. auto.
Qed.

Lemma set_dirty_keys page_id d c : (cache_set_dirty page_id d c).*1 = c.*1.
Proof.
  unfold cache_set_dirty. induction c as [|[k x] c IH]; [done|]. rewrite !fmap_cons, IH.
  by case_decide.
Qed.

(** ** The invariant of the store *)

(** The state of the pager: its data file, its meta page and its freelist. *)
Record Disk := {
  dk_file : File;
  dk_meta : MetaPage;
  dk_heads : list Z;
  dk_freed : list Z;
}.

Definition dk_free (D : Disk) : list Z := dk_heads D ++ dk_freed D.
Definition dk_ps (D : Disk) : Z := page_size_bytes (dk_meta D).

Definition PagerOk (p : Pager) (D : Disk) : Prop :=
  PagerInv p (dk_file D) (dk_meta D) (dk_heads D) (dk_freed D).

Definition entry (s : Store) (id : Z) : option CachedPage := cache_find id (cache_of s).
Definition object (s : Store) (l : loc) : option Page := heap_objects (st_heap s) !! l.
Definition on_disk (D : Disk) (id : Z) : option Page := disk_page (dk_file D) (dk_ps D) id.

(** The page a client sees under an id. *)
Definition view (s : Store) (D : Disk) (id : Z) : option Page :=
  match entry s id with
  | Some cp => object s (cp_page cp)
  | None => on_disk D id
  end.

Definition tree_page (p : Page) : Prop :=
  match p with PFreelist _ => False | _ => True end.

(** A page id a tree may use. *)
Definition usable (D : Disk) (id : Z) : Prop := 0 < id < next_page_id (dk_meta D) /\ id ∉ dk_free D.

(** [pend] holds the ids of the clean entries whose object has been changed
    since it was read. *)
Record StoreInv (pend : gset Z) (s : Store) (D : Disk) : Prop := {
  si_pager : PagerOk (st_pager s) D;
  si_nodup : NoDup (cache_of s).*1;
  si_inj : forall i j a b, entry s i = Some a -> entry s j = Some b -> cp_page a = cp_page b -> i = j;
  si_object : forall i cp, entry s i = Some cp ->
    exists page, object s (cp_page cp) = Some page /\ tree_page page;
  si_fresh : forall l, heap_next (st_heap s) <= l -> object s l = None;
  si_usable : forall i cp, entry s i = Some cp -> usable D i;
  si_clean : forall i cp, entry s i = Some cp -> cp_is_dirty cp = false -> i ∉ pend ->
    object s (cp_page cp) = on_disk D i;
}.

Lemma si_ps pend s D : StoreInv pend s D -> pg_page_size_bytes (st_pager s) = dk_ps D.
Proof. intros H. symmetry. apply (inv_size _ _ _ _ _ (si_pager _ _ _ H)). Qed.

Lemma si_mono pend pend' s D : pend ⊆ pend' -> StoreInv pend s D -> StoreInv pend' s D.
Proof. intros Hs []. split; try done. intros i cp He Hc Hp. apply si_clean0; [done..|set_solver]. Qed.

(** ** Eviction *)

(** [n] more pages can be cached without an eviction. *)
Definition roomy (s : Store) (n : Z) : Prop :=
  bp_eviction_enabled (st_pool s) = false \/ len (cache_of s) + n <= bp_capacity_pages (st_pool s).

(** At least [n] entries are clean or missing. *)
Definition slack (s : Store) (n : Z) : Prop :=
  bp_eviction_enabled (st_pool s) = false \/ dirty_count s + n <= bp_capacity_pages (st_pool s).

Definition same_pool_config (s s' : Store) : Prop :=
  bp_capacity_pages (st_pool s') = bp_capacity_pages (st_pool s) /\
  bp_eviction_enabled (st_pool s') = bp_eviction_enabled (st_pool s).

Lemma dirty_count_le s : dirty_count s <= len (cache_of s).
Proof.
  unfold dirty_count, len, dirty_entries.
  pose proof (length_filter (fun e : Z * CachedPage => cp_is_dirty e.2 = true) (cache_of s)). lia.
Qed.

Lemma roomy_slack s n : roomy s n -> slack s n.
Proof. intros [?|?]; [by left|right]. pose proof (dirty_count_le s). lia. Qed.

Lemma all_dirty_count s :
  list_find (fun e : Z * CachedPage => cp_is_dirty e.2 = false) (cache_of s) = None ->
  dirty_count s = len (cache_of s).
Proof.
  intros H%list_find_None. unfold dirty_count, dirty_entries, len. do 2 f_equal.
  induction H as [|e c He Hc IH]; [done|]. rewrite filter_cons_True; [by rewrite IH|].
  by destruct (cp_is_dirty e.2).
Qed.

(** The entry an eviction drops: the oldest clean one, when the pool is full. *)
Definition victim (s : Store) : option (Z * CachedPage) :=
  if bp_eviction_enabled (st_pool s) && (bp_capacity_pages (st_pool s) <=? len (cache_of s))
  then snd <$> list_find (fun e : Z * CachedPage => cp_is_dirty e.2 = false) (cache_of s) else None.

Definition evict_cache (s : Store) : list (Z * CachedPage) :=
  match victim s with Some e => cache_remove e.1 (cache_of s) | None => cache_of s end.

Lemma victim_entry s e : NoDup (cache_of s).*1 -> victim s = Some e ->
  entry s e.1 = Some e.2 /\ cp_is_dirty e.2 = false /\
  exists c1 c2, cache_of s = c1 ++ e :: c2 /\ Forall (fun x => cp_is_dirty x.2 = true) c1.
Proof.
  intros Hnd. unfold victim. destruct (_ && _); [|done].
  intros ([n x] & (Hn & Hc & Hb)%list_find_Some & ->)%fmap_Some. simpl. split; [|split; [done|]].
  - apply cache_find_nodup; [done|]. destruct x. by eapply list_elem_of_lookup_2.
  - exists (take n (cache_of s)), (drop (S n) (cache_of s)). split; [by rewrite take_drop_middle|].
    apply Forall_forall. intros y (j & Hj & Hlt)%elem_of_take. specialize (Hb j y Hj Hlt). simpl in Hb.
    by destruct (cp_is_dirty y.2).
Qed.

(** What an eviction does: nothing, or it drops the victim. *)
Record Evicted (s s' : Store) : Prop := {
  ev_same : st_pager s' = st_pager s /\ st_heap s' = st_heap s /\ same_pool_config s s';
  ev_cache : cache_of s' = evict_cache s;
  ev_room : victim s = None ->
    bp_eviction_enabled (st_pool s) = false \/ len (cache_of s) < bp_capacity_pages (st_pool s);
}.

Lemma evict_run s : NoDup (cache_of s).*1 ->
  (exists s', evict_oldest_clean_page_if_full s = (s', Ok tt) /\ Evicted s s') \/
  (evict_oldest_clean_page_if_full s = (s, Raise DBBufferPoolOverflowError) /\
   bp_eviction_enabled (st_pool s) = true /\ bp_capacity_pages (st_pool s) <= len (cache_of s) /\
   dirty_count s = len (cache_of s)).
Proof.
  intros Hnd. unfold evict_oldest_clean_page_if_full.
  rewrite (bind_Ok get_state _ s s s eq_refl).
  assert (forall s', st_pager s' = st_pager s /\ st_heap s' = st_heap s /\ same_pool_config s s' ->
    cache_of s' = evict_cache s -> (victim s = None ->
    bp_eviction_enabled (st_pool s) = false \/ len (cache_of s) < bp_capacity_pages (st_pool s)) -> Evicted s s') as Hev by done.
  unfold evict_cache, victim in Hev.
  destruct (bp_eviction_enabled (st_pool s)) eqn:Een; cbn [negb andb] in *.
  2:{ left. exists s. split; [done|]. apply Hev; [done|done|by left]. }
  destruct (Z.leb_spec (bp_capacity_pages (st_pool s)) (len (cache_of s))) as [Hfull|Hroom].
  2:{ left. exists s. split; [done|]. apply Hev; [done|done|by right]. }
  destruct (list_find _ (cache_of s)) as [[n [id cp]]|] eqn:Ef.
  - left. eexists. split; [reflexivity|]. apply Hev; done.
  - right. apply all_dirty_count in Ef. done.
Qed.

Lemma evict_slack s n : slack s n -> 1 <= n -> NoDup (cache_of s).*1 ->
  exists s', evict_oldest_clean_page_if_full s = (s', Ok tt) /\ Evicted s s'.
Proof.
  intros Hs Hn Hnd. destruct (evict_run s Hnd) as [?|(_ & He & Hfull & Hd)]; [done|].
  destruct Hs as [Hs|Hs]; [congruence|lia].
Qed.

Lemma cache_perm page_id c cp : NoDup c.*1 -> cache_find page_id c = Some cp ->
  c ≡ₚ (page_id, cp) :: cache_remove page_id c.
Proof.
  induction c as [|[k x] c IH]; [done|]. rewrite fmap_cons. simpl. rewrite NoDup_cons. intros [Hk Hnd].
  unfold cache_remove in *. rewrite filter_cons. simpl. case_decide as E.
  - subst. intros [= ->]. rewrite decide_False by tauto.
    pose proof (cache_remove_absent page_id c Hk) as Ha. unfold cache_remove in Ha. by rewrite Ha.
  - intros Hf. rewrite decide_True by done. rewrite IH at 1 by done. apply perm_swap.
Qed.

Lemma dirty_count_perm (s s' : Store) : cache_of s' ≡ₚ cache_of s -> dirty_count s' = dirty_count s.
Proof.
  intros Hp. unfold dirty_count, dirty_entries, len. f_equal. apply Permutation_length. by rewrite Hp.
Qed.

Lemma dirty_count_cons (s s' : Store) e : cache_of s' ≡ₚ e :: cache_of s ->
  dirty_count s' = dirty_count s + if cp_is_dirty e.2 then 1 else 0.
Proof.
  intros Hp. unfold dirty_count, dirty_entries, len. rewrite Hp, filter_cons.
  destruct (cp_is_dirty e.2) eqn:E; case_decide; try congruence; simpl; lia.
Qed.

Definition is_dirty (s : Store) (id : Z) : Prop :=
  exists cp, entry s id = Some cp /\ cp_is_dirty cp = true.

(** Setting the dirty bit of an entry. *)
Lemma dirty_entries_mark id c cp : NoDup c.*1 -> cache_find id c = Some cp ->
  len (dirty_entries (cache_set_dirty id true c)) =
    len (dirty_entries c) + if cp_is_dirty cp then 0 else 1.
Proof.
  unfold dirty_entries, len, cache_set_dirty.
  induction c as [|[k x] c IH]; [done|]. rewrite !fmap_cons. simpl. rewrite NoDup_cons. intros [Hk Hnd].
  case_decide as E.
  - subst. intros [= ->].
    assert (((fun e => if decide (e.1 = id) then (e.1, {| cp_page := cp_page e.2; cp_is_dirty := true |}) else e) <$> c) = c) as ->.
    { rewrite <-(list_fmap_id c) at 2. apply list_fmap_ext. intros i [j y] Hi. simpl.
      rewrite decide_False; [done|]. intros ->. apply Hk. apply list_elem_of_fmap. exists (id, y).
      split; [done|]. by eapply list_elem_of_lookup_2. }
    rewrite !filter_cons. simpl.
    destruct (cp_is_dirty cp) eqn:Ed; repeat case_decide; try congruence; simpl; lia.
  - intros Hf. rewrite !filter_cons. simpl. specialize (IH Hnd Hf). case_decide; simpl; lia.
Qed.

Lemma dirty_count_mark id cp (s s' : Store) : NoDup (cache_of s).*1 -> entry s id = Some cp ->
  cache_of s' = cache_set_dirty id true (cache_of s) ->
  dirty_count s' <= dirty_count s + 1 /\ (is_dirty s id -> dirty_count s' = dirty_count s).
Proof.
  intros Hnd Hf Hc. unfold dirty_count. rewrite Hc, (dirty_entries_mark id _ cp Hnd Hf).
  split; [destruct (cp_is_dirty cp); lia|]. intros (cp' & He & Hd). assert (cp' = cp) as -> by congruence.
  rewrite Hd. lia.
Qed.

Lemma len_perm {A} (l l' : list A) : l ≡ₚ l' -> len l = len l'.
Proof. intros Hp. unfold len. by rewrite Hp. Qed.

Lemma evicted_entry s s' id : NoDup (cache_of s).*1 -> Evicted s s' ->
  entry s' id = entry s id \/
  (entry s' id = None /\ exists cp, victim s = Some (id, cp) /\ entry s id = Some cp /\ cp_is_dirty cp = false).
Proof.
  unfold entry. intros Hnd [_ -> _]. unfold evict_cache. destruct (victim s) as [[j cp]|] eqn:Ev; [|by left].
  destruct (victim_entry s _ Hnd Ev) as (Hf & Hc & _). simpl in *.
  rewrite cache_find_remove. case_decide; [subst|by left]. right. eauto.
Qed.

(** The entries but the victim's stay. *)
Lemma evicted_kept s s' id : NoDup (cache_of s).*1 -> Evicted s s' ->
  (forall e, victim s = Some e -> e.1 <> id) -> entry s' id = entry s id.
Proof.
  intros Hnd Hev Hv. destruct (evicted_entry s s' id Hnd Hev) as [|(_ & cp & E & _)]; [done|].
  by destruct (Hv _ E).
Qed.

Lemma evicted_dirty s s' : NoDup (cache_of s).*1 -> Evicted s s' -> dirty_count s' = dirty_count s.
Proof.
  intros Hnd [_ Hc _]. unfold evict_cache in Hc. destruct (victim s) as [[id cp]|] eqn:Ev.
  - destruct (victim_entry s _ Hnd Ev) as (Hf & Hcl & _). simpl in *.
    pose proof (dirty_count_cons s' s (id, cp)) as H. simpl in H. rewrite Hcl in H.
    rewrite H; [lia|]. rewrite Hc. by apply cache_perm.
  - by apply dirty_count_perm; rewrite Hc.
Qed.

Lemma evicted_length s s' : NoDup (cache_of s).*1 -> Evicted s s' -> len (cache_of s') <= len (cache_of s).
Proof.
  intros Hnd [_ -> _]. unfold evict_cache. destruct (victim s) as [[id cp]|] eqn:Ev; [|lia].
  destruct (victim_entry s _ Hnd Ev) as (Hf & _). simpl in *.
  pose proof (cache_remove_length id (cache_of s) cp Hnd Hf). unfold len. lia.
Qed.

(** An eviction that drops no changed page keeps the invariant and the view. *)
Lemma evicted_inv pend s s' D : StoreInv pend s D -> Evicted s s' ->
  (forall e, victim s = Some e -> e.1 ∉ pend) ->
  StoreInv pend s' D /\ forall id, view s' D id = view s D id.
Proof.
  intros Hinv Hev Hp. pose proof Hev as [(Hpg & Hh & _) Hc _]. pose proof (si_nodup _ _ _ Hinv) as Hnd.
  assert (forall i cp, entry s' i = Some cp -> entry s i = Some cp) as Hsub.
  { intros i cp He. destruct (evicted_entry s s' i Hnd Hev) as [H|[H _]]; congruence. }
  assert (forall l, object s' l = object s l) as Hobj by (intros; unfold object; by rewrite Hh).
  split.
  - destruct Hinv. split; try rewrite Hh; try rewrite Hpg; try done.
    + rewrite Hc. unfold evict_cache. destruct (victim s); [by apply NoDup_remove_keys|done].
    + intros i j a b Ha Hb. eauto.
    + intros i cp He. rewrite Hobj. eauto.
    + intros l Hl. rewrite Hobj. auto.
    + intros i cp He. eauto.
    + intros i cp He. rewrite Hobj. eauto.
  - intros id. unfold view. destruct (evicted_entry s s' id Hnd Hev) as [-> |(He & cp & Ev & Hs & Hcl)].
    + destruct (entry s id); [by rewrite Hobj|done].
    + rewrite He, Hs. symmetry. apply (si_clean _ _ _ Hinv _ _ Hs Hcl). by apply (Hp _ Ev).
Qed.

(** A page can be brought in: there is a clean entry to evict, or room, and
    the victim holds no unwritten change. *)
Definition can_get (pend : gset Z) (s : Store) : Prop :=
  slack s 1 /\ forall e, victim s = Some e -> e.1 ∉ pend.

Lemma can_get_clean s : slack s 1 -> can_get ∅ s.
Proof. intros H. split; [done|]. intros e _. apply not_elem_of_empty. Qed.

Lemma can_get_evict pend s D : StoreInv pend s D -> can_get pend s ->
  exists s', evict_oldest_clean_page_if_full s = (s', Ok tt) /\ Evicted s s' /\
    StoreInv pend s' D /\ forall id, view s' D id = view s D id.
Proof.
  intros Hinv [Hs Hv]. destruct (evict_slack s 1 Hs ltac:(lia) (si_nodup _ _ _ Hinv)) as (s' & E & Hev).
  exists s'. split; [done|]. split; [done|]. by eapply evicted_inv.
Qed.

(** Evictions drop clean entries only. *)
Lemma evicted_is_dirty s s' i : NoDup (cache_of s).*1 -> Evicted s s' -> is_dirty s' i <-> is_dirty s i.
Proof.
  intros Hnd Hev. unfold is_dirty. destruct (evicted_entry s s' i Hnd Hev) as [->|(-> & cp & _ & -> & Hc)]; [done|].
  split; [by intros (? & ? & _)|]. intros (? & [= <-] & ?). congruence.
Qed.

Lemma on_pager_run {A} (m : M Pager A) s p r : m (st_pager s) = (p, r) -> on_pager m s = (set_pager p s, r).
Proof. intros E. unfold on_pager, zoom. by rewrite E. Qed.

Lemma si_set_pager pend s D p : StoreInv pend s D -> PagerOk p D -> StoreInv pend (set_pager p s) D.
Proof. intros [] Hp. by split. Qed.

Lemma si_stats pend s D t : StoreInv pend s D -> StoreInv pend (set_pool_stats t s) D.
Proof. intros []. by split. Qed.

(** ** References *)

(** The pool holds the page [id] in the object at [l]. *)
Definition holds (s : Store) (id : Z) (l : loc) : Prop :=
  exists cp, entry s id = Some cp /\ cp_page cp = l.

(** A view with one page replaced. *)
Definition upd (V : Z -> option Page) (id : Z) (p : Page) : Z -> option Page :=
  fun i => if decide (i = id) then Some p else V i.

Lemma upd_same V id p : upd V id p id = Some p.
Proof. unfold upd. by rewrite decide_True. Qed.

Lemma upd_other V id p i : i <> id -> upd V id p i = V i.
Proof. intros H. unfold upd. by rewrite decide_False. Qed.

Lemma holds_view s D id l : holds s id l -> view s D id = object s l.
Proof. intros (cp & He & <-). unfold view. by rewrite He. Qed.

Lemma holds_inj pend s D i j l : StoreInv pend s D -> holds s i l -> holds s j l -> i = j.
Proof. intros Hinv (a & Ha & <-) (b & Hb & Hl). by eapply (si_inj _ _ _ Hinv). Qed.

Lemma deref_run s l p : object s l = Some p -> deref l s = (s, Ok p).
Proof. intros H. unfold deref. mrun. unfold object in H. by rewrite H. Qed.

(** Assigning through a reference the pool holds: the page of that id changes
    for everybody; until it is marked dirty the entry is pending. *)
Definition assigned (l : loc) (p : Page) (s : Store) : Store :=
  set_heap {| heap_next := heap_next (st_heap s); heap_objects := <[l := p]> (heap_objects (st_heap s)) |} s.

Lemma object_assigned l p s x : object (assigned l p s) x = if decide (x = l) then Some p else object s x.
Proof.
  unfold object, assigned. simpl.
  case_decide; [subst; by rewrite lookup_insert_eq|by rewrite lookup_insert_ne].
Qed.

Lemma assign_inv pend s D id l p : StoreInv pend s D -> holds s id l -> tree_page p ->
  StoreInv ({[id]} ∪ pend) (assigned l p s) D /\
  (is_dirty s id -> StoreInv pend (assigned l p s) D) /\
  (forall i, view (assigned l p s) D i = upd (view s D) id p i).
Proof.
  intros Hinv Hh Ht. pose proof Hh as (cp0 & He0 & Hl0).
  assert (forall i, entry (assigned l p s) i = entry s i) as Hent by done.
  assert (forall i cp, entry s i = Some cp -> cp_page cp = l -> i = id) as Hid.
  { intros i cp He Hl. eapply (holds_inj _ _ _ _ _ l Hinv); [by exists cp|done]. }
  assert (forall pend', (forall cp, entry s id = Some cp -> cp_is_dirty cp = false -> id ∉ pend' -> False) ->
     pend ⊆ pend' -> StoreInv pend' (assigned l p s) D) as H.
  { intros pend' Hp Hsub. pose proof Hinv as []. split; try done.
    - intros i cp. rewrite Hent, object_assigned. intros He. case_decide; eauto.
    - intros x. rewrite object_assigned. cbn [assigned st_heap set_heap heap_next]. intros Hx.
      rewrite decide_False; [auto|]. intros ->.
      destruct (si_object0 _ _ He0) as (q & Hq & _). rewrite Hl0, si_fresh0 in Hq; done.
    - intros i cp. rewrite Hent, object_assigned. intros He Hc Hn. rewrite decide_False.
      + apply si_clean0; [done|done|set_solver].
      + intros Hl. pose proof (Hid _ _ He Hl). subst. eauto. }
  split; [|split].
  - apply H; [set_solver|set_solver].
  - intros (cp & He & Hd). apply H; [|done]. intros cp' He' Hc. congruence.
  - intros i. unfold view, upd. rewrite Hent. destruct (decide (i = id)) as [->|Hne].
    + by rewrite He0, object_assigned, decide_True.
    + destruct (entry s i) as [cp|] eqn:He; [|done]. rewrite object_assigned, decide_False; eauto.
Qed.

Lemma new_object_run p s : new_object p s = (assigned (heap_next (st_heap s)) p
  (set_heap {| heap_next := heap_next (st_heap s) + 1; heap_objects := heap_objects (st_heap s) |} s),
  Ok (heap_next (st_heap s))).
Proof. done. Qed.

Lemma new_object_ok pend s D p : StoreInv pend s D -> tree_page p ->
  exists s' l, new_object p s = (s', Ok l) /\ StoreInv pend s' D /\
    object s l = None /\ object s' l = Some p /\ (forall x, x <> l -> object s' x = object s x) /\
    (forall i, ~ holds s' i l) /\ st_pool s' = st_pool s /\ st_pager s' = st_pager s /\
    (forall i, view s' D i = view s D i).
Proof.
  intros Hinv Ht. rewrite new_object_run. do 2 eexists. split; [reflexivity|].
  set (l := heap_next (st_heap s)). set (s' := assigned _ _ _).
  assert (forall x, object s' x = if decide (x = l) then Some p else object s x) as Hobj
    by (intros x; etransitivity; [apply object_assigned|done]).
  assert (object s l = None) as Hl by (apply (si_fresh _ _ _ Hinv); lia).
  assert (forall i cp, entry s i = Some cp -> cp_page cp <> l) as Hnl.
  { intros i cp Hi Hc. destruct (si_object _ _ _ Hinv i cp Hi) as (q & Hq & _). congruence. }
  split.
  { destruct Hinv. split; try done.
    - intros i cp Hi. rewrite Hobj, decide_False by (by eapply Hnl). by apply (si_object0 i).
    - intros x Hx. change (l + 1 <= x) in Hx. rewrite Hobj, decide_False by lia. apply si_fresh0. lia.
    - intros i cp Hi. rewrite Hobj, decide_False by (by eapply Hnl). by apply (si_clean0 i). }
  split; [done|]. split; [by rewrite Hobj, decide_True|].
  split; [intros x Hx; by rewrite Hobj, decide_False|].
  split; [intros i (cp & Hi & Hc); by apply (Hnl i cp)|]. split; [done|]. split; [done|].
  intros i. unfold view. change (entry s' i) with (entry s i). destruct (entry s i) eqn:Hi; [|done].
  rewrite Hobj, decide_False; [done|eauto].
Qed.

(** Assigning to an object the pool does not hold. *)
Lemma assign_free_inv pend s D l p : StoreInv pend s D -> object s l <> None ->
  (forall i, ~ holds s i l) ->
  StoreInv pend (assigned l p s) D /\ forall i, view (assigned l p s) D i = view s D i.
Proof.
  intros Hinv Hl Hfree.
  assert (forall i cp, entry s i = Some cp -> object (assigned l p s) (cp_page cp) = object s (cp_page cp)) as Hobj.
  { intros i cp He. rewrite object_assigned, decide_False; [done|]. intros <-. apply (Hfree i). by exists cp. }
  split.
  - destruct Hinv. split; try done.
    + intros i cp He. rewrite (Hobj i) by done. eauto.
    + intros x Hx. rewrite object_assigned, decide_False; [auto|]. intros ->. by rewrite si_fresh0 in Hl.
    + intros i cp He. rewrite (Hobj i) by done. eauto.
  - intros i. unfold view. change (entry (assigned l p s) i) with (entry s i).
    destruct (entry s i) eqn:He; [by apply (Hobj i)|done].
Qed.

(** Caching an object under a new id. *)
Definition appended (id : Z) (cp : CachedPage) (s : Store) : Store :=
  set_cache (cache_of s ++ [(id, cp)]) s.

Lemma appended_entry id cp s i : entry s id = None ->
  entry (appended id cp s) i = if decide (i = id) then Some cp else entry s i.
Proof.
  unfold entry, appended. cbn [cache_of st_pool set_cache bp_cache]. intros Hn.
  rewrite cache_find_app. simpl. repeat case_decide; subst; try congruence; [by rewrite Hn|].
  by destruct (cache_find i _).
Qed.

Lemma appended_inv pend id cp page s D : StoreInv pend s D -> entry s id = None -> usable D id ->
  object s (cp_page cp) = Some page -> tree_page page -> (forall i, ~ holds s i (cp_page cp)) ->
  (cp_is_dirty cp = false -> id ∉ pend -> on_disk D id = Some page) ->
  StoreInv pend (appended id cp s) D /\ forall i, view (appended id cp s) D i = upd (view s D) id page i.
Proof.
  intros Hinv Hnone Hu Ho Ht Hfree Hc.
  assert (forall i, entry (appended id cp s) i = if decide (i = id) then Some cp else entry s i) as Hent
    by (intros i; by apply appended_entry).
  assert (forall i a, entry s i = Some a -> cp_page a <> cp_page cp) as Hnl.
  { intros i a He Hl. apply (Hfree i). by exists a. }
  split.
  - destruct Hinv. split; try done.
    + change (NoDup (cache_of s ++ [(id, cp)]).*1). rewrite fmap_app. simpl.
      apply NoDup_app. split; [done|]. split; [|apply NoDup_singleton].
      intros x Hx ->%list_elem_of_singleton. by apply cache_find_None in Hnone.
    + intros i j a b. rewrite !Hent. destruct (decide (i = id)), (decide (j = id)); [congruence|..].
      * intros [= <-] Hb Hl. by destruct (Hnl j b Hb).
      * intros Ha [= <-] Hl. by destruct (Hnl i a Ha).
      * eauto.
    + intros i a. rewrite Hent. case_decide; [|apply si_object0]. intros [= <-]. eauto.
    + intros i a. rewrite Hent. case_decide; [by subst|apply si_usable0].
    + intros i a. rewrite Hent. case_decide; [|apply si_clean0]. subst. intros [= <-] Hd Hp.
      rewrite Hc by done. done.
  - intros i. unfold view, upd. rewrite Hent. by case_decide.
Qed.
