(* ===== verification/CacheOps.v ===== *)
(** * The operations of the buffer pool

    What each operation of the pool does to the pages its clients see, given
    the invariant of the store, and how the pager's allocator and a flush act
    under it. *)

From S2P Require Import Prelude Bytes Entities Codec Fs Pager Cache CodecFacts PageCodecFacts.
From S2P Require Import CodecTheorems PagerFacts CacheFacts.

(** ** Fetching a page *)

(** What [get] promises: a reference to the page under the id, now cached,
    and no change of what anybody sees. *)
Record Got (s s' : Store) (D : Disk) (id : Z) (l : loc) (page : Page) : Prop := {
  got_entry : holds s' id l;
  got_object : object s' l = Some page;
  got_view : forall i, view s' D i = view s D i;
  got_heap : forall l p, object s l = Some p -> object s' l = Some p;
  got_dirty : dirty_count s' = dirty_count s;
  got_config : same_pool_config s s';
  got_is_dirty : forall i, is_dirty s' i <-> is_dirty s i;
  got_kept : forall i cp, entry s i = Some cp -> (forall e, victim s = Some e -> e.1 <> i) ->
    entry s' i = Some cp;
  got_cache : (exists cp, entry s id = Some cp /\ cache_of s' = cache_move_to_end id cp (cache_of s)) \/
    (exists cp, entry s id = None /\ cache_of s' = evict_cache s ++ [(id, cp)]);
  got_file : pg_disk (st_pager s') = pg_disk (st_pager s);
}.

(** A hit. *)
Lemma pool_get_hit pend s D id cp page :
  StoreInv pend s D -> entry s id = Some cp -> object s (cp_page cp) = Some page ->
  exists s', pool_get id s = (s', Ok (cp_page cp)) /\ StoreInv pend s' D /\ Got s s' D id (cp_page cp) page.
Proof.
  intros Hinv He Ho. unfold pool_get. rewrite (bind_Ok get_state _ s s s eq_refl).
  unfold entry in He. rewrite He. eexists. split; [reflexivity|].
  assert (cache_move_to_end id cp (cache_of s) ≡ₚ cache_of s) as Hp.
  { unfold cache_move_to_end. rewrite (cache_perm id (cache_of s) cp) at 2 by (done || apply Hinv).
    by rewrite Permutation_app_comm. }
  set (s' := set_pool_stats _ _).
  assert (forall i, entry s' i = entry s i) as Hent.
  { intros i. change (cache_find i (cache_move_to_end id cp (cache_of s)) = cache_find i (cache_of s)).
    rewrite cache_find_move. case_decide; congruence. }
  split.
  - destruct Hinv. split; try done.
    + change (NoDup (cache_move_to_end id cp (cache_of s)).*1). by rewrite Hp.
    + intros i j a b. rewrite !Hent. eauto.
    + intros i a. rewrite Hent. apply si_object.
    + intros i a. rewrite Hent. apply si_usable.
    + intros i a. rewrite Hent. apply si_clean.
  - split; try done.
    + exists cp. by rewrite Hent.
    + intros i. unfold view. by rewrite Hent.
    + by apply dirty_count_perm.
    + intros i. unfold is_dirty. by rewrite Hent.
    + intros i a. by rewrite Hent.
    + left. by exists cp.
Qed.

(** Decoding a page of the file into a new clean entry. *)
Lemma load_page pend s D id page : StoreInv pend s D -> usable D id -> entry s id = None ->
  on_disk D id = Some page -> tree_page page ->
  let l := heap_next (st_heap s) in
  let s' := appended id {| cp_page := l; cp_is_dirty := false |} (new_object page s).1 in
  StoreInv pend s' D /\ (forall i, view s' D i = view s D i) /\ object s' l = Some page /\
  (forall x p, object s x = Some p -> object s' x = Some p).
Proof.
  intros Hinv Hu He Hd Ht l s'.
  destruct (new_object_ok pend s D page Hinv Ht) as (s1 & l1 & E & Hinv1 & Hnone & Hobj & Hother & Hfree & Hpool & _ & Hv).
  rewrite new_object_run in E. injection E as <- <-. fold l in Hnone, Hobj, Hother, Hfree.
  unfold s'. rewrite new_object_run. cbn [fst]. fold l. set (s1 := assigned l page _) in *.
  destruct (appended_inv pend id {| cp_page := l; cp_is_dirty := false |} page s1 D) as [Hinv2 Hv2]; try done.
  split; [done|]. split; [|split; [exact Hobj|]].
  - intros i. rewrite Hv2. unfold upd. case_decide; [|by apply Hv]. subst. unfold view. by rewrite He.
  - intros x p Hx. destruct (decide (x = l)) as [->|Hne]; [congruence|].
    change (object s1 x = Some p). by rewrite Hother.
Qed.

Lemma pool_get_miss pend s D id page :
  StoreInv pend s D -> usable D id -> entry s id = None -> on_disk D id = Some page -> tree_page page ->
  can_get pend s ->
  exists s' l, pool_get id s = (s', Ok l) /\ StoreInv pend s' D /\ Got s s' D id l page.
Proof.
  intros Hinv Hu He Hd Ht Hcan. pose proof (si_nodup _ _ _ Hinv) as Hnd.
  destruct (can_get_evict pend s D Hinv Hcan) as (s1 & E1 & Hev & Hinv1 & Hview1).
  destruct (ev_same _ _ Hev) as (Hpg & Hh & Hcfg).
  assert (entry s1 id = None) as He1 by (destruct (evicted_entry s s1 id Hnd Hev) as [->|[-> _]]; done).
  assert (decode_page (page_at (dk_file D) (pg_page_size_bytes (st_pager s1)) id) = Ok page) as Hdec.
  { unfold on_disk, disk_page in Hd. rewrite (si_ps _ _ _ Hinv1). destruct (decode_page _); congruence. }
  unfold pool_get. rewrite (bind_Ok get_state _ s s s eq_refl). fold (entry s id). rewrite He.
  rewrite (bind_Ok _ _ _ _ _ E1).
  rewrite (bind_Ok _ _ s1 _ _ (on_pager_run _ _ _ _
             (read_page_run _ _ _ _ _ (si_pager _ _ _ Hinv1) id ltac:(unfold usable in Hu; lia)))).
  rewrite Hdec, (bind_Ok (lift _) _ _ _ page eq_refl).
  set (s2 := set_pager (bump CPageReads (st_pager s1)) s1).
  assert (StoreInv pend s2 D) as Hinv2 by (apply si_set_pager; [done|apply inv_bump, Hinv1]).
  set (l := heap_next (st_heap s2)). set (new := {| cp_page := l; cp_is_dirty := false |}).
  destruct (load_page pend s2 D id page Hinv2 Hu He1 Hd Ht) as (Hinv3 & Hview3 & Hobj3 & Hkeep3).
  set (s3 := appended id new (new_object page s2).1) in *.
  exists (count_stat add_miss s3).1, l. split; [destruct page; [reflexivity|reflexivity|done]|].
  assert (forall i, entry s3 i = if decide (i = id) then Some new else entry s1 i) as Hent
    by (intros i; by apply (appended_entry id new (new_object page s2).1)).
  split; [by apply si_stats|]. split; try done.
  - exists new. split; [|done]. change (entry s3 id = Some new). by rewrite Hent, decide_True.
  - intros i. etransitivity; [apply Hview3|]. apply Hview1.
  - intros x p Hx. apply Hkeep3. change (object s1 x = Some p). unfold object. by rewrite Hh.
  - etransitivity; [|apply (evicted_dirty s s1 Hnd Hev)].
    rewrite (dirty_count_cons s1 _ (id, new)); [simpl; lia|]. symmetry. apply Permutation_cons_append.
  - intros i. rewrite <-(evicted_is_dirty s s1 i Hnd Hev). unfold is_dirty.
    change (entry (count_stat add_miss s3).1 i) with (entry s3 i). rewrite Hent. case_decide; [|done].
    subst. rewrite He1. split; [by intros (? & [= <-] & ?)|by intros (? & ? & ?)].
  - intros i cp Hi Hn. change (entry s3 i = Some cp). rewrite Hent, decide_False by congruence.
    by rewrite (evicted_kept s s1 i Hnd Hev Hn).
  - right. exists new. split; [done|]. by rewrite <-(ev_cache _ _ Hev).
  - simpl. by rewrite Hpg.
Qed.

(** Fetching a page gives what the client sees under the id. *)
Lemma pool_get_ok pend s D id page :
  StoreInv pend s D -> usable D id -> view s D id = Some page -> tree_page page -> can_get pend s ->
  exists s' l, pool_get id s = (s', Ok l) /\ StoreInv pend s' D /\ Got s s' D id l page.
Proof.
  intros Hinv Hu Hv Ht Hc. unfold view in Hv. destruct (entry s id) as [cp|] eqn:He.
  - destruct (pool_get_hit pend s D id cp page) as (s' & E & ?); eauto.
  - by apply (pool_get_miss pend s D id page).
Qed.

(** ** Marking dirty *)

(** The state with the dirty bit of an entry set to [d]. *)
Definition redirtied (id : Z) (d : bool) (s : Store) : Store :=
  set_cache (cache_set_dirty id d (cache_of s)) s.

Lemma redirtied_entry id d s i : entry (redirtied id d s) i =
  if decide (i = id) then (fun cp => {| cp_page := cp_page cp; cp_is_dirty := d |}) <$> entry s i
  else entry s i.
Proof. apply cache_find_set_dirty. Qed.

Lemma redirtied_holds id d s i k : holds (redirtied id d s) i k <-> holds s i k.
Proof.
  unfold holds. rewrite redirtied_entry. case_decide; [subst|done].
  split; [intros (a & (cp & -> & ->)%fmap_Some & Hk); by exists cp|].
  intros (cp & -> & Hk). eexists. split; [done|done].
Qed.

(** Setting the bit is always allowed, clearing it when the file holds the page. *)
Lemma redirtied_inv pend id d s D : StoreInv pend s D ->
  (d = false -> forall cp, entry s id = Some cp -> object s (cp_page cp) = on_disk D id) ->
  StoreInv (pend ∖ {[id]}) (redirtied id d s) D.
Proof.
  intros Hinv Hd.
  assert (forall i a, entry (redirtied id d s) i = Some a ->
    exists a', entry s i = Some a' /\ cp_page a' = cp_page a) as Hent.
  { intros i a. rewrite redirtied_entry. case_decide; [|eauto]. intros (c & Hc & ->)%fmap_Some. eauto. }
  destruct Hinv. split; try done.
  - change (NoDup (cache_set_dirty id d (cache_of s)).*1). by rewrite set_dirty_keys.
  - intros i j a b (a' & Ha & Ea)%Hent (b' & Hb & Eb)%Hent Hab. apply (si_inj i j a' b'); congruence.
  - intros i a (a' & Ha & <-)%Hent. by apply (si_object i).
  - intros i a (a' & Ha & _)%Hent. by apply (si_usable i a').
  - intros i a. rewrite redirtied_entry. case_decide as Hi.
    + intros (c & Hc & ->)%fmap_Some Hdd Hn. simpl in *. subst. by apply Hd.
    + intros Ha Hc Hn. apply (si_clean i a Ha Hc). set_solver.
Qed.

Record Marked (s s' : Store) (D : Disk) (id : Z) (l : loc) (page : Page) : Prop := {
  mk_view : forall i, view s' D i = upd (view s D) id page i;
  mk_holds : forall i k, holds s' i k <-> holds s i k;
  mk_is_dirty : forall i, is_dirty s' i <-> i = id \/ is_dirty s i;
  mk_object : object s' l = Some page;
  mk_objects : forall x, x <> l -> object s' x = object s x;
  mk_config : same_pool_config s s';
  mk_pager : st_pager s' = st_pager s;
  mk_cache : cache_of s' = cache_set_dirty id true (cache_of s);
  mk_dirty : dirty_count s' <= dirty_count s + 1;
}.

Lemma mark_dirty_ok pend s D id l p lsn :
  StoreInv pend s D -> holds s id l -> object s l = Some p ->
  exists s', mark_dirty id lsn s = (s', Ok tt) /\ StoreInv (pend ∖ {[id]}) s' D /\
    Marked s s' D id l (set_page_lsn (Z.max (page_lsn p) lsn) p).
Proof.
  intros Hinv (cp & He & Hl) Ho. unfold mark_dirty. rewrite (bind_Ok get_state _ s s s eq_refl).
  fold (entry s id). rewrite He. set (s1 := redirtied id true s).
  rewrite (bind_Ok (modify (set_cache (cache_set_dirty id true (cache_of s)))) _ s s1 tt eq_refl).
  assert (object s1 (cp_page cp) = Some p) as Ho1 by (rewrite Hl; exact Ho).
  rewrite (bind_Ok _ _ _ _ _ (deref_run _ _ _ Ho1)).
  set (q := set_page_lsn (Z.max (page_lsn p) lsn) p).
  assert (forall i, is_dirty s1 i <-> i = id \/ is_dirty s i) as Hdirty.
  { intros i. unfold is_dirty, s1. rewrite redirtied_entry. case_decide; [subst|split; [by right|by intros [?|?]]].
    split; [by left|]. intros _. rewrite He. by eexists. }
  pose proof (redirtied_inv pend id true s D Hinv ltac:(done)) as Hinv1.
  fold s1 in Hinv1.
  assert (tree_page q) as Hq.
  { destruct (si_object _ _ _ Hinv _ _ He) as (p' & Hp' & Ht). rewrite Hl, Ho in Hp'.
    injection Hp' as <-. by destruct p. }
  assert (holds s1 id l) as Hh1 by (apply redirtied_holds; by exists cp).
  destruct (assign_inv _ s1 D id l q Hinv1 Hh1 Hq) as (_ & Hinv2 & Hview).
  exists (assigned l q s1). rewrite Hl. split; [done|].
  split; [apply Hinv2, Hdirty; by left|]. split; try done.
  - intros i. rewrite Hview. unfold upd. case_decide; [done|]. unfold view, s1. rewrite redirtied_entry.
    by rewrite decide_False.
  - apply redirtied_holds.
  - by rewrite object_assigned, decide_True.
  - intros x Hx. by rewrite object_assigned, decide_False.
  - by apply (dirty_count_mark id cp s _ (si_nodup _ _ _ Hinv)).
Qed.

(** ** Inserting a new page *)

Record Inserted (s s' : Store) (D : Disk) (id : Z) (l : loc) (page : Page) : Prop := {
  ins_view : forall i, view s' D i = upd (view s D) id page i;
  ins_holds : holds s' id l;
  ins_object : object s' l = Some page;
  ins_objects : forall x, x <> l -> object s' x = object s x;
  ins_dirty : dirty_count s' = dirty_count s + 1;
  ins_config : same_pool_config s s';
  ins_is_dirty : forall i, is_dirty s' i <-> i = id \/ is_dirty s i;
  ins_kept : forall i cp, entry s i = Some cp -> (forall e, victim s = Some e -> e.1 <> i) ->
    entry s' i = Some cp;
  ins_cache : exists cp, cache_of s' = evict_cache s ++ [(id, cp)];
  ins_pager : st_pager s' = st_pager s;
}.

Lemma pool_insert_ok pend s D id l p lsn :
  StoreInv pend s D -> usable D id -> entry s id = None -> object s l = Some p -> tree_page p ->
  (forall i, ~ holds s i l) -> can_get pend s ->
  exists s', pool_insert id l lsn s = (s', Ok tt) /\ StoreInv pend s' D /\
    Inserted s s' D id l (set_page_lsn lsn p).
Proof.
  intros Hinv Hu He Ho Ht Hfree Hcan. pose proof (si_nodup _ _ _ Hinv) as Hnd.
  destruct (can_get_evict pend s D Hinv Hcan) as (s1 & E1 & Hev & Hinv1 & Hview1).
  destruct (ev_same _ _ Hev) as (Hpg & Hh & Hcfg).
  assert (entry s1 id = None) as He1 by (destruct (evicted_entry s s1 id Hnd Hev) as [->|[-> _]]; done).
  assert (forall x, object s1 x = object s x) as Hobj1 by (intros; unfold object; by rewrite Hh).
  assert (forall i, ~ holds s1 i l) as Hfree1.
  { intros i (cp & Hi & Hl). apply (Hfree i). exists cp. split; [|done].
    destruct (evicted_entry s s1 i Hnd Hev) as [<-|[? _]]; congruence. }
  unfold pool_insert. rewrite (bind_Ok get_state _ s s s eq_refl). fold (entry s id).
  rewrite bool_decide_eq_true_2 by done. cbn [py_assert].
  rewrite (bind_Ok (mret tt) _ s s tt eq_refl), (bind_Ok _ _ _ _ _ E1).
  rewrite (bind_Ok _ _ _ _ _ (deref_run s1 l p ltac:(by rewrite Hobj1))).
  set (q := set_page_lsn lsn p). set (s2 := assigned l q s1).
  rewrite (bind_Ok (assign l q) _ s1 s2 tt eq_refl).
  destruct (assign_free_inv pend s1 D l q Hinv1) as [Hinv2 Hview2]; [by rewrite Hobj1, Ho|done|].
  set (new := {| cp_page := l; cp_is_dirty := true |}).
  assert (object s2 l = Some q) as Hobj2 by (unfold s2; by rewrite object_assigned, decide_True).
  destruct (appended_inv pend id new q s2 D) as [Hinv3 Hview3]; try done; [by destruct p|].
  set (s3 := appended id new s2) in *.
  assert (forall i, entry s3 i = if decide (i = id) then Some new else entry s1 i) as Hent
    by (intros i; by apply (appended_entry id new s2)).
  exists s3. split; [done|]. split; [done|]. split; try done.
  - intros i. rewrite Hview3. unfold upd. case_decide; [done|]. rewrite <-Hview1. apply Hview2.
  - exists new. by rewrite Hent, decide_True.
  - intros x Hx. rewrite <-Hobj1. change (object s2 x = object s1 x). unfold s2.
    by rewrite object_assigned, decide_False.
  - rewrite <-(evicted_dirty s s1 Hnd Hev). apply (dirty_count_cons s1 s3 (id, new)).
    symmetry. apply Permutation_cons_append.
  - intros i. rewrite <-(evicted_is_dirty s s1 i Hnd Hev). unfold is_dirty. rewrite Hent.
    case_decide; [subst; split; [by left|intros _; by exists new]|].
    split; [by right|by intros [?|?]].
  - intros i cp Hi Hn. rewrite Hent, decide_False by congruence.
    by rewrite (evicted_kept s s1 i Hnd Hev Hn).
  - exists new. by rewrite <-(ev_cache _ _ Hev).
Qed.

(** ** Dropping entries *)

Lemma pool_delete_ok pend s D id : StoreInv pend s D ->
  exists s', pool_delete id s = (s', Ok tt) /\ StoreInv (pend ∖ {[id]}) s' D /\ entry s' id = None /\
    (forall i, i <> id -> entry s' i = entry s i) /\
    (forall i, i <> id -> view s' D i = view s D i) /\ st_heap s' = st_heap s /\
    st_pager s' = st_pager s /\ same_pool_config s s' /\ cache_of s' = cache_remove id (cache_of s) /\
    dirty_count s' <= dirty_count s.
Proof.
  intros Hinv. eexists. split; [reflexivity|]. set (s' := set_cache _ s).
  assert (forall i, entry s' i = if decide (i = id) then None else entry s i) as Hent
    by (intros; apply cache_find_remove).
  split.
  { destruct Hinv. split; try done.
    - by apply NoDup_remove_keys.
    - intros i j a b. rewrite !Hent. repeat case_decide; try done. apply si_inj.
    - intros i a. rewrite Hent. case_decide; [done|]. apply si_object.
    - intros i a. rewrite Hent. case_decide; [done|]. apply si_usable.
    - intros i a. rewrite Hent. case_decide; [done|]. intros Ha Hc Hp.
      apply (si_clean _ _ Ha Hc). set_solver. }
  split; [by rewrite Hent, decide_True|]. split; [intros i Hi; by rewrite Hent, decide_False|].
  split; [intros i Hi; unfold view; rewrite Hent, decide_False by done; done|].
  split; [done|]. split; [done|]. split; [done|].
  assert (forall (P : Z * CachedPage -> Prop) `{forall x, Decision (P x)} c,
    length (filter P (cache_remove id c)) <= length (filter P c))%nat as Hfl.
  { intros P HP c. unfold cache_remove.
    induction c as [|e c IH]; [done|]. rewrite !filter_cons. repeat case_decide; simpl; rewrite ?filter_cons;
      repeat case_decide; simpl; try done; lia. }
  split.
  - done.
  - unfold dirty_count, dirty_entries, len. change (cache_of s') with (cache_remove id (cache_of s)).
    specialize (Hfl (fun e => cp_is_dirty e.2 = true) _ (cache_of s)). lia.
Qed.

(** ** The pager under the pool *)

Lemma si_disk pend s D p' D' : StoreInv pend s D -> PagerOk p' D' ->
  (forall i cp, entry s i = Some cp -> usable D' i /\ on_disk D' i = on_disk D i) ->
  StoreInv pend (set_pager p' s) D'.
Proof.
  intros [] Hp He. split; try done.
  - intros i cp Hi. by apply (He i cp).
  - intros i cp Hi Hc Hn. destruct (He i cp Hi) as [_ ->]. by apply (si_clean i cp).
Qed.

(** The pages in use in [D], but for those in [except], keep their contents
    and stay in use. *)
Record Preserved (s s' : Store) (D D' : Disk) (except : Z -> Prop) : Prop := {
  pre_usable : forall i, usable D i -> ~ except i -> usable D' i;
  pre_view : forall i, usable D i -> ~ except i -> view s' D' i = view s D i;
  pre_pool : st_pool s' = st_pool s;
  pre_heap : st_heap s' = st_heap s;
  pre_ps : dk_ps D' = dk_ps D;
  pre_root : root_page_id (dk_meta D') = root_page_id (dk_meta D);
  pre_next : next_page_id (dk_meta D) <= next_page_id (dk_meta D') <= next_page_id (dk_meta D) + 1;
}.

Lemma view_preserved s p' D D' i : on_disk D' i = on_disk D i -> view (set_pager p' s) D' i = view s D i.
Proof. intros Hd. unfold view. change (entry (set_pager p' s) i) with (entry s i). by destruct (entry s i). Qed.

Lemma store_allocate pend s D : StoreInv pend s D -> next_page_id (dk_meta D) < 2 ^ 64 ->
  exists s' D' id, on_pager allocate_page s = (s', Ok id) /\ StoreInv pend s' D' /\
    ~ usable D id /\ (forall i, usable D' i <-> usable D i \/ i = id) /\ entry s' id = None /\
    Preserved s s' D D' (fun _ => False).
Proof.
  intros Hinv Hn. pose proof (si_pager _ _ _ Hinv) as Hp. unfold PagerOk in Hp.
  pose proof (inv_next _ _ _ _ _ Hp) as Hnext.
  destruct (allocate_page_ok _ _ _ _ _ Hp Hn) as (p' & f' & m' & hs' & fr' & id & E & Hp' & [Hid Hroot Hsz Hpg]).
  set (D' := {| dk_file := f'; dk_meta := m'; dk_heads := hs'; dk_freed := fr' |}).
  assert (dk_ps D' = dk_ps D) as Hps.
  { unfold dk_ps. simpl. rewrite (inv_size _ _ _ _ _ Hp'), Hsz. symmetry. apply (inv_size _ _ _ _ _ Hp). }
  assert (forall i, usable D i -> usable D' i /\ on_disk D' i = on_disk D i) as Hu.
  { intros i [Hi Hf]. split.
    - split; simpl; [destruct Hid as [(_ & -> & _)|(_ & _ & _ & ->)]; lia|].
      unfold dk_free in *. simpl. destruct Hid as [(Hperm & _)|(_ & Hnil & _)].
      + intros Hin. apply Hf. rewrite <-Hperm. by right.
      + rewrite Hnil. apply not_elem_of_nil.
    - unfold on_disk, disk_page. rewrite Hps. simpl. unfold dk_ps.
      rewrite (inv_size _ _ _ _ _ Hp), Hpg by lia. done. }
  assert (~ usable D id) as Hnu.
  { intros [Hi Hf]. destruct Hid as [(Hperm & _)|(_ & _ & -> & _)]; [|lia].
    apply Hf. unfold dk_free. rewrite <-Hperm. by left. }
  exists (set_pager p' s), D', id. split; [by apply on_pager_run|]. split.
  { apply (si_disk _ _ D); [done|done|]. intros i cp Hi. by apply Hu, (si_usable _ _ _ Hinv i cp). }
  split; [done|]. split.
  { intros i. split; [|intros [Hi| ->]; [by apply Hu|]].
    - destruct (decide (i = id)) as [->|Hne]; [by right|left].
      unfold usable, dk_free in *. simpl in *. destruct Hid as [(Hperm & Hnx & _)|(Hperm & Hnil & Hx & Hnx)].
      + rewrite Hnx in *. split; [tauto|]. rewrite <-Hperm, elem_of_cons. tauto.
      + rewrite Hnx in *. rewrite Hperm. split; [lia|apply not_elem_of_nil].
    - pose proof (inv_nodup _ _ _ _ _ Hp) as Hnd. pose proof (inv_range _ _ _ _ _ Hp) as Hr.
      unfold usable, dk_free. simpl. destruct Hid as [(Hperm & -> & _)|(_ & Hnil & -> & ->)].
      + rewrite <-Hperm in Hnd, Hr. apply NoDup_cons in Hnd as [Hnin _].
        by apply Forall_cons in Hr as [Hr _].
      + rewrite Hnil. split; [lia|apply not_elem_of_nil]. }
  split.
  { change (entry s id = None). destruct (entry s id) eqn:Ee; [|done].
    destruct Hnu. by eapply (si_usable _ _ _ Hinv). }
  split; try done.
  - intros i Hi _. by apply Hu.
  - intros i Hi _. apply view_preserved. by apply Hu.
  - simpl. destruct Hid as [(_ & -> & _)|(_ & _ & _ & ->)]; lia.
Qed.

Lemma store_free pend s D id : StoreInv pend s D -> next_page_id (dk_meta D) < 2 ^ 64 ->
  usable D id -> entry s id = None ->
  exists s' D', on_pager (free_page id) s = (s', Ok tt) /\ StoreInv pend s' D' /\
    (forall i, usable D' i <-> usable D i /\ i <> id) /\
    Preserved s s' D D' (fun i => i = id).
Proof.
  intros Hinv Hn [Hid Hfree] He. pose proof (si_pager _ _ _ Hinv) as Hp. unfold PagerOk in Hp.
  destruct (free_page_ok _ _ _ _ _ id Hp Hn Hid Hfree)
    as (p' & f' & m' & hs' & fr' & E & Hp' & [Hf Hroot Hsz Hpg _]).
  set (D' := {| dk_file := f'; dk_meta := m'; dk_heads := hs'; dk_freed := fr' |}).
  assert (dk_ps D' = dk_ps D) as Hps.
  { unfold dk_ps. simpl. rewrite (inv_size _ _ _ _ _ Hp'), Hsz. symmetry. apply (inv_size _ _ _ _ _ Hp). }
  assert (forall i, usable D i -> i <> id -> usable D' i /\ on_disk D' i = on_disk D i) as Hu.
  { intros i [Hi Hfi] Hne. split.
    - split; simpl; [destruct Hf as [(_ & ->)|(_ & ->)]; lia|].
      unfold dk_free in *. simpl. destruct Hf as [(-> & _)|(-> & _)]; rewrite !elem_of_cons.
      + tauto.
      + intros [?|[->|?]]; [done|lia|done].
    - unfold on_disk, disk_page. rewrite Hps. simpl. unfold dk_ps.
      rewrite (inv_size _ _ _ _ _ Hp), Hpg by lia. done. }
  exists (set_pager p' s), D'. split; [by apply on_pager_run|]. split.
  { apply (si_disk _ _ D); [done|done|]. intros i cp Hi. apply Hu; [by apply (si_usable _ _ _ Hinv i cp)|].
    intros ->. congruence. }
  split.
  { intros i. split; [|intros [? ?]; by apply Hu]. unfold usable, dk_free in *. simpl.
    destruct Hf as [(-> & ->)|(-> & ->)]; rewrite !elem_of_cons; intros [Hr Hn']; simpl.
    - split; [split|]; tauto.
    - assert (i <> next_page_id (dk_meta D)) by tauto. split; [split|]; [lia|tauto|tauto]. }
  split; try done.
  - intros i Hi Hne. by apply Hu.
  - intros i Hi Hne. apply view_preserved. by apply Hu.
  - simpl. destruct Hf as [(_ & ->)|(_ & ->)]; lia.
Qed.

(** Moving the root. *)
Definition with_disk_root (r : Z) (D : Disk) : Disk :=
  {| dk_file := dk_file D; dk_meta := with_root r (dk_meta D); dk_heads := dk_heads D;
     dk_freed := dk_freed D |}.

Lemma store_set_root pend s D r : StoreInv pend s D ->
  exists s', on_pager (update_meta (with_root r)) s = (s', Ok tt) /\
    StoreInv pend s' (with_disk_root r D) /\ (forall i, view s' (with_disk_root r D) i = view s D i) /\
    st_pool s' = st_pool s /\ st_heap s' = st_heap s.
Proof.
  intros Hinv. pose proof (si_pager _ _ _ Hinv) as Hp. unfold PagerOk in Hp.
  exists (set_pager (set_meta (with_root r (dk_meta D)) true (st_pager s)) s). split.
  { apply on_pager_run. unfold update_meta. by rewrite (bind_Ok _ _ _ _ _ (meta_page_run _ _ _ _ _ Hp)). }
  split; [|split; [|done]].
  - apply (si_disk _ _ D); [done| |].
    + unfold PagerOk. simpl. destruct Hp. by split.
    + intros i cp Hi. split; [by apply (si_usable _ _ _ Hinv i cp)|done].
  - intros i. by apply view_preserved.
Qed.

Lemma store_meta {A} pend s D : StoreInv pend s D -> forall (f : MetaPage -> A),
  on_pager (m ← get_meta; mret (f m)) s = (s, Ok (f (dk_meta D))).
Proof.
  intros Hinv f. rewrite (on_pager_run _ s (st_pager s) (Ok (f (dk_meta D)))); [by destruct s|].
  unfold get_meta. by rewrite (bind_Ok _ _ _ _ _ (meta_page_run _ _ _ _ _ (si_pager _ _ _ Hinv))).
Qed.

(** ** Flushing *)

Definition written_disk (D : Disk) (id : Z) (data : bytes) : Disk :=
  {| dk_file := write_at (dk_file D) (id * dk_ps D) data; dk_meta := dk_meta D;
     dk_heads := dk_heads D; dk_freed := dk_freed D |}.

Lemma usable_written D id data i : usable (written_disk D id data) i <-> usable D i.
Proof. done. Qed.

Lemma on_disk_written pend s D id data i : StoreInv pend s D -> len data = dk_ps D ->
  usable D id -> usable D i ->
  on_disk (written_disk D id data) i =
    if decide (i = id) then match decode_page data with Ok p => Some p | Raise _ => None end
    else on_disk D i.
Proof.
  intros Hinv Hl [Hid _] [Hi _]. pose proof (si_pager _ _ _ Hinv) as Hp.
  unfold on_disk, disk_page. change (dk_ps (written_disk D id data)) with (dk_ps D). simpl.
  case_decide as E.
  - subst. by rewrite page_at_write_same.
  - rewrite page_at_write_other; [done|done|lia|lia|congruence|].
    rewrite <-(si_ps _ _ _ Hinv). apply (page_in_file _ _ _ _ _ Hp). simpl in *. lia.
Qed.

(** The state of [flush_all] after a part of the entries. *)
Record Flushing (s0 : Store) (D0 : Disk) (s : Store) (D : Disk) (visited : list Z) : Prop := {
  fl_inv : StoreInv ∅ s D;
  fl_view : forall i, usable D0 i -> view s D i = view s0 D0 i;
  fl_entries : forall i cp, entry s0 i = Some cp -> exists cp', entry s i = Some cp' /\
    cp_page cp' = cp_page cp /\ (cp_is_dirty cp' = true -> cp_is_dirty cp = true /\ i ∉ visited);
  fl_keys : forall i cp, entry s i = Some cp -> is_Some (entry s0 i);
  fl_heap : st_heap s = st_heap s0;
  fl_config : same_pool_config s0 s;
  fl_disk : dk_meta D = dk_meta D0 /\ dk_heads D = dk_heads D0 /\ dk_freed D = dk_freed D0;
  fl_pager : pg_is_meta_dirty (st_pager s) = pg_is_meta_dirty (st_pager s0) /\
    pg_dirty_freelist_page_ids (st_pager s) = pg_dirty_freelist_page_ids (st_pager s0) /\
    pg_freelist_cache (st_pager s) = pg_freelist_cache (st_pager s0);
  fl_meta_page : page_at (dk_file D) (dk_ps D0) META_PAGE_ID = page_at (dk_file D0) (dk_ps D0) META_PAGE_ID;
}.

Lemma flushing_usable s0 D0 s D v i : Flushing s0 D0 s D v -> usable D i <-> usable D0 i.
Proof. intros H. destruct (fl_disk _ _ _ _ _ H) as (E1 & E2 & E3). unfold usable, dk_free. by rewrite E1, E2, E3. Qed.

Lemma flush_entry_ok s0 D0 s D v id cp p :
  Flushing s0 D0 s D v -> entry s0 id = Some cp -> id ∉ v ->
  object s0 (cp_page cp) = Some p -> (cp_is_dirty cp = true -> page_encodable (dk_ps D0) p) ->
  exists s' D', flush_entry (id, cp) s = (s', Ok tt) /\ Flushing s0 D0 s' D' (v ++ [id]).
Proof.
  intros Hf He Hv Ho Henc. unfold flush_entry. simpl.
  destruct (cp_is_dirty cp) eqn:Hd.
  2:{ exists s, D. split; [done|]. destruct Hf. split; try done. intros i c Hi.
      destruct (fl_entries0 i c Hi) as (c' & Hc' & Hp' & Hdir). exists c'. split; [done|]. split; [done|].
      intros Hdd. destruct (Hdir Hdd) as [Hcd Hnv]. split; [done|].
      intros [?| ->%list_elem_of_singleton]%elem_of_app; [done|]. congruence. }
  pose proof (fl_inv _ _ _ _ _ Hf) as Hinv. destruct (fl_disk _ _ _ _ _ Hf) as (Em & Eh & Ef).
  assert (dk_ps D = dk_ps D0) as Eps by (unfold dk_ps; by rewrite Em).
  destruct (page_round_trip p (dk_ps D)) as (b & Eb & Lb & Db); [rewrite Eps; auto|].
  destruct (fl_entries _ _ _ _ _ Hf id cp He) as (cp' & He' & Hp' & _).
  assert (usable D id) as Hu by (by eapply (si_usable _ _ _ Hinv)).
  assert (object s (cp_page cp) = Some p) as Hos by (unfold object; by rewrite (fl_heap _ _ _ _ _ Hf)).
  rewrite (bind_Ok _ _ _ _ _ (deref_run _ _ _ Hos)).
  rewrite (bind_Ok get_state _ s s s eq_refl), (si_ps _ _ _ Hinv), Eb.
  rewrite (bind_Ok (lift _) _ s s b eq_refl).
  set (D' := written_disk D id b). set (p' := written (st_pager s) (dk_file D) id b).
  assert (PagerOk p' D') as Hpok.
  { unfold PagerOk, D', p', written_disk. simpl. rewrite <-(si_ps _ _ _ Hinv).
    apply inv_write; [apply (si_pager _ _ _ Hinv)|by rewrite (si_ps _ _ _ Hinv)|apply Hu|].
    left. intros Hin. apply Hu. by apply elem_of_app; left. }
  rewrite (bind_Ok _ _ s (set_pager p' s) tt
             (on_pager_run _ _ _ _ (write_page_run _ _ _ _ _ id b (si_pager _ _ _ Hinv)))).
  assert (forall i, usable D i -> on_disk D' i = if decide (i = id) then Some p else on_disk D i) as Hod.
  { intros i Hi. unfold D'. rewrite (on_disk_written _ _ _ _ _ _ Hinv Lb Hu Hi). by rewrite Db. }
  assert (StoreInv {[id]} (set_pager p' s) D') as Hinv0.
  { pose proof Hinv as []. split; try done. intros i c Hi Hc Hn. rewrite Hod by (by apply (si_usable i c)).
    rewrite decide_False by set_solver. apply (si_clean i c Hi Hc). apply not_elem_of_empty. }
  set (s1 := redirtied id false (set_pager p' s)).
  exists (set_pool_stats (add_dirty_flushed (bp_stats (st_pool s1))) s1), D'. split; [reflexivity|].
  assert (forall i, entry s1 i = if decide (i = id)
            then (fun cp => {| cp_page := cp_page cp; cp_is_dirty := false |}) <$> entry s i
            else entry s i) as Hent
    by (intros i; apply (redirtied_entry id false (set_pager p' s) i)).
  assert (StoreInv ∅ s1 D') as Hinv1.
  { apply (si_mono ({[id]} ∖ {[id]})); [set_solver|]. apply redirtied_inv; [done|].
    intros _ c Hc. rewrite Hod, decide_True by done.
    change (entry s id = Some c) in Hc. assert (c = cp') as -> by congruence.
    change (object s (cp_page cp') = Some p). by rewrite Hp'. }
  pose proof (si_stats _ _ _ (add_dirty_flushed (bp_stats (st_pool s1))) Hinv1) as Hinv2.
  destruct Hf. split; try done.
  - intros i Hi. rewrite <-fl_view0 by done. change (view s1 D' i = view s D i).
    unfold view. rewrite Hent. destruct (decide (i = id)) as [->|Hne].
    + by rewrite He'.
    + destruct (entry s i); [done|]. rewrite Hod; [by rewrite decide_False|].
      unfold usable, dk_free in *. by rewrite Em, Eh, Ef.
  - intros i c Hi. destruct (fl_entries0 i c Hi) as (c' & Hc' & Hpc & Hdir).
    change (exists cp'0, entry s1 i = Some cp'0 /\ cp_page cp'0 = cp_page c /\
      (cp_is_dirty cp'0 = true -> cp_is_dirty c = true /\ i ∉ v ++ [id])).
    rewrite Hent. destruct (decide (i = id)) as [->|Hne].
    + rewrite Hc'. simpl. eexists. split; [done|]. done.
    + exists c'. split; [done|]. split; [done|]. intros Hdd. destruct (Hdir Hdd) as [? Hnv]. split; [done|].
      by intros [?|?%list_elem_of_singleton]%elem_of_app.
  - intros i c. change (entry s1 i = Some c -> is_Some (entry s0 i)). rewrite Hent. case_decide; [|eauto].
    intros (c0 & Hc0 & _)%fmap_Some. eauto.
  - rewrite <-fl_meta_page0, <-Eps. pose proof (si_pager _ _ _ Hinv) as Hpg. destruct Hu as [Hid _].
    apply page_at_write_other; [done|lia|done|unfold META_PAGE_ID; lia|].
    rewrite <-(si_ps _ _ _ Hinv). apply (page_in_file _ _ _ _ _ Hpg). unfold META_PAGE_ID. lia.
Qed.

(** [flush_all] makes every page in use durable-ready: the file holds what the
    clients see, no entry is dirty, and the view is the same. *)
Lemma flush_all_ok s D : StoreInv ∅ s D ->
  (forall i cp p, entry s i = Some cp -> cp_is_dirty cp = true -> object s (cp_page cp) = Some p ->
     page_encodable (dk_ps D) p) ->
  exists s' D', flush_all s = (s', Ok tt) /\ StoreInv ∅ s' D' /\
    (forall i, ~ is_dirty s' i) /\
    (forall i, usable D i -> view s' D' i = view s D i /\ on_disk D' i = view s D i) /\
    dk_meta D' = dk_meta D /\ dk_heads D' = dk_heads D /\ dk_freed D' = dk_freed D /\
    same_pool_config s s' /\ st_heap s' = st_heap s /\
    pg_is_meta_dirty (st_pager s') = pg_is_meta_dirty (st_pager s) /\
    pg_dirty_freelist_page_ids (st_pager s') = pg_dirty_freelist_page_ids (st_pager s) /\
    page_at (dk_file D') (dk_ps D) META_PAGE_ID = page_at (dk_file D) (dk_ps D) META_PAGE_ID.
Proof.
  intros Hinv Henc. unfold flush_all.
  set (s0 := set_pool_stats (add_flush (bp_stats (st_pool s))) s).
  rewrite (bind_Ok (count_stat add_flush) _ s s0 tt eq_refl), (bind_Ok get_state _ s0 s0 s0 eq_refl).
  change (cache_of s0) with (cache_of s).
  destruct (mfor_ind (fun pre s' => exists D', Flushing s D s' D' pre.*1) (cache_of s) flush_entry s0)
    as (s' & E & D' & Hf).
  - intros pre [id cp] post s1 Hl (D1 & Hf). pose proof (si_nodup _ _ _ Hinv) as Hnd.
    assert (entry s id = Some cp) as He.
    { apply cache_find_nodup; [done|]. rewrite Hl. apply elem_of_app. right. by left. }
    destruct (si_object _ _ _ Hinv _ _ He) as (p & Ho & _).
    destruct (flush_entry_ok s D s1 D1 pre.*1 id cp p Hf He) as (s2 & D2 & E2 & Hf2); [|done|eauto|].
    + rewrite Hl, fmap_app in Hnd. apply NoDup_app in Hnd as (_ & Hnd & _).
      intros Hin. apply (Hnd id Hin). by left.
    + exists s2. split; [done|]. exists D2. by rewrite fmap_app.
  - exists D. split; try done; [by apply si_stats|].
    intros i cp Hi. exists cp. split; [done|]. split; [done|]. intros Hd. split; [done|apply not_elem_of_nil].
  - exists s', D'. split; [done|]. pose proof Hf as [Hinv' Hview Hent Hkeys Hh Hc (Em & Eh & Ef) (Hm & Hdf & _) Hmp].
    split; [done|].
    assert (forall i cp, entry s' i = Some cp -> cp_is_dirty cp = false) as Hclean.
    { intros i cp Hi. destruct (Hkeys _ _ Hi) as [c0 Hc0].
      destruct (Hent _ _ Hc0) as (c & Hci & _ & Hd). assert (c = cp) as -> by congruence.
      destruct (cp_is_dirty cp); [|done]. destruct (Hd eq_refl) as [_ Hn]. destruct Hn.
      apply list_elem_of_fmap. exists (i, c0). split; [done|]. by apply cache_find_Some. }
    split; [intros i (cp & Hi & Hd); rewrite (Hclean _ _ Hi) in Hd; done|].
    split; [|done]. intros i Hi. split; [by apply Hview|]. rewrite <-Hview by done. unfold view.
    destruct (entry s' i) as [cp|] eqn:He; [|done]. symmetry.
    apply (si_clean _ _ _ Hinv' i cp He (Hclean _ _ He)). apply not_elem_of_empty.
Qed.
