(* ===== verification/CacheTheorems.v ===== *)
(** * Properties of the buffer pool

    Fetching is transparent, dirty pages are neither written nor dropped before
    a flush, the capacity bounds the pool, and a flush makes the file hold what
    the clients see. *)

From S2P Require Import Prelude Bytes Entities Codec Fs Pager Cache CodecFacts PageCodecFacts.
From S2P Require Import CodecTheorems PagerFacts PagerTheorems CacheFacts CacheOps.

(** ** Sequences of pool operations

    The operations of the pool other than [flush_all], and the in-place changes
    its clients make to the pages they hold.  An operation that raises leaves
    the state as it stands at that point. *)

Inductive PoolOp :=
  | OpGet (id : Z)
  | OpInsert (id : Z) (page : Page) (lsn : Z)
  | OpMarkDirty (id lsn : Z)
  | OpDelete (id : Z)
  | OpAssign (l : loc) (page : Page).

Definition run_op (s : Store) (op : PoolOp) : Store :=
  match op with
  | OpGet id => (pool_get id s).1
  | OpInsert id page lsn => ((l ← new_object page; pool_insert id l lsn) s).1
  | OpMarkDirty id lsn => (mark_dirty id lsn s).1
  | OpDelete id => (pool_delete id s).1
  | OpAssign l page => (assign l page s).1
  end.

Definition run_ops (ops : list PoolOp) (s : Store) : Store := foldl run_op s ops.

Definition deleted (op : PoolOp) (id : Z) : Prop :=
  match op with OpDelete i => i = id | _ => False end.

(** The dirty ids, in the order of the pool. *)
Definition dirty_ids (s : Store) : list Z := (dirty_entries (cache_of s)).*1.

(** The keys of a dictionary are distinct. *)
Definition distinct_keys (s : Store) : Prop := NoDup (cache_of s).*1.

(** What every operation keeps, but for the entries of the ids in [del]. *)
Record Frame (del : Z -> Prop) (s s' : Store) : Prop := {
  fm_disk : pg_disk (st_pager s') = pg_disk (st_pager s);
  fm_config : same_pool_config s s';
  fm_keys : distinct_keys s -> distinct_keys s';
  fm_length : bp_eviction_enabled (st_pool s) = true -> 1 <= bp_capacity_pages (st_pool s) ->
    len (cache_of s) <= bp_capacity_pages (st_pool s) -> len (cache_of s') <= bp_capacity_pages (st_pool s);
  fm_dirty : distinct_keys s -> forall id, id ∈ dirty_ids s -> ~ del id -> id ∈ dirty_ids s';
}.

Definition nothing (_ : Z) : Prop := False.

Lemma frame_same del s s' : cache_of s' = cache_of s -> same_pool_config s s' ->
  pg_disk (st_pager s') = pg_disk (st_pager s) -> Frame del s s'.
Proof.
  intros Hc Hcfg Hd. split; [done|done|unfold distinct_keys; by rewrite Hc|by rewrite Hc|].
  unfold dirty_ids. by rewrite Hc.
Qed.

Lemma frame_trans del1 del2 s1 s2 s3 :
  Frame del1 s1 s2 -> Frame del2 s2 s3 -> Frame (fun i => del1 i \/ del2 i) s1 s3.
Proof.
  intros [D1 [C1 E1] K1 L1 X1] [D2 [C2 E2] K2 L2 X2]. split.
  - congruence.
  - split; congruence.
  - auto.
  - rewrite C1, E1 in L2. auto.
  - intros Hk id Hid Hn. apply X2; [auto| |tauto]. apply X1; [done|done|tauto].
Qed.

Lemma frame_weaken del1 del2 s s' : (forall i, del1 i -> del2 i) -> Frame del1 s s' -> Frame del2 s s'.
Proof. intros H [D C K L X]. split; try done. intros Hk id Hid Hn. apply X; auto. Qed.

Lemma frame_seq del s1 s2 s3 : Frame nothing s1 s2 -> Frame del s2 s3 -> Frame del s1 s3.
Proof. intros H1 H2. eapply frame_weaken; [|by eapply frame_trans]. by intros i []. Qed.

Lemma elem_of_dirty_ids s id :
  id ∈ dirty_ids s <-> exists cp, (id, cp) ∈ cache_of s /\ cp_is_dirty cp = true.
Proof.
  unfold dirty_ids, dirty_entries. rewrite list_elem_of_fmap. split.
  - intros ([i cp] & -> & [Hd Hin]%list_elem_of_filter). eauto.
  - intros (cp & Hin & Hd). exists (id, cp). split; [done|]. by apply list_elem_of_filter.
Qed.

Lemma distinct_entry s id a b : distinct_keys s -> (id, a) ∈ cache_of s -> (id, b) ∈ cache_of s -> a = b.
Proof.
  intros Hk Ha Hb. pose proof (cache_find_nodup _ _ _ Hk Ha).
  pose proof (cache_find_nodup _ _ _ Hk Hb). congruence.
Qed.

(** Removing entries keeps the dirty ones with another id. *)
Lemma frame_remove id s s' : cache_of s' = cache_remove id (cache_of s) -> same_pool_config s s' ->
  pg_disk (st_pager s') = pg_disk (st_pager s) -> Frame (fun i => i = id) s s'.
Proof.
  intros Hc Hcfg Hd. split; [done|done| | |].
  - unfold distinct_keys. rewrite Hc. apply NoDup_remove_keys.
  - intros _ _ Hl. rewrite Hc. unfold len, cache_remove in *.
    pose proof (length_filter (fun e : Z * CachedPage => e.1 <> id) (cache_of s)). lia.
  - intros _ j (cp & Hj & Hdirty)%elem_of_dirty_ids Hne. apply elem_of_dirty_ids. exists cp.
    split; [|done]. rewrite Hc. by apply cache_remove_sub.
Qed.

(** After a successful eviction there is room for one more entry. *)
Definition has_room (s : Store) (n : Z) : Prop :=
  bp_eviction_enabled (st_pool s) = true -> 1 <= bp_capacity_pages (st_pool s) ->
  n <= bp_capacity_pages (st_pool s) -> len (cache_of s) + 1 <= bp_capacity_pages (st_pool s).

Lemma evict_frame s : Frame nothing s (evict_oldest_clean_page_if_full s).1 /\
  st_pager (evict_oldest_clean_page_if_full s).1 = st_pager s /\
  (forall id cp, (id, cp) ∈ cache_of (evict_oldest_clean_page_if_full s).1 -> (id, cp) ∈ cache_of s) /\
  ((evict_oldest_clean_page_if_full s).2 = Ok tt ->
     has_room (evict_oldest_clean_page_if_full s).1 (len (cache_of s))).
Proof.
  unfold evict_oldest_clean_page_if_full. rewrite (bind_Ok get_state _ s s s eq_refl).
  destruct (bp_eviction_enabled (st_pool s)) eqn:Een; cbn [negb].
  2:{ split; [by apply frame_same|]. split; [done|]. split; [done|]. intros _ He. simpl in He. congruence. }
  destruct (Z.leb_spec (bp_capacity_pages (st_pool s)) (len (cache_of s))).
  2:{ split; [by apply frame_same|]. split; [done|]. split; [done|]. intros _ _ _ _. simpl. lia. }
  destruct (list_find _ (cache_of s)) as [[n [id cp]]|] eqn:Ef; [|split; [by apply frame_same|done]].
  apply list_find_Some in Ef as (Hn & Hc & _). simpl in Hc.
  apply list_elem_of_lookup_2 in Hn as Hin. mrun. set (s' := set_cache _ s).
  split; [|split; [done|split]].
  - destruct (frame_remove id s s') as [D C K L X]; [done..|]. split; try done.
    intros Hk j Hj _. apply X; [done|done|]. intros ->.
    apply elem_of_dirty_ids in Hj as (cj & Hj & Hd).
    assert (cj = cp) as -> by (by eapply distinct_entry). congruence.
  - intros i c Hi. by apply cache_remove_sub in Hi as [_ Hi].
  - intros _ _ _ Hl. change (len (cache_of s) <= bp_capacity_pages (st_pool s)) in Hl.
    change (len (cache_remove id (cache_of s)) + 1 <= bp_capacity_pages (st_pool s)).
    assert (length (cache_remove id (cache_of s)) < length (cache_of s))%nat as Hlt.
    { unfold cache_remove. apply (length_filter_lt _ _ (id, cp) Hin). simpl. tauto. }
    unfold len in *. lia.
Qed.

(** Appending an entry under a new key. *)
Lemma frame_append id cp s s' n : has_room s n ->
  id ∉ (cache_of s).*1 -> cache_of s' = cache_of s ++ [(id, cp)] -> same_pool_config s s' ->
  pg_disk (st_pager s') = pg_disk (st_pager s) ->
  distinct_keys s -> distinct_keys s' /\
    (bp_eviction_enabled (st_pool s) = true -> 1 <= bp_capacity_pages (st_pool s) ->
     n <= bp_capacity_pages (st_pool s) -> len (cache_of s') <= bp_capacity_pages (st_pool s)) /\
    forall i, i ∈ dirty_ids s -> i ∈ dirty_ids s'.
Proof.
  intros Hroom Hid Hc Hcfg Hd Hk. split; [|split].
  - unfold distinct_keys. rewrite Hc, fmap_app. apply NoDup_app. split; [done|].
    split; [|apply NoDup_singleton]. by intros x Hx ->%list_elem_of_singleton.
  - intros He H1 Hn. rewrite Hc. unfold len. rewrite length_app. simpl.
    specialize (Hroom He H1 Hn). unfold len in Hroom. lia.
  - intros i (c & Hi & Hdc)%elem_of_dirty_ids. apply elem_of_dirty_ids. exists c. split; [|done].
    rewrite Hc. apply elem_of_app. by left.
Qed.

Lemma cache_find_absent s id : cache_find id (cache_of s) = None -> id ∉ (cache_of s).*1.
Proof. apply cache_find_None. Qed.

(** Reading a page changes counters only. *)
Lemma read_page_frame id p : pg_disk (read_page id p).1 = pg_disk p.
Proof.
  unfold read_page, open_file. mrun. destruct (pg_is_open p) eqn:Eo, (pg_disk p) eqn:Ed; simpl; try done.
  by destruct (_ && _); simpl.
Qed.

(** Appending after an eviction. *)
Lemma frame_evict_append s s1 s2 id cp :
  (evict_oldest_clean_page_if_full s).1 = s1 -> (evict_oldest_clean_page_if_full s).2 = Ok tt ->
  cache_find id (cache_of s) = None -> cache_of s2 = cache_of s1 ++ [(id, cp)] ->
  same_pool_config s1 s2 -> pg_disk (st_pager s2) = pg_disk (st_pager s1) -> Frame nothing s s2.
Proof.
  intros <- Hok Hnone Hc Hcfg Hd. destruct (evict_frame s) as (Hf & Hpg & Hsub & Hroom).
  specialize (Hroom Hok). set (s1 := (evict_oldest_clean_page_if_full s).1) in *.
  assert (id ∉ (cache_of s1).*1) as Hid.
  { intros ([j c] & -> & Hin)%list_elem_of_fmap. apply Hsub in Hin. apply cache_find_None in Hnone.
    apply Hnone. apply list_elem_of_fmap. by exists (j, c). }
  destruct Hf as [D [C1 E1] K L X]. pose proof Hcfg as [C2 E2].
  pose proof (frame_append id cp s1 s2 (len (cache_of s)) Hroom Hid Hc Hcfg Hd) as Happ.
  split.
  - congruence.
  - split; congruence.
  - intros Hk. by apply Happ, K.
  - rewrite C1, E1 in *. intros He H1 Hl. destruct (decide (distinct_keys s1)) as [Hk|Hk].
    + destruct (Happ Hk) as (_ & Hl' & _). auto.
    + rewrite Hc. unfold len. rewrite length_app. simpl. unfold has_room, len in Hroom. rewrite C1, E1 in Hroom.
      specialize (Hroom He H1 Hl). unfold len in *. lia.
  - intros Hk i Hi _. destruct (Happ (K Hk)) as (_ & _ & H). apply H. apply X; [done|done|by intros []].
Qed.

Lemma get_frame s id : Frame nothing s (pool_get id s).1.
Proof.
  unfold pool_get. rewrite (bind_Ok get_state _ s s s eq_refl).
  destruct (cache_find id (cache_of s)) as [cp|] eqn:Ef.
  - set (s' := set_pool_stats (add_hit (bp_stats (st_pool s)))
                 (set_cache (cache_move_to_end id cp (cache_of s)) s)).
    change (Frame nothing s s').
    assert (distinct_keys s -> cache_of s' ≡ₚ cache_of s) as Hp.
    { intros Hk. change (cache_move_to_end id cp (cache_of s) ≡ₚ cache_of s). unfold cache_move_to_end.
      rewrite (cache_perm id (cache_of s) cp Hk Ef) at 2. by rewrite Permutation_app_comm. }
    split; [done|done| | |].
    + intros Hk. unfold distinct_keys. by rewrite Hp.
    + intros _ _ Hl. etransitivity; [|exact Hl]. change (len (cache_move_to_end id cp (cache_of s)) <= len (cache_of s)).
      unfold cache_move_to_end, len. rewrite length_app. simpl.
      enough (length (cache_remove id (cache_of s)) < length (cache_of s))%nat by lia.
      apply (length_filter_lt _ _ (id, cp)); [by apply cache_find_Some|simpl; tauto].
    + intros Hk i (c & Hi & Hd)%elem_of_dirty_ids _. apply elem_of_dirty_ids. exists c. by rewrite Hp.
  - destruct (evict_oldest_clean_page_if_full s) as [s1 [[]|e]] eqn:E1.
    2:{ rewrite (bind_Raise _ _ _ _ _ E1). replace s1 with (evict_oldest_clean_page_if_full s).1 by by rewrite E1.
        apply evict_frame. }
    rewrite (bind_Ok _ _ _ _ _ E1). pose proof (evict_frame s) as (Hf & _). rewrite E1 in Hf. simpl in Hf.
    destruct (read_page id (st_pager s1)) as [p2 r2] eqn:E2.
    assert (pg_disk p2 = pg_disk (st_pager s1)) as Hp2.
    { replace p2 with (read_page id (st_pager s1)).1 by by rewrite E2. apply read_page_frame. }
    assert (Frame nothing s (set_pager p2 s1)) as Hf2.
    { eapply frame_seq; [exact Hf|]. by apply frame_same. }
    destruct r2 as [data|e]; [|by rewrite (bind_Raise _ _ _ _ _ (on_pager_run _ _ _ _ E2))].
    rewrite (bind_Ok _ _ _ _ _ (on_pager_run _ _ _ _ E2)).
    destruct (decode_page data) as [page|e]; [|done].
    rewrite (bind_Ok (lift _) _ _ _ page eq_refl).
    assert (forall s', cache_of s' = cache_of s1 ++ [(id, {| cp_page := heap_next (st_heap s1); cp_is_dirty := false |})] ->
      same_pool_config s1 s' -> pg_disk (st_pager s') = pg_disk (st_pager s1) -> Frame nothing s s') as Happ.
    { intros s' Hc Hcfg Hd. eapply (frame_evict_append s s1); [by rewrite E1|by rewrite E1|done..]. }
    destruct page; [apply Happ; done|apply Happ; done|done].
Qed.

Lemma insert_frame s id page lsn :
  Frame nothing s ((l ← new_object page; pool_insert id l lsn) s).1.
Proof.
  rewrite (bind_Ok _ _ _ _ _ (new_object_run page s)).
  set (s0 := assigned _ _ _). set (l := heap_next (st_heap s)).
  assert (Frame nothing s s0) as Hf0 by (by apply frame_same).
  eapply frame_seq; [exact Hf0|]. unfold pool_insert. rewrite (bind_Ok get_state _ s0 s0 s0 eq_refl).
  case_bool_decide as Hnone; cbn [py_assert]; [|by apply frame_same].
  rewrite (bind_Ok (mret tt) _ s0 s0 tt eq_refl).
  destruct (evict_oldest_clean_page_if_full s0) as [s1 [[]|e]] eqn:E1.
  2:{ rewrite (bind_Raise _ _ _ _ _ E1). replace s1 with (evict_oldest_clean_page_if_full s0).1 by by rewrite E1.
      apply evict_frame. }
  rewrite (bind_Ok _ _ _ _ _ E1).
  destruct (object s1 l) as [p|] eqn:Ho.
  - rewrite (bind_Ok _ _ _ _ _ (deref_run _ _ _ Ho)).
    eapply (frame_evict_append s0 s1); [by rewrite E1|by rewrite E1|done|reflexivity|done|done].
  - unfold deref. mrun. unfold object in Ho. rewrite Ho.
    replace s1 with (evict_oldest_clean_page_if_full s0).1 by by rewrite E1. apply evict_frame.
Qed.

Lemma mark_frame s id lsn : Frame nothing s (mark_dirty id lsn s).1.
Proof.
  unfold mark_dirty. rewrite (bind_Ok get_state _ s s s eq_refl).
  destruct (cache_find id (cache_of s)) as [cp|] eqn:Ef; [|by apply frame_same].
  set (s1 := set_cache (cache_set_dirty id true (cache_of s)) s).
  rewrite (bind_Ok (modify (set_cache (cache_set_dirty id true (cache_of s)))) _ s s1 tt eq_refl).
  assert (Frame nothing s s1) as Hf.
  { split; [done|done| | |].
    - unfold distinct_keys. change (cache_of s1) with (cache_set_dirty id true (cache_of s)). by rewrite set_dirty_keys.
    - intros _ _. change (cache_of s1) with (cache_set_dirty id true (cache_of s)).
      unfold len, cache_set_dirty. by rewrite length_fmap.
    - intros Hk i (c & Hi & Hd)%elem_of_dirty_ids _. apply elem_of_dirty_ids.
      change (cache_of s1) with (cache_set_dirty id true (cache_of s)). unfold cache_set_dirty.
      exists (if decide (i = id) then {| cp_page := cp_page c; cp_is_dirty := true |} else c). split.
      + apply list_elem_of_fmap. exists (i, c). simpl. by case_decide.
      + by case_decide. }
  unfold deref. mrun. destruct (heap_objects (st_heap s1) !! cp_page cp); [|exact Hf].
  eapply frame_seq; [exact Hf|]. by apply frame_same.
Qed.

Lemma op_frame s op : Frame (deleted op) s (run_op s op).
Proof.
  destruct op as [id|id page lsn|id lsn|id|l page]; simpl.
  - apply get_frame.
  - apply insert_frame.
  - apply mark_frame.
  - eapply frame_weaken; [|by apply (frame_remove id)]. by intros ? ->.
  - by apply frame_same.
Qed.

Lemma ops_frame ops s : Frame (fun id => Exists (fun op => deleted op id) ops) s (run_ops ops s).
Proof.
  revert s. induction ops as [|op ops IH]; intros s; [by apply frame_same|].
  change (run_ops (op :: ops) s) with (run_ops ops (run_op s op)).
  eapply frame_weaken; [|eapply frame_trans; [apply op_frame|apply IH]].
  intros i [H|H]; [by left|by right].
Qed.

(** ** A small store *)

(** The pager of [PagerTheorems] under a pool of one page. *)
Definition sample_store : Store :=
  {| st_pager := sample_pager; st_pool := pool_init 1; st_heap := empty_heap |}.
Definition sample_disk : Disk :=
  {| dk_file := sample_file; dk_meta := sample_meta; dk_heads := [3]; dk_freed := [2] |}.

Lemma sample_store_inv : StoreInv ∅ sample_store sample_disk.
Proof.
  assert (forall i cp, entry sample_store i = Some cp -> False) as Hno.
  { intros i cp H. change (None = Some cp) in H. discriminate. }
  split; [exact sample_pager_inv|constructor| | | | |]; intros.
  - by edestruct Hno.
  - by edestruct Hno.
  - apply lookup_empty.
  - by edestruct Hno.
  - by edestruct Hno.
Qed.

Lemma sample_usable : usable sample_disk 1.
Proof. split; [vm_compute; split; reflexivity|apply (bool_decide_unpack _); vm_compute; exact I]. Qed.

Lemma sample_view : view sample_store sample_disk 1 = Some (PLeaf empty_leaf).
Proof. vm_compute. reflexivity. Qed.

(** The root leaf fetched and marked dirty. *)
Definition sample_dirty : Store := run_ops [OpGet 1; OpMarkDirty 1 7] sample_store.

Lemma sample_dirty_inv : StoreInv ∅ sample_dirty sample_disk /\ is_dirty sample_dirty 1 /\
  view sample_dirty sample_disk 1 = Some (set_page_lsn 7 (PLeaf empty_leaf)).
Proof.
  destruct (pool_get_ok ∅ sample_store sample_disk 1 (PLeaf empty_leaf) sample_store_inv
    sample_usable sample_view I) as (s1 & l & E1 & Hinv1 & Hg).
  { apply can_get_clean. right. vm_compute. discriminate. }
  assert (holds s1 1 l) as Hh by apply Hg.
  destruct (mark_dirty_ok ∅ s1 sample_disk 1 l (PLeaf empty_leaf) 7 Hinv1 Hh (got_object _ _ _ _ _ _ Hg))
    as (s2 & E2 & Hinv2 & Hm).
  assert (sample_dirty = s2) as ->.
  { unfold sample_dirty. cbn [run_ops foldl run_op]. rewrite E1. cbn [fst]. by rewrite E2. }
  split; [by apply (si_mono (∅ ∖ {[1]})); [set_solver|]|].
  split; [apply (mk_is_dirty _ _ _ _ _ _ Hm); by left|]. rewrite (mk_view _ _ _ _ _ _ Hm), upd_same. done.
Qed.

Lemma sample_leaf_encodable : page_encodable 64 (set_page_lsn 7 (PLeaf empty_leaf)).
Proof. split; [split; reflexivity|]. split; [discriminate|reflexivity]. Qed.

Lemma single_entry s D id q i cp p :
  (cache_of s).*1 = [id] -> view s D id = Some q ->
  entry s i = Some cp -> object s (cp_page cp) = Some p -> p = q.
Proof.
  intros Hk Hv Hi Ho. assert (i ∈ (cache_of s).*1) as Hin.
  { apply cache_find_Some in Hi. apply list_elem_of_fmap. by exists (i, cp). }
  rewrite Hk in Hin. apply list_elem_of_singleton in Hin as ->.
  unfold view in Hv. rewrite Hi in Hv. congruence.
Qed.

Lemma sample_dirty_encodable i cp p :
  entry sample_dirty i = Some cp -> cp_is_dirty cp = true -> object sample_dirty (cp_page cp) = Some p ->
  page_encodable (dk_ps sample_disk) p.
Proof.
  intros Hi _ Ho. destruct sample_dirty_inv as (_ & _ & Hv).
  assert ((cache_of sample_dirty).*1 = [1]) as Hk by (vm_compute; reflexivity).
  assert (dk_ps sample_disk = 64) as -> by (vm_compute; reflexivity).
  rewrite (single_entry _ _ _ _ _ _ _ Hk Hv Hi Ho). exact sample_leaf_encodable.
Qed.

(** ** Properties *)

(** C25. Fetching is transparent: under the invariant of the store, [get] of a
    page in use either returns a reference to the page every client sees under
    the id, changing nobody's view and dropping no dirty entry, or, exactly
    when the page is not cached and the pool is full of dirty pages, raises
    [DBBufferPoolOverflowError] and changes nothing. *)
Theorem get_transparent_or_overflow s D id page :
  StoreInv ∅ s D -> usable D id -> view s D id = Some page -> tree_page page ->
  len (cache_of s) <= bp_capacity_pages (st_pool s) ->
  match pool_get id s with
  | (s', Ok l) => StoreInv ∅ s' D /\ Got s s' D id l page /\
      (entry s id <> None \/ bp_eviction_enabled (st_pool s) = false \/
       dirty_count s < bp_capacity_pages (st_pool s))
  | (s', Raise e) => s' = s /\ e = DBBufferPoolOverflowError /\ entry s id = None /\
      bp_eviction_enabled (st_pool s) = true /\ dirty_count s = bp_capacity_pages (st_pool s)
  end.
Proof.
  intros Hinv Hu Hv Ht Hl. destruct (entry s id) as [cp|] eqn:He.
  { unfold view in Hv. rewrite He in Hv.
    destruct (pool_get_hit ∅ s D id cp page Hinv He Hv) as (s' & -> & ? & ?).
    split; [done|]. split; [done|]. by left. }
  destruct (bp_eviction_enabled (st_pool s)) eqn:Een.
  2:{ destruct (pool_get_ok ∅ s D id page Hinv Hu Hv Ht) as (s' & l & -> & ? & ?); [by apply can_get_clean; left|].
      split; [done|]. split; [done|]. by right; left. }
  pose proof (dirty_count_le s). destruct (decide (dirty_count s < bp_capacity_pages (st_pool s))) as [Hlt|Hge].
  { destruct (pool_get_ok ∅ s D id page Hinv Hu Hv Ht) as (s' & l & -> & ? & ?);
      [by apply can_get_clean; right; lia|].
    split; [done|]. split; [done|]. by right; right. }
  unfold pool_get. rewrite (bind_Ok get_state _ s s s eq_refl). fold (entry s id). rewrite He.
  destruct (evict_run s (si_nodup _ _ _ Hinv)) as [(s' & E & Hev)|(E & _)].
  - exfalso. destruct (victim s) as [[j c]|] eqn:Ev; [|destruct (ev_room _ _ Hev Ev); [congruence|lia]].
    destruct (victim_entry s _ (si_nodup _ _ _ Hinv) Ev) as (Hf & Hc & _). simpl in Hf, Hc.
    assert (dirty_count s < len (cache_of s)); [|lia].
    unfold dirty_count, len, dirty_entries. apply Nat2Z.inj_lt.
    apply (length_filter_lt _ _ (j, c)); [by apply cache_find_Some|simpl; congruence].
  - rewrite (bind_Raise _ _ _ _ _ E). split_and!; try done. lia.
Qed.

Lemma get_transparent_or_overflow_witness :
  bp_eviction_enabled (st_pool sample_store) = true /\
  match pool_get 1 sample_store with
  | (s', Ok l) => StoreInv ∅ s' sample_disk /\ Got sample_store s' sample_disk 1 l (PLeaf empty_leaf) /\
      (entry sample_store 1 <> None \/ bp_eviction_enabled (st_pool sample_store) = false \/
       dirty_count sample_store < bp_capacity_pages (st_pool sample_store))
  | (s', Raise e) => s' = sample_store /\ e = DBBufferPoolOverflowError /\ entry sample_store 1 = None /\
      bp_eviction_enabled (st_pool sample_store) = true /\
      dirty_count sample_store = bp_capacity_pages (st_pool sample_store)
  end.
Proof.
  split; [reflexivity|].
  apply (get_transparent_or_overflow sample_store sample_disk 1 (PLeaf empty_leaf)).
  - exact sample_store_inv.
  - exact sample_usable.
  - exact sample_view.
  - exact I.
  - vm_compute. discriminate.
Defined.

(** C26. No steal, and bounded: whatever sequence of operations but flushes the
    clients run, the operations that raise included, the data file is not
    touched, a dirty page stays in the pool, dirty, until its id is deleted,
    and a pool that evicts never outgrows its capacity. *)
Theorem no_steal ops s :
  distinct_keys s ->
  pg_disk (st_pager (run_ops ops s)) = pg_disk (st_pager s) /\
  (forall id, id ∈ dirty_ids s -> Forall (fun op => ~ deleted op id) ops -> id ∈ dirty_ids (run_ops ops s)) /\
  (bp_eviction_enabled (st_pool s) = true -> 1 <= bp_capacity_pages (st_pool s) ->
   len (cache_of s) <= bp_capacity_pages (st_pool s) ->
   len (cache_of (run_ops ops s)) <= bp_capacity_pages (st_pool s)).
Proof.
  intros Hk. destruct (ops_frame ops s) as [D C K L X]. split; [done|]. split; [|done].
  intros id Hid Hn. apply X; [done|done|]. rewrite Exists_exists. rewrite Forall_forall in Hn.
  intros (op & Hop & Hd). by apply (Hn op).
Qed.

Lemma no_steal_witness :
  dirty_ids sample_dirty = [1] /\
  let ops := [OpGet 2; OpMarkDirty 1 9; OpInsert 5 (PLeaf empty_leaf) 3] in
  pg_disk (st_pager (run_ops ops sample_dirty)) = pg_disk (st_pager sample_dirty) /\
  (forall id, id ∈ dirty_ids sample_dirty -> Forall (fun op => ~ deleted op id) ops ->
     id ∈ dirty_ids (run_ops ops sample_dirty)) /\
  (bp_eviction_enabled (st_pool sample_dirty) = true -> 1 <= bp_capacity_pages (st_pool sample_dirty) ->
   len (cache_of sample_dirty) <= bp_capacity_pages (st_pool sample_dirty) ->
   len (cache_of (run_ops ops sample_dirty)) <= bp_capacity_pages (st_pool sample_dirty)).
Proof.
  split; [vm_compute; reflexivity|]. cbv zeta.
  apply (no_steal [OpGet 2; OpMarkDirty 1 9; OpInsert 5 (PLeaf empty_leaf) 3] sample_dirty).
  unfold distinct_keys. apply (bool_decide_unpack _). vm_compute. exact I.
Defined.

(** C27. Flushing persists: when the dirty pages fit a page, [flush_all]
    succeeds, leaves no entry dirty and changes nobody's view; afterwards the
    data file itself holds, under every id in use, the page the clients saw. *)
Theorem flush_all_persists s D :
  StoreInv ∅ s D ->
  (forall i cp p, entry s i = Some cp -> cp_is_dirty cp = true -> object s (cp_page cp) = Some p ->
     page_encodable (dk_ps D) p) ->
  exists s' D', flush_all s = (s', Ok tt) /\ StoreInv ∅ s' D' /\ dk_meta D' = dk_meta D /\
    (forall i, ~ is_dirty s' i) /\
    (forall i, usable D i -> view s' D' i = view s D i /\ on_disk D' i = view s D i).
Proof.
  intros Hinv Henc. destruct (flush_all_ok s D Hinv Henc) as (s' & D' & ? & ? & ? & ? & ? & _).
  exists s', D'. by split_and!.
Qed.

Lemma flush_all_persists_witness :
  is_dirty sample_dirty 1 /\
  exists s' D', flush_all sample_dirty = (s', Ok tt) /\ StoreInv ∅ s' D' /\
    dk_meta D' = dk_meta sample_disk /\ (forall i, ~ is_dirty s' i) /\
    (forall i, usable sample_disk i ->
       view s' D' i = view sample_dirty sample_disk i /\ on_disk D' i = view sample_dirty sample_disk i).
Proof.
  destruct sample_dirty_inv as (Hinv & Hd & _). split; [exact Hd|].
  exact (flush_all_persists sample_dirty sample_disk Hinv sample_dirty_encodable).
Defined.
