(* ===== verification/WalFacts.v ===== *)
(** * The log as a list of records

    What the loop over the records of a log does, as a refinement: reading a
    file that holds the encodings of some records and then a torn tail is
    running the loop's body over that list of records. *)

From S2P Require Import Prelude Bytes Entities Codec Fs Wal CodecFacts CodecTheorems.
From Stdlib Require Import Strings.Byte.

(** ** Files of records *)

Definition wires (recs : list WALRecord) : bytes := concat (wal_wire <$> recs).

Lemma wires_cons r recs : wires (r :: recs) = wal_wire r ++ wires recs.
Proof. done. Qed.

Lemma wires_app l1 l2 : wires (l1 ++ l2) = wires l1 ++ wires l2.
Proof. unfold wires. by rewrite fmap_app, concat_app. Qed.

Lemma wires_snoc recs r : wires (recs ++ [r]) = wires recs ++ wal_wire r.
Proof. rewrite wires_app. unfold wires. simpl. by rewrite app_nil_r. Qed.

(** The end of file that stops the loop: fewer bytes than a record needs. *)
Definition torn (tail : bytes) : Prop := (decode_next_wal_record tail).2 = Raise EOFError.

Lemma torn_nil : torn [].
Proof. done. Qed.

Lemma torn_prefix r n : wal_fits r = true -> (n < length (wal_wire r))%nat -> torn (take n (wal_wire r)).
Proof. apply decode_next_torn. Qed.

(** A record whose length prefix is intact and whose checksum is wrong. *)
Definition broken (bad : bytes) : Prop :=
  forall rest, exists expected actual,
    decode_next_wal_record (bad ++ rest) = (length bad, Raise (DBChecksumError expected actual)).

(** What may follow the last record, whether a broken record came before, how
    many bytes of it are read, and the exception it raises, if any: the end of
    the file, damage the decoder reports, a broken record, or a good record
    after a broken one. *)
Inductive tail_end : bool -> bytes -> nat -> option Exn -> Prop :=
  | tail_eof b tail n :
      decode_next_wal_record tail = (n, Raise EOFError) -> tail_end b tail n None
  | tail_struct b tail n :
      decode_next_wal_record tail = (n, Raise StructError) -> tail_end b tail n (Some StructError)
  | tail_broken b bad tail n e :
      broken bad -> tail_end true tail n e -> tail_end b (bad ++ tail) (length bad + n) e
  | tail_valid tail n r :
      decode_next_wal_record tail = (n, Ok r) -> tail_end true tail n (Some DBCorruptedError).

Lemma torn_end b tail : torn tail -> exists n, tail_end b tail n None.
Proof.
  unfold torn. destruct (decode_next_wal_record tail) as [n r] eqn:E. simpl. intros ->.
  exists n. by apply tail_eof.
Qed.

(** How a loop over the records ends. *)
Definition outcome {A} (e : option Exn) (a : A) : Result A :=
  match e with None => Ok a | Some e => Raise e end.

Lemma broken_length bad : broken bad -> (4 <= length bad)%nat.
Proof.
  intros H. destruct (H []) as (e & a & E). unfold decode_next_wal_record in E.
  change (struct_size LENGTH_FIELD) with 4%nat in E.
  destruct (Nat.eqb_spec (length (take 4 (bad ++ []))) 4) as [Hl|Hl]; simpl in E; [|congruence].
  rewrite app_nil_r, length_take in Hl. lia.
Qed.

(** The check on the LSNs: consecutive, except that nothing is compared with a
    previous LSN of zero. *)
Fixpoint sequential (last : Z) (recs : list WALRecord) : Prop :=
  match recs with
  | [] => True
  | r :: recs' => (last = 0 \/ record_lsn r = last + 1) /\ sequential (record_lsn r) recs'
  end.

Definition last_lsn (l : Z) (recs : list WALRecord) : Z := foldl (fun _ r => record_lsn r) l recs.

Lemma last_lsn_snoc l recs r : last_lsn l (recs ++ [r]) = record_lsn r.
Proof. unfold last_lsn. by rewrite foldl_app. Qed.

Lemma sequential_snoc l recs r : sequential l recs ->
  (last_lsn l recs = 0 \/ record_lsn r = last_lsn l recs + 1) -> sequential l (recs ++ [r]).
Proof.
  revert l. induction recs as [|x recs IH]; intros l; [by intros _ ?|].
  simpl. intros [? Hs] Hr. split; [done|]. by apply IH.
Qed.

(** ** One record *)

Section iter.
Context (w : WAL) (f : File) (Hopen : wal_is_open w = true) (Hdisk : wal_disk w = Some f).

Lemma wal_file_run : wal_file w = (w, Ok f).
Proof. unfold wal_file. mrun. by rewrite Hopen, Hdisk. Qed.

Lemma read_record_run n r :
  decode_next_wal_record (drop (wal_pos w) (f_data f)) = (n, r) ->
  read_record w = (set_wal_pos (wal_pos w + n) w, Ok r).
Proof.
  intros E. unfold read_record. rewrite (bind_Ok _ _ _ _ _ wal_file_run).
  rewrite (bind_Ok get_state _ w w w eq_refl). by rewrite E.
Qed.

Lemma iter_next_record k it r rest :
  drop (wal_pos w) (f_data f) = wal_wire r ++ rest -> wal_fits r = true ->
  it_broken it = false -> (it_last_lsn it = 0 \/ record_lsn r = it_last_lsn it + 1) ->
  iter_next (S k) it w = (set_wal_pos (wal_pos w + length (wal_wire r)) w,
    Ok (Some (r, {| it_last_lsn := record_lsn r; it_broken := false |}))).
Proof.
  intros Hd Hf Hb Hl. cbn [iter_next].
  rewrite (bind_Ok _ _ _ _ _ (read_record_run (length (wal_wire r)) (Ok r)
    ltac:(rewrite Hd; by apply decode_next_wal_wire))).
  rewrite Hb. destruct (Z.eqb_spec (it_last_lsn it) 0); [done|].
  destruct Hl as [?|Hl]; [done|]. by rewrite Hl, Z.eqb_refl.
Qed.

End iter.

Lemma iter_next_end b tail n e : tail_end b tail n e -> forall k it w f,
  wal_is_open w = true -> wal_disk w = Some f -> drop (wal_pos w) (f_data f) = tail ->
  it_broken it = b -> (length tail < k)%nat ->
  iter_next k it w = (set_wal_pos (wal_pos w + n) w, outcome e None).
Proof.
  induction 1 as [b tail n E|b tail n E|b bad tail n e Hbad Hend IH|tail n r E];
    intros k it w f Ho Hd Hdrop Hb Hk; (destruct k as [|k]; [lia|]); cbn [iter_next].
  - by rewrite (bind_Ok _ _ _ _ _ (read_record_run w f Ho Hd n _ ltac:(by rewrite Hdrop))).
  - by rewrite (bind_Ok _ _ _ _ _ (read_record_run w f Ho Hd n _ ltac:(by rewrite Hdrop))).
  - destruct (Hbad tail) as (x & a & E).
    rewrite (bind_Ok _ _ _ _ _ (read_record_run w f Ho Hd _ _ ltac:(rewrite Hdrop; exact E))).
    pose proof (broken_length bad Hbad). rewrite length_app in Hk.
    rewrite (IH k _ (set_wal_pos (wal_pos w + length bad) w) f Ho Hd); [|..|done|lia].
    + unfold set_wal_pos, wal_with. simpl. by rewrite Nat.add_assoc.
    + change (wal_pos (set_wal_pos (wal_pos w + length bad) w)) with (wal_pos w + length bad)%nat.
      rewrite <-drop_drop, Hdrop. apply drop_app_length.
  - rewrite (bind_Ok _ _ _ _ _ (read_record_run w f Ho Hd n _ ltac:(by rewrite Hdrop))).
    by rewrite Hb.
Qed.

(** ** The loop, over a larger state *)

(** The log as one part of a state. *)
Class WalLens {T : Type} (get : T -> WAL) (set : WAL -> T -> T) : Prop := {
  lens_get_set : forall w s, get (set w s) = w;
  lens_set_set : forall w w' s, set w (set w' s) = set w s;
  lens_set_get : forall s, set (get s) s = s;
}.

#[export] Instance wal_lens_id : WalLens id (fun w _ => w).
Proof. by split. Qed.

Section loop.
Context {T : Type} (get : T -> WAL) (set : WAL -> T -> T) `{!WalLens get set}.

Lemma zoom_run {A} (m : M WAL A) s w r : m (get s) = (w, r) -> zoom get set m s = (set w s, r).
Proof. intros E. unfold zoom. by rewrite E. Qed.

(** Running the body over a list of records, the position advancing over the
    encoding of each record first. *)
Fixpoint visit {B} (pos : nat) (acc : B) (recs : list WALRecord) (body : B -> WALRecord -> M T B)
    : M T B :=
  match recs with
  | [] => mret acc
  | r :: recs' =>
      let pos' := (pos + length (wal_wire r))%nat in
      zoom get set (modify (set_wal_pos pos'));;
      acc' ← body acc r;
      visit pos' acc' recs' body
  end.

Lemma visit_cons {B} pos (acc : B) r recs body s :
  visit pos acc (r :: recs) body s =
    match body acc r (set (set_wal_pos (pos + length (wal_wire r)) (get s)) s) with
    | (s2, Ok acc2) => visit (pos + length (wal_wire r)) acc2 recs body s2
    | (s2, Raise e) => (s2, Raise e)
    end.
Proof. done. Qed.

(** The body may change anything but the file, the handle and the position. *)
Definition keeps_file {B} (body : B -> WALRecord -> M T B) : Prop :=
  forall acc r s s' res, body acc r s = (s', res) ->
    wal_disk (get s') = wal_disk (get s) /\ wal_is_open (get s') = wal_is_open (get s) /\
    wal_pos (get s') = wal_pos (get s).

Lemma for_records_loop_visit {B} (body : B -> WALRecord -> M T B) f tail n e recs :
  keeps_file body -> Forall (fun r => wal_fits r = true) recs ->
  tail_end false tail n e -> forall k, (length tail < S k)%nat -> forall fuel it acc s,
    wal_is_open (get s) = true -> wal_disk (get s) = Some f ->
    drop (wal_pos (get s)) (f_data f) = wires recs ++ tail ->
    it_broken it = false -> sequential (it_last_lsn it) recs ->
    (length recs < fuel)%nat ->
    for_records_loop get set fuel (S k) it acc body s =
      (acc' ← visit (wal_pos (get s)) acc recs body;
       zoom get set (modify (fun w => set_wal_pos (wal_pos w + n) w));; lift (outcome e acc')) s.
Proof.
  intros Hbody Hfit Htail k Hk. induction Hfit as [|r recs Hr Hfit IH];
    intros fuel it acc s Ho Hd Hdrop Hb Hseq Hfuel;
    (destruct fuel as [|fuel]; [simpl in Hfuel; lia|]); cbn [for_records_loop visit].
  - pose proof (zoom_run _ _ _ _ (iter_next_end _ _ _ _ Htail (S k) it (get s) f Ho Hd Hdrop Hb Hk)) as Ez.
    destruct e as [x|]; [by rewrite (bind_Raise _ _ _ _ _ Ez)|by rewrite (bind_Ok _ _ _ _ _ Ez)].
  - rewrite wires_cons, <-app_assoc in Hdrop. destruct Hseq as [Hl Hseq].
    rewrite (bind_Ok _ _ _ _ _ (zoom_run _ _ _ _
      (iter_next_record (get s) f Ho Hd k it r _ Hdrop Hr Hb Hl))).
    set (w1 := set_wal_pos (wal_pos (get s) + length (wal_wire r)) (get s)).
    transitivity (match visit (wal_pos (get s)) acc (r :: recs) body s with
                  | (s2, Ok acc2) => (zoom get set (modify (fun w => set_wal_pos (wal_pos w + n) w));; lift (outcome e acc2)) s2
                  | (s2, Raise x) => (s2, Raise x)
                  end); [|done].
    rewrite visit_cons. fold w1. unfold mbind, M_bind.
    destruct (body acc r (set w1 s)) as [s2 [acc2|x]] eqn:Ebody; [|done].
    destruct (Hbody _ _ _ _ _ Ebody) as (Hd2 & Ho2 & Hp2). rewrite lens_get_set in *.
    rewrite IH; [|by rewrite Ho2|by rewrite Hd2| |done|done|simpl in Hfuel; lia].
    + rewrite Hp2. done.
    + rewrite Hp2. change (wal_pos w1) with (wal_pos (get s) + length (wal_wire r))%nat.
      rewrite <-drop_drop, Hdrop. apply drop_app_length.
Qed.
End loop.

Lemma wires_length recs : (length recs <= length (wires recs))%nat.
Proof.
  induction recs as [|r recs IH]; [simpl; lia|]. rewrite wires_cons, length_app.
  pose proof (wal_wire_length r). pose proof (wal_length_pos r). unfold len in *.
  change (length (r :: recs)) with (S (length recs)). lia.
Qed.

Section for_records.
Context {T : Type} (get : T -> WAL) (set : WAL -> T -> T) `{!WalLens get set}.

(** The loop over a whole file of records. *)
Lemma for_records_visit {B} (body : B -> WALRecord -> M T B) f recs tail n e acc s :
  keeps_file get body -> Forall (fun r => wal_fits r = true) recs -> sequential 0 recs ->
  tail_end false tail n e -> wal_is_open (get s) = true -> wal_disk (get s) = Some f -> f_data f = wires recs ++ tail ->
  for_records get set acc body s =
    (acc' ← visit get set 0 acc recs body;
     zoom get set (modify (fun w => set_wal_pos (wal_pos w + n) w));; lift (outcome e acc'))
      (set (set_wal_pos 0 (get s)) s).
Proof.
  intros Hbody Hfit Hseq Htail Ho Hd Hf. unfold for_records, iter_fuel.
  rewrite (bind_Ok _ _ s s (S (length (f_data f)))).
  2:{ rewrite (zoom_run get set _ s (get s) (Ok (S (length (f_data f))))); [by rewrite lens_set_get|].
      by rewrite (bind_Ok _ _ _ _ _ (wal_file_run _ _ Ho Hd)). }
  rewrite (bind_Ok _ _ s (set (set_wal_pos 0 (get s)) s) tt eq_refl).
  pose proof (wires_length recs). 
  rewrite (for_records_loop_visit get set body f tail n e recs Hbody Hfit Htail); rewrite ?lens_get_set;
    try done; rewrite Hf, length_app; lia.
Qed.

(** ** Replay *)

(** A callback that has nothing to do with the log. *)
Definition independent (callback : WALRecord -> M T unit) : Prop :=
  forall r w s, callback r (set w s) = (set w (callback r s).1, (callback r s).2).

Lemma independent_get callback r s : independent callback -> get (callback r s).1 = get s.
Proof.
  intros H. pose proof (H r (get s) s) as E. rewrite lens_set_get in E. rewrite E at 1. simpl.
  apply lens_get_set.
Qed.

Lemma independent_mfor callback recs w s : independent callback ->
  mfor recs callback (set w s) = (set w (mfor recs callback s).1, (mfor recs callback s).2).
Proof.
  intros H. revert s. induction recs as [|r recs IH]; intros s; [done|]. cbn [mfor].
  unfold mbind, M_bind. rewrite H. destruct (callback r s) as [s1 [[]|e]]; simpl; [apply IH|done].
Qed.

(** The log's part of the state while [replay] runs the callback on records. *)
Definition replaying (pos : nat) (r : WALRecord) (w : WAL) : WAL :=
  set_wal_stats count_replayed (set_lsn (record_lsn r) (set_wal_pos pos w)).

Lemma replay_record_run callback acc r s : independent callback ->
  replay_record get set callback acc r s =
    let w := set_wal_stats count_replayed (set_lsn (record_lsn r) (get s)) in
    (set w (callback r s).1,
     match (callback r s).2 with Ok _ => Ok (wal_pos (get s)) | Raise e => Raise e end).
Proof.
  intros H. unfold replay_record.
  rewrite (bind_Ok _ _ s s (wal_pos (get s)));
    [|by rewrite (zoom_run get set _ s (get s) (Ok (wal_pos (get s)))); [rewrite lens_set_get|]].
  rewrite (bind_Ok _ _ s (set (set_lsn (record_lsn r) (get s)) s) tt eq_refl).
  rewrite (bind_Ok _ _ _ (set (set_wal_stats count_replayed (set_lsn (record_lsn r) (get s))) s) tt)
    by (rewrite (zoom_run get set _ _ (set_wal_stats count_replayed (set_lsn (record_lsn r) (get s))) (Ok tt));
        [by rewrite lens_set_set|by rewrite lens_get_set]).
  unfold mbind, M_bind. rewrite H. destruct (callback r s) as [s1 [[]|e]]; done.
Qed.

Lemma replay_record_keeps callback : independent callback -> keeps_file get (replay_record get set callback).
Proof.
  intros H acc r s s' res. rewrite replay_record_run by done. intros [= <- _].
  by rewrite lens_get_set.
Qed.

(** Replaying is running the callback over the records; the log ends with the
    LSN of the last record, its file as it was. *)
Lemma visit_replay callback recs : independent callback -> forall pos acc s,
  exists w, visit get set pos acc recs (replay_record get set callback) s =
    (set w (mfor recs callback s).1,
     match (mfor recs callback s).2 with
     | Ok _ => Ok (if recs is [] then acc else (pos + length (wires recs))%nat)
     | Raise e => Raise e
     end) /\
    wal_disk w = wal_disk (get s) /\ wal_is_open w = wal_is_open (get s) /\ wal_temp w = wal_temp (get s) /\
    ((mfor recs callback s).2 = Ok tt -> wal_current_lsn w = last_lsn (wal_current_lsn (get s)) recs).
Proof.
  intros H. induction recs as [|r recs IH]; intros pos acc s.
  { exists (get s). split; [by rewrite lens_set_get|done]. }
  rewrite visit_cons, replay_record_run by done. cbv zeta. rewrite lens_get_set, H. cbn [fst snd].
  rewrite lens_set_set. cbn [mfor]. unfold mbind, M_bind.
  set (w1 := set_wal_stats count_replayed _).
  destruct (callback r s) as [s1 [[]|e]] eqn:Ec; cbn [fst snd].
  2:{ exists w1. split; [done|]. split; [done|]. split; [done|]. split; [done|]. done. }
  destruct (IH (pos + length (wal_wire r))%nat (pos + length (wal_wire r))%nat (set w1 s1))
    as (w & E & Hd & Ho & Ht & Hl).
  rewrite independent_mfor in E, Hl by done. cbn [fst snd] in *. rewrite lens_set_set in E.
  rewrite lens_get_set in *. exists w. split; [|done].
  rewrite wires_cons, length_app, Nat.add_assoc.
  replace (wal_pos _) with (pos + length (wal_wire r))%nat by done.
  rewrite E. f_equal. destruct (mfor recs callback s1).2; [|done].
  destruct recs; [by rewrite Nat.add_0_r|done].
Qed.
End for_records.

(** ** The loops end *)

Lemma wal_body_no_fuel : no_fuel_error wal_body.
Proof.
  apply no_fuel_bind; [by intros r|]. intros _.
  apply no_fuel_bind; [apply no_fuel_read_struct|]. intros vs.
  apply no_fuel_bind; [apply no_fuel_lift, value_int_no_fuel|]. intros lsn.
  apply no_fuel_bind; [apply no_fuel_lift, value_int_no_fuel|]. intros op.
  repeat case_match; try done;
    repeat (apply no_fuel_bind; [first [apply no_fuel_prefixed|apply no_fuel_read_int]|]; intros ?); done.
Qed.

Lemma decode_wal_record_no_fuel data : decode_wal_record data <> Raise OutOfFuel.
Proof.
  unfold decode_wal_record, verify_crc32.
  destruct (struct_unpack _ _) as [vs|e] eqn:Eu; cbn [mbind Result_bind].
  2:{ unfold struct_unpack in Eu. destruct (_ =? _)%nat; [done|]. by injection Eu as <-. }
  destruct (value_int vs 0) as [z|e] eqn:Ev; cbn [mbind Result_bind];
    [|intros [= ->]; by apply (value_int_no_fuel vs 0)].
  destruct (_ =? _); cbn [mbind Result_bind mret Result_ret]; [|done].
  apply wal_body_no_fuel.
Qed.

(** Reading a record moves within the file, and by at least the length prefix
    unless the file ends. *)
Lemma decode_next_bounds data n r : decode_next_wal_record data = (n, r) ->
  (n <= length data)%nat /\ r <> Raise OutOfFuel /\ (r = Raise EOFError \/ (4 <= n)%nat).
Proof.
  unfold decode_next_wal_record. change (struct_size LENGTH_FIELD) with 4%nat.
  rewrite length_take. assert (4 `min` length data <= length data)%nat as Hq by lia.
  set (q := (4 `min` length data)%nat) in *. clearbody q.
  destruct (Nat.eqb_spec q 4) as [Hl|Hl]; cbn [negb].
  2:{ intros [= <- <-]. rewrite ?length_take. split; [lia|]. split; [done|by left]. }
  destruct (_ ≫= _) as [z|e] eqn:E.
  2:{ intros [= <- <-]. rewrite ?length_take. split; [lia|]. split; [|right; lia]. intros [= ->].
      unfold struct_unpack in E. destruct (_ =? _)%nat in E; [|done]. by apply value_int_no_fuel in E. }
  destruct (negb _); intros [= <- <-]; rewrite length_take, length_drop; (split; [lia|]).
  - split; [done|by left].
  - split; [apply decode_wal_record_no_fuel|right; lia].
Qed.

Lemma iter_next_progress k : forall it w f,
  wal_is_open w = true -> wal_disk w = Some f -> (wal_pos w <= length (f_data f))%nat ->
  (length (f_data f) - wal_pos w < k)%nat ->
  match iter_next k it w with
  | (w', Ok (Some _)) => wal_is_open w' = true /\ wal_disk w' = Some f /\
      (wal_pos w + 4 <= wal_pos w' <= length (f_data f))%nat
  | (_, Ok None) => True
  | (_, Raise e) => e <> OutOfFuel
  end.
Proof.
  induction k as [|k IH]; intros it w f Ho Hd Hp Hk; [lia|]. cbn [iter_next].
  destruct (decode_next_wal_record (drop (wal_pos w) (f_data f))) as [n r] eqn:E.
  pose proof (decode_next_bounds _ _ _ E) as (Hn & Hr & Hn4). rewrite length_drop in Hn.
  rewrite (bind_Ok _ _ _ _ _ (read_record_run w f Ho Hd n r E)).
  set (w1 := set_wal_pos (wal_pos w + n) w).
  destruct r as [record|e].
  - destruct Hn4 as [?|Hn4]; [done|]. destruct (it_broken it); [done|].
    destruct (_ && _); [done|]. split; [done|]. split; [done|]. simpl. lia.
  - assert (forall it', (4 <= n)%nat -> match iter_next k it' w1 with
      | (w', Ok (Some _)) => wal_is_open w' = true /\ wal_disk w' = Some f /\
          (wal_pos w + 4 <= wal_pos w' <= length (f_data f))%nat
      | (_, Ok None) => True
      | (_, Raise e) => e <> OutOfFuel
      end) as Hrec.
    { intros it' H4. specialize (IH it' w1 f Ho Hd). change (wal_pos w1) with (wal_pos w + n)%nat in IH.
      specialize (IH ltac:(lia) ltac:(lia)). destruct (iter_next k it' w1) as [w' [[?|]|?]]; [|done|done].
      destruct IH as (? & ? & ?). split; [done|]. split; [done|lia]. }
    destruct e; try (cbn; congruence); [|done]. destruct Hn4 as [?|Hn4]; [done|]. by apply Hrec.
Qed.

Section termination.
Context {T : Type} (get : T -> WAL) (set : WAL -> T -> T) `{!WalLens get set}.

Lemma for_records_loop_no_fuel {B} (body : B -> WALRecord -> M T B) f :
  keeps_file get body -> (forall acc r s, (body acc r s).2 <> Raise OutOfFuel) ->
  forall fuel k it acc s, wal_is_open (get s) = true -> wal_disk (get s) = Some f ->
  (wal_pos (get s) <= length (f_data f))%nat -> (length (f_data f) - wal_pos (get s) < fuel)%nat ->
  (length (f_data f) < k)%nat ->
  (for_records_loop get set fuel k it acc body s).2 <> Raise OutOfFuel.
Proof.
  intros Hk Hb. induction fuel as [|fuel IH]; intros k it acc s Ho Hd Hp Hf Hfk; [lia|].
  cbn [for_records_loop]. pose proof (iter_next_progress k it (get s) f Ho Hd Hp ltac:(lia)) as Hpr.
  destruct (iter_next k it (get s)) as [w r] eqn:E. pose proof (zoom_run get set _ s w r E) as Ez.
  destruct r as [[[record it']|]|e].
  - rewrite (bind_Ok _ _ _ _ _ Ez). destruct Hpr as (How & Hdw & Hpw).
    unfold mbind, M_bind. pose proof (Hb acc record (set w s)) as Hbr.
    destruct (body acc record (set w s)) as [s2 [acc2|e]] eqn:Ebody; [|simpl in *; congruence].
    destruct (Hk _ _ _ _ _ Ebody) as (Hd2 & Ho2 & Hp2). rewrite lens_get_set in *.
    apply IH; [by rewrite Ho2|by rewrite Hd2|rewrite Hp2; lia|rewrite Hp2; lia|done].
  - by rewrite (bind_Ok _ _ _ _ _ Ez).
  - rewrite (bind_Raise _ _ _ _ _ Ez). simpl. congruence.
Qed.

Lemma for_records_no_fuel {B} (body : B -> WALRecord -> M T B) acc s :
  keeps_file get body -> (forall acc r s, (body acc r s).2 <> Raise OutOfFuel) ->
  (for_records get set acc body s).2 <> Raise OutOfFuel.
Proof.
  intros Hk Hb. unfold for_records, iter_fuel.
  destruct (wal_is_open (get s)) eqn:Ho.
  2:{ rewrite (bind_Raise _ _ s (set (get s) s) AssertionError); [done|].
      apply zoom_run. unfold wal_file. mrun. by rewrite Ho. }
  destruct (wal_disk (get s)) as [f|] eqn:Hd.
  2:{ rewrite (bind_Raise _ _ s (set (get s) s) AssertionError); [done|].
      apply zoom_run. unfold wal_file. mrun. by rewrite Ho, Hd. }
  rewrite (bind_Ok _ _ s (set (get s) s) (S (length (f_data f))))
    by (apply zoom_run; by rewrite (bind_Ok _ _ _ _ _ (wal_file_run _ _ Ho Hd))).
  rewrite lens_set_get, (bind_Ok _ _ s (set (set_wal_pos 0 (get s)) s) tt eq_refl).
  apply (for_records_loop_no_fuel body f Hk Hb); rewrite ?lens_get_set; try done; simpl; lia.
Qed.
End termination.
