(* ===== verification/WalTheorems.v ===== *)
(** * Properties of the write-ahead log

    Durability of acknowledged records, replay and tail truncation, rotation,
    detection of damage, and termination on arbitrary files. *)

From S2P Require Import Prelude Bytes Entities Codec Fs Wal CodecFacts CodecTheorems WalFacts.
From Stdlib Require Import Strings.Byte.

(** ** The log and its records *)

(** [w] is an open log that durably holds exactly [recs], the last of which
    has the current LSN. *)
Record WalInv (w : WAL) (recs : list WALRecord) : Prop := {
  wi_open : wal_is_open w = true;
  wi_disk : wal_disk w = Some {| f_data := wires recs; f_synced := wires recs |};
  wi_fits : Forall (fun r => wal_fits r = true) recs;
  wi_sequential : sequential 0 recs;
  wi_lsn : recs = [] \/ wal_current_lsn w = last_lsn 0 recs;
}.

Lemma wal_append_run w recs r : WalInv w recs ->
  wal_append r w = if wal_fits r then
    (set_wal_stats (count_append (len (wal_wire r)))
       (set_wal_file {| f_data := wires (recs ++ [r]); f_synced := wires (recs ++ [r]) |}
          (length (wires (recs ++ [r]))) (set_lsn (record_lsn r) w)), Ok (record_lsn r))
  else (w, Raise StructError).
Proof.
  intros Hi. unfold wal_append.
  rewrite (bind_Ok _ _ _ _ _ (wal_file_run _ _ (wi_open _ _ Hi) (wi_disk _ _ Hi))).
  rewrite encode_wal_record_eq. destruct (wal_fits r); [|done]. by rewrite wires_snoc.
Qed.

Lemma wal_append_inv w recs r : WalInv w recs -> wal_fits r = true ->
  record_lsn r = wal_current_lsn w + 1 -> WalInv (wal_append r w).1 (recs ++ [r]).
Proof.
  intros Hi Hf Hl. rewrite (wal_append_run _ _ _ Hi), Hf. destruct Hi. split; try done.
  - apply Forall_app. split; [done|]. by constructor.
  - apply sequential_snoc; [done|]. destruct wi_lsn0 as [->|E]; [by left|right]. by rewrite <-E.
  - right. by rewrite last_lsn_snoc.
Qed.

(** Reading a log whose file ends in any tail: the records, nothing else. *)
Lemma peek_with_tail w f recs tail n e : wal_is_open w = true -> wal_disk w = Some f ->
  f_data f = wires recs ++ tail -> tail_end false tail n e ->
  Forall (fun r => wal_fits r = true) recs -> sequential 0 recs ->
  (peek_records w).2 = outcome e recs.
Proof.
  intros Ho Hd Hf Ht Hfit Hseq.
  set (body := fun (acc : list WALRecord) (record : WALRecord) =>
                 (fun s => (s, Ok (acc ++ [record]))) : M WAL (list WALRecord)).
  change (peek_records w) with (for_records id (fun w _ => w) [] body w).
  assert (keeps_file id body) as Hk by (intros acc r s s' res [= <- _]; done).
  rewrite (for_records_visit id (fun w _ => w) body f recs tail n e [] w Hk Hfit Hseq Ht Ho Hd Hf).
  enough (forall pos acc s, exists s', visit id (fun w _ => w) pos acc recs body s = (s', Ok (acc ++ recs))) as H.
  { destruct (H 0%nat [] (set_wal_pos 0 w)) as (s' & E). unfold id at 2. by rewrite (bind_Ok _ _ _ _ _ E). }
  clear. induction recs as [|r recs IH]; intros pos acc s; [exists s; by rewrite app_nil_r|].
  rewrite visit_cons. unfold body at 1.
  destruct (IH (pos + length (wal_wire r))%nat (acc ++ [r]) (set_wal_pos (pos + length (wal_wire r)) s)) as (s' & E).
  exists s'. rewrite <-app_assoc in E. exact E.
Qed.

(** ** Replay over a larger state *)

Section replay.
Context {T : Type} (get : T -> WAL) (set : WAL -> T -> T) `{!WalLens get set}.

Lemma truncate_tail_run pos w f : wal_is_open w = true -> wal_disk w = Some f ->
  truncate_tail pos w = (set_wal_stats count_fsync (set_wal_file
    {| f_data := take pos (f_data f); f_synced := take pos (f_data f) |} pos w), Ok tt).
Proof.
  intros Ho Hd. unfold truncate_tail. rewrite (bind_Ok _ _ _ _ _ (wal_file_run _ _ Ho Hd)).
  rewrite (bind_Ok (modify _) _ w (set_wal_file (truncate_at f pos) pos w) tt eq_refl).
  rewrite (bind_Ok wal_file _ _ _ _ (wal_file_run (set_wal_file (truncate_at f pos) pos w) (truncate_at f pos) Ho eq_refl)).
  done.
Qed.

Lemma replay_run callback f recs tail n e s :
  independent set callback -> Forall (fun r => wal_fits r = true) recs -> sequential 0 recs ->
  tail_end false tail n e -> wal_is_open (get s) = true -> wal_disk (get s) = Some f ->
  f_data f = wires recs ++ tail ->
  exists w, match mfor recs callback s with
  | (s', Ok _) => replay get set callback s = (set w s', outcome e tt) /\
      match e with None => WalInv w recs /\ wal_current_lsn w = last_lsn 0 recs | Some _ => wal_disk w = Some f end
  | (s', Raise e) => replay get set callback s = (set w s', Raise e) /\ wal_disk w = Some f
  end /\ wal_temp w = wal_temp (get s).
Proof.
  intros Hind Hfit Hseq Ht Ho Hd Hf. unfold replay.
  rewrite (bind_Ok _ _ s s f); [|by rewrite (zoom_run get set _ _ _ _ (wal_file_run _ _ Ho Hd)), lens_set_get].
  set (w1 := set_lsn 0 (get s)).
  rewrite (bind_Ok _ _ s (set w1 s) tt eq_refl).
  set (body := replay_record get set callback).
  assert (for_records get set 0%nat body (set w1 s) =
    (acc' ← visit get set 0 0%nat recs body;
     zoom get set (modify (fun w => set_wal_pos (wal_pos w + n) w));; lift (outcome e acc')) (set (set_wal_pos 0 w1) s)) as Efor.
  { rewrite (for_records_visit get set body f recs tail n e 0%nat (set w1 s)); rewrite ?lens_get_set; try done.
    - by rewrite lens_set_set.
    - by apply replay_record_keeps. }
  destruct (visit_replay get set callback recs Hind 0 0%nat (set (set_wal_pos 0 w1) s))
    as (w & Ev & Hdw & How & Htw & Hlw).
  rewrite independent_mfor in Ev, Hlw by done. rewrite lens_get_set in *. cbn [fst snd] in *.
  rewrite lens_set_set in Ev. destruct (mfor recs callback s) as [s' [[]|x]]; cbn [fst snd] in *.
  - set (last := if recs is [] then 0%nat else (0 + length (wires recs))%nat) in *.
    assert (last = length (wires recs)) as Hlast by (by destruct recs).
    assert (for_records get set 0%nat body (set w1 s) =
              (set (set_wal_pos (wal_pos w + n) w) s', outcome e last)) as El.
    { rewrite Efor, (bind_Ok _ _ _ _ _ Ev).
      rewrite (bind_Ok _ _ _ (set (set_wal_pos (wal_pos w + n) w) s') tt); [done|].
      unfold zoom, modify. by rewrite lens_get_set, lens_set_set. }
    destruct e as [x|].
    { rewrite (bind_Raise _ _ _ _ _ El). eexists. split; [split; [reflexivity|exact (eq_trans Hdw Hd)]|done]. }
    rewrite (bind_Ok _ _ _ _ _ El).
    rewrite (zoom_run get set _ _ _ _ (eq_trans (f_equal _ (lens_get_set _ _))
      (truncate_tail_run last (set_wal_pos (wal_pos w + n) w) f
        ltac:(change (wal_is_open w = true); by rewrite How) ltac:(change (wal_disk w = Some f); by rewrite Hdw)))).
    rewrite lens_set_set. eexists. split; [split; [reflexivity|]|done].
    specialize (Hlw eq_refl). change (wal_current_lsn (set_wal_pos 0 w1)) with 0 in Hlw.
    rewrite Hf, Hlast, take_app_length. split; [|exact Hlw]. split; try done.
    + simpl. by rewrite How.
    + by right.
  - rewrite (bind_Raise _ _ _ (set w s') x) by (by rewrite Efor, (bind_Raise _ _ _ _ _ Ev)).
    exists w. split; [split; [done|]|done]. by rewrite Hdw.
Qed.
End replay.

(** ** Rotation *)

Definition kept (lsn : Z) (recs : list WALRecord) : list WALRecord :=
  filter (fun r => lsn <= record_lsn r) recs.

Lemma fits_lsn r : wal_fits r = true -> 0 <= record_lsn r.
Proof.
  unfold wal_fits. rewrite !andb_true_iff. intros [[H _] _]. apply fits_spec in H. lia.
Qed.

Lemma kept_all lsn l recs : sequential l recs -> 0 < l -> lsn <= l + 1 -> kept lsn recs = recs.
Proof.
  revert l. induction recs as [|r recs IH]; intros l; [done|]. intros [Hl Hs] Hp Hle.
  unfold kept in *. destruct Hl as [?|Hl]; [lia|].
  rewrite filter_cons_True by lia. f_equal. apply (IH (record_lsn r)); [done|lia|lia].
Qed.

(** The LSNs being consecutive, what is kept is a suffix of the log. *)
Lemma kept_suffix lsn l recs : sequential l recs -> Forall (fun r => wal_fits r = true) recs ->
  exists pre, recs = pre ++ kept lsn recs /\ Forall (fun r => record_lsn r < lsn) pre.
Proof.
  intros Hs Hf. revert l Hs. induction Hf as [|r recs Hr Hf IH]; intros l Hs.
  { by exists []. }
  destruct Hs as [_ Hs]. destruct (IH _ Hs) as (pre & Hpre & Hlt). pose proof (fits_lsn r Hr).
  destruct (decide (lsn <= record_lsn r)) as [Hle|Hgt].
  - exists []. split; [|done]. unfold kept in *. rewrite filter_cons_True by done. simpl. f_equal.
    destruct pre as [|x pre]; [done|]. exfalso. apply Forall_cons in Hlt as [Hx _].
    destruct (decide (record_lsn r = 0)).
    + assert (wal_fits x = true) as Hfx by (rewrite Hpre in Hf; by apply Forall_cons in Hf as [? _]).
      apply fits_lsn in Hfx. lia.
    + pose proof (kept_all lsn _ _ Hs ltac:(lia) ltac:(lia)) as Ha. unfold kept in Ha.
      rewrite Ha in Hpre. apply (f_equal length) in Hpre. rewrite length_app in Hpre. simpl in Hpre. lia.
  - exists (r :: pre). unfold kept in *. rewrite filter_cons_False by lia. simpl. rewrite <-Hpre.
    split; [done|]. constructor; [lia|done].
Qed.

Lemma sequential_suffix l pre recs : sequential l (pre ++ recs) -> sequential 0 recs.
Proof.
  revert l. induction pre as [|r pre IH]; intros l; simpl.
  - destruct recs as [|r recs]; [done|]. intros [_ ?]. split; [by left|done].
  - intros [_ Hs]. by eapply IH.
Qed.

Lemma last_lsn_suffix pre recs : recs <> [] -> last_lsn 0 (pre ++ recs) = last_lsn 0 recs.
Proof.
  intros Hne. unfold last_lsn. rewrite foldl_app. by destruct recs.
Qed.

(** The state of the rotation: everything but the temporary file and the
    position is as in [w0]. *)
Definition copying (w0 : WAL) (pos : nat) (data : bytes) : WAL :=
  set_wal_temp (Some {| f_data := data; f_synced := [] |}) (set_wal_pos pos w0).

Lemma copy_record_run lsn w0 pos data r : wal_fits r = true ->
  copy_record lsn tt r (copying w0 pos data) =
    (copying w0 pos (data ++ wires (kept lsn [r])), Ok tt).
Proof.
  intros Hr. unfold copy_record, kept. destruct (Z.leb_spec lsn (record_lsn r)).
  - rewrite encode_wal_record_eq, Hr, filter_cons_True by done. unfold wires. simpl fmap. simpl concat.
    rewrite app_nil_r. done.
  - rewrite filter_cons_False by lia. unfold wires. simpl. rewrite app_nil_r. done.
Qed.

Lemma kept_cons lsn r recs : kept lsn (r :: recs) = kept lsn [r] ++ kept lsn recs.
Proof. unfold kept. by rewrite <-filter_app. Qed.

Lemma visit_copy lsn w0 recs : Forall (fun r => wal_fits r = true) recs -> forall pos data,
  visit id (fun w _ => w) pos tt recs (copy_record lsn) (copying w0 pos data) =
    (copying w0 (pos + length (wires recs)) (data ++ wires (kept lsn recs)), Ok tt).
Proof.
  induction 1 as [|r recs Hr Hf IH]; intros pos data.
  { unfold wires at 1. simpl length. rewrite Nat.add_0_r. unfold wires. simpl. by rewrite app_nil_r. }
  rewrite visit_cons. change (set_wal_pos (pos + length (wal_wire r)) (id (copying w0 pos data)))
    with (copying w0 (pos + length (wal_wire r)) data).
  rewrite copy_record_run, IH by done.
  rewrite wires_cons, length_app, Nat.add_assoc, <-app_assoc, <-wires_app, <-kept_cons. done.
Qed.

Lemma copy_record_keeps lsn : keeps_file id (copy_record lsn).
Proof.
  intros [] r s s' res. unfold copy_record. destruct (_ <=? _); [|by intros [= <- _]].
  destruct (encode_wal_record r); by intros [= <- _].
Qed.

Lemma truncate_before_run lsn w recs : WalInv w recs ->
  exists w', truncate_before lsn w = (w', Ok tt) /\ WalInv w' (kept lsn recs) /\
    wal_temp w' = None /\ wal_current_lsn w' = wal_current_lsn w.
Proof.
  intros [Ho Hd Hfit Hseq Hlsn]. unfold truncate_before.
  rewrite (bind_Ok _ _ _ _ _ (wal_file_run _ _ Ho Hd)).
  set (w1 := set_wal_temp (Some empty_file) w).
  rewrite (bind_Ok (modify (set_wal_temp (Some empty_file))) _ w w1 tt eq_refl).
  assert (for_records id (fun w _ => w) tt (copy_record lsn) w1 =
    (copying w (length (wires recs) + 0) (wires (kept lsn recs)), Ok tt)) as E.
  { rewrite (for_records_visit id (fun w _ => w) (copy_record lsn)
      {| f_data := wires recs; f_synced := wires recs |} recs [] 0 None tt w1); try done.
    - change (set_wal_pos 0 (id w1)) with (copying w 0 []).
      by rewrite (bind_Ok _ _ _ _ _ (visit_copy lsn w recs Hfit 0 [])).
    - apply copy_record_keeps.
    - by apply tail_eof.
    - by rewrite app_nil_r. }
  rewrite (bind_Ok _ _ _ _ _ E). eexists. split; [reflexivity|]. split; [|done].
  destruct (kept_suffix lsn 0 recs Hseq Hfit) as (pre & Hpre & _). split; try done.
  - rewrite Hpre in Hfit. by apply Forall_app in Hfit as [_ ?].
  - rewrite Hpre in Hseq. by eapply sequential_suffix.
  - destruct (decide (kept lsn recs = [])) as [?|Hne]; [by left|right].
    destruct Hlsn as [->|Hl]; [done|]. simpl. rewrite Hl, Hpre at 1. by apply last_lsn_suffix.
Qed.

(** ** Appending and reopening *)

(** What a client asks the log to append. *)
Inductive AppendOp :=
  | AppendPut (key value : bytes)
  | AppendDelete (key : bytes)
  | AppendCheckpoint (root freelist_head next : Z).

Definition op_record (op : AppendOp) (lsn : Z) : WALRecord :=
  match op with
  | AppendPut key value => WALPutRecord lsn key value
  | AppendDelete key => WALDeleteRecord lsn key
  | AppendCheckpoint root freelist_head next => WALCheckpointRecord lsn root freelist_head next
  end.

Definition run_append (op : AppendOp) : M WAL Z :=
  match op with
  | AppendPut key value => append_put key value
  | AppendDelete key => append_delete key
  | AppendCheckpoint root freelist_head next => append_checkpoint root freelist_head next
  end.

(** Running appends in order, with the records of those that returned. *)
Fixpoint run_appends (ops : list AppendOp) (w : WAL) : WAL * list WALRecord :=
  match ops with
  | [] => (w, [])
  | op :: ops' =>
      match run_append op w with
      | (w', Ok lsn) => let '(w'', acks) := run_appends ops' w' in (w'', op_record op lsn :: acks)
      | (w', Raise _) => run_appends ops' w'
      end
  end.

Lemma run_append_eq op w : run_append op w = wal_append (op_record op (wal_current_lsn w + 1)) w.
Proof. by destruct op. Qed.

Lemma op_record_lsn op lsn : record_lsn (op_record op lsn) = lsn.
Proof. by destruct op. Qed.

Lemma run_appends_inv ops : forall w recs, WalInv w recs ->
  WalInv (run_appends ops w).1 (recs ++ (run_appends ops w).2).
Proof.
  induction ops as [|op ops IH]; intros w recs Hi; [by rewrite app_nil_r|].
  cbn [run_appends]. rewrite run_append_eq. set (r := op_record op (wal_current_lsn w + 1)).
  pose proof (wal_append_run w recs r Hi) as E. destruct (wal_fits r) eqn:Hf.
  - pose proof (wal_append_inv w recs r Hi Hf (op_record_lsn _ _)) as Hi'.
    destruct (wal_append r w) as [w' res]. injection E as -> ->. cbn [fst] in Hi'.
    specialize (IH _ _ Hi'). destruct (run_appends ops _) as [w'' acks]. cbn [fst snd] in *.
    rewrite <-app_assoc in IH. unfold r in *. by rewrite op_record_lsn.
  - rewrite E. by apply IH.
Qed.

(** The log opened on a file. *)
Definition reopened (f : File) (temp : option File) : WAL := (wal_open (wal_init (Some f) temp)).1.

(** The callback that does nothing, to replay a log on its own. *)
Definition no_callback (_ : WALRecord) : M WAL unit := mret tt.

Lemma no_callback_mfor recs w : mfor recs no_callback w = (w, Ok tt).
Proof. induction recs; done. Qed.

(** Replaying for the log alone. *)
Lemma replay_alone w f recs tail n e :
  Forall (fun r => wal_fits r = true) recs -> sequential 0 recs -> tail_end false tail n e ->
  wal_is_open w = true -> wal_disk w = Some f -> f_data f = wires recs ++ tail ->
  exists w', replay id (fun w _ => w) no_callback w = (w', outcome e tt) /\
    match e with None => WalInv w' recs | Some _ => wal_disk w' = Some f end.
Proof.
  intros Hfit Hseq Ht Ho Hd Hf.
  assert (independent (fun w _ => w) no_callback) as Hind by done.
  destruct (replay_run id (fun w _ => w) no_callback f recs tail n e w Hind Hfit Hseq Ht Ho Hd Hf)
    as (w' & Hres & _).
  rewrite no_callback_mfor in Hres. destruct Hres as [Hres Hinv]. exists w'. split; [done|]. by destruct e, Hinv.
Qed.

Lemma reopened_open f temp : wal_is_open (reopened f temp) = true /\ wal_disk (reopened f temp) = Some f.
Proof. done. Qed.

Lemma fresh_log_inv temp : WalInv (reopened empty_file temp) [].
Proof. split; try done. by left. Qed.

(** A log of three records. *)
Definition sample_ops : list AppendOp :=
  [AppendPut [x61] [x62; x63]; AppendDelete [x61]; AppendCheckpoint 1 0 2].
Definition sample_log : WAL := (run_appends sample_ops (reopened empty_file None)).1.
Definition sample_records : list WALRecord :=
  [WALPutRecord 1 [x61] [x62; x63]; WALDeleteRecord 2 [x61]; WALCheckpointRecord 3 1 0 2].

Lemma sample_log_inv : WalInv sample_log sample_records.
Proof.
  pose proof (run_appends_inv sample_ops _ [] (fresh_log_inv None)) as H.
  assert ((run_appends sample_ops (reopened empty_file None)).2 = sample_records) as E
    by (vm_compute; reflexivity).
  rewrite E in H. exact H.
Qed.

(** ** Properties *)

(** C28. Acknowledged records survive any crash: after any sequence of appends,
    some of them possibly refused, let the process die while it writes a
    further record, so that the file found is what was fsynced followed by any
    strict prefix of that record.  Reading the log back gives exactly the
    records it held before and those whose append returned, in order; replaying
    it truncates the torn record and leaves a log that durably holds them. *)
Theorem acknowledged_records_survive ops w recs next n temp :
  WalInv w recs -> wal_fits next = true -> (n < length (wal_wire next))%nat ->
  let w' := (run_appends ops w).1 in
  let acks := (run_appends ops w).2 in
  exists f, wal_disk w' = Some f /\
    let found := crash_kept {| f_data := f_data (crash_lossy f) ++ take n (wal_wire next);
                               f_synced := f_synced f |} in
    (peek_records (reopened found temp)).2 = Ok (recs ++ acks) /\
    exists w2, replay id (fun w _ => w) no_callback (reopened found temp) = (w2, Ok tt) /\
      WalInv w2 (recs ++ acks).
Proof.
  intros Hi Hnext Hn. cbv zeta. pose proof (run_appends_inv ops w recs Hi) as Hi'.
  destruct (run_appends ops w) as [w' acks]. cbn [fst snd] in *. destruct Hi' as [_ Hd Hfit Hseq _].
  eexists. split; [exact Hd|].
  destruct (torn_end false _ (torn_prefix next n Hnext Hn)) as (m & Ht). split.
  - eapply (peek_with_tail _ _ _ _ _ None); [done|done|reflexivity|exact Ht|done|done].
  - eapply (replay_alone _ _ _ _ _ None); [done|done|exact Ht|done|done|reflexivity].
Qed.

Lemma acknowledged_records_survive_witness :
  let w' := (run_appends [AppendPut [x64] [x65]] sample_log).1 in
  let acks := (run_appends [AppendPut [x64] [x65]] sample_log).2 in
  acks = [WALPutRecord 4 [x64] [x65]] /\
  exists f, wal_disk w' = Some f /\
    let found := crash_kept {| f_data := f_data (crash_lossy f) ++ take 9 (wal_wire (WALDeleteRecord 5 [x64]));
                               f_synced := f_synced f |} in
    (peek_records (reopened found None)).2 = Ok (sample_records ++ acks) /\
    exists w2, replay id (fun w _ => w) no_callback (reopened found None) = (w2, Ok tt) /\
      WalInv w2 (sample_records ++ acks).
Proof.
  split; [vm_compute; reflexivity|].
  apply (acknowledged_records_survive [AppendPut [x64] [x65]] sample_log sample_records
    (WALDeleteRecord 5 [x64]) 9 None sample_log_inv); [vm_compute; reflexivity|vm_compute; lia].
Defined.

(** C29. Replay: a log whose file holds records and then a torn tail applies the
    callback to every record, in order, exactly once; if no call raises, the
    torn tail is cut off, the log durably holds the records, and the next LSN
    follows the last of them.  If a call raises, the exception is passed on
    after the calls before it, and the file is left alone.  The log is any
    part [get], [set] of the state the callback works on. *)
Theorem replay_applies_all {T : Type} (get : T -> WAL) (set : WAL -> T -> T) callback f recs tail s :
  WalLens get set -> independent set callback ->
  Forall (fun r => wal_fits r = true) recs -> sequential 0 recs -> torn tail ->
  wal_is_open (get s) = true -> wal_disk (get s) = Some f -> f_data f = wires recs ++ tail ->
  match mfor recs callback s with
  | (s', Ok _) => exists w, replay get set callback s = (set w s', Ok tt) /\ WalInv w recs
  | (s', Raise e) => exists w, replay get set callback s = (set w s', Raise e) /\ wal_disk w = Some f
  end.
Proof.
  intros Hlens Hind Hfit Hseq Ht Ho Hd Hf. destruct (torn_end false _ Ht) as (n & Htail).
  destruct (replay_run get set callback f recs tail n None s Hind Hfit Hseq Htail Ho Hd Hf) as (w & H & _).
  destruct (mfor recs callback s) as [s' [[]|e]]; exists w; [|done]. by destruct H as (? & ? & _).
Qed.

(** A state with a log and the list of the records seen so far. *)
Definition collecting (r : WALRecord) : M (WAL * list WALRecord) unit :=
  fun s => ((s.1, s.2 ++ [r]), Ok tt).

Lemma replay_applies_all_witness :
  exists w, replay fst (fun w s => (w, s.2)) collecting (sample_log, []) = ((w, sample_records), Ok tt) /\
    WalInv w sample_records.
Proof.
  assert (WalLens (T := WAL * list WALRecord) fst (fun w s => (w, s.2))) as Hlens
    by (split; [done|done|by intros []]).
  assert (independent (fun w (s : WAL * list WALRecord) => (w, s.2)) collecting) as Hind by done.
  destruct sample_log_inv as [Ho Hd Hfit Hseq _].
  exact (replay_applies_all fst (fun w s => (w, s.2)) collecting _ sample_records []
    (sample_log, []) Hlens Hind Hfit Hseq torn_nil Ho Hd (eq_sym (app_nil_r _))).
Defined.

(** C30. Rotation: [truncate_before lsn] succeeds, drops exactly the records
    below [lsn], which are a prefix of the log, keeps the rest in order and
    durable, removes the temporary file and does not move the LSN counter. *)
Theorem truncate_before_keeps_suffix lsn w recs :
  WalInv w recs ->
  exists w' pre, truncate_before lsn w = (w', Ok tt) /\ recs = pre ++ kept lsn recs /\
    Forall (fun r => record_lsn r < lsn) pre /\ Forall (fun r => lsn <= record_lsn r) (kept lsn recs) /\
    WalInv w' (kept lsn recs) /\ wal_temp w' = None /\ wal_current_lsn w' = wal_current_lsn w.
Proof.
  intros Hi. destruct (truncate_before_run lsn w recs Hi) as (w' & E & Hi' & Ht & Hl).
  destruct (kept_suffix lsn 0 recs (wi_sequential _ _ Hi) (wi_fits _ _ Hi)) as (pre & Hp & Hlt).
  exists w', pre. split_and!; try done. apply Forall_forall.
  intros r [Hr _]%list_elem_of_filter. done.
Qed.

Lemma truncate_before_keeps_suffix_witness :
  kept 3 sample_records = [WALCheckpointRecord 3 1 0 2] /\
  exists w' pre, truncate_before 3 sample_log = (w', Ok tt) /\
    sample_records = pre ++ kept 3 sample_records /\
    Forall (fun r => record_lsn r < 3) pre /\ Forall (fun r => 3 <= record_lsn r) (kept 3 sample_records) /\
    WalInv w' (kept 3 sample_records) /\ wal_temp w' = None /\
    wal_current_lsn w' = wal_current_lsn sample_log.
Proof.
  split; [vm_compute; reflexivity|].
  apply (truncate_before_keeps_suffix 3 sample_log sample_records sample_log_inv).
Defined.

(** ** Damage *)

Lemma corrupted_broken r i x y : wal_fits r = true -> wal_wire r !! i = Some y -> x <> y ->
  (4 <= i)%nat -> broken (<[i := x]> (wal_wire r)).
Proof.
  intros Hf Hi Hne H4 more. destruct (wire_corrupted r i x y Hi Hne) as (e & a & E). exists e, a.
  pose proof Hf as Hw. unfold wal_fits in Hw. rewrite !andb_true_iff in Hw. destruct Hw as [_ Hw].
  pose proof (wal_rest_length r) as Hl. unfold len in Hl.
  rewrite wal_wire_split in *. rewrite insert_app_r_alt in * by by rewrite le_encode_length.
  rewrite le_encode_length in *. set (rest := <[(i - 4)%nat := x]> (wal_rest r)) in *.
  assert (Z.of_nat (length rest) = wal_length r) as Hr by (unfold rest; by rewrite length_insert).
  rewrite <-app_assoc, decode_next_with_length by done. cbv zeta.
  rewrite take_app_length' by lia. unfold len. rewrite Hr, Z.eqb_refl, E.
  by rewrite length_app, le_encode_length.
Qed.

(** A length that points past the end of the file reads as the end of the log. *)
Lemma long_length_torn tail : (4 <= length tail)%nat -> len tail < 4 + le_decode (take 4 tail) -> torn tail.
Proof.
  intros H4 Hlong. set (n := le_decode (take 4 tail)) in *.
  assert (length (take 4 tail) = 4%nat) as Ht by (rewrite length_take; lia).
  assert (fits 4 n = true) as Hn.
  { pose proof (le_decode_bound (take 4 tail)) as H. unfold len in H. rewrite Ht in H. by apply fits_spec. }
  assert (tail = le_encode 4 n ++ drop 4 tail) as E.
  { unfold n. rewrite <-Ht at 1. by rewrite le_encode_decode, take_drop. }
  unfold torn. rewrite E, decode_next_with_length by done. cbv zeta.
  destruct (Z.eqb_spec (len (take (Z.to_nat n) (drop 4 tail))) n) as [He|]; [|done].
  unfold len in *. rewrite length_take, length_drop in He. lia.
Qed.

(** A file that holds good records, then one record with a damaged byte, then
    [rest]. *)
Definition damaged (recs : list WALRecord) (r : WALRecord) (i : nat) (x : byte) (rest : bytes) : File :=
  {| f_data := wires recs ++ <[i := x]> (wal_wire r) ++ rest; f_synced := [] |}.

(** C31. One damaged byte in a record of the log.  Behind the length prefix of
    four bytes, the damage is told from a torn tail: when a good record follows
    the damaged one, reading and replaying the log raise [DBCorruptedError], and
    the replay leaves the file alone; when nothing but a torn tail follows, both
    stop before the damaged record, and the replay cuts it off.  In the length
    prefix it need not be: when the damaged length points past the end of the
    file, both take the record for a torn tail, and the replay cuts off
    everything that follows with it, good records included, and raises nothing.
    (A damaged length that stays within the file is not covered.) *)
Theorem damaged_record_detected recs r i x y rest temp :
  Forall (fun r => wal_fits r = true) recs -> sequential 0 recs -> wal_fits r = true ->
  wal_wire r !! i = Some y -> x <> y ->
  let w := reopened (damaged recs r i x rest) temp in
  ((4 <= i)%nat ->
    (forall next more, wal_fits next = true -> rest = wal_wire next ++ more ->
      (peek_records w).2 = Raise DBCorruptedError /\
      exists w', replay id (fun w _ => w) no_callback w = (w', Raise DBCorruptedError) /\
        wal_disk w' = Some (damaged recs r i x rest)) /\
    (torn rest ->
      (peek_records w).2 = Ok recs /\
      exists w', replay id (fun w _ => w) no_callback w = (w', Ok tt) /\ WalInv w' recs)) /\
  ((i < 4)%nat -> len (wal_wire r ++ rest) < 4 + le_decode (take 4 (<[i := x]> (wal_wire r))) ->
    (peek_records w).2 = Ok recs /\
    exists w', replay id (fun w _ => w) no_callback w = (w', Ok tt) /\ WalInv w' recs).
Proof.
  intros Hfit Hseq Hr Hi Hne w. split; [intros H4; pose proof (corrupted_broken r i x y Hr Hi Hne H4) as Hb; split|].
  - intros next more Hnext ->.
    pose proof (tail_broken false _ _ _ _ Hb (tail_valid _ _ _ (decode_next_wal_wire next more Hnext))) as Ht.
    split.
    + eapply (peek_with_tail _ _ _ _ _ (Some DBCorruptedError)); [done|done|reflexivity|exact Ht|done|done].
    + eapply (replay_alone _ _ _ _ _ (Some DBCorruptedError)); [done|done|exact Ht|done|done|reflexivity].
  - intros Htorn. destruct (torn_end true rest Htorn) as (n & Hn).
    pose proof (tail_broken false _ _ _ _ Hb Hn) as Ht. split.
    + eapply (peek_with_tail _ _ _ _ _ None); [done|done|reflexivity|exact Ht|done|done].
    + eapply (replay_alone _ _ _ _ _ None); [done|done|exact Ht|done|done|reflexivity].
  - intros _ Hlong. pose proof (wal_wire_length r) as Hl. pose proof (wal_length_pos r). unfold len in Hl.
    destruct (torn_end false (<[i := x]> (wal_wire r) ++ rest)) as (n & Ht).
    { apply long_length_torn; [rewrite length_app, length_insert; lia|].
      rewrite take_app_le by (rewrite length_insert; lia). unfold len in *. by rewrite length_app, length_insert, <-length_app. }
    split.
    + eapply (peek_with_tail _ _ _ _ _ None); [done|done|reflexivity|exact Ht|done|done].
    + eapply (replay_alone _ _ _ _ _ None); [done|done|exact Ht|done|done|reflexivity].
Qed.

Lemma damaged_record_detected_witness :
  let r := WALDeleteRecord 4 [x61] in
  let next := WALDeleteRecord 5 [x61] in
  let w i rest := reopened (damaged sample_records r i x99 rest) None in
  (peek_records (w 13%nat (wal_wire next))).2 = Raise DBCorruptedError /\
  (peek_records (w 13%nat [])).2 = Ok sample_records /\
  (peek_records (w 3%nat (wal_wire next))).2 = Ok sample_records.
Proof.
  assert (wal_wire (WALDeleteRecord 4 [x61]) !! 13%nat = Some x01) as Hi by (vm_compute; reflexivity).
  assert (wal_wire (WALDeleteRecord 4 [x61]) !! 3%nat = Some x00) as Hi3 by (vm_compute; reflexivity).
  destruct sample_log_inv as [_ _ Hfit Hseq _]. split; [|split].
  - destruct (damaged_record_detected sample_records (WALDeleteRecord 4 [x61]) 13 x99 x01
      (wal_wire (WALDeleteRecord 5 [x61])) None Hfit Hseq eq_refl Hi ltac:(discriminate)) as [H _].
    apply (proj1 (H ltac:(lia)) (WALDeleteRecord 5 [x61]) []); [vm_compute; reflexivity|symmetry; apply app_nil_r].
  - destruct (damaged_record_detected sample_records (WALDeleteRecord 4 [x61]) 13 x99 x01
      [] None Hfit Hseq eq_refl Hi ltac:(discriminate)) as [H _].
    apply (proj2 (H ltac:(lia))). exact torn_nil.
  - destruct (damaged_record_detected sample_records (WALDeleteRecord 4 [x61]) 3 x99 x00
      (wal_wire (WALDeleteRecord 5 [x61])) None Hfit Hseq eq_refl Hi3 ltac:(discriminate)) as [_ H].
    apply H; [lia|vm_compute; reflexivity].
Defined.

Lemma zeros_decode n rest : (4 <= n)%nat ->
  exists m, decode_next_wal_record (replicate n x00 ++ rest) = (m, Raise StructError).
Proof.
  intros Hn. exists 4%nat. replace n with (4 + (n - 4))%nat by lia. rewrite replicate_add, <-app_assoc.
  change (replicate 4 x00) with (le_encode 4 0). rewrite decode_next_with_length by done.
  cbv zeta. change (Z.to_nat 0) with 0%nat. rewrite take_0. vm_compute. reflexivity.
Qed.

(** C32. A tail of zeros, which a file system may leave after a crash when the
    file has grown and its data has not been written, is not recovered from:
    four zero bytes read as a record of length zero whose checksum holds, the
    decoder then raises [struct.error], which the loop does not catch, so that
    reading and replaying fail and the tail is never cut off. *)
Theorem zero_tail_blocks_replay recs n temp :
  Forall (fun r => wal_fits r = true) recs -> sequential 0 recs -> (4 <= n)%nat ->
  let f := {| f_data := wires recs ++ replicate n x00; f_synced := wires recs |} in
  let w := reopened f temp in
  (peek_records w).2 = Raise StructError /\
  exists w', replay id (fun w _ => w) no_callback w = (w', Raise StructError) /\ wal_disk w' = Some f.
Proof.
  intros Hfit Hseq Hn f w. destruct (zeros_decode n [] Hn) as (m & E). rewrite app_nil_r in E.
  pose proof (tail_struct false _ _ E) as Ht. split.
  - eapply (peek_with_tail _ _ _ _ _ (Some StructError)); [done|done|reflexivity|exact Ht|done|done].
  - eapply (replay_alone _ _ _ _ _ (Some StructError)); [done|done|exact Ht|done|done|reflexivity].
Qed.

Lemma zero_tail_blocks_replay_witness :
  let f := {| f_data := wires sample_records ++ replicate 4 x00; f_synced := wires sample_records |} in
  let w := reopened f None in
  (peek_records w).2 = Raise StructError /\
  exists w', replay id (fun w _ => w) no_callback w = (w', Raise StructError) /\ wal_disk w' = Some f.
Proof.
  destruct sample_log_inv as [_ _ Hfit Hseq _].
  apply (zero_tail_blocks_replay sample_records 4 None Hfit Hseq). lia.
Defined.

(** C33. Reading always ends: whatever the bytes of the file and whether the log
    is open or not, listing the records, rotating the log and replaying it with
    callbacks that end, all end; the file's length bounds the rounds. *)
Theorem log_scan_terminates {T : Type} (get : T -> WAL) (set : WAL -> T -> T) callback s w lsn :
  WalLens get set -> independent set callback -> (forall r s, (callback r s).2 <> Raise OutOfFuel) ->
  (peek_records w).2 <> Raise OutOfFuel /\ (truncate_before lsn w).2 <> Raise OutOfFuel /\
  (replay get set callback s).2 <> Raise OutOfFuel.
Proof.
  intros Hlens Hind Hcb. split; [|split].
  - apply (for_records_no_fuel id (fun w _ => w)); [by intros acc r s0 s' res [= <- _]|done].
  - unfold truncate_before, mbind at 1, M_bind at 1.
    destruct (wal_file w) as [w1 [f|e]] eqn:E.
    2:{ unfold wal_file in E. mrun_in E. destruct (wal_is_open w), (wal_disk w); by simplify_eq. }
    rewrite (bind_Ok (modify (set_wal_temp (Some empty_file))) _ w1 _ tt eq_refl).
    pose proof (for_records_no_fuel id (fun w _ => w) (copy_record lsn) tt
      (set_wal_temp (Some empty_file) w1) (copy_record_keeps lsn)) as H.
    unfold mbind at 1, M_bind at 1.
    destruct (for_records _ _ _ _ _) as [w2 [[]|e]]; [done|]. apply H. intros [] r s0.
    unfold copy_record. destruct (_ <=? _); [|done]. rewrite encode_wal_record_eq. by destruct (wal_fits r).
  - unfold replay, mbind at 1, M_bind at 1.
    destruct (zoom get set wal_file s) as [s1 [f|e]] eqn:E.
    2:{ unfold zoom, wal_file in E. mrun_in E. destruct (wal_is_open (get s)), (wal_disk (get s)); by simplify_eq. }
    unfold mbind at 1, M_bind at 1. destruct (zoom get set (modify (set_lsn 0)) s1) as [s2 [[]|e]] eqn:E2; [|done].
    pose proof (for_records_no_fuel get set (replay_record get set callback) 0%nat s2
      (replay_record_keeps get set callback Hind)) as H.
    unfold mbind at 1, M_bind at 1.
    destruct (for_records _ _ _ _ _) as [s3 [pos|e]].
    + unfold zoom, truncate_tail. mrun. unfold wal_file. mrun.
      destruct (wal_is_open (get s3)) eqn:Ho, (wal_disk (get s3)) eqn:Hd; simpl; rewrite ?Ho; try done.
    + enough ((s3, @Raise nat e).2 <> Raise OutOfFuel) by (simpl in *; congruence).
      apply H. intros acc r s0. rewrite replay_record_run by done. simpl.
      specialize (Hcb r s0). destruct (callback r s0) as [s4 [[]|e']]; simpl in *; congruence.
Qed.

Lemma log_scan_terminates_witness :
  (peek_records sample_log).2 <> Raise OutOfFuel /\ (truncate_before 2 sample_log).2 <> Raise OutOfFuel /\
  (replay fst (fun w s => (w, s.2)) collecting (sample_log, [])).2 <> Raise OutOfFuel.
Proof.
  assert (WalLens (T := WAL * list WALRecord) fst (fun w s => (w, s.2))) as Hlens
    by (split; [done|done|by intros []]).
  apply (log_scan_terminates fst (fun w s => (w, s.2)) collecting (sample_log, []) sample_log 2 Hlens).
  - intros r w0 s0. reflexivity.
  - intros r s0. discriminate.
Defined.
