(* ===== verification/Debug.v ===== *)
(** * Debug helpers ([debug.py])

    The materialized tree, the breadth-first walk and the executable check of
    the structural invariants the test suite runs after every operation. *)

From S2P Require Import Prelude Bytes Float64 Entities Codec Fs Pager Cache Tree.

(** Nodes refer to their children, which are appended after the node has been
    queued: they live in a table and are referred to by their position. *)
Record BPlusTreeNode := {
  node_page_id : Z;
  node_page : loc;
  node_children : list nat;
}.

Record Walk := {
  wk_nodes : list BPlusTreeNode;       (* every node created so far *)
  wk_queue : list (nat * nat);         (* nodes to visit, with their level *)
  wk_result : list (list nat);         (* the levels *)
}.

Definition page_id_to_node (page_id : Z) : M BPlusTree BPlusTreeNode :=
  page ← in_store (pool_get page_id);
  mret {| node_page_id := page_id; node_page := page; node_children := [] |}.

(** [result[level].append(node)], creating the level when it is new. *)
Definition add_to_level (level : nat) (n : nat) (result : list (list nat)) : list (list nat) :=
  let result := if (length result <? level + 1)%nat then result ++ [[]] else result in
  alter (fun l => l ++ [n]) level result.

(** Creating a child of node [n], appending it to the node and the queue. *)
Definition add_child (n level : nat) (w : Walk) (page_id : Z) : M BPlusTree Walk :=
  child ← page_id_to_node page_id;
  let c := length (wk_nodes w) in
  mret {| wk_nodes := alter (fun nd => {| node_page_id := node_page_id nd;
                                          node_page := node_page nd;
                                          node_children := node_children nd ++ [c] |}) n (wk_nodes w)
                        ++ [child];
          wk_queue := wk_queue w ++ [(c, S level)];
          wk_result := wk_result w |}.

Fixpoint add_children (n level : nat) (w : Walk) (ids : list Z) : M BPlusTree Walk :=
  match ids with
  | [] => mret w
  | id :: ids' => w' ← add_child n level w id; add_children n level w' ids'
  end.

(** The children of an internal page, leftmost first. *)
Definition child_ids (p : InternalPage) : list Z :=
  leftmost_child_page_id p :: (child_page_id <$> internal_slots p).

Fixpoint bfs_loop (fuel : nat) (w : Walk) : M BPlusTree Walk :=
  match wk_queue w with
  | [] => mret w
  | (n, level) :: queue =>
      match fuel with
      | O => raise OutOfFuel
      | S fuel =>
          let w := {| wk_nodes := wk_nodes w; wk_queue := queue;
                      wk_result := add_to_level level n (wk_result w) |} in
          match wk_nodes w !! n with
          | None => raise IndexError
          | Some node =>
              p ← in_store (deref (node_page node));
              match p with
              | PLeaf _ => bfs_loop fuel w
              | PInternal ip => w ← add_children n level w (child_ids ip); bfs_loop fuel w
              | PFreelist _ => raise ValueError
              end
          end
      end
  end.

(** The number of pages bounds the nodes of an acyclic tree. *)
Definition bfs_walk_tree : M BPlusTree Walk :=
  meta ← in_pager get_meta;
  root ← page_id_to_node (root_page_id meta);
  bfs_loop (Z.to_nat (next_page_id meta))
    {| wk_nodes := [root]; wk_queue := [(0%nat, 0%nat)]; wk_result := [] |}.

Definition node_at (w : Walk) (n : nat) : M BPlusTree BPlusTreeNode :=
  match wk_nodes w !! n with Some nd => mret nd | None => raise IndexError end.

(** The leaf reached by always following the first or the last child. *)
Fixpoint extreme_leaf (fuel : nat) (side : Z) (w : Walk) (n : nat) : M BPlusTree LeafPage :=
  nd ← node_at w n;
  p ← in_store (deref (node_page nd));
  match p with
  | PInternal _ =>
      match fuel with
      | O => raise OutOfFuel
      | S fuel => c ← lift (py_get (node_children nd) side); extreme_leaf fuel side w c
      end
  | PLeaf lp => mret lp
  | PFreelist _ => raise AssertionError
  end.

Definition smallest_leaf_key (w : Walk) (n : nat) : M BPlusTree bytes :=
  lp ← extreme_leaf (length (wk_nodes w)) 0 w n;
  s ← lift (py_get (leaf_slots lp) 0);
  mret (lslot_key s).

Definition largest_leaf_key (w : Walk) (n : nat) : M BPlusTree bytes :=
  lp ← extreme_leaf (length (wk_nodes w)) (-1) w n;
  s ← lift (py_get (leaf_slots lp) (-1));
  mret (lslot_key s).

(** [raise_invariant_error] when the condition fails. *)
Definition check_invariant (b : bool) : M BPlusTree unit :=
  if b then mret tt else raise AssertionError.

Fixpoint keys_sorted (keys : list bytes) : bool :=
  match keys with
  | k1 :: ((k2 :: _) as keys') => negb (bytes_ltb k2 k1) && keys_sorted keys'
  | _ => true
  end.

Definition is_internal (p : Page) : bool := match p with PInternal _ => true | _ => false end.

(** The separator at [slot_idx] partitions the children around it. *)
Definition check_separator (w : Walk) (nd : BPlusTreeNode) (slot_idx : nat) (key : bytes)
    : M BPlusTree unit :=
  l ← lift (py_get (node_children nd) (Z.of_nat slot_idx));
  left_child_max ← largest_leaf_key w l;
  r ← lift (py_get (node_children nd) (Z.of_nat slot_idx + 1));
  right_child_min ← smallest_leaf_key w r;
  check_invariant (bytes_ltb left_child_max key && negb (bytes_ltb right_child_min key)).

(** The checks on one node of level [level_idx] of [level_count]. *)
Definition check_node (w : Walk) (next_page_id : Z) (level_idx level_count : nat) (n : nat)
    : M BPlusTree unit :=
  nd ← node_at w n;
  page ← in_store (deref (node_page nd));
  check_invariant (node_page_id nd <? next_page_id);;
  check_invariant (keys_sorted (page_keys page));;
  check_invariant (negb ((level_idx <? level_count - 1)%nat && is_leaf page));;
  check_invariant (negb ((level_idx =? level_count - 1)%nat && is_internal page));;
  under ← is_page_underpopulated page;
  check_invariant (negb ((0 <? level_idx)%nat && under));;
  if (level_idx <? level_count - 1)%nat then
    match page with
    | PInternal p =>
        mfor (imap (fun i s => (i, islot_key s)) (internal_slots p))
          (fun e => check_separator w nd (fst e) (snd e))
    | _ => raise AssertionError
    end
  else mret tt.

(** The loop over the leaf level: no repeated page, and consecutive leaves are
    linked and ordered. *)
Fixpoint check_leaf_chain (w : Walk) (seen : gset Z) (leaves : list nat) : M BPlusTree nat :=
  match leaves with
  | [] => mret (size seen)
  | n :: leaves' =>
      nd ← node_at w n;
      p ← deref_leaf (node_page nd);
      check_invariant (negb (bool_decide (node_page_id nd ∈ seen)));;
      match leaves' with
      | [] => mret tt
      | m :: _ =>
          next ← node_at w m;
          check_invariant (right_sibling_page_id p =? node_page_id next);;
          q ← deref_leaf (node_page next);
          last ← lift (py_get (leaf_slots p) (-1));
          first ← lift (py_get (leaf_slots q) 0);
          check_invariant (negb (bytes_ltb (lslot_key first) (lslot_key last)))
      end;;
      check_leaf_chain w ({[node_page_id nd]} ∪ seen) leaves'
  end.

Definition assert_tree_invariants : M BPlusTree unit :=
  meta ← in_pager get_meta;
  w ← bfs_walk_tree;
  let level_count := length (wk_result w) in
  mfor (imap (fun level_idx level => (level_idx, level)) (wk_result w)) (fun e =>
    mfor (snd e) (check_node w (next_page_id meta) (fst e) level_count));;
  leaf_nodes ← lift (py_get (wk_result w) (-1));
  seen ← check_leaf_chain w ∅ leaf_nodes;
  py_assert (seen =? length leaf_nodes)%nat.
