(* ===== verification/TreeSizes.v ===== *)
(** * Page sizes and the choice of a split point

    The two thresholds of [tree.py] as linear inequalities, and where
    [_choose_split_point] cuts: a leaf is always cut into two healthy halves,
    an internal page into two non-empty halves that fit a page. *)

From S2P Require Import Prelude Bytes Bisect Float64 Entities Codec PageCodecFacts Fs Pager Cache Tree.

#[local] Ltac Zify.zify_post_hook ::= Z.to_euclidean_division_equations.

(** ** Sums *)

Definition sumz (l : list Z) : Z := foldr Z.add 0 l.

Lemma sumz_app l1 l2 : sumz (l1 ++ l2) = sumz l1 + sumz l2.
Proof. unfold sumz. induction l1 as [|x l IH]; simpl; [done|]. rewrite IH. lia. Qed.

Lemma sumz_nonneg l : Forall (fun x => 0 <= x) l -> 0 <= sumz l.
Proof. unfold sumz. induction 1; simpl; lia. Qed.

Lemma sumz_take_le i j l : Forall (fun x => 0 <= x) l -> (i <= j)%nat ->
  sumz (take i l) <= sumz (take j l).
Proof.
  intros Hl Hij. replace j with (i + (j - i))%nat by lia. rewrite <-take_take_drop, sumz_app.
  pose proof (sumz_nonneg (take (j - i) (drop i l)) ltac:(by apply Forall_take, Forall_drop)). lia.
Qed.

Lemma sumz_take_drop i l : sumz (take i l) + sumz (drop i l) = sumz l.
Proof. by rewrite <-sumz_app, take_drop. Qed.

Lemma sumz_take_S i l x : l !! i = Some x -> sumz (take (S i) l) = sumz (take i l) + x.
Proof. intros H. rewrite (take_S_r _ _ _ H), sumz_app. unfold sumz at 2. simpl. lia. Qed.

Lemma sumz_drop_S i l x : l !! i = Some x -> sumz (drop i l) = x + sumz (drop (S i) l).
Proof. intros H. rewrite (drop_S _ _ _ H). done. Qed.

(** ** Sizes of pages *)

Definition leaf_sizes (slots : list LeafSlot) : list Z :=
  (fun s => calculate_leaf_slot_size s true) <$> slots.
Definition internal_sizes (slots : list InternalSlot) : list Z :=
  (fun s => calculate_internal_slot_size s true) <$> slots.

Definition leaf_body (slots : list LeafSlot) : Z := sumz (leaf_sizes slots).
Definition internal_body (slots : list InternalSlot) : Z := sumz (internal_sizes slots).

Lemma leaf_slot_size s : calculate_leaf_slot_size s true = 16 + len (lslot_key s) + len (lslot_value s).
Proof.
  unfold calculate_leaf_slot_size. change (sizeof SLOT_ENTRY) with 8.
  change (sizeof LENGTH_FIELD) with 4. lia.
Qed.

Lemma internal_slot_size s : calculate_internal_slot_size s true = 20 + len (islot_key s).
Proof.
  unfold calculate_internal_slot_size. change (sizeof SLOT_ENTRY) with 8.
  change (sizeof LENGTH_FIELD) with 4. change (sizeof PAGE_ID_FIELD) with 8. lia.
Qed.

Lemma page_size_body page : calculate_page_size page = 32 + sumz (page_slot_sizes page).
Proof. unfold calculate_page_size. by rewrite foldl_add_sum. Qed.

Lemma leaf_page_size p : calculate_page_size (PLeaf p) = 32 + leaf_body (leaf_slots p).
Proof. apply page_size_body. Qed.

Lemma internal_page_size p : calculate_page_size (PInternal p) = 32 + internal_body (internal_slots p).
Proof. apply page_size_body. Qed.

Lemma leaf_body_app l1 l2 : leaf_body (l1 ++ l2) = leaf_body l1 + leaf_body l2.
Proof. unfold leaf_body, leaf_sizes. by rewrite fmap_app, sumz_app. Qed.

Lemma internal_body_app l1 l2 : internal_body (l1 ++ l2) = internal_body l1 + internal_body l2.
Proof. unfold internal_body, internal_sizes. by rewrite fmap_app, sumz_app. Qed.

Lemma leaf_body_cons s l : leaf_body (s :: l) = 16 + len (lslot_key s) + len (lslot_value s) + leaf_body l.
Proof. rewrite <-leaf_slot_size. done. Qed.

Lemma internal_body_cons s l : internal_body (s :: l) = 20 + len (islot_key s) + internal_body l.
Proof. rewrite <-internal_slot_size. done. Qed.

Lemma len_nonneg {A} (l : list A) : 0 <= len l.
Proof. unfold len. lia. Qed.

Lemma len_app {A} (l1 l2 : list A) : len (l1 ++ l2) = len l1 + len l2.
Proof. unfold len. rewrite length_app. lia. Qed.

Lemma len_cons {A} (x : A) l : len (x :: l) = 1 + len l.
Proof. unfold len. simpl. lia. Qed.

Lemma leaf_body_nonneg l : 0 <= leaf_body l.
Proof.
  induction l as [|s l IH]; [done|]. rewrite leaf_body_cons.
  pose proof (len_nonneg (lslot_key s)). pose proof (len_nonneg (lslot_value s)). lia.
Qed.

Lemma internal_body_nonneg l : 0 <= internal_body l.
Proof.
  induction l as [|s l IH]; [done|]. rewrite internal_body_cons.
  pose proof (len_nonneg (islot_key s)). lia.
Qed.

(** The size does not depend on the LSN or the links. *)
Lemma page_size_lsn lsn p : calculate_page_size (set_page_lsn lsn p) = calculate_page_size p.
Proof. by destruct p. Qed.

(** ** The thresholds *)

(** The page sizes for which the comparisons in double precision are exact
    and a split has room to cut. *)
Definition good_page_size (ps : Z) : Prop := 128 <= ps < 2 ^ 50.

Lemma overpopulated_spec ps page : page_overpopulated ps page = true <-> ps < calculate_page_size page.
Proof. unfold page_overpopulated. apply Z.ltb_lt. Qed.

Lemma page_size_ge page : match page with PFreelist _ => True | _ => 32 <= calculate_page_size page end.
Proof.
  destruct page as [p|p|p]; [..|done].
  - rewrite internal_page_size. pose proof (internal_body_nonneg (internal_slots p)). lia.
  - rewrite leaf_page_size. pose proof (leaf_body_nonneg (leaf_slots p)). lia.
Qed.

Lemma page_size_nonneg page : 0 <= calculate_page_size page.
Proof. pose proof (page_size_ge page). destruct page; [lia|lia|done]. Qed.

Lemma underpopulated_spec ps page : good_page_size ps ->
  page_underpopulated ps page = (5 * calculate_page_size page <? 2 * ps).
Proof.
  intros Hps. unfold page_underpopulated, HALF_FULL_THRESHOLD. unfold good_page_size in Hps.
  apply half_full_exact; [apply page_size_nonneg|lia].
Qed.

Lemma underpopulated_true ps page : good_page_size ps ->
  page_underpopulated ps page = true <-> 5 * calculate_page_size page < 2 * ps.
Proof. intros H. rewrite underpopulated_spec by done. apply Z.ltb_lt. Qed.

Lemma underpopulated_false ps page : good_page_size ps ->
  page_underpopulated ps page = false <-> 2 * ps <= 5 * calculate_page_size page.
Proof. intros H. rewrite underpopulated_spec by done. apply Z.ltb_ge. Qed.

(** The largest slots, with their directory entries: what the record limit
    leaves to a leaf slot, and to a separator that is the key of a record. *)
Definition max_leaf_slot (ps : Z) : Z := (ps - 32) / 5.
Definition max_internal_slot (ps : Z) : Z := (ps - 32) / 5 + 4.

(** ** Cumulative sizes *)

Lemma cumulative_length acc l : length (cumulative acc l) = length l.
Proof. revert acc. induction l as [|x l IH]; intros acc; simpl; [done|]. by rewrite IH. Qed.

Lemma cumulative_lookup l : forall acc j x, cumulative acc l !! j = Some x ->
  x = acc + sumz (take (S j) l).
Proof.
  induction l as [|y l IH]; intros acc j x; [done|]. destruct j as [|j]; simpl.
  - intros [= <-]. unfold sumz. simpl. lia.
  - intros H. apply IH in H as ->. change (sumz (y :: take (S j) l)) with (y + sumz (take (S j) l)). lia.
Qed.

Lemma cumulative_last l : l <> [] -> py_get (cumulative 0 l) (-1) = Ok (sumz l).
Proof.
  intros Hl. destruct (cumulative 0 l) as [|c cs _] eqn:E using rev_ind.
  { apply (f_equal length) in E. rewrite cumulative_length in E. by destruct l. }
  rewrite py_get_last. f_equal.
  assert (length l = S (length cs)) as Hlen.
  { rewrite <-(cumulative_length 0), E, length_app. simpl. lia. }
  assert (cumulative 0 l !! length cs = Some c) as Hc by (rewrite E; by apply list_lookup_middle).
  apply cumulative_lookup in Hc as ->. rewrite <-Hlen, firstn_all. lia.
Qed.

(** Where [bisect_right] finds the middle of the cumulative sizes. *)
Lemma midpoint_spec l : Forall (fun x => 0 <= x) l ->
  let m := bisect_right Z.ltb (cumulative 0 l) (sumz l / 2) in
  (m <= length l)%nat /\
  (forall j, (j < m)%nat -> sumz (take (S j) l) <= sumz l / 2) /\
  (forall j, (m <= j < length l)%nat -> sumz l / 2 < sumz (take (S j) l)).
Proof.
  intros Hl m.
  assert (partition_point (Z.ltb (sumz l / 2)) (cumulative 0 l) m) as [Hm P].
  { apply bisect_right_spec. intros i j y z Hij Hy Hz. apply cumulative_lookup in Hy as ->.
    apply cumulative_lookup in Hz as ->. rewrite !Z.ltb_lt.
    pose proof (sumz_take_le (S i) (S j) l Hl ltac:(lia)). lia. }
  rewrite cumulative_length in Hm. split; [done|].
  assert (forall j, (j < length l)%nat -> (sumz l / 2 < sumz (take (S j) l)) <-> (m <= j)%nat) as H.
  { intros j Hj. destruct (lookup_lt_is_Some_2 (cumulative 0 l) j) as [y Hy].
    { by rewrite cumulative_length. }
    rewrite <-(P j y Hy), Z.ltb_lt. apply cumulative_lookup in Hy. by rewrite Hy. }
  split.
  - intros j Hj. apply Z.le_ngt. rewrite H by lia. lia.
  - intros j Hj. apply H; lia.
Qed.

(** ** The search for a balanced split *)

Lemma split_offsets_complete n (o : Z) : (1 <= n)%nat -> Z.abs o < Z.of_nat n -> o ∈ split_offsets n.
Proof.
  intros Hn Ho. unfold split_offsets. destruct (decide (o = 0)) as [->|Hne]; [left|]. right.
  apply list_elem_of_In, in_flat_map. exists (Z.to_nat (Z.abs o)). split.
  - apply in_seq. lia.
  - simpl. destruct (Z.abs_spec o) as [[? ?]|[? ?]]; [left|right; left]; lia.
Qed.

(** The chosen index: a balanced one if there is one, the byte midpoint
    otherwise. *)
Lemma split_slot_index_spec ps page :
  let l := page_slot_sizes page in
  let m := bisect_right Z.ltb (cumulative 0 l) (sumz l / 2) in
  Forall (fun x => 0 <= x) l -> l <> [] ->
  exists i, split_slot_index ps page = Ok i /\
    (((1 <= i < length l)%nat /\ split_halves_are_balanced ps page i = true) \/
     (i = m /\ forall c, (1 <= c < length l)%nat -> split_halves_are_balanced ps page c = false)).
Proof.
  intros l m Hpos Hl. unfold split_slot_index, choose_split_point. fold l.
  rewrite (cumulative_last l Hl). cbn [mbind Result_bind mret Result_ret]. fold m.
  rewrite cumulative_length. destruct (midpoint_spec l Hpos) as (Hm & _). fold m in Hm.
  assert (1 <= length l)%nat as Hn by (destruct l; [done|simpl; lia]).
  destruct (list_find _ (split_offsets (length l))) as [[k o]|] eqn:Ef.
  - apply list_find_Some in Ef as (_ & Hacc & _). cbv beta in Hacc. destruct_bools.
    eexists. split; [done|]. left. split; [lia|done].
  - eexists. split; [done|]. right. split; [done|]. intros c Hc.
    apply list_find_None in Ef. rewrite Forall_forall in Ef.
    specialize (Ef (Z.of_nat c - Z.of_nat m) ltac:(apply split_offsets_complete; lia)).
    cbv beta in Ef. replace (Z.of_nat m + (Z.of_nat c - Z.of_nat m)) with (Z.of_nat c) in Ef by lia.
    rewrite Nat2Z.id in Ef. destruct (split_halves_are_balanced ps page c); [|done].
    destruct Ef. rewrite andb_true_r. apply andb_true_intro. split; [apply Z.leb_le|apply Z.ltb_lt]; lia.
Qed.

Lemma balanced_leaf ps p i : good_page_size ps ->
  split_halves_are_balanced ps (PLeaf p) i = true <->
  2 * ps <= 5 * (32 + leaf_body (take i (leaf_slots p))) /\
  2 * ps <= 5 * (32 + leaf_body (drop i (leaf_slots p))).
Proof.
  intros Hps. unfold split_halves_are_balanced, split_halves.
  rewrite negb_true_iff, orb_false_iff, !underpopulated_false by done. by rewrite !leaf_page_size.
Qed.

Lemma balanced_internal ps p i : good_page_size ps ->
  split_halves_are_balanced ps (PInternal p) i = true <->
  2 * ps <= 5 * (32 + internal_body (take i (internal_slots p))) /\
  2 * ps <= 5 * (32 + internal_body (drop (S i) (internal_slots p))).
Proof.
  intros Hps. unfold split_halves_are_balanced, split_halves.
  rewrite negb_true_iff, orb_false_iff, !underpopulated_false by done. by rewrite !internal_page_size.
Qed.

Lemma leaf_sizes_nonneg slots : Forall (fun x => 0 <= x) (leaf_sizes slots).
Proof.
  apply Forall_fmap, Forall_forall. intros s _. simpl. rewrite leaf_slot_size.
  pose proof (len_nonneg (lslot_key s)). pose proof (len_nonneg (lslot_value s)). lia.
Qed.

Lemma internal_sizes_nonneg slots : Forall (fun x => 0 <= x) (internal_sizes slots).
Proof.
  apply Forall_fmap, Forall_forall. intros s _. simpl. rewrite internal_slot_size.
  pose proof (len_nonneg (islot_key s)). lia.
Qed.

Lemma leaf_body_take i slots : leaf_body (take i slots) = sumz (take i (leaf_sizes slots)).
Proof. unfold leaf_body, leaf_sizes. by rewrite fmap_take. Qed.

Lemma internal_body_take i slots : internal_body (take i slots) = sumz (take i (internal_sizes slots)).
Proof. unfold internal_body, internal_sizes. by rewrite fmap_take. Qed.

Lemma leaf_body_take_drop i slots : leaf_body (take i slots) + leaf_body (drop i slots) = leaf_body slots.
Proof. by rewrite <-leaf_body_app, take_drop. Qed.

Lemma internal_body_take_drop i slots s : slots !! i = Some s ->
  internal_body (take i slots) + calculate_internal_slot_size s true + internal_body (drop (S i) slots)
  = internal_body slots.
Proof.
  intros H. rewrite <-(take_drop_middle slots i s H) at 3.
  rewrite internal_body_app, internal_body_cons, internal_slot_size. lia.
Qed.

(** The first cumulative size to reach a target overshoots it by less than a slot. *)
Lemma first_reaching l target b :
  Forall (fun x => 0 <= x <= b) l -> 0 < target <= sumz l ->
  exists j, (j < length l)%nat /\ target <= sumz (take (S j) l) < target + b.
Proof.
  revert target. induction l as [|x l IH]; intros target Hl Ht; [unfold sumz in Ht; simpl in Ht; lia|].
  apply Forall_cons in Hl as [Hx Hl]. change (sumz (x :: l)) with (x + sumz l) in Ht.
  destruct (decide (target <= x)).
  - exists 0%nat. split; [simpl; lia|]. simpl. unfold sumz. simpl. lia.
  - destruct (IH (target - x) Hl ltac:(lia)) as (j & Hj & Hs). exists (S j). split; [simpl; lia|].
    change (sumz (take (S (S j)) (x :: l))) with (x + sumz (take (S j) l)). lia.
Qed.

(** An overfull leaf splits into two healthy halves, each of which fits. *)
Lemma split_leaf_balanced ps p : good_page_size ps ->
  Forall (fun s => calculate_leaf_slot_size s true <= max_leaf_slot ps) (leaf_slots p) ->
  ps < calculate_page_size (PLeaf p) <= ps + max_leaf_slot ps ->
  exists i, split_slot_index ps (PLeaf p) = Ok i /\ (1 <= i < length (leaf_slots p))%nat /\
    2 * ps <= 5 * (32 + leaf_body (take i (leaf_slots p))) <= 5 * ps /\
    2 * ps <= 5 * (32 + leaf_body (drop i (leaf_slots p))) <= 5 * ps.
Proof.
  intros Hps Hmax. rewrite leaf_page_size. intros Hsize. unfold good_page_size, max_leaf_slot in *.
  pose proof (Z.div_mod (ps - 32) 5 ltac:(lia)) as Hdm. pose proof (Z.mod_pos_bound (ps - 32) 5 ltac:(lia)).
  set (M := (ps - 32) / 5) in *.
  assert (page_slot_sizes (PLeaf p) = leaf_sizes (leaf_slots p)) as El by done.
  assert (length (leaf_sizes (leaf_slots p)) = length (leaf_slots p)) as Elen by apply length_fmap.
  assert (exists i, split_slot_index ps (PLeaf p) = Ok i /\ (1 <= i < length (leaf_slots p))%nat /\
            split_halves_are_balanced ps (PLeaf p) i = true) as (i & Ei & Hi & Hb).
  { destruct (split_slot_index_spec ps (PLeaf p)) as (i & Ei & Hi).
    { rewrite El. apply leaf_sizes_nonneg. }
    { rewrite El. intros E. unfold leaf_body in Hsize. rewrite E in Hsize. unfold sumz in Hsize. simpl in Hsize. lia. }
    rewrite El, Elen in Hi. destruct Hi as [(? & ?)|(_ & Hno)]; [by exists i|exfalso].
    destruct (first_reaching (leaf_sizes (leaf_slots p)) ((2 * ps + 4) / 5 - 32) M) as (j & Hj & Hs).
    { apply Forall_fmap. rewrite Forall_forall in *. intros s Hs. specialize (Hmax s Hs). simpl.
      split; [|done]. rewrite leaf_slot_size.
      pose proof (len_nonneg (lslot_key s)). pose proof (len_nonneg (lslot_value s)). lia. }
    { change (sumz _) with (leaf_body (leaf_slots p)). lia. }
    rewrite <-leaf_body_take in Hs. pose proof (leaf_body_take_drop (S j) (leaf_slots p)) as Hsum.
    assert (S j < length (leaf_slots p))%nat.
    { rewrite Elen in Hj. destruct (decide (S j = length (leaf_slots p))) as [E|]; [|lia].
      rewrite E, firstn_all in Hs. lia. }
    specialize (Hno (S j) ltac:(lia)). apply not_true_iff_false in Hno. apply Hno.
    apply balanced_leaf; [split; lia|]. lia. }
  exists i. split; [done|]. split; [done|]. apply balanced_leaf in Hb; [|split; lia].
  pose proof (leaf_body_take_drop i (leaf_slots p)). lia.
Qed.

(** An overfull internal page splits into two halves that fit and hold at
    least one separator each. *)
Lemma split_internal_fits ps p : good_page_size ps ->
  Forall (fun s => calculate_internal_slot_size s true <= max_internal_slot ps) (internal_slots p) ->
  ps < calculate_page_size (PInternal p) <= ps + max_internal_slot ps ->
  exists i s, split_slot_index ps (PInternal p) = Ok i /\ internal_slots p !! i = Some s /\
    (1 <= i /\ S i < length (internal_slots p))%nat /\
    32 + internal_body (take i (internal_slots p)) <= ps /\
    32 + internal_body (drop (S i) (internal_slots p)) <= ps.
Proof.
  intros Hps Hmax. rewrite internal_page_size. intros Hsize. unfold good_page_size, max_internal_slot in *.
  pose proof (Z.div_mod (ps - 32) 5 ltac:(lia)) as Hdm. pose proof (Z.mod_pos_bound (ps - 32) 5 ltac:(lia)).
  set (M := (ps - 32) / 5) in *. set (slots := internal_slots p) in *.
  assert (page_slot_sizes (PInternal p) = internal_sizes slots) as El by done.
  assert (length (internal_sizes slots) = length slots) as Elen by apply length_fmap.
  destruct (split_slot_index_spec ps (PInternal p)) as (i & Ei & Hi).
  { rewrite El. apply internal_sizes_nonneg. }
  { rewrite El. intros E. unfold internal_body in Hsize. rewrite E in Hsize. unfold sumz in Hsize. simpl in Hsize. lia. }
  rewrite El, Elen in Hi.
  destruct (midpoint_spec (internal_sizes slots) (internal_sizes_nonneg slots)) as (Hm & Hbefore & Hafter).
  rewrite Elen in *. fold (internal_body slots) in *.
  assert (0 < length slots)%nat as Hne.
  { destruct slots; [|simpl; lia]. change (internal_body []) with 0 in Hsize. lia. }
  assert (i < length slots)%nat as Hlt.
  { destruct Hi as [[? _]|[-> _]]; [lia|]. apply Nat.le_ngt. intros Hge.
    specialize (Hbefore (length slots - 1)%nat). rewrite <-internal_body_take in Hbefore.
    rewrite take_ge in Hbefore by lia. lia. }
  destruct (lookup_lt_is_Some_2 slots i Hlt) as [s Hs]. exists i, s.
  pose proof (internal_body_take_drop i slots s Hs) as Hsum.
  assert (calculate_internal_slot_size s true <= M + 4) as Hsm.
  { rewrite Forall_forall in Hmax. apply Hmax. by eapply list_elem_of_lookup_2. }
  assert (20 <= calculate_internal_slot_size s true) as Hs0
    by (rewrite internal_slot_size; pose proof (len_nonneg (islot_key s)); lia).
  assert (32 + internal_body (take i slots) <= ps /\ 32 + internal_body (drop (S i) slots) <= ps /\
          0 < internal_body (take i slots) /\ 0 < internal_body (drop (S i) slots)) as (? & ? & Hl & Hr).
  { destruct Hi as [[_ Hb]|[-> _]].
    - apply balanced_internal in Hb; [|split; lia]. fold slots in Hb. lia.
    - set (m := bisect_right _ _ _) in *.
      assert (internal_body slots / 2 < internal_body (take m slots) + calculate_internal_slot_size s true).
      { specialize (Hafter m ltac:(lia)). rewrite <-internal_body_take, (take_S_r _ _ _ Hs) in Hafter.
        rewrite internal_body_app, internal_body_cons in Hafter. rewrite internal_slot_size.
        change (internal_body []) with 0 in Hafter. lia. }
      assert (internal_body (take m slots) <= internal_body slots / 2); [|lia].
      destruct m as [|m']; [change (internal_body (take 0 slots)) with 0; lia|].
      rewrite internal_body_take. apply Hbefore. lia. }
  split; [done|]. split; [done|]. split; [|done].
  split.
  - destruct i; [|lia]. rewrite take_0 in Hl. change (internal_body []) with 0 in Hl. lia.
  - apply Nat.le_ngt. intros Hge. rewrite drop_ge in Hr by lia. change (internal_body []) with 0 in Hr. lia.
Qed.

(** When the separators are short, an internal page splits into healthy halves
    too.  The bound is exact: a tenth of the page and a little more. *)
Definition short_separator (ps : Z) (s : InternalSlot) : Prop :=
  10 * calculate_internal_slot_size s true <= ps + 160.

Lemma split_internal_balanced ps p i : good_page_size ps ->
  Forall (short_separator ps) (internal_slots p) ->
  ps < calculate_page_size (PInternal p) ->
  split_slot_index ps (PInternal p) = Ok i ->
  2 * ps <= 5 * (32 + internal_body (take i (internal_slots p))) /\
  2 * ps <= 5 * (32 + internal_body (drop (S i) (internal_slots p))).
Proof.
  intros Hps Hmax. rewrite internal_page_size. intros Hsize Ei. unfold good_page_size in *.
  set (slots := internal_slots p) in *.
  assert (page_slot_sizes (PInternal p) = internal_sizes slots) as El by done.
  assert (length (internal_sizes slots) = length slots) as Elen by apply length_fmap.
  destruct (split_slot_index_spec ps (PInternal p)) as (i' & Ei' & Hi).
  { rewrite El. apply internal_sizes_nonneg. }
  { rewrite El. intros E. unfold internal_body in Hsize. rewrite E in Hsize. unfold sumz in Hsize. simpl in Hsize. lia. }
  assert (i' = i) as -> by congruence. rewrite El, Elen in Hi.
  destruct Hi as [[_ Hb]|[_ Hno]]; [by apply balanced_internal in Hb|exfalso].
  pose proof (Z.div_mod (ps + 160) 10 ltac:(lia)) as Hdm. pose proof (Z.mod_pos_bound (ps + 160) 10 ltac:(lia)).
  pose proof (Z.div_mod (2 * ps + 4) 5 ltac:(lia)) as Hdm2. pose proof (Z.mod_pos_bound (2 * ps + 4) 5 ltac:(lia)).
  set (M := (ps + 160) / 10) in *. set (B := (2 * ps + 4) / 5) in *.
  destruct (first_reaching (internal_sizes slots) (B - 32) M) as (j & Hj & Hs).
  { apply Forall_fmap. rewrite Forall_forall in *. intros s Hs. specialize (Hmax s Hs). unfold short_separator in Hmax. simpl.
    split; [|lia]. rewrite internal_slot_size. pose proof (len_nonneg (islot_key s)). lia. }
  { change (sumz _) with (internal_body slots). lia. }
  rewrite <-internal_body_take in Hs.
  assert (S j < length slots)%nat as Hlt.
  { rewrite Elen in Hj. destruct (decide (S j = length slots)) as [E|]; [|lia]. rewrite E, firstn_all in Hs. lia. }
  destruct (lookup_lt_is_Some_2 slots (S j) Hlt) as [s Hsl]. pose proof (internal_body_take_drop (S j) slots s Hsl) as Hsum.
  assert (short_separator ps s) as Hss by (rewrite Forall_forall in Hmax; apply Hmax; by eapply list_elem_of_lookup_2).
  unfold short_separator in Hss. specialize (Hno (S j) ltac:(lia)). apply not_true_iff_false in Hno. apply Hno.
  apply balanced_internal; [split; lia|]. fold slots. lia.
Qed.
