(* ===== verification/TreeShape.v ===== *)
(** * The shape of a B+ tree

    A ghost tree gathers the pages reachable from the root.  Its in-order walk
    is one list of separators and records, strictly sorted with a separator
    just below the records of its key; everything the tree promises about
    order and contents is stated on that list.  A [frame] is an internal page
    with a hole for one child, a context the path from a page to the root. *)

From S2P Require Import Prelude Bytes Bisect Entities Codec Fs Pager Cache Tree TreeSizes.

(** ** Items *)

Inductive item :=
  | Sep (key : bytes)
  | Rec (s : LeafSlot).

Definition item_key (x : item) : bytes :=
  match x with Sep k => k | Rec s => lslot_key s end.

Definition is_sep (x : item) : bool := match x with Sep _ => true | Rec _ => false end.

(** A separator comes before the record of the same key. *)
Definition item_lt (x y : item) : Prop :=
  bytes_lt (item_key x) (item_key y) \/
  (item_key x = item_key y /\ is_sep x = true /\ is_sep y = false).

#[export] Instance item_lt_strict : StrictOrder item_lt.
Proof.
  split.
  - intros x [H|(_ & H1 & H2)]; [by apply (irreflexivity bytes_lt) in H|congruence].
  - intros x y z [Hxy|(Exy & Hx & Hy)] [Hyz|(Eyz & Hy' & Hz)]; unfold item_lt.
    + left. by etrans.
    + left. by rewrite <-Eyz.
    + left. by rewrite Exy.
    + congruence.
Qed.

Definition items_sorted : list item -> Prop := StronglySorted item_lt.

Lemma items_sorted_app l1 l2 : items_sorted (l1 ++ l2) <->
  (forall x y, x ∈ l1 -> y ∈ l2 -> item_lt x y) /\ items_sorted l1 /\ items_sorted l2.
Proof. apply StronglySorted_app. Qed.

Lemma items_sorted_cons x l : items_sorted (x :: l) <-> (forall y, y ∈ l -> item_lt x y) /\ items_sorted l.
Proof. unfold items_sorted. by rewrite StronglySorted_cons, Forall_forall. Qed.

Lemma items_sorted_drop_mid l1 l2 l3 : items_sorted (l1 ++ l2 ++ l3) -> items_sorted (l1 ++ l3).
Proof. rewrite !items_sorted_app. set_solver. Qed.

(** Inserting a separator between two neighbouring records. *)
Lemma items_sorted_insert_sep l1 a b l2 :
  items_sorted (l1 ++ Rec a :: Rec b :: l2) ->
  items_sorted (l1 ++ Rec a :: Sep (lslot_key b) :: Rec b :: l2).
Proof.
  rewrite !items_sorted_app, !items_sorted_cons.
  intros (H1 & Hs1 & Ha & Hb & Hs2).
  assert (item_lt (Rec a) (Rec b)) as Hab by (apply Ha; set_solver).
  assert (item_lt (Rec a) (Sep (lslot_key b))) as Has.
  { destruct Hab as [?|(? & ? & ?)]; [by left|done]. }
  assert (item_lt (Sep (lslot_key b)) (Rec b)) as Hsb by (by right).
  split; [|split; [done|split; [|split; [|done]]]].
  - intros x y Hx [->|[->|Hy]%elem_of_cons]%elem_of_cons.
    + apply H1; set_solver.
    + etrans; [|exact Has]. apply H1; set_solver.
    + apply H1; set_solver.
  - intros y [->|Hy]%elem_of_cons; [done|]. apply Ha. done.
  - intros y [->|Hy]%elem_of_cons; [done|]. etrans; [exact Hsb|]. by apply Hb.
Qed.

(** ** Contents *)

Definition slot_pair (s : LeafSlot) : bytes * bytes := (lslot_key s, lslot_value s).

Definition item_record (x : item) : option LeafSlot :=
  match x with Rec s => Some s | Sep _ => None end.

Definition records (l : list item) : list LeafSlot := omap item_record l.

(** The map a list of items stands for. *)
Definition contents (l : list item) : gmap bytes bytes := list_to_map (slot_pair <$> records l).

Lemma records_app l1 l2 : records (l1 ++ l2) = records l1 ++ records l2.
Proof. apply omap_app. Qed.

Lemma records_Rec slots : records (Rec <$> slots) = slots.
Proof. induction slots as [|s slots IH]; [done|]. change (s :: records (Rec <$> slots) = s :: slots). by rewrite IH. Qed.

Lemma records_sep l1 k l2 : records (l1 ++ Sep k :: l2) = records (l1 ++ l2).
Proof. rewrite !records_app. done. Qed.

Lemma elem_of_records s l : s ∈ records l <-> Rec s ∈ l.
Proof.
  unfold records. rewrite list_elem_of_omap. split.
  - intros ([k|s'] & Hx & E); [done|]. by injection E as ->.
  - intros H. by exists (Rec s).
Qed.

Lemma records_keys_lt l : items_sorted l -> keys_lt (lslot_key <$> records l).
Proof.
  induction l as [|x l IH]; [constructor|]. rewrite items_sorted_cons. intros [Hx Hs].
  destruct x as [k|s]; simpl; [by apply IH|]. apply keys_lt_cons. split; [|by apply IH].
  apply Forall_fmap, Forall_forall. intros s' Hs'. apply elem_of_records in Hs'.
  destruct (Hx _ Hs') as [H|(_ & H & _)]; [exact H|done].
Qed.

Lemma keys_lt_nodup ks : keys_lt ks -> NoDup ks.
Proof.
  induction ks as [|k ks IH]; [constructor|]. rewrite keys_lt_cons. intros [Hk Hs].
  constructor; [|by apply IH]. intros Hin. rewrite Forall_forall in Hk.
  by apply (irreflexivity bytes_lt k), Hk.
Qed.

Lemma contents_lookup l k v : items_sorted l ->
  contents l !! k = Some v <-> Rec {| lslot_key := k; lslot_value := v |} ∈ l.
Proof.
  intros Hs. unfold contents. rewrite <-elem_of_list_to_map.
  - rewrite list_elem_of_fmap. split.
    + intros ([k' v'] & [= -> ->] & H). by apply elem_of_records.
    + intros H. eexists. split; [|by apply elem_of_records]. done.
  - rewrite <-list_fmap_compose. apply keys_lt_nodup. by apply records_keys_lt.
Qed.

Lemma contents_records l l' : records l = records l' -> contents l = contents l'.
Proof. unfold contents. by intros ->. Qed.

(** ** Trees *)

#[local] Set Warnings "-register-all".

Inductive tree :=
  | Leaf (id link : Z) (slots : list LeafSlot)
  | Node (id : Z) (leftmost : tree) (kids : list (bytes * tree)).

Section tree_induction.
Context (P : tree -> Prop).
Context (HL : forall id link slots, P (Leaf id link slots)).
Context (HN : forall id c kids, P c -> Forall (fun kt => P kt.2) kids -> P (Node id c kids)).

Fixpoint tree_induction (t : tree) : P t :=
  match t with
  | Leaf id link slots => HL id link slots
  | Node id c kids =>
      HN id c kids (tree_induction c)
        ((fix go (ks : list (bytes * tree)) : Forall (fun kt => P kt.2) ks :=
            match ks with
            | [] => Forall_nil_2 _
            | kt :: ks' => Forall_cons_2 _ _ _ (tree_induction kt.2) (go ks')
            end) kids)
  end.
End tree_induction.

Definition tid (t : tree) : Z := match t with Leaf id _ _ => id | Node id _ _ => id end.

Definition kid_slot (kt : bytes * tree) : InternalSlot :=
  {| islot_key := kt.1; child_page_id := tid kt.2 |}.

(** The page of a node, with the LSN erased. *)
Definition leaf_of (link : Z) (slots : list LeafSlot) : Page :=
  PLeaf {| leaf_lsn := 0; right_sibling_page_id := link; leaf_slots := slots |}.
Definition internal_of (leftmost : Z) (slots : list InternalSlot) : Page :=
  PInternal {| internal_lsn := 0; leftmost_child_page_id := leftmost; internal_slots := slots |}.

Definition root_of (t : tree) : Page :=
  match t with
  | Leaf _ link slots => leaf_of link slots
  | Node _ c kids => internal_of (tid c) (kid_slot <$> kids)
  end.

(** The pages of a tree by id. *)
Fixpoint nodes (t : tree) : list (Z * Page) :=
  match t with
  | Leaf id link slots => [(id, leaf_of link slots)]
  | Node id c kids =>
      (id, internal_of (tid c) (kid_slot <$> kids)) :: nodes c ++ flat_map (fun kt => nodes kt.2) kids
  end.

(** The in-order walk. *)
Fixpoint flat (t : tree) : list item :=
  match t with
  | Leaf _ _ slots => Rec <$> slots
  | Node _ c kids => flat c ++ flat_map (fun kt => Sep kt.1 :: flat kt.2) kids
  end.

(** The leaves from left to right, with their sibling links. *)
Fixpoint leaves (t : tree) : list (Z * Z) :=
  match t with
  | Leaf id link _ => [(id, link)]
  | Node _ c kids => leaves c ++ flat_map (fun kt => leaves kt.2) kids
  end.

(** All leaves are at depth [h]. *)
Fixpoint uniform (h : nat) (t : tree) : Prop :=
  match h, t with
  | O, Leaf _ _ _ => True
  | S h, Node _ c kids => uniform h c /\ Forall (fun kt => uniform h kt.2) kids
  | _, _ => False
  end.

(** Each link leads to the next leaf, the last one to [e]. *)
Definition first_id (l : list (Z * Z)) (e : Z) : Z := match l with [] => e | (i, _) :: _ => i end.

Fixpoint chained (l : list (Z * Z)) (e : Z) : Prop :=
  match l with
  | [] => True
  | (_, r) :: l' => r = first_id l' e /\ chained l' e
  end.

Lemma chained_app l1 l2 e : chained (l1 ++ l2) e <-> chained l1 (first_id l2 e) /\ chained l2 e.
Proof.
  induction l1 as [|[i r] l1 IH]; simpl; [tauto|]. rewrite IH. destruct l1 as [|[j s] l1]; simpl; tauto.
Qed.

(** The walks of a list of children. *)
Definition kids_nodes (kids : list (bytes * tree)) : list (Z * Page) := flat_map (fun kt => nodes kt.2) kids.
Definition kids_flat (kids : list (bytes * tree)) : list item := flat_map (fun kt => Sep kt.1 :: flat kt.2) kids.
Definition kids_leaves (kids : list (bytes * tree)) : list (Z * Z) := flat_map (fun kt => leaves kt.2) kids.

Lemma kids_nodes_app a b : kids_nodes (a ++ b) = kids_nodes a ++ kids_nodes b.
Proof. apply flat_map_app. Qed.
Lemma kids_flat_app a b : kids_flat (a ++ b) = kids_flat a ++ kids_flat b.
Proof. apply flat_map_app. Qed.
Lemma kids_leaves_app a b : kids_leaves (a ++ b) = kids_leaves a ++ kids_leaves b.
Proof. apply flat_map_app. Qed.

(** The pages below the root. *)
Definition below (t : tree) : list (Z * Page) :=
  match t with
  | Leaf _ _ _ => []
  | Node _ c kids => nodes c ++ kids_nodes kids
  end.

Lemma nodes_below t : nodes t = (tid t, root_of t) :: below t.
Proof. by destruct t. Qed.

(** ** Contexts *)

Inductive frame :=
  | FLeftmost (id : Z) (kids : list (bytes * tree))
  | FKid (id : Z) (c : tree) (kids1 : list (bytes * tree)) (key : bytes) (kids2 : list (bytes * tree)).

Definition frame_id (f : frame) : Z := match f with FLeftmost id _ => id | FKid id _ _ _ _ => id end.

Definition frame_idx (f : frame) : Z :=
  match f with FLeftmost _ _ => -1 | FKid _ _ kids1 _ _ => Z.of_nat (length kids1) end.

Definition fill (f : frame) (t : tree) : tree :=
  match f with
  | FLeftmost id kids => Node id t kids
  | FKid id c kids1 key kids2 => Node id c (kids1 ++ (key, t) :: kids2)
  end.

(** A context lists the frames from the innermost one to the root. *)
Definition context := list frame.

Fixpoint plug (ctx : context) (t : tree) : tree :=
  match ctx with
  | [] => t
  | f :: ctx => plug ctx (fill f t)
  end.

Definition path_item (f : frame) : PathItem :=
  {| parent_page_id := frame_id f; parent_slot_index := frame_idx f |}.

Lemma tid_fill f t : tid (fill f t) = frame_id f.
Proof. by destruct f. Qed.

(** The page of a frame depends on the id of the page in the hole only. *)
Definition frame_page (f : frame) (hole : Z) : Page :=
  match f with
  | FLeftmost _ kids => internal_of hole (kid_slot <$> kids)
  | FKid _ c kids1 key kids2 =>
      internal_of (tid c) ((kid_slot <$> kids1) ++
        {| islot_key := key; child_page_id := hole |} :: (kid_slot <$> kids2))
  end.

Lemma root_of_fill f t : root_of (fill f t) = frame_page f (tid t).
Proof. destruct f; simpl; [done|]. by rewrite fmap_app. Qed.

Definition frame_siblings (f : frame) : list (Z * Page) :=
  match f with
  | FLeftmost _ kids => kids_nodes kids
  | FKid _ c kids1 _ kids2 => nodes c ++ kids_nodes kids1 ++ kids_nodes kids2
  end.

Fixpoint ctx_nodes (ctx : context) (hole : Z) : list (Z * Page) :=
  match ctx with
  | [] => []
  | f :: ctx => (frame_id f, frame_page f hole) :: frame_siblings f ++ ctx_nodes ctx (frame_id f)
  end.

Lemma below_fill f t : below (fill f t) ≡ₚ nodes t ++ frame_siblings f.
Proof.
  destruct f as [id kids|id c kids1 key kids2]; simpl; [done|].
  rewrite kids_nodes_app. change (kids_nodes ((key, t) :: kids2)) with (nodes t ++ kids_nodes kids2).
  solve_Permutation.
Qed.

Lemma nodes_plug ctx t : nodes (plug ctx t) ≡ₚ nodes t ++ ctx_nodes ctx (tid t).
Proof.
  revert t. induction ctx as [|f ctx IH]; intros t; simpl; [by rewrite app_nil_r|].
  rewrite IH, nodes_below, below_fill, tid_fill, root_of_fill. simpl. solve_Permutation.
Qed.

(** What comes before and after the hole. *)
Definition frame_pre (f : frame) : list item :=
  match f with
  | FLeftmost _ _ => []
  | FKid _ c kids1 key _ => flat c ++ kids_flat kids1 ++ [Sep key]
  end.
Definition frame_post (f : frame) : list item :=
  match f with FLeftmost _ kids => kids_flat kids | FKid _ _ _ _ kids2 => kids_flat kids2 end.

Lemma flat_fill f t : flat (fill f t) = frame_pre f ++ flat t ++ frame_post f.
Proof.
  destruct f as [id kids|id c kids1 key kids2]; simpl; [done|].
  fold (kids_flat (kids1 ++ (key, t) :: kids2)). rewrite kids_flat_app, <-!app_assoc. done.
Qed.

Fixpoint ctx_pre (ctx : context) : list item :=
  match ctx with [] => [] | f :: ctx => ctx_pre ctx ++ frame_pre f end.
Fixpoint ctx_post (ctx : context) : list item :=
  match ctx with [] => [] | f :: ctx => frame_post f ++ ctx_post ctx end.

Lemma flat_plug ctx t : flat (plug ctx t) = ctx_pre ctx ++ flat t ++ ctx_post ctx.
Proof.
  revert t. induction ctx as [|f ctx IH]; intros t; simpl; [by rewrite app_nil_r|].
  rewrite IH, flat_fill, <-!app_assoc. done.
Qed.

Definition frame_leaves_pre (f : frame) : list (Z * Z) :=
  match f with FLeftmost _ _ => [] | FKid _ c kids1 _ _ => leaves c ++ kids_leaves kids1 end.
Definition frame_leaves_post (f : frame) : list (Z * Z) :=
  match f with FLeftmost _ kids => kids_leaves kids | FKid _ _ _ _ kids2 => kids_leaves kids2 end.

Lemma leaves_fill f t : leaves (fill f t) = frame_leaves_pre f ++ leaves t ++ frame_leaves_post f.
Proof.
  destruct f as [id kids|id c kids1 key kids2]; simpl; [done|].
  fold (kids_leaves (kids1 ++ (key, t) :: kids2)). rewrite kids_leaves_app, <-!app_assoc. done.
Qed.

Fixpoint ctx_leaves_pre (ctx : context) : list (Z * Z) :=
  match ctx with [] => [] | f :: ctx => ctx_leaves_pre ctx ++ frame_leaves_pre f end.
Fixpoint ctx_leaves_post (ctx : context) : list (Z * Z) :=
  match ctx with [] => [] | f :: ctx => frame_leaves_post f ++ ctx_leaves_post ctx end.

Lemma leaves_plug ctx t : leaves (plug ctx t) = ctx_leaves_pre ctx ++ leaves t ++ ctx_leaves_post ctx.
Proof.
  revert t. induction ctx as [|f ctx IH]; intros t; simpl; [by rewrite app_nil_r|].
  rewrite IH, leaves_fill, <-!app_assoc. done.
Qed.

Definition frame_uniform (h : nat) (f : frame) : Prop :=
  match f with
  | FLeftmost _ kids => Forall (fun kt => uniform h kt.2) kids
  | FKid _ c kids1 _ kids2 =>
      uniform h c /\ Forall (fun kt => uniform h kt.2) kids1 /\ Forall (fun kt => uniform h kt.2) kids2
  end.

Lemma uniform_fill h f t : uniform h (fill f t) <->
  exists h', h = S h' /\ frame_uniform h' f /\ uniform h' t.
Proof.
  split.
  - destruct h as [|h]; [by destruct f|]. intros H. exists h. split; [done|].
    destruct f as [id kids|id c kids1 key kids2]; simpl in *; [tauto|].
    destruct H as [? H]. apply Forall_app in H as [? [? ?]%Forall_cons]. tauto.
  - intros (h' & -> & Hf & Ht). destruct f as [id kids|id c kids1 key kids2]; simpl in *; [tauto|].
    destruct Hf as (? & ? & ?). split; [done|]. apply Forall_app. split; [done|]. by constructor.
Qed.

Fixpoint ctx_uniform (h : nat) (ctx : context) : Prop :=
  match ctx with [] => True | f :: ctx => frame_uniform h f /\ ctx_uniform (S h) ctx end.

Lemma uniform_plug h ctx t : uniform h (plug ctx t) <->
  exists h', h = (h' + length ctx)%nat /\ ctx_uniform h' ctx /\ uniform h' t.
Proof.
  revert h t. induction ctx as [|f ctx IH]; intros h t; simpl.
  - split; [intros H; exists h; split; [lia|done]|intros (h' & -> & _ & H); by rewrite Nat.add_0_r].
  - rewrite IH. split.
    + intros (h1 & -> & Hc & Hf). apply uniform_fill in Hf as (h' & -> & Hf & Ht).
      exists h'. split; [lia|done].
    + intros (h' & -> & (Hf & Hc) & Ht). exists (S h'). split; [lia|]. split; [done|].
      apply uniform_fill. eauto.
Qed.

Lemma uniform_unique h h' t : uniform h t -> uniform h' t -> h = h'.
Proof.
  revert h h'. induction t as [|id c kids IH _] using tree_induction; intros [|h] [|h']; simpl; try done.
  intros [H1 _] [H2 _]. f_equal. eauto.
Qed.
