(* ===== verification/TreeSteps.v ===== *)
(** * The rewrites of the rebalancing cascade

    A split, a redistribution and a merge each replace one or two neighbouring
    children of a page by one or two others.  Every such [Morph] keeps the
    records, their order, the uniform depth and the chain of leaves, in any
    context. *)

From S2P Require Import Prelude Bytes Bisect Entities Codec Fs Pager Cache Tree TreeSizes TreeShape.

(** ** Well-formed trees *)

(** Keys are bounded by [kmax] and records by the record limit. *)
Definition item_fits (ps kmax : Z) (x : item) : Prop :=
  len (item_key x) <= kmax /\
  match x with Rec s => calculate_leaf_slot_size s true <= max_leaf_slot ps | Sep _ => True end.

Record Wf (ps kmax : Z) (t : tree) : Prop := {
  wf_uniform : exists h, uniform h t;
  wf_sorted : items_sorted (flat t);
  wf_chained : chained (leaves t) 0;
  wf_fits : Forall (item_fits ps kmax) (flat t);
}.

(** Keys for which internal pages always split into healthy halves, and two
    that cannot be redistributed always fit one page. *)
Definition small_keys (ps kmax : Z) : Prop := 10 * kmax + 40 <= ps.

(** A healthy page: it fits and is two fifths full at least. *)
Definition page_ok (ps : Z) (p : Page) : Prop :=
  calculate_page_size p <= ps /\ 2 * ps <= 5 * calculate_page_size p.

(** What is asked of the root. *)
Definition root_ok (ps : Z) (p : Page) : Prop :=
  calculate_page_size p <= ps /\ match p with PInternal q => internal_slots q <> [] | _ => True end.

(** The page [e] of a tree whose root has the id [r]. *)
Definition placed (ps r : Z) (e : Z * Page) : Prop := page_ok ps e.2 \/ (e.1 = r /\ root_ok ps e.2).

Definition pages_ok (ps r : Z) (ns : list (Z * Page)) : Prop := Forall (placed ps r) ns.

#[export] Instance pages_ok_perm ps r : Proper ((≡ₚ) ==> iff) (pages_ok ps r).
Proof. intros a b H. unfold pages_ok. by rewrite H. Qed.

Lemma pages_ok_app ps r ns1 ns2 : pages_ok ps r (ns1 ++ ns2) <-> pages_ok ps r ns1 /\ pages_ok ps r ns2.
Proof. apply Forall_app. Qed.

Lemma pages_ok_cons ps r e ns : pages_ok ps r (e :: ns) <-> placed ps r e /\ pages_ok ps r ns.
Proof. apply Forall_cons. Qed.

Lemma page_ok_placed ps r id p : page_ok ps p -> placed ps r (id, p).
Proof. by left. Qed.

Lemma page_ok_root ps p : 80 < ps -> page_ok ps p -> root_ok ps p.
Proof.
  intros Hps [Hsz Hh]. split; [done|]. destruct p as [q|q|q]; [|done..]. intros E.
  rewrite internal_page_size, E in Hh. change (internal_body []) with 0 in Hh. lia.
Qed.

Lemma placed_root ps r e : 80 < ps -> placed ps r e -> root_ok ps e.2.
Proof. intros Hps [H|[_ H]]; [by apply page_ok_root|done]. Qed.

Lemma placed_other ps r e : e.1 <> r -> placed ps r e -> page_ok ps e.2.
Proof. intros Hne [H|[? _]]; done. Qed.

(** Pages that are not the root stay healthy when the root changes. *)
Lemma pages_ok_reroot ps r r' ns : r ∉ ns.*1 -> pages_ok ps r ns -> pages_ok ps r' ns.
Proof.
  unfold pages_ok. rewrite !Forall_forall. intros Hr H e He. left. apply (placed_other ps r); [|by apply H].
  intros <-. apply Hr. apply list_elem_of_fmap. by exists e.
Qed.

(** ** Neighbouring children *)

(** The frame filled with a child and further children right after it. *)
Definition fills (f : frame) (t : tree) (rest : list (bytes * tree)) : tree :=
  match f with
  | FLeftmost id kids => Node id t (rest ++ kids)
  | FKid id c kids1 key kids2 => Node id c (kids1 ++ (key, t) :: rest ++ kids2)
  end.

Lemma fills_nil f t : fills f t [] = fill f t.
Proof. by destruct f. Qed.

Definition seg_flat (t : tree) (rest : list (bytes * tree)) : list item := flat t ++ kids_flat rest.
Definition seg_leaves (t : tree) (rest : list (bytes * tree)) : list (Z * Z) := leaves t ++ kids_leaves rest.
Definition seg_nodes (t : tree) (rest : list (bytes * tree)) : list (Z * Page) := nodes t ++ kids_nodes rest.
Definition seg_uniform (h : nat) (t : tree) (rest : list (bytes * tree)) : Prop :=
  uniform h t /\ Forall (fun kt => uniform h kt.2) rest.

Lemma flat_fills f t rest : flat (fills f t rest) = frame_pre f ++ seg_flat t rest ++ frame_post f.
Proof.
  destruct f as [id kids|id c kids1 key kids2]; unfold seg_flat; simpl.
  - fold (kids_flat (rest ++ kids)). by rewrite kids_flat_app, app_assoc.
  - fold (kids_flat (kids1 ++ (key, t) :: rest ++ kids2)). rewrite kids_flat_app.
    change (kids_flat ((key, t) :: rest ++ kids2)) with (Sep key :: flat t ++ kids_flat (rest ++ kids2)).
    rewrite kids_flat_app, <-!app_assoc. done.
Qed.

Lemma leaves_fills f t rest :
  leaves (fills f t rest) = frame_leaves_pre f ++ seg_leaves t rest ++ frame_leaves_post f.
Proof.
  destruct f as [id kids|id c kids1 key kids2]; unfold seg_leaves; simpl.
  - fold (kids_leaves (rest ++ kids)). by rewrite kids_leaves_app, app_assoc.
  - fold (kids_leaves (kids1 ++ (key, t) :: rest ++ kids2)). rewrite kids_leaves_app.
    change (kids_leaves ((key, t) :: rest ++ kids2)) with (leaves t ++ kids_leaves (rest ++ kids2)).
    rewrite kids_leaves_app, <-!app_assoc. done.
Qed.

Lemma uniform_fills h f t rest : uniform h (fills f t rest) <->
  exists h', h = S h' /\ frame_uniform h' f /\ seg_uniform h' t rest.
Proof.
  unfold seg_uniform. split.
  - destruct h as [|h]; [by destruct f|]. intros H. exists h. split; [done|].
    destruct f as [id kids|id c kids1 key kids2]; simpl in *.
    + rewrite Forall_app in H. tauto.
    + rewrite Forall_app, Forall_cons, Forall_app in H. tauto.
  - intros (h' & -> & Hf & Ht). destruct f as [id kids|id c kids1 key kids2]; simpl in *.
    + rewrite Forall_app. tauto.
    + rewrite Forall_app, Forall_cons, Forall_app. tauto.
Qed.

Lemma tid_fills f t rest : tid (fills f t rest) = frame_id f.
Proof. by destruct f. Qed.

(** The slots of a frame's page before and after the place for new children,
    and its page with the slots [mid] there. *)
Definition frame_lm (f : frame) (hole : Z) : Z :=
  match f with FLeftmost _ _ => hole | FKid _ c _ _ _ => tid c end.
Definition frame_slots1 (f : frame) (hole : Z) : list InternalSlot :=
  match f with
  | FLeftmost _ _ => []
  | FKid _ _ kids1 key _ => (kid_slot <$> kids1) ++ [{| islot_key := key; child_page_id := hole |}]
  end.
Definition frame_slots2 (f : frame) : list InternalSlot :=
  match f with FLeftmost _ kids => kid_slot <$> kids | FKid _ _ _ _ kids2 => kid_slot <$> kids2 end.

Definition frame_page_with (f : frame) (hole : Z) (mid : list InternalSlot) : Page :=
  internal_of (frame_lm f hole) (frame_slots1 f hole ++ mid ++ frame_slots2 f).

Lemma root_of_fills f t rest : root_of (fills f t rest) = frame_page_with f (tid t) (kid_slot <$> rest).
Proof.
  destruct f as [id kids|id c kids1 key kids2]; unfold frame_page_with; simpl.
  - by rewrite fmap_app.
  - by rewrite fmap_app, fmap_cons, fmap_app, <-app_assoc.
Qed.

Lemma frame_slots1_length f hole : Z.of_nat (length (frame_slots1 f hole)) = frame_idx f + 1.
Proof. destruct f; simpl; [done|]. rewrite length_app, length_fmap. simpl. lia. Qed.

Lemma below_fills f t rest : below (fills f t rest) ≡ₚ seg_nodes t rest ++ frame_siblings f.
Proof.
  destruct f as [id kids|id c kids1 key kids2]; unfold seg_nodes; simpl.
  - rewrite kids_nodes_app. solve_Permutation.
  - rewrite kids_nodes_app. change (kids_nodes ((key, t) :: rest ++ kids2)) with
      (nodes t ++ kids_nodes (rest ++ kids2)). rewrite kids_nodes_app. solve_Permutation.
Qed.

(** ** Morphisms *)

Record Morph (ps kmax : Z) (t : tree) (rest : list (bytes * tree))
    (t' : tree) (rest' : list (bytes * tree)) : Prop := {
  mo_uniform : forall h, seg_uniform h t rest -> seg_uniform h t' rest';
  mo_sorted : forall l1 l2, items_sorted (l1 ++ seg_flat t rest ++ l2) ->
    items_sorted (l1 ++ seg_flat t' rest' ++ l2);
  mo_chained : forall e, chained (seg_leaves t rest) e -> chained (seg_leaves t' rest') e;
  mo_first : forall e, first_id (seg_leaves t' rest') e = first_id (seg_leaves t rest) e;
  mo_fits : Forall (item_fits ps kmax) (seg_flat t rest) -> Forall (item_fits ps kmax) (seg_flat t' rest');
  mo_records : records (seg_flat t' rest') = records (seg_flat t rest);
}.

(** A rewrite of a whole tree: the same records, and [g] levels more at most. *)
Definition low (h : nat) (t : tree) : Prop := exists h', (h' <= h)%nat /\ uniform h' t.

Record Kept (g : nat) (t t' : tree) : Prop := {
  kp_records : records (flat t') = records (flat t);
  kp_low : forall h, low h t -> low (g + h) t';
}.

Lemma kept_refl t : Kept 0 t t.
Proof. by split. Qed.

Lemma kept_trans g1 g2 t1 t2 t3 : Kept g1 t1 t2 -> Kept g2 t2 t3 -> Kept (g2 + g1) t1 t3.
Proof.
  intros [R1 L1] [R2 L2]. split; [by rewrite R2|]. intros h H. rewrite <-Nat.add_assoc. auto.
Qed.

Lemma kept_more t t' : Kept 0 t t' -> Kept 1 t t'.
Proof. intros [R L]. split; [done|]. intros h H. destruct (L h H) as (h' & ? & ?). exists h'. split; [lia|done]. Qed.

Lemma kept_uniform g t t' : (forall h, uniform h t -> uniform (g + h) t') ->
  records (flat t') = records (flat t) -> Kept g t t'.
Proof. intros Hu Hr. split; [done|]. intros h (h' & Hh & Hu'). exists (g + h')%nat. split; [lia|auto]. Qed.

Lemma first_id_app l1 l2 e : first_id (l1 ++ l2) e = first_id l1 (first_id l2 e).
Proof. destruct l1 as [|[]]; done. Qed.

Lemma chained_subst l1 l l' l2 e :
  (forall e, chained l e -> chained l' e) -> (forall e, first_id l' e = first_id l e) ->
  chained (l1 ++ l ++ l2) e -> chained (l1 ++ l' ++ l2) e.
Proof.
  intros Hc Hf. rewrite !chained_app, !first_id_app, Hf. intros (H1 & H2 & H3). auto.
Qed.

Lemma wf_morph ps kmax ctx f t rest t' rest' :
  Morph ps kmax t rest t' rest' -> Wf ps kmax (plug ctx (fills f t rest)) ->
  Wf ps kmax (plug ctx (fills f t' rest')) /\
  Kept 0 (plug ctx (fills f t rest)) (plug ctx (fills f t' rest')).
Proof.
  intros [Hu Hs Hc Hf Hi Hr] [[h Uh] Wsort Wc Wf_].
  assert (forall h, uniform h (plug ctx (fills f t rest)) -> uniform h (plug ctx (fills f t' rest'))) as Hun.
  { intros h0 U. apply uniform_plug in U as (h' & -> & Hctx & Ht). apply uniform_plug.
    exists h'. split; [done|]. split; [done|].
    apply uniform_fills in Ht as (h2 & -> & Hfr & Hseg). apply uniform_fills. eauto. }
  rewrite !flat_plug, !flat_fills in *. split; [split|].
  - exists h. auto.
  - rewrite flat_plug, flat_fills.
    specialize (Hs (ctx_pre ctx ++ frame_pre f) (frame_post f ++ ctx_post ctx)).
    rewrite <-!app_assoc in *. auto.
  - rewrite leaves_plug, leaves_fills in *.
    pose proof (chained_subst (ctx_leaves_pre ctx ++ frame_leaves_pre f) _ _
      (frame_leaves_post f ++ ctx_leaves_post ctx) 0 Hc Hf) as H. rewrite <-!app_assoc in *. auto.
  - rewrite flat_plug, flat_fills. rewrite !Forall_app in *. tauto.
  - apply kept_uniform; [done|]. rewrite !flat_plug, !flat_fills, !records_app. by rewrite Hr.
Qed.

(** A split of the root: the two halves under a new page. *)
Lemma wf_morph_root ps kmax id t t' rest' :
  Morph ps kmax t [] t' rest' -> Wf ps kmax t -> Wf ps kmax (Node id t' rest') /\
  Kept 1 t (Node id t' rest').
Proof.
  intros [Hu Hs Hc Hf Hi Hr] [[h Uh] Wsort Wc Wf_].
  assert (seg_flat t [] = flat t) as Et by (unfold seg_flat; by rewrite app_nil_r).
  assert (seg_leaves t [] = leaves t) as El by (unfold seg_leaves; by rewrite app_nil_r).
  rewrite Et in *. rewrite El in *.
  assert (forall h, uniform h t -> uniform (S h) (Node id t' rest')) as Hun by (intros h0 U; apply (Hu h0); by split).
  split; [split|].
  - exists (S h). auto.
  - specialize (Hs [] []). simpl in Hs. rewrite !app_nil_r in Hs. by apply Hs.
  - by apply Hc.
  - by apply Hi.
  - by apply kept_uniform.
Qed.

(** The collapse of a root without separators. *)
Lemma wf_collapse ps kmax id t : Wf ps kmax (Node id t []) -> Wf ps kmax t /\
  Kept 0 (Node id t []) t.
Proof.
  intros [[h Uh] Hs Hc Hf]. simpl in *. rewrite app_nil_r in *. split.
  - split; [|done..]. destruct h as [|h]; [done|]. exists h. by destruct Uh.
  - split; [simpl; by rewrite app_nil_r|]. intros h0 (h' & Hh & Hu). destruct h' as [|h']; [done|].
    destruct Hu as [Hu _]. exists h'. split; [lia|done].
Qed.

(** *** Splits *)

Lemma morph_split_leaf ps kmax id link slots i new s :
  (1 <= i)%nat -> slots !! i = Some s ->
  Morph ps kmax (Leaf id link slots) [] (Leaf id new (take i slots))
    [(lslot_key s, Leaf new link (drop i slots))].
Proof.
  intros Hi Hs. destruct (lookup_lt_is_Some_2 slots (i - 1)) as [a Ha].
  { apply lookup_lt_Some in Hs. lia. }
  assert (slots = take (i - 1) slots ++ a :: s :: drop (S i) slots) as E.
  { rewrite <-(take_drop_middle slots (i - 1) a Ha) at 1. do 2 f_equal.
    replace (S (i - 1)) with i by lia. by apply drop_S. }
  assert (take i slots = take (i - 1) slots ++ [a]) as Et
    by (replace i with (S (i - 1)) at 1 by lia; by apply take_S_r).
  assert (drop i slots = s :: drop (S i) slots) as Ed by (by apply drop_S).
  assert (seg_flat (Leaf id link slots) [] = (Rec <$> take (i - 1) slots) ++ Rec a :: Rec s :: (Rec <$> drop (S i) slots)) as Ef.
  { unfold seg_flat. simpl. rewrite app_nil_r. rewrite E at 1. by rewrite fmap_app. }
  assert (seg_flat (Leaf id new (take i slots)) [(lslot_key s, Leaf new link (drop i slots))] =
    (Rec <$> take (i - 1) slots) ++ Rec a :: Sep (lslot_key s) :: Rec s :: (Rec <$> drop (S i) slots)) as Ef'.
  { unfold seg_flat. simpl. rewrite Et, Ed, fmap_app, app_nil_r, <-app_assoc. done. }
  split.
  - intros [|h]; [|by intros []]. intros _. split; [done|]. by constructor.
  - intros l1 l2. rewrite Ef, Ef', <-!app_assoc. simpl. rewrite !app_assoc. apply items_sorted_insert_sep.
  - intros e. simpl. tauto.
  - done.
  - rewrite Ef, Ef', !Forall_app, !Forall_cons. intros (? & ? & Hfit & ?).
    split; [done|]. split; [done|]. split; [|done]. by destruct Hfit.
  - by rewrite Ef, Ef', !records_app.
Qed.

(** Rewrites of internal pages keep the walk itself. *)
Lemma morph_flat_eq ps kmax t rest t' rest' :
  (forall h, seg_uniform h t rest -> seg_uniform h t' rest') ->
  seg_flat t' rest' = seg_flat t rest -> seg_leaves t' rest' = seg_leaves t rest ->
  Morph ps kmax t rest t' rest'.
Proof. intros Hu Ef El. split; rewrite ?Ef, ?El; done. Qed.

(** The children of two neighbouring internal pages and the separator between
    them, seen as one list. *)
Lemma morph_respread ps kmax id1 c1 kids1 k id2 c2 kids2 kids1' k' c2' kids2' :
  kids1 ++ (k, c2) :: kids2 = kids1' ++ (k', c2') :: kids2' ->
  Morph ps kmax (Node id1 c1 kids1) [(k, Node id2 c2 kids2)]
    (Node id1 c1 kids1') [(k', Node id2 c2' kids2')].
Proof.
  intros E.
  assert (forall a k c b, seg_flat (Node id1 c1 a) [(k, Node id2 c b)] = flat c1 ++ kids_flat (a ++ (k, c) :: b)) as Hf.
  { intros. unfold seg_flat. simpl. rewrite app_nil_r. fold (kids_flat a) (kids_flat b).
    rewrite kids_flat_app, <-app_assoc. done. }
  assert (forall a k c b, seg_leaves (Node id1 c1 a) [(k, Node id2 c b)] = leaves c1 ++ kids_leaves (a ++ (k, c) :: b)) as Hl.
  { intros. unfold seg_leaves. simpl. rewrite app_nil_r. fold (kids_leaves a) (kids_leaves b).
    rewrite kids_leaves_app, <-app_assoc. done. }
  apply morph_flat_eq; [|by rewrite !Hf, E|by rewrite !Hl, E].
  intros [|h]; [by intros []|]. unfold seg_uniform. simpl. rewrite !Forall_cons, !Forall_nil. simpl.
  intros ((Hc & H1) & (H2c & H2) & _).
  assert (Forall (fun kt => uniform h kt.2) (kids1' ++ (k', c2') :: kids2')) as H.
  { rewrite <-E, Forall_app, Forall_cons. tauto. }
  rewrite Forall_app, Forall_cons in H. tauto.
Qed.

Lemma morph_split_internal ps kmax id c kids1 k c' kids2 new :
  Morph ps kmax (Node id c (kids1 ++ (k, c') :: kids2)) []
    (Node id c kids1) [(k, Node new c' kids2)].
Proof.
  apply morph_flat_eq.
  - intros [|h]; [by intros []|]. unfold seg_uniform. simpl. rewrite Forall_app, !Forall_cons, !Forall_nil. simpl. tauto.
  - unfold seg_flat. simpl. fold (kids_flat (kids1 ++ (k, c') :: kids2)) (kids_flat kids1) (kids_flat kids2).
    by rewrite kids_flat_app, !app_nil_r, <-app_assoc.
  - unfold seg_leaves. simpl. fold (kids_leaves (kids1 ++ (k, c') :: kids2)) (kids_leaves kids1) (kids_leaves kids2).
    by rewrite kids_leaves_app, !app_nil_r, <-app_assoc.
Qed.

Lemma morph_merge_internal ps kmax id1 c1 kids1 k id2 c2 kids2 :
  Morph ps kmax (Node id1 c1 kids1) [(k, Node id2 c2 kids2)]
    (Node id1 c1 (kids1 ++ (k, c2) :: kids2)) [].
Proof.
  apply morph_flat_eq.
  - intros [|h]; [by intros []|]. unfold seg_uniform. simpl. rewrite Forall_app, !Forall_cons, !Forall_nil. simpl. tauto.
  - unfold seg_flat. simpl. fold (kids_flat (kids1 ++ (k, c2) :: kids2)) (kids_flat kids1) (kids_flat kids2).
    by rewrite kids_flat_app, !app_nil_r, <-app_assoc.
  - unfold seg_leaves. simpl. fold (kids_leaves (kids1 ++ (k, c2) :: kids2)) (kids_leaves kids1) (kids_leaves kids2).
    by rewrite kids_leaves_app, !app_nil_r, <-app_assoc.
Qed.

(** *** Leaves *)

Lemma seg_flat_leaves id1 l1 slots1 k id2 l2 slots2 :
  seg_flat (Leaf id1 l1 slots1) [(k, Leaf id2 l2 slots2)] = (Rec <$> slots1) ++ Sep k :: (Rec <$> slots2).
Proof. unfold seg_flat. simpl. by rewrite app_nil_r. Qed.

Lemma morph_merge_leaf ps kmax id1 l1 slots1 k id2 l2 slots2 :
  Morph ps kmax (Leaf id1 l1 slots1) [(k, Leaf id2 l2 slots2)] (Leaf id1 l2 (slots1 ++ slots2)) [].
Proof.
  assert (seg_flat (Leaf id1 l2 (slots1 ++ slots2)) [] = (Rec <$> slots1) ++ (Rec <$> slots2)) as E.
  { unfold seg_flat. simpl. by rewrite fmap_app, app_nil_r. }
  split; rewrite ?seg_flat_leaves, ?E.
  - intros [|h]; [|by intros []]. by intros _.
  - intros a b. rewrite <-!app_assoc. change (Sep k :: (Rec <$> slots2)) with ([Sep k] ++ (Rec <$> slots2)).
    rewrite <-!app_assoc. rewrite !(app_assoc a). apply items_sorted_drop_mid.
  - intros e. simpl. tauto.
  - done.
  - rewrite !Forall_app, Forall_cons. tauto.
  - by rewrite records_sep.
Qed.

Lemma morph_respread_leaf ps kmax id1 l1 slots1 k id2 l2 slots2 a slots1' b slots2' :
  slots1 ++ slots2 = slots1' ++ a :: b :: slots2' ->
  Morph ps kmax (Leaf id1 l1 slots1) [(k, Leaf id2 l2 slots2)]
    (Leaf id1 l1 (slots1' ++ [a])) [(lslot_key b, Leaf id2 l2 (b :: slots2'))].
Proof.
  intros E. assert (seg_flat (Leaf id1 l1 (slots1' ++ [a])) [(lslot_key b, Leaf id2 l2 (b :: slots2'))] =
    (Rec <$> slots1') ++ Rec a :: Sep (lslot_key b) :: Rec b :: (Rec <$> slots2')) as Ef'.
  { rewrite seg_flat_leaves, fmap_app, <-app_assoc. done. }
  assert ((Rec <$> slots1) ++ (Rec <$> slots2) = (Rec <$> slots1') ++ Rec a :: Rec b :: (Rec <$> slots2')) as Er.
  { rewrite <-fmap_app, E, fmap_app. done. }
  split; rewrite ?Ef', ?seg_flat_leaves.
  - intros [|h]; [|by intros []]. intros _. split; [done|]. by constructor.
  - intros x y Hs. rewrite <-!app_assoc. simpl. rewrite app_assoc. apply items_sorted_insert_sep.
    rewrite <-app_assoc. change (Rec a :: Rec b :: (Rec <$> slots2') ++ y) with
      ((Rec a :: Rec b :: (Rec <$> slots2')) ++ y). rewrite (app_assoc (Rec <$> slots1')), <-Er.
    rewrite <-!app_assoc in *. change ((Sep k :: (Rec <$> slots2)) ++ y) with ([Sep k] ++ (Rec <$> slots2) ++ y) in Hs.
    rewrite (app_assoc x) in *. by eapply items_sorted_drop_mid.
  - intros e. simpl. tauto.
  - done.
  - intros H. assert (Forall (item_fits ps kmax) ((Rec <$> slots1) ++ (Rec <$> slots2))) as H'.
    { rewrite !Forall_app, Forall_cons in *. tauto. }
    rewrite Er, !Forall_app, !Forall_cons in *. destruct H' as (? & ? & Hb & ?).
    split; [done|]. split; [done|]. split; [by destruct Hb|done].
  - rewrite records_sep, Er, !records_app. done.
Qed.
