(* ===== verification/TreeSearch.v ===== *)
(** * Searching and editing a leaf

    The child an internal page routes a key to, the position of a key in a
    leaf, and what an edit of the leaf that holds a key does to the whole
    tree. *)

From S2P Require Import Prelude Bytes Bisect Entities Codec Fs Pager Cache Tree TreeSizes TreeShape TreeSteps.

(** ** Around a key *)

Definition left_of (key : bytes) (x : item) : Prop :=
  bytes_lt (item_key x) key \/ (item_key x = key /\ is_sep x = true).
Definition right_of (key : bytes) (x : item) : Prop := bytes_lt key (item_key x).

Definition located (key : bytes) (ctx : context) : Prop :=
  Forall (left_of key) (ctx_pre ctx) /\ Forall (right_of key) (ctx_post ctx).

Lemma located_nil key : located key [].
Proof. split; constructor. Qed.

Lemma left_of_sep key k x : item_lt x (Sep k) -> bytes_le k key -> left_of key x.
Proof.
  intros [H|(_ & _ & H)] Hle; [|done]. left. by eapply bytes_lt_le_trans.
Qed.

Lemma right_of_sep key k l : items_sorted (Sep k :: l) -> bytes_lt key k -> Forall (right_of key) (Sep k :: l).
Proof.
  rewrite items_sorted_cons. intros [H _] Hk. constructor; [done|]. apply Forall_forall. intros y Hy.
  unfold right_of. destruct (H y Hy) as [Hlt|(<- & _)]; [|done]. by eapply bytes_ltb_trans.
Qed.

Lemma kids_flat_seps_lt kids : items_sorted (kids_flat kids) -> keys_lt (kids.*1).
Proof.
  induction kids as [|[k t] kids IH]; [constructor|].
  change (kids_flat ((k, t) :: kids)) with (Sep k :: flat t ++ kids_flat kids).
  rewrite items_sorted_cons, items_sorted_app. intros (Hk & _ & _ & Hs). apply keys_lt_cons.
  split; [|by apply IH]. apply Forall_fmap, Forall_forall. intros [k' t'] Hin. simpl.
  destruct (Hk (Sep k')) as [H|(_ & _ & H)]; [|exact H|done].
  apply elem_of_app. right. apply list_elem_of_In, in_flat_map. exists (k', t').
  split; [by apply list_elem_of_In|]. by left.
Qed.

Lemma kid_slot_keys kids : islot_key <$> (kid_slot <$> kids) = kids.*1.
Proof. rewrite <-list_fmap_compose. done. Qed.

(** The child a page routes a key to: everything before the child is below the
    key, everything after it above. *)
Lemma route_spec id c kids key : items_sorted (flat (Node id c kids)) ->
  exists f t, Node id c kids = fill f t /\ frame_id f = id /\
    route {| internal_lsn := 0; leftmost_child_page_id := tid c; internal_slots := kid_slot <$> kids |} key
      = Ok (frame_idx f, tid t) /\
    Forall (left_of key) (frame_pre f) /\ Forall (right_of key) (frame_post f).
Proof.
  simpl. fold (kids_flat kids). rewrite items_sorted_app. intros (Hc & _ & Hk).
  pose proof (kids_flat_seps_lt _ Hk) as Hs. destruct (bisect_right_keys _ key Hs) as [Hle Hgt].
  unfold route. cbn [internal_slots leftmost_child_page_id]. rewrite kid_slot_keys.
  set (n := bisect_right bytes_ltb kids.*1 key) in *.
  assert (n <= length kids)%nat as Hn.
  { rewrite <-(length_fmap fst kids). apply bisect_right_le. intros i j y z Hij Hy Hz Hlt.
    destruct (decide (i = j)) as [->|]; [by simplify_eq|].
    apply (bytes_ltb_trans key y z); [done|]. eapply (keys_lt_lookup _ i j); [done..|lia]. }
  assert (items_sorted (kids_flat (drop n kids)) -> Forall (right_of key) (kids_flat (drop n kids))) as Hpost.
  { rewrite <-fmap_drop in Hgt. destruct (drop n kids) as [|[k t] ks]; [constructor|].
    rewrite fmap_cons, Forall_cons in Hgt. destruct Hgt as [Hgt _]. intros Hss. by apply right_of_sep. }
  rewrite <-(take_drop n kids) in Hk, Hc. rewrite kids_flat_app in Hk, Hc.
  apply items_sorted_app in Hk as (Hcross & Hk1 & Hk2). specialize (Hpost Hk2).
  destruct n as [|m] eqn:En.
  - exists (FLeftmost id kids), c. rewrite drop_0 in Hpost. by repeat split; try constructor.
  - destruct (lookup_lt_is_Some_2 kids m ltac:(lia)) as [[k t] Hkt].
    exists (FKid id c (take m kids) k (drop (S m) kids)), t. split; [|split; [done|split]].
    + simpl. by rewrite take_drop_middle.
    + replace (Z.of_nat (S m) - 1) with (Z.of_nat m) by lia. destruct (Z.eqb_spec (Z.of_nat m) (-1)); [lia|].
      rewrite (py_get_lookup _ m (kid_slot (k, t))) by (by rewrite list_lookup_fmap, Hkt).
      simpl. rewrite length_take. do 2 f_equal. lia.
    + split; [|exact Hpost]. rewrite (take_S_r _ _ _ Hkt) in Hk1, Hc.
      rewrite kids_flat_app in Hk1, Hc. change (kids_flat [(k, t)]) with (Sep k :: flat t ++ []) in Hk1, Hc.
      assert (bytes_le k key) as Hkk.
      { rewrite <-fmap_take, (take_S_r _ _ _ Hkt), fmap_app, Forall_app in Hle.
        destruct Hle as [_ Hle]. by apply Forall_cons in Hle as [? _]. }
      simpl. rewrite !Forall_app. split; [|split; [|constructor; [|constructor]]].
      * apply Forall_forall. intros x Hx. apply (left_of_sep key k); [|done]. apply Hc; [done|]. set_solver.
      * apply Forall_forall. intros x Hx. apply (left_of_sep key k); [|done].
        apply items_sorted_app in Hk1 as (H & _). apply H; [done|]. by left.
      * apply bytes_le_alt in Hkk as [?| ->]; [by left|by right].
Qed.

(** ** The position of a key in a leaf *)

Definition slot_lt (key : bytes) (s : LeafSlot) : Prop := bytes_lt (lslot_key s) key.
Definition slot_gt (key : bytes) (s : LeafSlot) : Prop := bytes_lt key (lslot_key s).

Lemma leaf_position_spec slots key : keys_lt (lslot_key <$> slots) ->
  exists l1 l2, slots = l1 ++ l2 /\ leaf_position slots key = length l1 /\
    Forall (slot_lt key) l1 /\
    match l2 with
    | s :: l2' => (lslot_key s = key \/ slot_gt key s) /\ Forall (slot_gt key) l2'
    | [] => True
    end.
Proof.
  intros Hs. destruct (bisect_left_keys _ key Hs) as [Hlt Hge]. unfold leaf_position.
  set (n := bisect_left bytes_ltb (lslot_key <$> slots) key) in *.
  assert (n <= length slots)%nat as Hn.
  { rewrite <-(length_fmap lslot_key slots). apply bisect_left_spec. intros i j y z Hij Hy Hz.
    rewrite !negb_true_iff. intros Hle. destruct (decide (i = j)) as [->|]; [by simplify_eq|].
    assert (bytes_lt y z) by (eapply (keys_lt_lookup _ i j); [done..|lia]).
    apply bytes_lt_le. by apply (bytes_le_lt_trans key y z). }
  exists (take n slots), (drop n slots). split; [by rewrite take_drop|].
  split; [rewrite length_take; lia|]. rewrite <-fmap_take, Forall_fmap in Hlt. split; [done|].
  rewrite <-fmap_drop in Hge. apply (keys_lt_drop n) in Hs. rewrite <-fmap_drop in Hs.
  destruct (drop n slots) as [|s l2]; [done|]. rewrite fmap_cons, Forall_cons in Hge.
  rewrite fmap_cons, keys_lt_cons in Hs. destruct Hge as [Hge _], Hs as [Hs _].
  rewrite Forall_fmap in Hs. apply bytes_le_alt in Hge as [Hge|Hge].
  - split; [by right|]. eapply Forall_impl; [done|]. intros x Hx.
    exact (bytes_ltb_trans _ _ _ Hge Hx).
  - subst. split; [by left|done].
Qed.

(** The three things a client does with a key in a leaf. *)
Inductive LeafCase (key : bytes) (slots : list LeafSlot) : Prop :=
  | leaf_present l1 s l2 :
      slots = l1 ++ s :: l2 -> lslot_key s = key ->
      Forall (slot_lt key) l1 -> Forall (slot_gt key) l2 ->
      leaf_lookup slots key = Some s -> leaf_position slots key = length l1 -> LeafCase key slots
  | leaf_absent l1 l2 :
      slots = l1 ++ l2 -> Forall (slot_lt key) l1 -> Forall (slot_gt key) l2 ->
      leaf_lookup slots key = None -> LeafCase key slots.

Lemma leaf_case key slots : keys_lt (lslot_key <$> slots) -> LeafCase key slots.
Proof.
  intros Hs. destruct (leaf_position_spec slots key Hs) as (l1 & l2 & -> & Hp & H1 & H2).
  assert (leaf_lookup (l1 ++ l2) key = s ← head l2; if decide (lslot_key s = key) then Some s else None) as El.
  { unfold leaf_lookup. rewrite Hp. destruct l2 as [|s l2].
    - rewrite app_nil_r. rewrite lookup_ge_None_2 by lia. done.
    - by rewrite list_lookup_middle. }
  destruct l2 as [|s l2]; simpl in El.
  - apply (leaf_absent _ _ l1 []); done.
  - destruct H2 as [[Hk|Hk] H2].
    + rewrite decide_True in El by done. by eapply leaf_present.
    + rewrite decide_False in El.
      * apply (leaf_absent _ _ l1 (s :: l2)); [done|done| |done]. by constructor.
      * intros E. unfold slot_gt in Hk. rewrite E in Hk. by apply (irreflexivity bytes_lt) in Hk.
Qed.

Definition mkslot (key value : bytes) : LeafSlot := {| lslot_key := key; lslot_value := value |}.

Lemma leaf_upsert_present key value l1 s l2 :
  leaf_lookup (l1 ++ s :: l2) key = Some s -> leaf_position (l1 ++ s :: l2) key = length l1 ->
  leaf_upsert key value (l1 ++ s :: l2) = l1 ++ mkslot key value :: l2.
Proof.
  intros Hl Hp. unfold leaf_upsert. rewrite Hl, Hp. rewrite insert_app_r_alt by lia. by rewrite Nat.sub_diag.
Qed.

Lemma leaf_upsert_absent key value l1 l2 :
  leaf_lookup (l1 ++ l2) key = None -> Forall (slot_lt key) l1 -> Forall (slot_gt key) l2 ->
  leaf_upsert key value (l1 ++ l2) = l1 ++ mkslot key value :: l2.
Proof.
  intros Hl H1 H2. unfold leaf_upsert. rewrite Hl. unfold insort_leaf, py_insert. simpl.
  rewrite fmap_app, bisect_right_app.
  - rewrite length_fmap, take_app_length, drop_app_length. done.
  - apply Forall_fmap. eapply Forall_impl; [done|]. intros x Hx. simpl. by apply bytes_lt_le.
  - apply Forall_fmap. eapply Forall_impl; [done|]. done.
Qed.

(** ** Editing the walk *)

Lemma contents_perm_cons l1 s l2 : items_sorted (l1 ++ Rec s :: l2) ->
  contents (l1 ++ Rec s :: l2) = <[lslot_key s := lslot_value s]> (contents (l1 ++ l2)) /\
  contents (l1 ++ l2) !! lslot_key s = None.
Proof.
  intros Hs. pose proof (keys_lt_nodup _ (records_keys_lt _ Hs)) as Hnd.
  assert (slot_pair <$> records (l1 ++ Rec s :: l2) ≡ₚ slot_pair s :: (slot_pair <$> records (l1 ++ l2))) as Hp.
  { rewrite !records_app, !fmap_app. change (records (Rec s :: l2)) with (s :: records l2).
    rewrite fmap_cons. solve_Permutation. }
  assert (NoDup ((slot_pair <$> records (l1 ++ Rec s :: l2)).*1)) as Hnd1
    by (by rewrite <-list_fmap_compose).
  split.
  - unfold contents. rewrite (list_to_map_proper _ _ Hnd1 Hp). done.
  - unfold contents. apply not_elem_of_list_to_map. rewrite Hp in Hnd1. rewrite fmap_cons in Hnd1.
    by apply NoDup_cons in Hnd1 as [? _].
Qed.

Lemma contents_remove l1 s l2 : items_sorted (l1 ++ Rec s :: l2) ->
  contents (l1 ++ l2) = delete (lslot_key s) (contents (l1 ++ Rec s :: l2)).
Proof. intros Hs. destruct (contents_perm_cons _ _ _ Hs) as [-> Hn]. by rewrite delete_insert_id. Qed.

Lemma items_sorted_rekey l1 s s' l2 : lslot_key s = lslot_key s' ->
  items_sorted (l1 ++ Rec s :: l2) -> items_sorted (l1 ++ Rec s' :: l2).
Proof.
  intros E. rewrite !items_sorted_app, !items_sorted_cons.
  assert (forall x, item_lt x (Rec s) -> item_lt x (Rec s')) as Hl by (unfold item_lt; simpl; by rewrite E).
  assert (forall x, item_lt (Rec s) x -> item_lt (Rec s') x) as Hr by (unfold item_lt; simpl; by rewrite E).
  intros (H & ? & ? & ?). split; [|split; [done|split; [|done]]].
  - intros x y Hx [->|Hy]%elem_of_cons; [apply Hl, H; set_solver|apply H; set_solver].
  - intros y Hy. auto.
Qed.

Lemma items_sorted_insert l1 s l2 : items_sorted (l1 ++ l2) ->
  Forall (left_of (lslot_key s)) l1 -> Forall (right_of (lslot_key s)) l2 ->
  items_sorted (l1 ++ Rec s :: l2).
Proof.
  rewrite !items_sorted_app, !items_sorted_cons, !Forall_forall. intros (H & H1 & H2) Hl Hr.
  assert (forall x, x ∈ l1 -> item_lt x (Rec s)) as Hl'.
  { intros x Hx. destruct (Hl x Hx) as [?|[? ?]]; [by left|by right]. }
  assert (forall y, y ∈ l2 -> item_lt (Rec s) y) as Hr' by (intros y Hy; left; by apply Hr).
  split; [|split; [done|split; [done|done]]].
  intros x y Hx [->|Hy]%elem_of_cons; auto.
Qed.

Lemma slots_left key slots : Forall (slot_lt key) slots -> Forall (left_of key) (Rec <$> slots).
Proof. intros H. apply Forall_fmap. eapply Forall_impl; [done|]. intros s Hs. by left. Qed.

Lemma slots_right key slots : Forall (slot_gt key) slots -> Forall (right_of key) (Rec <$> slots).
Proof. intros H. apply Forall_fmap. eapply Forall_impl; [done|]. done. Qed.

Section leaf_edit.
Context (ps kmax : Z) (ctx : context) (id link : Z) (slots : list LeafSlot) (key : bytes).
Context (Hwf : Wf ps kmax (plug ctx (Leaf id link slots))) (Hloc : located key ctx).

Lemma leaf_slots_sorted : keys_lt (lslot_key <$> slots).
Proof.
  destruct Hwf as [_ Hs _ _]. rewrite flat_plug in Hs. apply items_sorted_app in Hs as (_ & _ & Hs).
  apply items_sorted_app in Hs as (_ & Hs & _). apply records_keys_lt in Hs.
  simpl in Hs. by rewrite records_Rec in Hs.
Qed.

(** The walk around two parts of the leaf. *)
Lemma flat_leaf l1 l2 : flat (plug ctx (Leaf id link (l1 ++ l2))) =
  (ctx_pre ctx ++ (Rec <$> l1)) ++ (Rec <$> l2) ++ ctx_post ctx.
Proof. rewrite flat_plug. simpl. by rewrite fmap_app, <-!app_assoc. Qed.

Lemma contents_flat_cons l1 s l2 : flat (plug ctx (Leaf id link (l1 ++ s :: l2))) =
  (ctx_pre ctx ++ (Rec <$> l1)) ++ Rec s :: (Rec <$> l2) ++ ctx_post ctx.
Proof. by rewrite flat_leaf. Qed.

(** Only the slots of the leaf have changed. *)
Lemma wf_leaf slots' : items_sorted (flat (plug ctx (Leaf id link slots'))) ->
  Forall (item_fits ps kmax) (Rec <$> slots') -> Wf ps kmax (plug ctx (Leaf id link slots')).
Proof.
  intros Hs Hf. destruct Hwf as [[h Hu] _ Hc Hfit]. split; [|done| |].
  - exists h. apply uniform_plug in Hu as (h' & -> & Hctx & Ht). apply uniform_plug. exists h'.
    split; [done|]. split; [done|]. by destruct h'.
  - rewrite leaves_plug in *. done.
  - rewrite flat_plug in *. rewrite !Forall_app in *. tauto.
Qed.

(** Looking the key up in the leaf is looking it up in the tree. *)
Lemma search_leaf :
  lslot_value <$> leaf_lookup slots key = contents (flat (plug ctx (Leaf id link slots))) !! key.
Proof.
  destruct Hwf as [_ Hs _ _]. destruct Hloc as [Hpre Hpost].
  destruct (leaf_case key slots leaf_slots_sorted) as [l1 s l2 -> Hk H1 H2 -> _|l1 l2 -> H1 H2 ->].
  - simpl. symmetry. apply contents_lookup; [done|]. rewrite contents_flat_cons.
    apply elem_of_app. right. destruct s as [k v]. simpl in *. subst. left.
  - simpl. symmetry. apply eq_None_not_Some. intros [v Hv]. apply contents_lookup in Hv; [|done].
    rewrite flat_leaf in Hv. apply elem_of_app in Hv as [Hv|Hv].
    + assert (left_of key (Rec (mkslot key v))) as [H|[_ H]]; [|by apply (irreflexivity bytes_lt) in H|done].
      apply slots_left in H1. pose proof (Forall_app_2 _ _ _ Hpre H1) as H. rewrite Forall_forall in H. by apply H.
    + assert (right_of key (Rec (mkslot key v))) as H; [|by apply (irreflexivity bytes_lt) in H].
      apply slots_right in H2. pose proof (Forall_app_2 _ _ _ H2 Hpost) as H. rewrite Forall_forall in H. by apply H.
Qed.

(** Inserting in the leaf is inserting in the tree. *)
Lemma insert_leaf value :
  item_fits ps kmax (Rec (mkslot key value)) ->
  Wf ps kmax (plug ctx (Leaf id link (leaf_upsert key value slots))) /\
  contents (flat (plug ctx (Leaf id link (leaf_upsert key value slots)))) =
    <[key := value]> (contents (flat (plug ctx (Leaf id link slots)))).
Proof.
  intros Hfit. pose proof Hwf as [_ Hs _ Hfits]. pose proof Hloc as [Hpre Hpost].
  assert (Forall (item_fits ps kmax) (Rec <$> slots)) as Hfs.
  { rewrite flat_plug, !Forall_app in Hfits. tauto. }
  destruct (leaf_case key slots leaf_slots_sorted) as [l1 s l2 E Hk H1 H2 Hl Hp|l1 l2 E H1 H2 Hl].
  - rewrite E in Hs, Hfs, Hl, Hp |- *. rewrite (leaf_upsert_present key value l1 s l2 Hl Hp).
    rewrite contents_flat_cons in Hs. pose proof (items_sorted_rekey _ _ (mkslot key value) _ Hk Hs) as Hs'.
    split.
    + apply wf_leaf; [by rewrite contents_flat_cons|].
      rewrite fmap_app, fmap_cons, Forall_app, Forall_cons in Hfs |- *. tauto.
    + rewrite !contents_flat_cons. destruct (contents_perm_cons _ _ _ Hs') as [-> _].
      destruct (contents_perm_cons _ _ _ Hs) as [-> _]. rewrite Hk. simpl. by rewrite insert_insert_eq.
  - rewrite E in Hs, Hfs, Hl |- *. rewrite (leaf_upsert_absent key value l1 l2 Hl H1 H2). rewrite flat_leaf in Hs.
    assert (items_sorted (flat (plug ctx (Leaf id link (l1 ++ mkslot key value :: l2))))) as Hs'.
    { rewrite contents_flat_cons. apply items_sorted_insert; [done|..].
      - apply Forall_app. split; [done|]. by apply slots_left.
      - apply Forall_app. split; [|done]. by apply slots_right. }
    split.
    + apply wf_leaf; [done|]. rewrite fmap_app, Forall_app in Hfs.
      rewrite fmap_app, fmap_cons, Forall_app, Forall_cons. tauto.
    + rewrite contents_flat_cons in Hs' |- *. rewrite flat_leaf. by destruct (contents_perm_cons _ _ _ Hs') as [-> _].
Qed.

(** Deleting from the leaf is deleting from the tree. *)
Lemma delete_leaf s : leaf_lookup slots key = Some s ->
  exists rest, py_pop slots (Z.of_nat (leaf_position slots key)) = Ok (s, rest) /\
    Wf ps kmax (plug ctx (Leaf id link rest)) /\
    leaf_body rest + calculate_leaf_slot_size s true = leaf_body slots /\
    contents (flat (plug ctx (Leaf id link rest))) =
      delete key (contents (flat (plug ctx (Leaf id link slots)))).
Proof.
  intros Hlook. pose proof Hwf as [_ Hs _ Hfits].
  destruct (leaf_case key slots leaf_slots_sorted) as [l1 s' l2 E Hk H1 H2 Hl Hp|l1 l2 E H1 H2 Hl]; [|congruence].
  assert (s' = s) as -> by congruence. exists (l1 ++ l2). rewrite Hp. rewrite E in Hs, Hfits |- *.
  split; [|split; [|split]].
  - rewrite (py_pop_lookup _ _ s) by (by rewrite list_lookup_middle).
    rewrite take_app_length, (drop_app_ge l1) by lia. by replace (S (length l1) - length l1)%nat with 1%nat by lia.
  - rewrite flat_plug, !Forall_app in Hfits. apply wf_leaf.
    + rewrite contents_flat_cons in Hs. rewrite flat_leaf. by apply (items_sorted_drop_mid _ [Rec s]).
    + simpl in Hfits. rewrite fmap_app, fmap_cons, Forall_app, Forall_cons in Hfits.
      rewrite fmap_app, Forall_app. tauto.
  - rewrite !leaf_body_app, leaf_body_cons, leaf_slot_size. lia.
  - rewrite contents_flat_cons in Hs |- *. rewrite flat_leaf, (contents_remove _ s) by done. by rewrite Hk.
Qed.
End leaf_edit.

(** An insertion makes a leaf grow by at most the new slot. *)
Lemma leaf_upsert_size key value slots : keys_lt (lslot_key <$> slots) ->
  leaf_body (leaf_upsert key value slots) <= leaf_body slots + calculate_leaf_slot_size (mkslot key value) true.
Proof.
  intros Hs. destruct (leaf_case key slots Hs) as [l1 s l2 -> Hk H1 H2 Hl Hp|l1 l2 -> H1 H2 Hl].
  - rewrite (leaf_upsert_present key value l1 s l2 Hl Hp), !leaf_body_app, !leaf_body_cons, leaf_slot_size.
    pose proof (len_nonneg (lslot_key s)). pose proof (len_nonneg (lslot_value s)). simpl. lia.
  - rewrite (leaf_upsert_absent key value l1 l2 Hl H1 H2), !leaf_body_app, leaf_body_cons, leaf_slot_size. simpl. lia.
Qed.
