(* ===== verification/TreeStore.v ===== *)
(** * The pages of a tree in the store

    [Rep] says that the pool and the pager hold exactly the pages of a tree,
    and [shielded] that the next few fetches evict none of a set of pages: the
    rebalancing code changes page objects before it marks them dirty, and is
    safe because the pages it works on are the most recently used ones.  One
    rule per operation of the pool and the allocator. *)

From S2P Require Import Prelude Bytes Entities Codec Fs Pager Cache CodecFacts PageCodecFacts.
From S2P Require Import CodecTheorems PagerFacts CacheFacts CacheOps.

(** ** Representation *)

(** A page without its LSN. *)
Definition erase (p : Page) : Page := set_page_lsn 0 p.

Definition lsn_fits (p : Page) : Prop := fits 8 (page_lsn p) = true.

Definition sees (s : Store) (D : Disk) (e : Z * Page) : Prop :=
  exists p, view s D e.1 = Some p /\ erase p = e.2 /\ lsn_fits p.

(** The pages [ns] are what the store holds under their ids; every other page
    of the file is the meta page, on the freelist, or one of the [loose] pages
    that are allocated and not in the tree.  [pend] as in [StoreInv]. *)
Record Rep (pend loose : gset Z) (s : Store) (D : Disk) (ns : list (Z * Page)) : Prop := {
  rep_inv : StoreInv pend s D;
  rep_nodup : NoDup ns.*1;
  rep_sees : Forall (fun e => sees s D e /\ tree_page e.2) ns;
  rep_usable : forall i, usable D i <-> i ∈ ns.*1 \/ i ∈ loose;
  rep_loose : forall i, i ∈ loose -> i ∉ ns.*1;
  rep_entries : forall i cp, entry s i = Some cp -> i ∈ ns.*1;
}.

#[export] Instance rep_perm pend loose s D : Proper ((≡ₚ) ==> iff) (Rep pend loose s D).
Proof.
  assert (forall a b, a ≡ₚ b -> Rep pend loose s D a -> Rep pend loose s D b) as H.
  { intros a b Hp []. split; [done|by rewrite <-Hp|by rewrite <-Hp|..].
    - intros i. rewrite rep_usable0. by rewrite Hp.
    - intros i Hi. rewrite <-Hp. auto.
    - intros i cp Hi. rewrite <-Hp. eauto. }
  intros a b Hp. split; [by apply H|by apply H].
Qed.

Lemma rep_mono pend pend' loose s D ns : pend ⊆ pend' -> Rep pend loose s D ns -> Rep pend' loose s D ns.
Proof. intros Hs []. split; try done. by eapply si_mono. Qed.

Lemma erase_erase p : erase (erase p) = erase p.
Proof. by destruct p. Qed.

Lemma erase_lsn lsn p : erase (set_page_lsn lsn p) = erase p.
Proof. by destruct p. Qed.

Lemma tree_page_erase p : tree_page (erase p) <-> tree_page p.
Proof. by destruct p. Qed.

Lemma sees_view s s' D D' e : view s' D' e.1 = view s D e.1 -> sees s D e -> sees s' D' e.
Proof. intros Hv (p & Hp & ?). exists p. by rewrite Hv. Qed.

Lemma fits_max a b : fits 8 a = true -> fits 8 b = true -> fits 8 (Z.max a b) = true.
Proof. intros. destruct (Z.max_spec a b) as [[_ ->]|[_ ->]]; done. Qed.

(** ** Shielded pages *)

(** The pages in [P] survive the next [n] steps, a fetch being one step and a
    newly dirty page another. *)
Definition shielded (P : gset Z) (n : Z) (s : Store) : Prop :=
  bp_eviction_enabled (st_pool s) = false \/
  exists older newer, cache_of s = older ++ newer /\ (forall i, i ∈ P -> i ∈ newer.*1) /\
    dirty_count s + len newer + n <= bp_capacity_pages (st_pool s).

Lemma shielded_start s n : slack s n -> shielded ∅ n s.
Proof.
  intros [H|H]; [by left|right]. exists (cache_of s), []. split; [by rewrite app_nil_r|].
  split; [set_solver|]. change (len []) with 0. lia.
Qed.

Lemma shielded_slack P s n : shielded P n s -> slack s n.
Proof. intros [H|(older & newer & _ & _ & H)]; [by left|right]. unfold len in H. lia. Qed.

Lemma shielded_weaken P P' n n' s : P' ⊆ P -> n' <= n -> shielded P n s -> shielded P' n' s.
Proof.
  intros HP Hn [H|(older & newer & Hc & Hk & H)]; [by left|right]. exists older, newer.
  split; [done|]. split; [set_solver|]. lia.
Qed.

(** Forgetting the pages gives the steps back. *)
Lemma shielded_reset P n s : shielded P n s -> shielded ∅ n s.
Proof. intros H. by eapply shielded_start, shielded_slack. Qed.

Lemma all_dirty_le c1 (s : Store) c2 : cache_of s = c1 ++ c2 ->
  Forall (fun x : Z * CachedPage => cp_is_dirty x.2 = true) c1 -> len c1 <= dirty_count s.
Proof.
  intros Hc H1. unfold dirty_count, dirty_entries, len. rewrite Hc, filter_app, length_app.
  enough (length (filter (fun e : Z * CachedPage => cp_is_dirty e.2 = true) c1) = length c1) by lia.
  clear Hc. induction H1 as [|x c1 Hx H1 IH]; [done|]. rewrite filter_cons_True by done. simpl. by rewrite IH.
Qed.

Lemma victim_not_shielded P n s e : NoDup (cache_of s).*1 -> shielded P n s -> 1 <= n ->
  victim s = Some e -> e.1 ∉ P.
Proof.
  intros Hnd Hsh Hn Ev Hin. destruct (victim_entry s e Hnd Ev) as (_ & _ & c1 & c2 & Hc & Hd).
  assert (bp_eviction_enabled (st_pool s) = true /\ bp_capacity_pages (st_pool s) <= len (cache_of s)) as [Hen Hfull].
  { unfold victim in Ev. destruct (bp_eviction_enabled (st_pool s)); [|done].
    destruct (Z.leb_spec (bp_capacity_pages (st_pool s)) (len (cache_of s))); done. }
  destruct Hsh as [H|(older & newer & Hon & Hk & Hcap)]; [congruence|].
  assert (length older <= length c1)%nat as Hle.
  { apply Nat.le_ngt. intros Hlt. apply Hk in Hin. rewrite Hon, fmap_app in Hnd.
    apply NoDup_app in Hnd as (_ & Hnd & _). apply (Hnd e.1); [|done].
    apply list_elem_of_fmap. exists e. split; [done|].
    assert (cache_of s !! length c1 = Some e) as He by (rewrite Hc; by apply list_lookup_middle).
    rewrite Hon, lookup_app_l in He by lia. by eapply list_elem_of_lookup_2. }
  assert (Forall (fun x : Z * CachedPage => cp_is_dirty x.2 = true) older) as Hdo.
  { assert (older = take (length older) c1) as ->; [|by apply Forall_take].
    rewrite Hon in Hc. apply (f_equal (take (length older))) in Hc.
    rewrite take_app_length, take_app_le in Hc by done. done. }
  pose proof (all_dirty_le older s newer Hon Hdo) as H.
  rewrite Hon in Hfull. unfold len in *. rewrite length_app in Hfull. lia.
Qed.

Lemma shielded_can_get P n pend s : NoDup (cache_of s).*1 -> shielded P n s -> 1 <= n ->
  pend ⊆ P -> can_get pend s.
Proof.
  intros Hnd Hs Hn Hp. split.
  - apply shielded_slack in Hs. destruct Hs as [?|?]; [by left|right; lia].
  - intros e Ev Hin. by eapply (victim_not_shielded P n s e), Hp.
Qed.

Lemma cache_remove_keys id c i : i <> id -> i ∈ c.*1 -> i ∈ (cache_remove id c).*1.
Proof.
  intros Hne (e & -> & He)%list_elem_of_fmap. apply list_elem_of_fmap. exists e. split; [done|].
  by apply cache_remove_sub.
Qed.

Lemma len_remove id (c : list (Z * CachedPage)) : len (cache_remove id c) <= len c.
Proof.
  unfold len, cache_remove. pose proof (length_filter (fun e : Z * CachedPage => e.1 <> id) c). lia.
Qed.

(** Putting an entry at the end, after the removal of an entry. *)
Lemma shielded_append P n d s s' (id : Z) cp rem : shielded P (n + 1 + d) s ->
  (rem = id \/ rem ∉ P) ->
  (cache_of s' = cache_remove rem (cache_of s) ++ [(id, cp)] \/ cache_of s' = cache_of s ++ [(id, cp)]) ->
  same_pool_config s s' -> dirty_count s' <= dirty_count s + d ->
  shielded ({[id]} ∪ P) n s'.
Proof.
  intros [H|(older & newer & Hon & Hk & Hcap)] Hrem Hc [E1 E2] Hd; [left; congruence|right].
  rewrite E1. assert (forall i, i ∈ P -> i = id \/ i ∈ (cache_remove rem newer).*1) as Hkr.
  { intros i Hi. destruct (decide (i = rem)) as [->|Hne]; [left; by destruct Hrem|right].
    apply cache_remove_keys; [done|by apply Hk]. }
  destruct Hc as [-> | ->]; rewrite Hon.
  - exists (cache_remove rem older), (cache_remove rem newer ++ [(id, cp)]).
    split; [unfold cache_remove; by rewrite filter_app, <-app_assoc|]. split.
    + intros i. rewrite fmap_app, elem_of_app, elem_of_union, elem_of_singleton. simpl.
      rewrite list_elem_of_singleton. intros [?|?%Hkr]; tauto.
    + pose proof (len_remove rem newer). unfold len in *. rewrite length_app. simpl. lia.
  - exists older, (newer ++ [(id, cp)]). split; [by rewrite <-app_assoc|]. split.
    + intros i. rewrite fmap_app, elem_of_app, elem_of_union, elem_of_singleton. simpl.
      rewrite list_elem_of_singleton. intros [?|?%Hk]; tauto.
    + unfold len in *. rewrite length_app. simpl. lia.
Qed.

Lemma shielded_evict_append P n d s s' (id : Z) cp : NoDup (cache_of s).*1 -> 0 <= n -> 0 <= d ->
  shielded P (n + 1 + d) s -> cache_of s' = evict_cache s ++ [(id, cp)] ->
  same_pool_config s s' -> dirty_count s' <= dirty_count s + d -> shielded ({[id]} ∪ P) n s'.
Proof.
  intros Hnd Hn Hd Hs Hc Hcfg Hdirty. unfold evict_cache in Hc. destruct (victim s) as [e|] eqn:Ev.
  - apply (shielded_append P n d s s' id cp e.1); [done| |by left|done|done].
    right. apply (victim_not_shielded P (n + 1 + d) s e); [done|done|lia|done].
  - apply (shielded_append P n d s s' id cp id); [done|by left|by right|done|done].
Qed.

Lemma shielded_same_pool P n s s' : st_pool s' = st_pool s -> shielded P n s -> shielded P n s'.
Proof. unfold shielded, dirty_count, cache_of. by intros ->. Qed.

Lemma shielded_set_dirty P n s s' id : shielded P (n + 1) s ->
  cache_of s' = cache_set_dirty id true (cache_of s) -> same_pool_config s s' ->
  dirty_count s' <= dirty_count s + 1 -> shielded P n s'.
Proof.
  intros [H|(older & newer & Hon & Hk & Hcap)] Hc [E1 E2] Hd; [left; congruence|right].
  rewrite E1. exists (cache_set_dirty id true older), (cache_set_dirty id true newer).
  split; [rewrite Hc, Hon; apply fmap_app|]. split; [intros i Hi; rewrite set_dirty_keys; auto|].
  unfold len, cache_set_dirty in *. rewrite length_fmap. lia.
Qed.

Lemma shielded_remove P n s s' id : shielded P n s ->
  cache_of s' = cache_remove id (cache_of s) -> same_pool_config s s' ->
  dirty_count s' <= dirty_count s -> shielded (P ∖ {[id]}) n s'.
Proof.
  intros [H|(older & newer & Hon & Hk & Hcap)] Hc [E1 E2] Hd; [left; congruence|right].
  rewrite E1. exists (cache_remove id older), (cache_remove id newer).
  split; [rewrite Hc, Hon; apply filter_app|]. split.
  - intros i [Hi Hne]%elem_of_difference. apply cache_remove_keys; [set_solver|auto].
  - pose proof (len_remove id newer). lia.
Qed.

(** ** The operations *)

(** The disks of two states of one tree operation. *)
Record DiskStep (n : Z) (D D' : Disk) : Prop := {
  ds_ps : dk_ps D' = dk_ps D;
  ds_root : root_page_id (dk_meta D') = root_page_id (dk_meta D);
  ds_next : next_page_id (dk_meta D) <= next_page_id (dk_meta D') <= next_page_id (dk_meta D) + n;
}.

(** The references a client holds stay valid. *)
Definition keeps (P : gset Z) (s s' : Store) : Prop :=
  forall i k, i ∈ P -> holds s i k -> holds s' i k.

Lemma rep_member pend loose s D ns e : Rep pend loose s D ns -> e ∈ ns ->
  usable D e.1 /\ sees s D e /\ tree_page e.2.
Proof.
  intros Hr He. destruct (proj1 (Forall_forall _ _) (rep_sees _ _ _ _ _ Hr) e He) as [? ?].
  split; [|done]. apply (rep_usable _ _ _ _ _ Hr). left. apply list_elem_of_fmap. by exists e.
Qed.

Lemma rep_deref pend loose s D ns id q l : Rep pend loose s D ns -> (id, q) ∈ ns -> holds s id l ->
  exists p, object s l = Some p /\ erase p = q /\ lsn_fits p.
Proof.
  intros Hr He Hl. destruct (rep_member _ _ _ _ _ _ Hr He) as (_ & (p & Hp & Hq & Hf) & _).
  simpl in Hp. rewrite (holds_view s D id l Hl) in Hp. by exists p.
Qed.

Lemma rep_get pend loose s D ns id q P n : Rep pend loose s D ns -> (id, q) ∈ ns ->
  pend ⊆ P -> shielded P (n + 1) s -> 0 <= n ->
  exists s' l, pool_get id s = (s', Ok l) /\ Rep pend loose s' D ns /\ holds s' id l /\
    shielded ({[id]} ∪ P) n s' /\ keeps P s s'.
Proof.
  intros Hr He Hp Hs Hn. pose proof (rep_inv _ _ _ _ _ Hr) as Hinv. pose proof (si_nodup _ _ _ Hinv) as Hnd.
  destruct (rep_member _ _ _ _ _ _ Hr He) as (Hu & (p & Hv & Hq & Hf) & Ht). simpl in *.
  assert (tree_page p) as Htp by (by apply tree_page_erase; rewrite Hq).
  destruct (pool_get_ok pend s D id p Hinv Hu Hv Htp) as (s' & l & E & Hinv' & Hg).
  { apply (shielded_can_get P (n + 1)); [done|done|lia|done]. }
  exists s', l. split; [done|]. destruct Hg as [Hh Ho Hview _ Hd Hcfg Hdirty Hkept Hcache _].
  split; [|split; [done|split]].
  - destruct Hr. split; try done.
    + eapply Forall_impl; [done|]. intros e [? ?]. split; [|done]. eapply sees_view; [apply Hview|done].
    + intros i cp Hi. destruct (decide (i = id)) as [->|Hne].
      { apply list_elem_of_fmap. by exists (id, q). }
      assert (cache_find i (cache_of s') = Some cp) as Hi' by done.
      destruct Hcache as [(c & _ & Hc)|(c & _ & Hc)]; rewrite Hc in Hi'.
      * rewrite cache_find_move, decide_False in Hi' by done. by eapply rep_entries0.
      * rewrite cache_find_app in Hi'. unfold evict_cache in Hi'. simpl in Hi'.
        rewrite (decide_False (P := id = i)) in Hi' by done.
        destruct (cache_find i _) eqn:Ei in Hi'; [|done]. injection Hi' as ->.
        destruct (victim s) as [e|]; [|by eapply rep_entries0].
        rewrite cache_find_remove in Ei. case_decide; [done|]. by eapply rep_entries0.
  - destruct Hcache as [(c & _ & Hc)|(c & _ & Hc)].
    + apply (shielded_append P n 0 s s' id c id); [by rewrite Z.add_0_r|by left|by left|done|lia].
    + apply (shielded_evict_append P n 0 s s' id c); [done|done|lia|by rewrite Z.add_0_r|done|done|lia].
  - intros i k Hi (cp & Hcp & Hk). exists cp. split; [|done]. apply Hkept; [done|].
    intros e Ev Ei. subst i. by eapply (victim_not_shielded P (n + 1) s e); [done|done|lia|done|].
Qed.

(** Changing a page through a reference. *)
Lemma rep_assign pend loose s D ns id q p l : Rep pend loose s D ((id, q) :: ns) -> holds s id l ->
  tree_page p -> lsn_fits p ->
  Rep ({[id]} ∪ pend) loose (assigned l p s) D ((id, erase p) :: ns) /\
  (forall i k, holds (assigned l p s) i k <-> holds s i k).
Proof.
  intros Hr Hh Ht Hf. pose proof (rep_inv _ _ _ _ _ Hr) as Hinv.
  destruct (assign_inv pend s D id l p Hinv Hh Ht) as (Hinv' & _ & Hview).
  split; [|done]. pose proof (rep_nodup _ _ _ _ _ Hr) as Hnd. simpl in Hnd. apply NoDup_cons in Hnd as [Hni Hnd].
  destruct Hr. split; try done.
  apply Forall_cons in rep_sees0 as [_ Hs]. constructor.
  - split; [|by apply tree_page_erase]. exists p. simpl. rewrite Hview, upd_same. done.
  - rewrite Forall_forall in *. intros e He. destruct (Hs e He) as [Hse ?]. split; [|done].
    eapply sees_view; [|exact Hse]. rewrite Hview, upd_other; [done|]. intros E. apply Hni. rewrite <-E.
    apply list_elem_of_fmap. by exists e.
Qed.

Lemma rep_mark pend loose s D ns id l lsn : Rep pend loose s D ns -> holds s id l -> id ∈ ns.*1 ->
  fits 8 lsn = true ->
  exists s', mark_dirty id lsn s = (s', Ok tt) /\ Rep (pend ∖ {[id]}) loose s' D ns /\
    (forall i k, holds s' i k <-> holds s i k) /\
    (forall x, x <> l -> object s' x = object s x) /\
    (forall P n, shielded P (n + 1) s -> shielded P n s').
Proof.
  intros Hr Hh ([i q] & -> & He)%list_elem_of_fmap Hl. simpl in *.
  destruct (rep_deref _ _ _ _ _ _ _ _ Hr He Hh) as (p & Ho & Hq & Hf).
  destruct (mark_dirty_ok pend s D i l p lsn (rep_inv _ _ _ _ _ Hr) Hh Ho) as (s' & E & Hinv' & Hm).
  exists s'. split; [done|]. destruct Hm as [Hview Hholds Hdirty Hobj Hobjs Hcfg Hpg Hc Hd].
  split; [|split; [done|split; [done|]]].
  - destruct Hr. split; try done.
    + rewrite Forall_forall in *. intros [j r] Hj. destruct (rep_sees0 _ Hj) as [Hse ?]. split; [|done].
      destruct (decide (j = i)) as [->|Hne].
      * exists (set_page_lsn (Z.max (page_lsn p) lsn) p). simpl. rewrite Hview, upd_same.
        split; [done|]. rewrite erase_lsn. split.
        { destruct Hse as (p' & Hp' & Hr' & _). simpl in *. rewrite (holds_view _ _ _ _ Hh) in Hp'. congruence. }
        unfold lsn_fits in *. destruct p; simpl in *; by apply fits_max.
      * eapply sees_view; [|exact Hse]. simpl. by rewrite Hview, upd_other.
    + intros j cp Hj. destruct (entry s j) as [c|] eqn:Ej; [by eapply rep_entries0|].
      assert (entry s' j = if decide (j = i) then (fun cp => {| cp_page := cp_page cp; cp_is_dirty := true |}) <$> entry s j else entry s j) as Hx.
      { unfold entry. rewrite Hc. apply cache_find_set_dirty. }
      rewrite Ej in Hx. simpl in Hx. case_decide; congruence.
  - intros P n Hs. by apply (shielded_set_dirty P n s s' i).
Qed.

Lemma rep_new pend loose s D ns p : Rep pend loose s D ns -> tree_page p ->
  exists s' l, new_object p s = (s', Ok l) /\ Rep pend loose s' D ns /\ object s' l = Some p /\
    (forall i, ~ holds s' i l) /\ st_pool s' = st_pool s.
Proof.
  intros Hr Ht. destruct (new_object_ok pend s D p (rep_inv _ _ _ _ _ Hr) Ht)
    as (s' & l & E & Hinv' & _ & Ho & _ & Hfree & Hpool & _ & Hview).
  exists s', l. split; [done|]. split; [|done]. destruct Hr. split; try done.
  - eapply Forall_impl; [done|]. intros e [? ?]. split; [|done]. eapply sees_view; [apply Hview|done].
  - intros i cp. unfold entry, cache_of. rewrite Hpool. apply rep_entries0.
Qed.

Lemma holds_same_pool s s' i k : st_pool s' = st_pool s -> holds s' i k <-> holds s i k.
Proof. intros E. unfold holds, entry, cache_of. by rewrite E. Qed.

Lemma rep_insert pend loose s D ns id l p lsn P n : Rep pend loose s D ns -> id ∈ loose ->
  object s l = Some p -> tree_page p -> (forall i, ~ holds s i l) -> fits 8 lsn = true ->
  pend ⊆ P -> shielded P (n + 2) s -> 0 <= n ->
  exists s', pool_insert id l lsn s = (s', Ok tt) /\
    Rep pend (loose ∖ {[id]}) s' D ((id, erase p) :: ns) /\ holds s' id l /\
    shielded ({[id]} ∪ P) n s' /\ keeps P s s'.
Proof.
  intros Hr Hid Ho Ht Hfree Hlsn Hp Hs Hn. pose proof (rep_inv _ _ _ _ _ Hr) as Hinv.
  pose proof (si_nodup _ _ _ Hinv) as Hnd. pose proof (rep_loose _ _ _ _ _ Hr id Hid) as Hni.
  assert (entry s id = None) as Hnone.
  { destruct (entry s id) eqn:Ee; [|done]. destruct Hni. by eapply rep_entries. }
  destruct (pool_insert_ok pend s D id l p lsn Hinv) as (s' & E & Hinv' & Hins); try done.
  { apply (rep_usable _ _ _ _ _ Hr). by right. }
  { apply (shielded_can_get P (n + 2)); [done|done|lia|done]. }
  exists s'. split; [done|]. destruct Hins as [Hview Hh Hobj _ Hd Hcfg Hdirty Hkept (c & Hc) _].
  split; [|split; [done|split]].
  - destruct Hr. split; [done|by constructor|..].
    + constructor.
      * split; [|by apply tree_page_erase]. exists (set_page_lsn lsn p). simpl. rewrite Hview, upd_same.
        split; [done|]. split; [apply erase_lsn|]. unfold lsn_fits. by destruct p.
      * rewrite Forall_forall in *. intros e He. destruct (rep_sees0 e He) as [Hse ?]. split; [|done].
        eapply sees_view; [|exact Hse]. rewrite Hview, upd_other; [done|]. intros Ei. apply Hni. rewrite <-Ei.
        apply list_elem_of_fmap. by exists e.
    + intros i. rewrite rep_usable0. simpl. rewrite elem_of_cons, elem_of_difference, elem_of_singleton.
      destruct (decide (i = id)) as [->|]; tauto.
    + intros i [Hi Hne]%elem_of_difference. simpl. rewrite elem_of_cons. set_solver.
    + intros i cp Hi. simpl. rewrite elem_of_cons. destruct (decide (i = id)) as [|Hne]; [by left|right].
      assert (cache_find i (cache_of s') = Some cp) as Hi' by done.
      rewrite Hc, cache_find_app in Hi'. unfold evict_cache in Hi'. simpl in Hi'.
      rewrite (decide_False (P := id = i)) in Hi' by done.
      destruct (cache_find i _) eqn:Ei in Hi'; [|done]. injection Hi' as ->.
      destruct (victim s) as [e|]; [|by eapply rep_entries0].
      rewrite cache_find_remove in Ei. case_decide; [done|]. by eapply rep_entries0.
  - apply (shielded_evict_append P n 1 s s' id c); [done|done|lia| |done|done|lia].
    by replace (n + 1 + 1) with (n + 2) by lia.
  - intros i k Hi (cp & Hcp & Hk). exists cp. split; [|done]. apply Hkept; [done|].
    intros e Ev Ei. subst i. by eapply (victim_not_shielded P (n + 2) s e); [done|done|lia|done|].
Qed.

Lemma rep_delete pend loose s D ns id q : Rep pend loose s D ((id, q) :: ns) ->
  exists s', pool_delete id s = (s', Ok tt) /\ Rep (pend ∖ {[id]}) ({[id]} ∪ loose) s' D ns /\
    (forall i k, i <> id -> holds s i k -> holds s' i k) /\
    (forall P n, shielded P n s -> shielded (P ∖ {[id]}) n s').
Proof.
  intros Hr. destruct (pool_delete_ok pend s D id (rep_inv _ _ _ _ _ Hr))
    as (s' & E & Hinv' & Hnone & Hent & Hview & Hh & Hpg & Hcfg & Hc & Hd).
  exists s'. split; [done|]. split; [|split].
  - destruct Hr. simpl in *. apply NoDup_cons in rep_nodup0 as [Hni Hnd]. split; [done|done|..].
    + apply Forall_cons in rep_sees0 as [_ Hs]. rewrite Forall_forall in *. intros e He.
      destruct (Hs e He) as [Hse ?]. split; [|done]. eapply sees_view; [|exact Hse]. apply Hview.
      intros Ei. apply Hni. rewrite <-Ei. apply list_elem_of_fmap. by exists e.
    + intros i. rewrite rep_usable0, elem_of_cons, elem_of_union, elem_of_singleton. tauto.
    + intros i [->%elem_of_singleton|Hi]%elem_of_union; [done|]. apply rep_loose0 in Hi. set_solver.
    + intros i cp Hi. destruct (decide (i = id)) as [->|Hne]; [congruence|].
      rewrite Hent in Hi by done. apply rep_entries0 in Hi. by apply elem_of_cons in Hi as [?|?].
  - intros i k Hne (cp & Hcp & Hk). exists cp. by rewrite Hent.
  - intros P n Hs. by apply (shielded_remove P n s).
Qed.

Lemma rep_allocate pend loose s D ns : Rep pend loose s D ns -> next_page_id (dk_meta D) < 2 ^ 64 ->
  exists s' D' id, on_pager allocate_page s = (s', Ok id) /\ Rep pend ({[id]} ∪ loose) s' D' ns /\
    (id ∉ loose) /\ (id ∉ ns.*1) /\ 0 < id /\ st_pool s' = st_pool s /\ st_heap s' = st_heap s /\ DiskStep 1 D D'.
Proof.
  intros Hr Hn. destruct (store_allocate pend s D (rep_inv _ _ _ _ _ Hr) Hn)
    as (s' & D' & id & E & Hinv' & Hnu & Hu & Hnone & [_ Hview Hpool Hheap Hps Hroot Hnext]).
  exists s', D', id. split; [done|].
  assert ((id ∉ ns.*1) /\ (id ∉ loose)) as [Hid1 Hid2] by (rewrite (rep_usable _ _ _ _ _ Hr) in Hnu; tauto).
  assert (usable D' id) as [Hrange _] by (apply Hu; by right).
  assert (forall e, e ∈ ns -> usable D e.1) as Hns by (intros e He; by apply (rep_member _ _ _ _ _ _ Hr He)).
  split; [|split_and!; try done; lia]. destruct Hr. split; try done.
  - rewrite Forall_forall in *. intros e He. destruct (rep_sees0 e He) as [Hse ?]. split; [|done].
    eapply sees_view; [|exact Hse]. apply Hview; [by apply Hns|tauto].
  - intros i. rewrite Hu, rep_usable0, elem_of_union, elem_of_singleton. tauto.
  - intros i [->%elem_of_singleton|Hi]%elem_of_union; [done|]. by apply rep_loose0.
  - intros i cp. unfold entry, cache_of. rewrite Hpool. apply rep_entries0.
Qed.

Lemma rep_free pend loose s D ns id : Rep pend loose s D ns -> next_page_id (dk_meta D) < 2 ^ 64 ->
  id ∈ loose ->
  exists s' D', on_pager (free_page id) s = (s', Ok tt) /\ Rep pend (loose ∖ {[id]}) s' D' ns /\
    st_pool s' = st_pool s /\ st_heap s' = st_heap s /\ DiskStep 1 D D'.
Proof.
  intros Hr Hn Hid. pose proof (rep_loose _ _ _ _ _ Hr id Hid) as Hni.
  assert (usable D id) as Hus by (apply (rep_usable _ _ _ _ _ Hr); by right).
  assert (entry s id = None) as Hnone.
  { destruct (entry s id) eqn:Ee; [|done]. destruct Hni. by eapply rep_entries. }
  destruct (store_free pend s D id (rep_inv _ _ _ _ _ Hr) Hn Hus Hnone)
    as (s' & D' & E & Hinv' & Hu & [_ Hview Hpool Hheap Hps Hroot Hnext]).
  exists s', D'. split; [done|].
  assert (forall e, e ∈ ns -> usable D e.1) as Hns by (intros e He; by apply (rep_member _ _ _ _ _ _ Hr He)).
  split; [|done]. destruct Hr. split; try done.
  - rewrite Forall_forall in *. intros e He. destruct (rep_sees0 e He) as [Hse ?]. split; [|done].
    eapply sees_view; [|exact Hse]. apply Hview; [by apply Hns|]. intros Ei. apply Hni. rewrite <-Ei.
    apply list_elem_of_fmap. by exists e.
  - intros i. rewrite Hu, rep_usable0, elem_of_difference, elem_of_singleton.
    destruct (decide (i = id)) as [->|]; tauto.
  - intros i [Hi _]%elem_of_difference. by apply rep_loose0.
  - intros i cp. unfold entry, cache_of. rewrite Hpool. apply rep_entries0.
Qed.

Lemma rep_set_root pend loose s D ns r : Rep pend loose s D ns ->
  exists s', on_pager (update_meta (with_root r)) s = (s', Ok tt) /\
    Rep pend loose s' (with_disk_root r D) ns /\ st_pool s' = st_pool s /\ st_heap s' = st_heap s.
Proof.
  intros Hr. destruct (store_set_root pend s D r (rep_inv _ _ _ _ _ Hr)) as (s' & E & Hinv' & Hview & Hpool & Hheap).
  exists s'. split; [done|]. split; [|done]. destruct Hr. split; try done.
  - eapply Forall_impl; [done|]. intros e [? ?]. split; [|done]. eapply sees_view; [apply Hview|done].
  - intros i cp. unfold entry, cache_of. rewrite Hpool. apply rep_entries0.
Qed.

(** A fetched page takes a step that the next fetch has back. *)
Lemma shielded_again P n s i : i ∈ P -> shielded P n s -> shielded ∅ (n + 1) s.
Proof.
  intros Hi [H|(older & newer & Hc & Hk & H)]; [by left|]. apply shielded_start. right.
  apply Hk in Hi. destruct newer; [by apply elem_of_nil in Hi|]. unfold len in H. simpl in H. lia.
Qed.

(** Fetching a page to read it. *)
Lemma rep_fetch s D ns id q n : Rep ∅ ∅ s D ns -> (id, q) ∈ ns -> slack s (n + 1) -> 0 <= n ->
  exists s' l p, pool_get id s = (s', Ok l) /\ Rep ∅ ∅ s' D ns /\ slack s' (n + 1) /\ object s' l = Some p /\ erase p = q.
Proof.
  intros Hr Hin Hs Hn.
  destruct (rep_get ∅ ∅ s D ns id q ∅ n Hr Hin) as (s' & l & E & Hr' & Hh & Hs' & _); [done|by apply shielded_start|done|].
  destruct (rep_deref _ _ _ _ _ _ _ _ Hr' Hin Hh) as (p & Ho & Hq & _). exists s', l, p. split; [done|]. split; [done|].
  split; [|done]. exact (shielded_slack _ _ _ (shielded_again ({[id]} ∪ ∅) _ _ id ltac:(set_solver) Hs')).
Qed.

Lemma erase_internal p lm slots : erase p = PInternal {| internal_lsn := 0; leftmost_child_page_id := lm; internal_slots := slots |} ->
  exists lsn, p = PInternal {| internal_lsn := lsn; leftmost_child_page_id := lm; internal_slots := slots |}.
Proof. destruct p as [[lsn lm' sl]| |]; [|done..]. intros [= -> ->]. by exists lsn. Qed.

Lemma erase_leaf p link slots : erase p = PLeaf {| leaf_lsn := 0; right_sibling_page_id := link; leaf_slots := slots |} ->
  exists lsn, p = PLeaf {| leaf_lsn := lsn; right_sibling_page_id := link; leaf_slots := slots |}.
Proof. destruct p as [|[lsn r sl]|]; [done| |done]. intros [= -> ->]. by exists lsn. Qed.
