(* ===== verification/TreeFind.v ===== *)
(** * Finding a leaf

    The descent from the root reaches the leaf whose range holds the key, and
    changes nothing a client sees. *)

From S2P Require Import Prelude Bytes Bisect Entities Codec Fs Pager Cache Tree.
From S2P Require Import CodecFacts PagerFacts CacheFacts CacheOps TreeSizes TreeShape TreeSteps TreeSearch TreeStore.

(** ** Running the tree on its store *)

Lemma in_store_bind {A B} (m : M Store A) (f : A -> M BPlusTree B) tr s' a :
  m (tr_store tr) = (s', Ok a) -> (in_store m ≫= f) tr = f a (set_store s' tr).
Proof. intros E. unfold mbind, M_bind, in_store, zoom. by rewrite E. Qed.

Lemma set_store_same tr : set_store (tr_store tr) tr = tr.
Proof. by destruct tr. Qed.

Lemma set_store_set s s' tr : set_store s' (set_store s tr) = set_store s' tr.
Proof. done. Qed.

Lemma in_pager_bind {A B} (m : M Pager A) (f : A -> M BPlusTree B) tr s' a :
  on_pager m (tr_store tr) = (s', Ok a) -> (in_pager m ≫= f) tr = f a (set_store s' tr).
Proof. apply in_store_bind. Qed.

(** Running the next operation of the store, given its outcome. *)
Ltac store_step E :=
  match type of E with
  | ?m _ = (?s', Ok ?a) =>
      match goal with
      | |- context [(in_store m ≫= ?f) ?tr] => rewrite (in_store_bind m f tr s' a E)
      end
  end.
Ltac pager_step E :=
  match type of E with
  | on_pager ?m _ = (?s', Ok ?a) =>
      match goal with
      | |- context [(in_pager m ≫= ?f) ?tr] => rewrite (in_pager_bind m f tr s' a E)
      end
  end.
Ltac lift_step :=
  match goal with
  | |- context [(lift (Ok ?a) ≫= ?f) ?tr] => rewrite (bind_Ok (lift (Ok a)) f tr tr a eq_refl)
  end.

Section meta.
Context (pend loose : gset Z) (tr : BPlusTree) (D : Disk) (ns : list (Z * Page)).
Context (Hr : Rep pend loose (tr_store tr) D ns).

Lemma tree_meta_bind {A B} (get : MetaPage -> A) (f : A -> M BPlusTree B) :
  (m ← in_pager get_meta; mret (get m)) tr = (tr, Ok (get (dk_meta D))) /\
  ((m ← in_pager get_meta; mret (get m)) ≫= f) tr = f (get (dk_meta D)) tr.
Proof.
  assert ((m ← in_pager get_meta; mret (get m)) tr = (tr, Ok (get (dk_meta D)))) as E.
  { pose proof (store_meta pend (tr_store tr) D (rep_inv _ _ _ _ _ Hr) id) as H.
    assert (on_pager get_meta (tr_store tr) = (tr_store tr, Ok (dk_meta D))) as Hm.
    { unfold on_pager, zoom in *. unfold mbind, M_bind in H. destruct (get_meta _) as [p [m|e]]; [|done].
      injection H as -> ->. done. }
    rewrite (in_pager_bind _ _ _ _ _ Hm), set_store_same. done. }
  split; [done|]. by rewrite (bind_Ok _ _ _ _ _ E).
Qed.

Lemma page_size_bind {B} (f : Z -> M BPlusTree B) : (tree_page_size_bytes ≫= f) tr = f (dk_ps D) tr.
Proof. apply (tree_meta_bind page_size_bytes). Qed.

Lemma root_bind {B} (f : Z -> M BPlusTree B) : (tree_root_page_id ≫= f) tr = f (root_page_id (dk_meta D)) tr.
Proof. apply (tree_meta_bind root_page_id). Qed.

Lemma page_count_bind {B} (f : Z -> M BPlusTree B) :
  (in_pager page_count ≫= f) tr = f (next_page_id (dk_meta D)) tr.
Proof.
  pose proof (store_meta pend (tr_store tr) D (rep_inv _ _ _ _ _ Hr) next_page_id) as H.
  change (on_pager page_count (tr_store tr) = (tr_store tr, Ok (next_page_id (dk_meta D)))) in H.
  by rewrite (in_pager_bind _ _ _ _ _ H), set_store_same.
Qed.

Lemma over_bind {B} p (f : bool -> M BPlusTree B) :
  (is_page_overpopulated p ≫= f) tr = f (page_overpopulated (dk_ps D) p) tr.
Proof. unfold is_page_overpopulated. unfold mbind at 1, M_bind at 1. by rewrite page_size_bind. Qed.

Lemma under_bind {B} p (f : bool -> M BPlusTree B) :
  (is_page_underpopulated p ≫= f) tr = f (page_underpopulated (dk_ps D) p) tr.
Proof. unfold is_page_underpopulated. unfold mbind at 1, M_bind at 1. by rewrite page_size_bind. Qed.

Lemma deref_bind {B} id q l (f : Page -> M BPlusTree B) : (id, q) ∈ ns -> holds (tr_store tr) id l ->
  exists p, erase p = q /\ lsn_fits p /\ object (tr_store tr) l = Some p /\
    (in_store (deref l) ≫= f) tr = f p tr.
Proof.
  intros He Hl. destruct (rep_deref _ _ _ _ _ _ _ _ Hr He Hl) as (p & Ho & Hq & Hf).
  exists p. split; [done|]. split; [done|]. split; [done|].
  by rewrite (in_store_bind _ _ _ _ _ (deref_run _ _ _ Ho)), set_store_same.
Qed.
End meta.

(** ** The descent *)

Definition path_of (ctx : context) : list PathItem := reverse (path_item <$> ctx).

Lemma path_of_cons f ctx : path_of (f :: ctx) = path_of ctx ++ [path_item f].
Proof. unfold path_of. by rewrite fmap_cons, reverse_cons. Qed.

Lemma nodes_root t : (tid t, root_of t) ∈ nodes t.
Proof. rewrite nodes_below. by left. Qed.

Lemma nodes_plug_sub ctx t e : e ∈ nodes t -> e ∈ nodes (plug ctx t).
Proof. intros H. rewrite nodes_plug. apply elem_of_app. by left. Qed.

Lemma nodes_child f t e : e ∈ nodes t -> e ∈ nodes (fill f t).
Proof. intros H. rewrite nodes_below. right. rewrite below_fill. apply elem_of_app. by left. Qed.

(** The pages on the way down are distinct. *)
Lemma uniform_nodes h t : uniform h t -> (S h <= length (nodes t))%nat.
Proof.
  revert h. induction t as [id link slots|id c kids IH _] using tree_induction; intros [|h]; simpl; try done.
  intros [Hc _]. apply IH in Hc. rewrite length_app. lia.
Qed.

Lemma nodup_below_bound (l : list Z) n : NoDup l -> (forall i, i ∈ l -> 0 < i < n) -> (length l < Z.to_nat n)%nat \/ n <= 0.
Proof.
  intros Hnd Hr. destruct (decide (n <= 0)); [by right|left].
  assert (length l <= length (seqZ 1 (n - 1)))%nat as H.
  { apply submseteq_length, NoDup_submseteq; [done|]. intros i Hi. apply elem_of_seqZ. specialize (Hr i Hi). lia. }
  rewrite length_seqZ in H. lia.
Qed.

Lemma height_bound pend loose s D t h : Rep pend loose s D (nodes t) -> uniform h t ->
  (h < Z.to_nat (next_page_id (dk_meta D)))%nat.
Proof.
  intros Hr Hu. pose proof (uniform_nodes h t Hu).
  destruct (nodup_below_bound (nodes t).*1 (next_page_id (dk_meta D)) (rep_nodup _ _ _ _ _ Hr)) as [H'|H'].
  - intros i Hi. apply (rep_usable _ _ _ _ _ Hr). by left.
  - rewrite length_fmap in H'. lia.
  - destruct (rep_member _ _ _ _ _ _ Hr (nodes_root t)) as ((? & _) & _). lia.
Qed.

(** What the search for the leaf of a key gives. *)
Record Found (kmax : Z) (key : bytes) (T : tree) (tr' : BPlusTree) (D : Disk) (n : Z)
    (ctx : context) (id link : Z) (slots : list LeafSlot) (l : loc) : Prop := {
  fo_tree : plug ctx (Leaf id link slots) = T;
  fo_located : located key ctx;
  fo_rep : Rep ∅ ∅ (tr_store tr') D (nodes T);
  fo_holds : holds (tr_store tr') id l;
  fo_shield : shielded {[id]} n (tr_store tr');
}.

Lemma descend_ok kmax key T D n : 0 <= n -> Wf (dk_ps D) kmax T ->
  forall h t ctx fuel l tr, plug ctx t = T -> uniform h t -> (h <= fuel)%nat -> located key ctx ->
  Rep ∅ ∅ (tr_store tr) D (nodes T) -> holds (tr_store tr) (tid t) l ->
  shielded {[tid t]} n (tr_store tr) ->
  exists s' ctx' id link slots l',
    descend fuel key (tid t) l (path_of ctx) tr =
      (set_store s' tr, Ok {| leaf_page_id := id; leaf_page := l'; leaf_path := path_of ctx' |}) /\
    Found kmax key T (set_store s' tr) D n ctx' id link slots l' /\
    length ctx' = (h + length ctx)%nat.
Proof.
  intros Hn Hwf. induction h as [|h IH]; intros t ctx fuel l tr Hplug Hu Hfuel Hloc Hr Hh Hs.
  - destruct t as [id link slots|]; [|done]. exists (tr_store tr), ctx, id, link, slots, l.
    assert ((id, leaf_of link slots) ∈ nodes T) as Hin by (subst T; by apply nodes_plug_sub; left).
    destruct fuel as [|fuel]; cbn [descend];
      match goal with |- context [in_store (deref l) ≫= ?f] =>
        destruct (deref_bind _ _ tr D _ Hr id _ l f Hin Hh) as (p & Hp & _ & _ & ->) end;
      apply erase_leaf in Hp as (lsn & ->); rewrite set_store_same; by (split; [done|split; [split; done|done]]).
  - destruct t as [|id c kids]; [done|]. destruct fuel as [|fuel]; [lia|]. cbn [descend].
    assert ((id, internal_of (tid c) (kid_slot <$> kids)) ∈ nodes T) as Hin by (subst T; by apply nodes_plug_sub; left).
    match goal with |- context [in_store (deref l) ≫= ?f] =>
        destruct (deref_bind _ _ tr D _ Hr id _ l f Hin Hh) as (p & Hp & _ & _ & ->) end.
    apply erase_internal in Hp as (lsn & ->).
    assert (items_sorted (flat (Node id c kids))) as Hsort.
    { pose proof (wf_sorted _ _ _ Hwf) as Hsort. rewrite <-Hplug, flat_plug in Hsort.
      apply items_sorted_app in Hsort as (_ & _ & Hsort). by apply items_sorted_app in Hsort as (_ & Hsort & _). }
    destruct (route_spec id c kids key Hsort) as (f & t & Hfill & Hid & Hroute & Hpre & Hpost).
    change (route _ key) with (route {| internal_lsn := 0; leftmost_child_page_id := tid c; internal_slots := kid_slot <$> kids |} key).
    rewrite Hroute. rewrite (bind_Ok (lift _) _ tr tr _ eq_refl).
    rewrite Hfill in Hplug, Hu. apply uniform_fill in Hu as (h' & [= <-] & _ & Hut).
    assert ((tid t, root_of t) ∈ nodes T) as Hint.
    { rewrite <-Hplug. apply nodes_plug_sub, nodes_child, nodes_root. }
    destruct (rep_get ∅ ∅ (tr_store tr) D _ (tid t) _ ∅ n Hr Hint) as (s1 & l1 & Eg & Hr1 & Hh1 & Hs1 & _); [done| |done|].
    { apply (shielded_again {[tid (Node id c kids)]} n _ (tid (Node id c kids))); [set_solver|done]. }
    rewrite (in_store_bind _ _ _ _ _ Eg).
    replace {| parent_page_id := tid (Node id c kids); parent_slot_index := frame_idx f |} with (path_item f)
      by (unfold path_item; by rewrite Hid).
    rewrite <-path_of_cons.
    destruct (IH t (f :: ctx) fuel l1 (set_store s1 tr)) as (s2 & ctx' & id' & link & slots & l' & E & Hf & Hlen);
      [done|done|lia| |done|done| |].
    { destruct Hloc as [H1 H2]. split; simpl; apply Forall_app; by split. }
    { eapply shielded_weaken; [|reflexivity|exact Hs1]. set_solver. }
    exists s2, ctx', id', link, slots, l'. rewrite E. split; [done|]. split; [done|]. simpl in Hlen. lia.
Qed.

Lemma find_leaf_ok kmax key T D n tr : 0 <= n -> Wf (dk_ps D) kmax T ->
  Rep ∅ ∅ (tr_store tr) D (nodes T) -> root_page_id (dk_meta D) = tid T ->
  slack (tr_store tr) (n + 1) ->
  exists s' ctx id link slots l,
    find_leaf key tr = (set_store s' tr, Ok {| leaf_page_id := id; leaf_page := l; leaf_path := path_of ctx |}) /\
    Found kmax key T (set_store s' tr) D n ctx id link slots l /\ uniform (length ctx) T.
Proof.
  intros Hn Hwf Hr Hroot Hs. unfold find_leaf.
  rewrite (page_count_bind _ _ tr D _ Hr), (root_bind _ _ tr D _ Hr), Hroot.
  destruct (rep_get ∅ ∅ (tr_store tr) D _ (tid T) _ ∅ n Hr (nodes_root T)) as (s1 & l1 & Eg & Hr1 & Hh1 & Hs1 & _);
    [done|by apply shielded_start|done|].
  rewrite (in_store_bind _ _ _ _ _ Eg). destruct (wf_uniform _ _ _ Hwf) as [h Hu].
  pose proof (height_bound _ _ _ _ _ _ Hr Hu) as Hfuel.
  destruct (descend_ok kmax key T D n Hn Hwf h T [] (Z.to_nat (next_page_id (dk_meta D))) l1 (set_store s1 tr))
    as (s2 & ctx & id & link & slots & l & E & Hf & Hlen); [done|done|lia|apply located_nil|done|done| |].
  { eapply shielded_weaken; [|reflexivity|exact Hs1]. set_solver. }
  change (path_of []) with (@nil PathItem) in E.
  exists s2, ctx, id, link, slots, l. rewrite E. split; [done|]. split; [done|].
  simpl in Hlen. rewrite Nat.add_0_r in Hlen. by rewrite Hlen.
Qed.
