(* ===== verification/TreeSplit.v ===== *)
(** * Splitting a page

    A split cuts an overfull page in two that fit, hands the promoted
    separator to the parent, and makes a new root when there is no parent. *)

From S2P Require Import Prelude Bytes Bisect Entities Codec Fs Pager Cache Tree.
From S2P Require Import CodecFacts PagerFacts CacheFacts CacheOps.
From S2P Require Import TreeSizes TreeShape TreeSteps TreeSearch TreeStore TreeFind.

(** The overflow a page can have when the cascade reaches it: one slot. *)
Definition overflow (ps : Z) (t : tree) : Z :=
  match t with Leaf _ _ _ => max_leaf_slot ps | Node _ _ _ => max_internal_slot ps end.

(** The keys of a tree are no longer than those of records that are accepted. *)
Definition good_key_bound (ps kmax : Z) : Prop := kmax + 20 <= max_internal_slot ps.

(** ** The cut *)

Lemma leaf_slot_bounds ps kmax slots : Forall (item_fits ps kmax) (Rec <$> slots) ->
  Forall (fun s => calculate_leaf_slot_size s true <= max_leaf_slot ps) slots.
Proof. rewrite Forall_fmap. intros H. eapply Forall_impl; [exact H|]. by intros s [_ Hs]. Qed.

Lemma kids_keys_fit ps kmax kids : Forall (item_fits ps kmax) (kids_flat kids) ->
  Forall (fun kt => len kt.1 <= kmax) kids.
Proof.
  intros H. rewrite Forall_forall in H. apply Forall_forall. intros [k t] Hin.
  destruct (H (Sep k)) as [Hk _]; [|exact Hk]. apply list_elem_of_In, in_flat_map.
  exists (k, t). split; [by apply list_elem_of_In|by left].
Qed.

Lemma internal_slot_bounds ps kmax kids : good_key_bound ps kmax ->
  Forall (item_fits ps kmax) (kids_flat kids) ->
  Forall (fun s => calculate_internal_slot_size s true <= max_internal_slot ps) (kid_slot <$> kids).
Proof.
  intros Hk H%kids_keys_fit. apply Forall_fmap. eapply Forall_impl; [exact H|].
  intros [k t] Hl. simpl in *. rewrite internal_slot_size. unfold good_key_bound in Hk. simpl. lia.
Qed.

(** What a cut of the page [p] of the tree [t] gives. *)
Record Cut (ps kmax : Z) (t : tree) (new : Z) (a : tree) (k : bytes) (b : tree) (lhs rhs : Page) : Prop := {
  cut_ids : tid a = tid t /\ tid b = new;
  cut_pages : erase lhs = root_of a /\ erase rhs = root_of b;
  cut_lsns : lsn_fits lhs /\ lsn_fits rhs;
  cut_below : below a ++ below b ≡ₚ below t;
  cut_morph : Morph ps kmax t [] a [(k, b)];
  cut_ok : page_ok ps (root_of a) /\ page_ok ps (root_of b);
}.

Lemma cut_leaf ps kmax id link slots p new lsn : good_page_size ps ->
  Forall (item_fits ps kmax) (flat (Leaf id link slots)) ->
  erase (PLeaf p) = root_of (Leaf id link slots) -> lsn_fits (PLeaf p) -> fits 8 lsn = true ->
  ps < calculate_page_size (root_of (Leaf id link slots)) <= ps + max_leaf_slot ps ->
  exists i s a b, split_slot_index ps (PLeaf p) = Ok i /\
    py_get (leaf_slots (split_leaf p i new lsn).2) 0 = Ok s /\
    Cut ps kmax (Leaf id link slots) new a (lslot_key s) b
      (PLeaf (split_leaf p i new lsn).1) (PLeaf (split_leaf p i new lsn).2).
Proof.
  intros Hps Hfit Hp Hlp Hlsn Hsize. injection Hp as <- <-. simpl in Hfit.
  pose proof (leaf_slot_bounds _ _ _ Hfit) as Hb.
  destruct (split_leaf_balanced ps p Hps Hb) as (i & Ei & Hi & Hl & Hr).
  { unfold root_of, leaf_of in Hsize. rewrite leaf_page_size in *. exact Hsize. }
  destruct (lookup_lt_is_Some_2 (leaf_slots p) i ltac:(lia)) as [s Hs].
  exists i, s, (Leaf id new (take i (leaf_slots p))), (Leaf new (right_sibling_page_id p) (drop i (leaf_slots p))).
  split; [done|]. split.
  { apply (py_get_lookup _ 0). simpl. by rewrite lookup_drop, Nat.add_0_r. }
  split; try done; [by apply morph_split_leaf; [lia|]|].
  unfold page_ok, root_of, leaf_of. rewrite !leaf_page_size. simpl. lia.
Qed.

Lemma kid_slot_split kids i s : (kid_slot <$> kids) !! i = Some s ->
  exists c, kids = take i kids ++ (islot_key s, c) :: drop (S i) kids /\ child_page_id s = tid c /\
    take i (kid_slot <$> kids) = kid_slot <$> take i kids /\
    drop (S i) (kid_slot <$> kids) = kid_slot <$> drop (S i) kids.
Proof.
  rewrite list_lookup_fmap. intros ([k c] & Hk & ->)%fmap_Some. exists c.
  rewrite <-fmap_take, <-fmap_drop. simpl. split; [by rewrite take_drop_middle|done].
Qed.

Lemma cut_internal ps kmax id c kids p new lsn : good_page_size ps -> good_key_bound ps kmax -> small_keys ps kmax ->
  Forall (item_fits ps kmax) (flat (Node id c kids)) ->
  erase (PInternal p) = root_of (Node id c kids) -> lsn_fits (PInternal p) -> fits 8 lsn = true ->
  ps < calculate_page_size (root_of (Node id c kids)) <= ps + max_internal_slot ps ->
  exists i s a b, split_slot_index ps (PInternal p) = Ok i /\
    py_get (internal_slots p) (Z.of_nat i) = Ok s /\
    Cut ps kmax (Node id c kids) new a (islot_key s) b
      (PInternal (split_internal p i s lsn).1) (PInternal (split_internal p i s lsn).2).
Proof.
  intros Hps Hkb Hsm Hfit Hp Hlp Hlsn Hsize. injection Hp as Hlm Hslots. simpl in Hfit.
  apply Forall_app in Hfit as [_ Hfit]. fold (kids_flat kids) in Hfit.
  pose proof (internal_slot_bounds _ _ _ Hkb Hfit) as Hb. rewrite <-Hslots in Hb.
  destruct (split_internal_fits ps p Hps Hb) as (i & s & Ei & Hs & [Hi1 Hi2] & Hl & Hr).
  { rewrite internal_page_size. unfold root_of, internal_of in Hsize. rewrite internal_page_size in Hsize.
    simpl in Hsize. by rewrite Hslots. }
  destruct (split_internal_balanced ps p i Hps) as [Hbl Hbr]; [| |done|].
  { rewrite Hslots. apply kids_keys_fit in Hfit. apply Forall_fmap. eapply Forall_impl; [exact Hfit|].
    intros [k t] Hl0. unfold short_separator, small_keys in *. simpl in *. rewrite internal_slot_size. simpl. lia. }
  { unfold root_of, internal_of in Hsize. rewrite internal_page_size in *. simpl in Hsize. rewrite Hslots. apply Hsize. }
  rewrite Hslots in Hs. destruct (kid_slot_split kids i s Hs) as (c' & Hk & Hc' & Ht & Hd).
  exists i, s, (Node id c (take i kids)), (Node new c' (drop (S i) kids)).
  split; [done|]. split; [apply py_get_lookup; by rewrite Hslots|].
  rewrite Hslots in Hl, Hr, Hbl, Hbr. rewrite Ht in Hl, Hbl. rewrite Hd in Hr, Hbr.
  rewrite Hslots, length_fmap in Hi2.
  split; try done.
  - unfold split_internal, erase, root_of, internal_of. simpl. rewrite Hslots, Ht, Hd, Hlm, Hc'. done.
  - rewrite Hk at 3. simpl. fold (kids_nodes (take i kids)) (kids_nodes (drop (S i) kids)).
    rewrite kids_nodes_app. simpl. fold (kids_nodes (drop (S i) kids)). solve_Permutation.
  - rewrite Hk at 1. apply morph_split_internal.
  - unfold page_ok, root_of, internal_of. rewrite !internal_page_size. simpl. lia.
Qed.

(** ** The new pages *)

Lemma allocate_bind {B} pend loose tr D ns (f : Z -> M BPlusTree B) :
  Rep pend loose (tr_store tr) D ns -> next_page_id (dk_meta D) < 2 ^ 64 ->
  exists s' D' id, (in_pager allocate_page ≫= f) tr = f id (set_store s' tr) /\
    Rep pend ({[id]} ∪ loose) s' D' ns /\ (id ∉ loose) /\ (id ∉ ns.*1) /\ 0 < id /\
    st_pool s' = st_pool (tr_store tr) /\ st_heap s' = st_heap (tr_store tr) /\ DiskStep 1 D D'.
Proof.
  intros Hr Hn. destruct (rep_allocate _ _ _ _ _ Hr Hn) as (s' & D' & id & E & H).
  exists s', D', id. split; [|exact H]. by apply in_pager_bind.
Qed.

Record SplitObjects (ps kmax : Z) (t : tree) (rest : list (Z * Page)) (tr tr' : BPlusTree) (D D' : Disk)
    (new : Z) (lnew : loc) (k : bytes) (a b : tree) (rhs : Page) : Prop := {
  so_cut : exists lhs, Cut ps kmax t new a k b lhs rhs;
  so_rep : Rep {[tid t]} {[new]} (tr_store tr') D' ((tid t, root_of a) :: rest);
  so_object : object (tr_store tr') lnew = Some rhs;
  so_unheld : forall i, ~ holds (tr_store tr') i lnew;
  so_pool : st_pool (tr_store tr') = st_pool (tr_store tr);
  so_new : 0 < new;
  so_disk : DiskStep 1 D D';
}.

(** The common tail: the left half is written in place, the right half is a
    new object. *)
Lemma split_tail ps kmax t rest tr D s1 D1 new l a k b lhs rhs (c : TreeCounter) :
  Cut ps kmax t new a k b lhs rhs -> tree_page lhs -> tree_page rhs ->
  Rep {[tid t]} ({[new]} ∪ ∅) s1 D1 ((tid t, root_of t) :: rest) -> holds s1 (tid t) l ->
  st_pool s1 = st_pool (tr_store tr) -> 0 < new -> DiskStep 1 D D1 ->
  exists tr' lnew,
    (in_store (assign l lhs);; new_sibling_page ← in_store (new_object rhs); count_tree c;;
     mret (new, new_sibling_page, k)) (set_store s1 tr) = (tr', Ok (new, lnew, k)) /\
    SplitObjects ps kmax t rest tr tr' D D1 new lnew k a b rhs.
Proof.
  intros Hcut Htl Htr Hr Hh Hpool Hnew Hd. pose proof Hcut as [_ [Hl _] [Hll _] _ _ _].
  destruct (rep_assign _ _ _ _ _ _ _ lhs l Hr Hh Htl Hll) as [Hr2 Hh2].
  rewrite (in_store_bind (assign l lhs) _ (set_store s1 tr) (assigned l lhs s1) tt eq_refl).
  destruct (rep_new _ _ _ _ _ rhs Hr2 Htr) as (s3 & lnew & E3 & Hr3 & Ho3 & Hu3 & Hp3).
  store_step E3. eexists _, lnew. split; [reflexivity|].
  split; try done; [by exists lhs| |].
  - rewrite Hl, (right_id_L ∅ (∪)) in Hr3. eapply rep_mono; [|exact Hr3]. set_solver.
  - simpl. by rewrite Hp3.
Qed.

Lemma split_objects_ok ps kmax t rest l lsn tr D : dk_ps D = ps -> good_page_size ps -> good_key_bound ps kmax -> small_keys ps kmax ->
  Forall (item_fits ps kmax) (flat t) ->
  ps < calculate_page_size (root_of t) <= ps + overflow ps t ->
  Rep {[tid t]} ∅ (tr_store tr) D ((tid t, root_of t) :: rest) -> holds (tr_store tr) (tid t) l ->
  fits 8 lsn = true -> next_page_id (dk_meta D) < 2 ^ 64 ->
  exists tr' D' new lnew k a b rhs, split_page_objects l lsn tr = (tr', Ok (new, lnew, k)) /\
    SplitObjects ps kmax t rest tr tr' D D' new lnew k a b rhs.
Proof.
  intros <- Hps Hkb Hsm Hfit Hsize Hr Hh Hlsn Hn. unfold split_page_objects. rewrite (page_size_bind _ _ _ _ _ Hr).
  match goal with |- context [in_store (deref l) ≫= ?f] =>
    destruct (deref_bind _ _ _ _ _ Hr _ _ l f ltac:(left) Hh) as (p & Hp & Hlp & _ & ->) end.
  destruct t as [id link slots|id c kids]; simpl tid in *.
  - pose proof Hp as Hp'. apply erase_leaf in Hp' as (lsn0 & ->). set (p := {| leaf_lsn := lsn0 |}) in *.
    (* the index does not depend on the new id *)
    destruct (cut_leaf (dk_ps D) kmax id link slots p 0 lsn Hps Hfit Hp Hlp Hlsn Hsize) as (i & _ & _ & _ & Ei & _).
    rewrite Ei. rewrite (bind_Ok (lift _) _ tr tr i eq_refl).
    match goal with |- context [(in_pager allocate_page ≫= ?f) tr] =>
      destruct (allocate_bind _ _ tr D _ f Hr Hn) as (s1 & D1 & new & -> & Hr1 & _ & _ & Hpos & Hpool & Hheap & Hd) end.
    destruct (cut_leaf (dk_ps D) kmax id link slots p new lsn Hps Hfit Hp Hlp Hlsn Hsize) as (i' & s & a & b & Ei' & Hs & Hcut).
    assert (i' = i) as -> by congruence. unfold split_leaf in *. cbn [fst snd] in *.
    rewrite Hs. rewrite (bind_Ok (lift _) _ _ _ s eq_refl).
    destruct (split_tail _ _ _ rest tr D s1 D1 new l a _ b _ _ CLeafSplits Hcut I I Hr1) as (tr' & lnew & E & H);
      [by apply (holds_same_pool (tr_store tr))|done|done|done|].
    eexists tr', D1, new, lnew, _, a, b, _. split; [exact E|exact H].
  - pose proof Hp as Hp'. apply erase_internal in Hp' as (lsn0 & ->). set (p := {| internal_lsn := lsn0 |}) in *.
    destruct (cut_internal (dk_ps D) kmax id c kids p 0 lsn Hps Hkb Hsm Hfit Hp Hlp Hlsn Hsize) as (i & _ & _ & _ & Ei & _).
    rewrite Ei. rewrite (bind_Ok (lift _) _ tr tr i eq_refl).
    match goal with |- context [(in_pager allocate_page ≫= ?f) tr] =>
      destruct (allocate_bind _ _ tr D _ f Hr Hn) as (s1 & D1 & new & -> & Hr1 & _ & _ & Hpos & Hpool & Hheap & Hd) end.
    destruct (cut_internal (dk_ps D) kmax id c kids p new lsn Hps Hkb Hsm Hfit Hp Hlp Hlsn Hsize) as (i' & s & a & b & Ei' & Hs & Hcut).
    assert (i' = i) as -> by congruence. unfold split_internal in *. cbn [fst snd] in *.
    rewrite Hs. rewrite (bind_Ok (lift _) _ _ _ s eq_refl).
    destruct (split_tail _ _ _ rest tr D s1 D1 new l a _ b _ _ CInternalSplits Hcut I I Hr1) as (tr' & lnew & E & H);
      [by apply (holds_same_pool (tr_store tr))|done|done|done|].
    eexists tr', D1, new, lnew, _, a, b, _. split; [exact E|exact H].
Qed.
