(* ===== verification/TreeBalance.v ===== *)
(** * The state of the rebalancing cascade, and its split step

    [Bal] is the invariant of the loop of [_balance_and_write_tree]: the whole
    tree is well formed and every page but the one on the stack is healthy. *)

From S2P Require Import Prelude Bytes Bisect Entities Codec Fs Pager Cache Tree.
From S2P Require Import CodecFacts PagerFacts CacheFacts CacheOps.
From S2P Require Import TreeSizes TreeShape TreeSteps TreeSearch TreeStore TreeFind TreeSplit.

Definition has_kids (t : tree) : Prop := match t with Node _ _ [] => False | _ => True end.

(** The pages may be numbered up to a limit of the caller's choice; page ids
    have 64 bits. *)
Class Limit := { page_limit : Z; page_limit_le : page_limit <= 2 ^ 64 }.

(** The ids the file format has room for. *)
Definition all_ids : Limit := {| page_limit := 2 ^ 64; page_limit_le := Z.le_refl _ |}.

Ltac limit_lia := pose proof page_limit_le; lia.

(** [n] bounds the pages that may still be fetched, made dirty or allocated. *)
Record Bal {L : Limit} (ps kmax : Z) (ctx : context) (t : tree) (l : loc) (n : Z) (tr : BPlusTree) (D : Disk) : Prop := {
  ba_ps : dk_ps D = ps;
  ba_rep : Rep {[tid t]} ∅ (tr_store tr) D (nodes (plug ctx t));
  ba_holds : holds (tr_store tr) (tid t) l;
  ba_shield : shielded {[tid t]} n (tr_store tr);
  ba_next : next_page_id (dk_meta D) + n <= page_limit;
  ba_root : root_page_id (dk_meta D) = tid (plug ctx t);
  ba_wf : Wf ps kmax (plug ctx t);
  ba_pages : pages_ok ps (tid (plug ctx t)) (below t ++ ctx_nodes ctx (tid t));
  ba_size : calculate_page_size (root_of t) <= ps + overflow ps t;
  ba_kids : ctx = [] -> has_kids t;
}.

Lemma tid_plug ctx t t' : tid t = tid t' -> tid (plug ctx t) = tid (plug ctx t').
Proof.
  revert t t'. induction ctx as [|f ctx IH]; intros t t' H; [done|]. simpl. apply IH. by rewrite !tid_fill.
Qed.

(** The pages around the one on the stack. *)
Definition around (ctx : context) (t : tree) : list (Z * Page) := below t ++ ctx_nodes ctx (tid t).

Lemma nodes_around ctx t : nodes (plug ctx t) ≡ₚ (tid t, root_of t) :: around ctx t.
Proof. by rewrite nodes_plug, nodes_below. Qed.

Lemma deref_internal_bind {B} pend loose tr D ns id lm slots l (f : InternalPage -> M BPlusTree B) :
  Rep pend loose (tr_store tr) D ns -> (id, internal_of lm slots) ∈ ns -> holds (tr_store tr) id l ->
  exists lsn, lsn_fits (PInternal {| internal_lsn := lsn; leftmost_child_page_id := lm; internal_slots := slots |}) /\
    (deref_internal l ≫= f) tr =
      f {| internal_lsn := lsn; leftmost_child_page_id := lm; internal_slots := slots |} tr.
Proof.
  intros Hr He Hl. destruct (rep_deref _ _ _ _ _ _ _ _ Hr He Hl) as (p & Ho & Hq & Hf).
  apply erase_internal in Hq as (lsn & ->). exists lsn. split; [done|].
  apply bind_Ok. unfold deref_internal. pose proof (deref_run _ _ _ Ho) as E.
  by rewrite (in_store_bind _ _ _ _ _ E), set_store_same.
Qed.

(** ** The parent of a split *)

Lemma insort_frame f a k b : keys_lt (page_keys (frame_page_with f (tid a) (kid_slot <$> [(k, b)]))) ->
  insort_internal {| islot_key := k; child_page_id := tid b |} (frame_slots1 f (tid a) ++ frame_slots2 f) =
    frame_slots1 f (tid a) ++ (kid_slot <$> [(k, b)]) ++ frame_slots2 f.
Proof.
  intros Hs. unfold insort_internal, py_insert. cbn [islot_key].
  unfold page_keys, frame_page_with, internal_of in Hs. cbn [internal_slots] in Hs.
  rewrite !fmap_app in Hs. change (islot_key <$> (kid_slot <$> [(k, b)])) with [k] in Hs.
  apply keys_lt_app in Hs as (_ & Hs2 & Hs1). apply keys_lt_cons in Hs2 as [Hs2 _].
  rewrite fmap_app, (bisect_right_app bytes_ltb).
  - rewrite length_fmap, take_app_length, drop_app_length. done.
  - eapply Forall_impl; [exact Hs1|]. intros x Hx. apply bytes_lt_le. by apply Forall_cons in Hx as [Hx _].
  - exact Hs2.
Qed.

Lemma page_keys_root_of id c kids : page_keys (root_of (Node id c kids)) = kids.*1.
Proof. simpl. apply kid_slot_keys. Qed.

Lemma sorted_page_keys t : items_sorted (flat t) -> keys_lt (page_keys (root_of t)).
Proof.
  destruct t as [id link slots|id c kids]; intros Hs.
  - simpl in *. apply records_keys_lt in Hs. by rewrite records_Rec in Hs.
  - rewrite page_keys_root_of. simpl in Hs. fold (kids_flat kids) in Hs.
    apply items_sorted_app in Hs as (_ & _ & Hs). by apply kids_flat_seps_lt.
Qed.

Lemma wf_sub_sorted ps kmax ctx t : Wf ps kmax (plug ctx t) -> items_sorted (flat t).
Proof.
  intros [_ Hs _ _]. rewrite flat_plug in Hs. apply items_sorted_app in Hs as (_ & _ & Hs).
  by apply items_sorted_app in Hs as (_ & Hs & _).
Qed.

Lemma wf_sub_fits ps kmax ctx t : Wf ps kmax (plug ctx t) -> Forall (item_fits ps kmax) (flat t).
Proof. intros [_ _ _ Hf]. rewrite flat_plug, !Forall_app in Hf. tauto. Qed.

(** The pages of a context whose page has further children. *)
Lemma nodes_plug_fills ctx f a rest : nodes (plug ctx (fills f a rest)) ≡ₚ
  (frame_id f, frame_page_with f (tid a) (kid_slot <$> rest)) ::
  seg_nodes a rest ++ frame_siblings f ++ ctx_nodes ctx (frame_id f).
Proof.
  rewrite nodes_plug, nodes_below, below_fills, tid_fills, root_of_fills. simpl. solve_Permutation.
Qed.

Lemma frame_page_slots f hole : frame_page f hole = internal_of (frame_lm f hole) (frame_slots1 f hole ++ frame_slots2 f).
Proof. destruct f; simpl; [done|]. by rewrite <-app_assoc. Qed.

Lemma internal_of_size lm slots : calculate_page_size (internal_of lm slots) = 32 + internal_body slots.
Proof. apply internal_page_size. Qed.

Lemma leaf_of_size link slots : calculate_page_size (leaf_of link slots) = 32 + leaf_body slots.
Proof. apply leaf_page_size. Qed.

Lemma frame_page_with_size f hole k b : calculate_page_size (frame_page_with f hole (kid_slot <$> [(k, b)])) =
  calculate_page_size (frame_page f hole) + 20 + len k.
Proof.
  rewrite frame_page_slots. unfold frame_page_with. rewrite !internal_of_size, !internal_body_app.
  change (kid_slot <$> [(k, b)]) with [kid_slot (k, b)]. rewrite internal_body_cons.
  change (internal_body []) with 0. simpl. lia.
Qed.

(** ** The split step *)

Lemma bind_split {S} (m m' : M S unit) s s' a : (m;; m') s = (s', Ok a) ->
  exists s1, m s = (s1, Ok tt) /\ m' s1 = (s', Ok a).
Proof.
  unfold mbind, M_bind. destruct (m s) as [s1 [[]|e]] eqn:E; [|done]. intros H. by exists s1.
Qed.

Section split.
Context {L : Limit} (ps kmax lsn : Z) (Hps : good_page_size ps) (Hkb : good_key_bound ps kmax) (Hlsn : fits 8 lsn = true).
Context (Hsmall : small_keys ps kmax).

(** The two halves are in the store, the parent is not told yet. *)
Record Halved (ctx : context) (t : tree) (n : Z) (tr' : BPlusTree) (D' : Disk) (k : bytes) (a b : tree) : Prop := {
  hv_ps : dk_ps D' = ps;
  hv_rep : Rep ∅ ∅ (tr_store tr') D' ((tid a, root_of a) :: (tid b, root_of b) :: around ctx t);
  hv_shield : shielded ∅ n (tr_store tr');
  hv_next : next_page_id (dk_meta D') + n <= page_limit;
  hv_root : root_page_id (dk_meta D') = tid (plug ctx t);
  hv_id : tid a = tid t;
  hv_below : below a ++ below b ≡ₚ below t;
  hv_morph : Morph ps kmax t [] a [(k, b)];
  hv_ok : page_ok ps (root_of a) /\ page_ok ps (root_of b);
}.

Lemma halve ctx t l n tr D : Bal ps kmax ctx t l n tr D -> ps < calculate_page_size (root_of t) -> 4 <= n ->
  exists tr' D' new lnew k a b tr'',
    split_page_objects l lsn tr = (tr'', Ok (new, lnew, k)) /\
    (in_store (mark_dirty (tid t) lsn);; in_store (pool_insert new lnew lsn)) tr'' = (tr', Ok tt) /\
    tid b = new /\ Halved ctx t (n - 3) tr' D' k a b.
Proof.
  intros [Eps0 Hr Hh Hs Hn Hroot Hwf Hp Hsz _] Hover Hn4. rewrite nodes_around in Hr.
  destruct (split_objects_ok ps kmax t (around ctx t) l lsn tr D Eps0 Hps Hkb Hsmall (wf_sub_fits _ _ _ _ Hwf) (conj Hover Hsz) Hr Hh
    Hlsn ltac:(limit_lia)) as (tr1 & D1 & new & lnew & k & a & b & rhs & E1 & [(lhs & Hcut) Hr1 Ho Hu Hpool Hnew Hd]).
  pose proof Hcut as [[Ha Hb] [_ Hrhs] [_ Hlf] Hbelow Hmorph Hok].
  assert (holds (tr_store tr1) (tid t) l) as Hh1 by (by apply (holds_same_pool (tr_store tr))).
  destruct (rep_mark _ _ _ _ _ (tid t) l lsn Hr1 Hh1 ltac:(left) Hlsn) as (s2 & E2 & Hr2 & Hh2 & Hobj2 & Hs2).
  rewrite difference_diag_L in Hr2.
  assert (lnew <> l) as Hne by (intros ->; by apply (Hu (tid t))).
  assert (tree_page rhs) as Htr by (apply tree_page_erase; rewrite Hrhs; by destruct b).
  destruct (rep_insert ∅ {[new]} s2 D1 _ new lnew rhs lsn ∅ (n - 3) Hr2) as (s3 & E3 & Hr3 & _ & Hs3 & _).
  { set_solver. } { by rewrite Hobj2. } { done. } { intros i Hi%Hh2. by apply (Hu i). } { done. } { set_solver. }
  { apply (shielded_weaken {[tid t]} _ (n - 1)); [set_solver|lia|]. apply Hs2.
    replace (n - 1 + 1) with n by lia. by apply (shielded_same_pool _ _ (tr_store tr)). }
  { lia. }
  exists (set_store s3 tr1), D1, new, lnew, k, a, b, tr1. split; [done|]. split.
  { store_step E2. unfold in_store, zoom. cbn [tr_store set_store]. by rewrite E3. }
  split; [done|]. destruct Hd as [Eps Eroot Enext]. split; try done.
  - congruence.
  - rewrite difference_diag_L, Hrhs in Hr3. rewrite Ha, Hb. change (tr_store _) with s3.
    by rewrite Permutation_swap in Hr3.
  - eapply shielded_weaken; [|reflexivity|exact Hs3]. set_solver.
  - lia.
  - by rewrite Eroot.
Qed.

(** Above the root: a new root over the two halves. *)
Lemma split_root_ok t l n tr D : Bal ps kmax [] t l n tr D -> ps < calculate_page_size (root_of t) -> 8 <= n ->
  exists tr' D' t' l', split_page (tid t) None l lsn tr = (tr', Ok (tid t', l')) /\
    Bal ps kmax [] t' l' (n - 8) tr' D' /\ calculate_page_size (root_of t') <= ps /\
    Kept 1 t t'.
Proof.
  intros Hbal Hover Hn8.
  destruct (halve [] t l n tr D Hbal Hover ltac:(lia)) as (tr1 & D1 & new & lnew & k & a & b & tr0 & E0 & E1 & Hnew & Hv).
  destruct Hv as [Eps1 Hr1 Hs1 Hn1 Hroot1 Hid Hbelow Hmorph [Hoka Hokb]].
  destruct Hbal as [_ Hr _ _ _ _ Hwf Hp _ _]. simpl in Hr, Hwf, Hp. rewrite app_nil_r in Hp.
  unfold split_page. rewrite (bind_Ok _ _ _ _ _ E0).
  destruct (bind_split _ _ _ _ _ E1) as (tr01 & E01 & E02).
  rewrite (bind_Ok _ _ _ _ _ E01), (bind_Ok _ _ _ _ _ E02).
  match goal with |- context [(in_pager allocate_page ≫= ?f) tr1] =>
    destruct (allocate_bind _ _ tr1 D1 _ f Hr1 ltac:(limit_lia)) as (s2 & D2 & root & -> & Hr2 & _ & _ & Hpos & Hpool & Hheap & [Eps Eroot Enext]) end.
  set (page := {| internal_lsn := lsn; leftmost_child_page_id := tid t;
                  internal_slots := [{| islot_key := k; child_page_id := new |}] |}).
  destruct (rep_new _ _ _ _ _ (PInternal page) Hr2 I) as (s3 & lr & E3 & Hr3 & Ho3 & Hu3 & Hp3).
  store_step E3.
  destruct (rep_insert ∅ _ s3 D2 _ root lr (PInternal page) lsn ∅ (n - 5) Hr3) as (s4 & E4 & Hr4 & Hh4 & Hs4 & _).
  { set_solver. } { done. } { done. } { done. } { done. } { set_solver. }
  { apply (shielded_same_pool _ _ (tr_store tr1)); [congruence|]. eapply shielded_weaken; [| |exact Hs1]; [done|lia]. }
  { lia. }
  store_step E4.
  destruct (rep_set_root ∅ _ s4 D2 _ root Hr4) as (s5 & E5 & Hr5 & Hp5 & _).
  pager_step E5. set (t' := Node root a [(k, b)]).
  destruct (wf_morph_root ps kmax root t a [(k, b)] Hmorph Hwf) as [Hwf' Hrec].
  exists (set_store s5 (set_store s4 (set_store s3 (set_store s2 tr1)))), (with_disk_root root D2), t', lr.
  split; [done|]. assert (erase (PInternal page) = root_of t') as Hpage.
  { unfold page, t', root_of, internal_of. simpl. unfold kid_slot. simpl. by rewrite Hid, Hnew. }
  assert (calculate_page_size (root_of t') <= ps) as Hfits.
  { rewrite <-Hpage. unfold erase. rewrite page_size_lsn, internal_page_size. unfold page. cbn [internal_slots].
    rewrite internal_body_cons. change (internal_body []) with 0. simpl.
    pose proof (wf_fits _ _ _ Hwf') as Hf. simpl in Hf. rewrite Forall_app, Forall_cons in Hf.
    destruct Hf as (_ & [Hk _] & _). simpl in Hk.
    unfold good_key_bound, max_internal_slot, good_page_size in *.
    assert ((ps - 32) / 5 <= ps - 52) by (apply Z.div_le_upper_bound; lia). lia. }
  split; [|by split].
  assert (nodes t' ≡ₚ (root, root_of t') :: (tid a, root_of a) :: (tid b, root_of b) :: around [] t) as Hnodes.
  { rewrite (nodes_below t'). change (tid t') with root. simpl below. rewrite app_nil_r.
    unfold around. simpl. rewrite app_nil_r, <-Hbelow, (nodes_below a), (nodes_below b). solve_Permutation. }
  split; try done; try change (plug [] t') with t'.
  - change (dk_ps D2 = ps). congruence.
  - rewrite Hnodes, <-Hpage. change (tid t') with root. change (tr_store _) with s5.
    replace (({[root]} ∪ ∅) ∖ {[root]}) with (∅ : gset Z) in Hr5 by set_solver.
    eapply rep_mono; [|exact Hr5]. set_solver.
  - by apply (holds_same_pool s4).
  - apply (shielded_same_pool _ _ s4); [done|]. eapply shielded_weaken; [| |exact Hs4]; [set_solver|lia].
  - simpl in *. lia.
  - rewrite app_nil_r. change (below t') with (nodes a ++ nodes b ++ []).
    assert (pages_ok ps (tid t') (below a ++ below b)) as Hp'.
    { rewrite Hbelow. apply (pages_ok_reroot ps (tid t)); [|done].
      pose proof (rep_nodup _ _ _ _ _ Hr) as Hnd. rewrite nodes_below in Hnd. by apply NoDup_cons in Hnd as [? _]. }
    rewrite (nodes_below a), (nodes_below b). rewrite app_nil_r, pages_ok_app, !pages_ok_cons.
    apply pages_ok_app in Hp' as [? ?]. split; (split; [by apply page_ok_placed|done]).
  - simpl overflow. unfold max_internal_slot, good_page_size in *. pose proof (Z.div_pos (ps - 32) 5). lia.
Qed.

(** Below a parent: the parent takes the promoted separator and is next. *)
Lemma split_child_ok f ctx t l n tr D : Bal ps kmax (f :: ctx) t l n tr D ->
  ps < calculate_page_size (root_of t) -> 8 <= n ->
  exists tr' D' t' l', split_page (tid t) (Some (frame_id f)) l lsn tr = (tr', Ok (tid t', l')) /\
    Bal ps kmax ctx t' l' (n - 8) tr' D' /\ Kept 0 (plug (f :: ctx) t) (plug ctx t').
Proof.
  intros Hbal Hover Hn8.
  destruct (halve (f :: ctx) t l n tr D Hbal Hover ltac:(lia)) as (tr1 & D1 & new & lnew & k & a & b & tr0 & E0 & E1 & Hnew & Hv).
  destruct Hv as [Eps1 Hr1 Hs1 Hn1 Hroot1 Hid Hbelow Hmorph [Hoka Hokb]].
  destruct Hbal as [_ _ _ _ _ _ Hwf Hp _ _]. simpl in Hwf, Hp.
  unfold split_page. rewrite (bind_Ok _ _ _ _ _ E0).
  destruct (bind_split _ _ _ _ _ E1) as (tr01 & E01 & E02).
  rewrite (bind_Ok _ _ _ _ _ E01), (bind_Ok _ _ _ _ _ E02).
  assert ((frame_id f, frame_page f (tid t)) ∈ around (f :: ctx) t) as Hin.
  { unfold around. simpl. apply elem_of_app. right. left. }
  destruct (rep_get ∅ ∅ (tr_store tr1) D1 _ (frame_id f) (frame_page f (tid t)) ∅ (n - 4) Hr1)
    as (s2 & lp & E2 & Hr2 & Hh2 & Hs2 & _); [by do 2 right|set_solver| |lia|].
  { by replace (n - 4 + 1) with (n - 3) by lia. }
  store_step E2. rewrite frame_page_slots in Hin.
  match goal with |- context [(deref_internal lp ≫= ?g) ?tr2] =>
    destruct (deref_internal_bind ∅ ∅ tr2 D1 _ (frame_id f) (frame_lm f (tid t))
      (frame_slots1 f (tid t) ++ frame_slots2 f) lp g Hr2) as (lsn0 & Hl0 & ->); [do 2 right; exact Hin|done|] end.
  cbn [internal_slots leftmost_child_page_id]. rewrite <-fills_nil in Hwf.
  destruct (wf_morph ps kmax ctx f t [] a [(k, b)] Hmorph Hwf) as [Hwf' Hrec].
  set (t' := fills f a [(k, b)]) in *.
  assert (keys_lt (page_keys (frame_page_with f (tid a) (kid_slot <$> [(k, b)])))) as Hkeys.
  { rewrite <-root_of_fills. apply sorted_page_keys. by eapply wf_sub_sorted. }
  set (q := PInternal _). assert (erase q = root_of t') as Hq.
  { unfold q, t'. rewrite root_of_fills, <-Hnew, <-Hid, (insort_frame f a k b Hkeys). done. }
  set (others := (tid a, root_of a) :: (tid b, root_of b) :: below t ++ frame_siblings f ++ ctx_nodes ctx (frame_id f)).
  assert ((tid a, root_of a) :: (tid b, root_of b) :: around (f :: ctx) t ≡ₚ (frame_id f, frame_page f (tid t)) :: others) as Hperm.
  { unfold around, others. simpl. solve_Permutation. }
  assert (nodes (plug ctx t') ≡ₚ (frame_id f, root_of t') :: others) as Hnodes.
  { unfold t', others. rewrite nodes_plug_fills, root_of_fills. unfold seg_nodes. simpl. rewrite app_nil_r.
    rewrite (nodes_below a), (nodes_below b), <-Hbelow. simpl. solve_Permutation. }
  rewrite Hperm in Hr2. destruct (rep_assign _ _ _ _ _ _ _ q lp Hr2 Hh2 I Hl0) as [Hr3 Hh3].
  rewrite (in_store_bind (assign lp q) _ (set_store s2 tr1) (assigned lp q s2) tt eq_refl).
  exists (set_store (assigned lp q s2) (set_store s2 tr1)), D1, t', lp.
  assert (tid t' = frame_id f) as Ht' by apply tid_fills. rewrite Ht'.
  split; [done|]. split; [|by rewrite fills_nil in Hrec].
  split; try done; rewrite ?Ht'.
  - rewrite Hnodes, <-Hq. by rewrite (right_id_L ∅ (∪)) in Hr3.
  - by apply Hh3.
  - apply (shielded_same_pool _ _ s2); [done|]. eapply shielded_weaken; [| |exact Hs2]; [set_solver|lia].
  - lia.
  - rewrite Hroot1. simpl. apply tid_plug. by rewrite tid_fill, Ht'.
  - unfold t'. rewrite below_fills. unfold seg_nodes. simpl. rewrite app_nil_r.
    rewrite (nodes_below a), (nodes_below b). rewrite <-Hbelow in Hp.
    assert (tid (plug ctx (fill f t)) = tid (plug ctx (fills f a [(k, b)]))) as <- by (apply tid_plug; by rewrite tid_fill, tid_fills).
    simpl in Hp. repeat (rewrite !pages_ok_app in * || rewrite !pages_ok_cons in *).
    apply (page_ok_placed _ (tid (plug ctx (fill f t))) (tid a)) in Hoka.
    apply (page_ok_placed _ (tid (plug ctx (fill f t))) (tid b)) in Hokb. tauto.
  - unfold t'. rewrite root_of_fills, frame_page_with_size, Hid.
    simpl in Hp. rewrite pages_ok_app, pages_ok_cons in Hp. destruct Hp as (_ & Hsz & _).
    apply placed_root in Hsz as [Hsz _]; [|unfold good_page_size in Hps; lia]. simpl in Hsz.
    pose proof (wf_sub_fits _ _ _ _ Hwf') as Hf. unfold t' in Hf. rewrite flat_fills in Hf. unfold seg_flat in Hf.
    rewrite !Forall_app in Hf. destruct Hf as (_ & (_ & Hf) & _). simpl in Hf. apply Forall_cons in Hf as [[Hk _] _].
    simpl in Hk. unfold good_key_bound in Hkb. destruct f; simpl in *; lia.
  - intros ->. unfold t'. destruct f as [|id c kids1 key kids2]; [done|]. simpl. by destruct kids1.
Qed.
End split.
