(* ===== verification/TreeRedistribute.v ===== *)
(** * Redistribution between neighbouring pages

    Two neighbours and the separator between them are one list cut at a
    position; a round of the loop of [_try_redistribute_slots] moves the
    position by one.  The loop ends with two healthy pages, or leaves the pages
    as they were and the two together are small. *)

From S2P Require Import Prelude Bytes Bisect Entities Codec Fs Pager Cache Tree.
From S2P Require Import TreeSizes TreeShape TreeSteps TreeSearch TreeStore TreeSplit TreeBalance.

(** The trio of a left page, a right page and their parent. *)
Definition mk_trio (left : bool) (pa pb : Page) (pp : InternalPage) : Trio :=
  {| donor := if left then pa else pb; recipient := if left then pb else pa; parent := pp |}.

(** The donor has a slot to give and one to keep. *)
Definition can_give (p : Page) : Prop :=
  match p with
  | PLeaf q => (2 <= length (leaf_slots q))%nat
  | PInternal q => (1 <= length (internal_slots q))%nat
  | PFreelist _ => False
  end.

Lemma page_ok_can_give ps p : good_page_size ps ->
  match p with
  | PLeaf q => Forall (fun s => calculate_leaf_slot_size s true <= max_leaf_slot ps) (leaf_slots q) /\
      2 * ps <= 5 * calculate_page_size p
  | PInternal q => internal_slots q <> []
  | PFreelist _ => False
  end -> can_give p.
Proof.
  unfold good_page_size, max_leaf_slot. intros Hps. destruct p as [q|q|q]; simpl; [..|done].
  - destruct (internal_slots q); [done|simpl; lia].
  - rewrite leaf_page_size. intros [Hb Hsz].
    pose proof (Z.div_mod (ps - 32) 5 ltac:(lia)). pose proof (Z.mod_pos_bound (ps - 32) 5 ltac:(lia)).
    destruct (leaf_slots q) as [|s [|s2 l]]; [| |simpl; lia]; exfalso.
    + change (leaf_body []) with 0 in Hsz. lia.
    + apply Forall_cons in Hb as [Hs _]. rewrite leaf_body_cons, <-leaf_slot_size in Hsz.
      change (leaf_body []) with 0 in Hsz. lia.
Qed.

(** ** The loop *)

Section loop.
Context (ps : Z) (idx : nat) (left : bool) (mx : Z).
Context (st : nat -> bytes -> Trio) (key_at : nat -> bytes) (next : nat -> nat) (valid : nat -> bytes -> Prop).

(** One round moves the cut. *)
Context (Hstep : forall c k, valid c k -> can_give (donor (st c k)) ->
  let t' := st (next c) (key_at (next c)) in
  transfer_slot idx left (st c k) = (t', Ok tt) /\ valid (next c) (key_at (next c)) /\
  S (length (page_keys (donor t'))) = length (page_keys (donor (st c k))) /\
  calculate_page_size (donor t') <= calculate_page_size (donor (st c k)) /\
  calculate_page_size (recipient t') <= calculate_page_size (recipient (st c k)) + mx).
Context (Hgive : forall c k, valid c k -> page_underpopulated ps (donor (st c k)) = false ->
  can_give (donor (st c k))).

Lemma redistribute_loop_stop fuel backup t : page_underpopulated ps (recipient t) = false ->
  redistribute_loop fuel ps idx left backup t = (t, Ok true).
Proof. intros H. destruct fuel; simpl; by rewrite H. Qed.

Lemma redistribute_loop_spec backup : forall fuel c k,
  valid c k -> can_give (donor (st c k)) -> (length (page_keys (donor (st c k))) < fuel)%nat ->
  page_underpopulated ps (recipient (st c k)) = true ->
  exists c1 k1, valid c1 k1 /\ can_give (donor (st c1 k1)) /\
    page_underpopulated ps (recipient (st c1 k1)) = true /\
    let t2 := st (next c1) (key_at (next c1)) in
    valid (next c1) (key_at (next c1)) /\
    calculate_page_size (donor t2) <= calculate_page_size (donor (st c k)) /\
    calculate_page_size (recipient t2) <= calculate_page_size (recipient (st c1 k1)) + mx /\
    ((redistribute_loop fuel ps idx left backup (st c k) = (t2, Ok true) /\
      page_underpopulated ps (recipient t2) = false /\ page_underpopulated ps (donor t2) = false) \/
     (redistribute_loop fuel ps idx left backup (st c k) = (restore_trio backup t2, Ok false) /\
      page_underpopulated ps (donor t2) = true)).
Proof.
  induction fuel as [|fuel IH]; intros c k Hv Hg Hf Hu; [lia|].
  destruct (Hstep c k Hv Hg) as (Et & Hv2 & Hlen & Hd & Hr). cbn [redistribute_loop].
  rewrite Hu, Et. set (t2 := st (next c) (key_at (next c))) in *.
  destruct (page_underpopulated ps (donor t2)) eqn:Ed.
  - exists c, k. split_and!; try done. by right.
  - destruct (page_underpopulated ps (recipient t2)) eqn:Er.
    + destruct (IH (next c) (key_at (next c)) Hv2 (Hgive _ _ Hv2 Ed) ltac:(fold t2; lia) Er)
        as (c1 & k1 & H1 & H2 & H3 & H4 & H5 & H6 & H7).
      exists c1, k1. fold t2 in H5, H7. split_and!; try done. lia.
    + exists c, k. split_and!; try done. left. split; [|done]. by apply redistribute_loop_stop.
Qed.
End loop.

(** ** Separators *)

Definition has_slot (pp : InternalPage) (idx : nat) : Prop := (idx < length (internal_slots pp))%nat.

Lemma set_separator_twice idx k k' pp : set_separator idx k (set_separator idx k' pp) = set_separator idx k pp.
Proof.
  unfold set_separator, set_internal_slots. simpl. f_equal. apply list_eq. intros j.
  destruct (decide (j = idx)) as [->|Hne].
  - rewrite !list_lookup_alter_eq. by destruct (internal_slots pp !! idx).
  - by rewrite !list_lookup_alter_ne.
Qed.

Lemma set_separator_lookup idx k pp s : internal_slots pp !! idx = Some s ->
  internal_slots (set_separator idx k pp) !! idx = Some {| islot_key := k; child_page_id := child_page_id s |}.
Proof. intros H. unfold set_separator. simpl. rewrite list_lookup_alter_eq, H. done. Qed.

Lemma set_separator_same idx pp s : internal_slots pp !! idx = Some s -> set_separator idx (islot_key s) pp = pp.
Proof.
  intros H. unfold set_separator, set_internal_slots. destruct pp as [lsn lm slots]. simpl in *. f_equal.
  apply list_eq. intros j. destruct (decide (j = idx)) as [->|Hne].
  - rewrite list_lookup_alter_eq, H. by destruct s.
  - by rewrite list_lookup_alter_ne.
Qed.

Lemma restore_separator idx k pp : set_internal_slots (internal_slots pp) (set_separator idx k pp) = pp.
Proof. by destruct pp. Qed.

(** ** Leaves *)

Section leaves.
Context (ps : Z) (idx : nat) (left : bool) (Hps : good_page_size ps).
Context (M : list LeafSlot) (pa pb : LeafPage) (pp : InternalPage).
Context (Hfit : Forall (fun s => calculate_leaf_slot_size s true <= max_leaf_slot ps) M).

Definition leaf_state (c : nat) (k : bytes) : Trio :=
  mk_trio left (PLeaf (set_leaf_slots (take c M) pa)) (PLeaf (set_leaf_slots (drop c M) pb))
    (set_separator idx k pp).

Definition leaf_key_at (c : nat) : bytes :=
  match M !! c with Some s => lslot_key s | None => [] end.

Definition shift (c : nat) : nat := if left then (c - 1)%nat else S c.

Definition leaf_valid (c : nat) (k : bytes) : Prop := (c <= length M)%nat.

Lemma leaf_step c k : leaf_valid c k -> can_give (donor (leaf_state c k)) ->
  let t' := leaf_state (shift c) (leaf_key_at (shift c)) in
  transfer_slot idx left (leaf_state c k) = (t', Ok tt) /\ leaf_valid (shift c) (leaf_key_at (shift c)) /\
  S (length (page_keys (donor t'))) = length (page_keys (donor (leaf_state c k))) /\
  calculate_page_size (donor t') <= calculate_page_size (donor (leaf_state c k)) /\
  calculate_page_size (recipient t') <= calculate_page_size (recipient (leaf_state c k)) + max_leaf_slot ps.
Proof.
  unfold leaf_valid, leaf_state, shift, leaf_key_at, transfer_slot, mk_trio.
  destruct left; cbn [donor recipient parent leaf_slots set_leaf_slots can_give page_keys]; intros Hc Hg;
    rewrite ?length_fmap, ?length_take, ?length_drop in *.
  - destruct (lookup_lt_is_Some_2 M (c - 1) ltac:(lia)) as [s Hs]. rewrite Hs.
    assert (take c M = take (c - 1) M ++ [s]) as Et by (replace c with (S (c - 1)) at 1 by lia; by apply take_S_r).
    assert (drop (c - 1) M = s :: drop c M) as Ed.
    { rewrite (drop_S _ _ _ Hs). by replace (S (c - 1)) with c by lia. }
    assert (calculate_leaf_slot_size s true <= max_leaf_slot ps) as Hsz.
    { rewrite Forall_forall in Hfit. apply Hfit. by eapply list_elem_of_lookup_2. }
    assert (0 <= calculate_leaf_slot_size s true) as Hs0.
    { rewrite leaf_slot_size. pose proof (len_nonneg (lslot_key s)). pose proof (len_nonneg (lslot_value s)). lia. }
    rewrite Et, py_pop_last. split; [|split; [lia|]].
    + unfold set_leaf_slots; simpl. rewrite Ed, set_separator_twice. done.
    + rewrite !leaf_page_size. cbn [leaf_slots set_leaf_slots]. rewrite Ed, leaf_body_app, !leaf_body_cons.
      rewrite leaf_slot_size in *. change (leaf_body []) with 0. split; [lia|]. lia.
  - destruct (lookup_lt_is_Some_2 M c ltac:(lia)) as [s Hs].
    destruct (lookup_lt_is_Some_2 M (S c) ltac:(lia)) as [s' Hs']. rewrite Hs'.
    assert (drop c M = s :: drop (S c) M) as Ed by (by apply drop_S).
    assert (take (S c) M = take c M ++ [s]) as Et by (by apply take_S_r).
    assert (calculate_leaf_slot_size s true <= max_leaf_slot ps) as Hsz.
    { rewrite Forall_forall in Hfit. apply Hfit. by eapply list_elem_of_lookup_2. }
    assert (0 <= calculate_leaf_slot_size s true) as Hs0.
    { rewrite leaf_slot_size. pose proof (len_nonneg (lslot_key s)). pose proof (len_nonneg (lslot_value s)). lia. }
    rewrite Ed, (py_pop_lookup (s :: drop (S c) M) 0 s eq_refl : py_pop _ 0 = _).
    cbn [take app]. change (drop 1 (s :: drop (S c) M)) with (drop 0 (drop (S c) M)). rewrite drop_0.
    rewrite (py_get_lookup (drop (S c) M) 0 s' ltac:(by rewrite lookup_drop, Nat.add_0_r) : py_get _ 0 = _).
    split; [|split; [lia|]].
    + unfold set_leaf_slots; simpl. rewrite Et, set_separator_twice. done.
    + rewrite !leaf_page_size. cbn [leaf_slots set_leaf_slots]. rewrite Et, leaf_body_app, !leaf_body_cons.
      rewrite leaf_slot_size in *. change (leaf_body []) with 0. split; [lia|]. lia.
Qed.

Lemma leaf_give c k : leaf_valid c k -> page_underpopulated ps (donor (leaf_state c k)) = false ->
  can_give (donor (leaf_state c k)).
Proof.
  intros _ Hu. apply underpopulated_false in Hu; [|done]. apply (page_ok_can_give ps); [done|].
  unfold leaf_state, mk_trio in *. cbn [donor] in *.
  destruct left; cbn [leaf_slots set_leaf_slots]; (split; [|done]); [by apply Forall_take|by apply Forall_drop].
Qed.
End leaves.

(** ** Internal pages *)

Section internals.
Context (ps kmax : Z) (idx : nat) (left : bool) (Hps : good_page_size ps).
Context (M : list InternalSlot) (pa pb pp : InternalPage).
Context (Hidx : has_slot pp idx) (Hfit : Forall (fun s => len (islot_key s) <= kmax) M).

Definition internal_key_at (c : nat) : bytes :=
  match M !! c with Some s => islot_key s | None => [] end.
Definition child_at (c : nat) : Z :=
  match M !! c with Some s => child_page_id s | None => 0 end.

Definition internal_state (c : nat) (k : bytes) : Trio :=
  mk_trio left (PInternal (set_internal_slots (take c M) pa))
    (PInternal (set_leftmost (child_at c) (set_internal_slots (drop (S c) M) pb)))
    (set_separator idx k pp).

Definition internal_valid (c : nat) (k : bytes) : Prop := (c < length M)%nat /\ k = internal_key_at c.

Lemma separator_slot k : exists s, internal_slots (set_separator idx k pp) !! idx = Some s /\ islot_key s = k.
Proof.
  destruct (lookup_lt_is_Some_2 (internal_slots pp) idx Hidx) as [s Hs].
  eexists. split; [by apply set_separator_lookup|done].
Qed.

Lemma internal_step c k : internal_valid c k -> can_give (donor (internal_state c k)) ->
  let t' := internal_state (shift left c) (internal_key_at (shift left c)) in
  transfer_slot idx left (internal_state c k) = (t', Ok tt) /\
  internal_valid (shift left c) (internal_key_at (shift left c)) /\
  S (length (page_keys (donor t'))) = length (page_keys (donor (internal_state c k))) /\
  calculate_page_size (donor t') <= calculate_page_size (donor (internal_state c k)) /\
  calculate_page_size (recipient t') <= calculate_page_size (recipient (internal_state c k)) + (20 + kmax).
Proof.
  intros [Hc Hk] Hg. destruct (lookup_lt_is_Some_2 M c Hc) as [s Hs].
  assert (len (islot_key s) <= kmax) as Hsz.
  { rewrite Forall_forall in Hfit. apply Hfit. by eapply list_elem_of_lookup_2. }
  destruct (separator_slot k) as (sep & Hsep & Hsk).
  assert ({| islot_key := islot_key sep; child_page_id := child_at c |} = s) as Hpulled.
  { unfold internal_key_at in Hk. unfold child_at. rewrite Hs in *. rewrite Hsk, Hk. by destruct s. }
  revert Hg. unfold internal_valid, internal_state, shift, transfer_slot, mk_trio.
  destruct left; cbn [donor recipient parent internal_slots leftmost_child_page_id set_internal_slots set_leftmost
    can_give page_keys]; intros Hg; rewrite ?length_fmap, ?length_take, ?length_drop in *;
    rewrite Hsep, Hpulled; cbn [internal_slots set_internal_slots set_leftmost].
  - destruct (lookup_lt_is_Some_2 M (c - 1) ltac:(lia)) as [s' Hs'].
    assert (take c M = take (c - 1) M ++ [s']) as Et by (replace c with (S (c - 1)) at 1 by lia; by apply take_S_r).
    assert (drop (S (c - 1)) M = s :: drop (S c) M) as Ed.
    { replace (S (c - 1)) with c by lia. by apply drop_S. }
    pose proof (len_nonneg (islot_key s')).
    rewrite Et, py_pop_last. split; [|split; [split; [lia|done]|split; [lia|]]].
    + unfold set_internal_slots, set_leftmost; simpl. unfold child_at, internal_key_at.
      rewrite Ed, Hs', set_separator_twice. done.
    + rewrite !internal_page_size. cbn [internal_slots set_internal_slots set_leftmost].
      rewrite Ed, internal_body_app, !internal_body_cons. change (internal_body []) with 0. lia.
  - destruct (lookup_lt_is_Some_2 M (S c) ltac:(lia)) as [s' Hs'].
    assert (drop (S c) M = s' :: drop (S (S c)) M) as Ed by (by apply drop_S).
    assert (take (S c) M = take c M ++ [s]) as Et by (by apply take_S_r).
    pose proof (len_nonneg (islot_key s')).
    rewrite Ed, (py_pop_lookup (s' :: drop (S (S c)) M) 0 s' eq_refl : py_pop _ 0 = _).
    cbn [take app]. change (drop 1 (s' :: drop (S (S c)) M)) with (drop 0 (drop (S (S c)) M)). rewrite drop_0.
    split; [|split; [split; [lia|done]|split; [lia|]]].
    + unfold set_internal_slots, set_leftmost; simpl. unfold child_at, internal_key_at.
      rewrite Et, Hs', set_separator_twice. done.
    + rewrite !internal_page_size. cbn [internal_slots set_internal_slots set_leftmost].
      rewrite Et, internal_body_app, !internal_body_cons. change (internal_body []) with 0. lia.
Qed.

Lemma internal_give c k : internal_valid c k -> page_underpopulated ps (donor (internal_state c k)) = false ->
  can_give (donor (internal_state c k)).
Proof.
  intros _ Hu. apply underpopulated_false in Hu; [|done]. apply (page_ok_can_give ps); [done|].
  unfold internal_state, mk_trio in *. cbn [donor] in *. unfold good_page_size in Hps.
  destruct left; cbn [internal_slots set_internal_slots set_leftmost]; rewrite internal_page_size in Hu;
    cbn [internal_slots set_internal_slots set_leftmost] in Hu; intros E; rewrite E in Hu;
    change (internal_body []) with 0 in Hu; lia.
Qed.
End internals.

(** ** The outcome *)

(** The two pages after a successful redistribution. *)
Record Spread (ps kmax : Z) (a : tree) (k : bytes) (b : tree) (pa pb : Page)
    (a' : tree) (k' : bytes) (b' : tree) (pa' pb' : Page) : Prop := {
  sp_ids : tid a' = tid a /\ tid b' = tid b;
  sp_pages : erase pa' = root_of a' /\ erase pb' = root_of b';
  sp_lsns : page_lsn pa' = page_lsn pa /\ page_lsn pb' = page_lsn pb;
  sp_below : below a' ++ below b' ≡ₚ below a ++ below b;
  sp_morph : Morph ps kmax a [(k, b)] a' [(k', b')];
  sp_ok : page_ok ps (root_of a') /\ page_ok ps (root_of b');
}.

Definition pick (left : bool) {A} (x y : A) : A := if left then x else y.

Lemma leaf_state_start left M pa pb pp idx s1 s2 sep : M = s1 ++ s2 -> leaf_slots pa = s1 -> leaf_slots pb = s2 ->
  internal_slots pp !! idx = Some sep ->
  leaf_state idx left M pa pb pp (length s1) (islot_key sep) = mk_trio left (PLeaf pa) (PLeaf pb) pp.
Proof.
  intros -> <- <- Hsep. unfold leaf_state. rewrite take_app_length, drop_app_length.
  rewrite (set_separator_same _ _ _ Hsep). by destruct pa, pb.
Qed.

Lemma restore_leaves left M pa pb pp idx c k :
  restore_trio (mk_trio left (PLeaf pa) (PLeaf pb) pp) (leaf_state idx left M pa pb pp c k) =
  mk_trio left (PLeaf pa) (PLeaf pb) pp.
Proof. destruct pa, pb, pp. by destruct left. Qed.

(** When the loop gives up, the two pages and the slot on the way are small. *)
Lemma leaves_merge ps left M pa pb pp idx c1 k1 k2 : good_page_size ps ->
  Forall (fun s => calculate_leaf_slot_size s true <= max_leaf_slot ps) M ->
  leaf_valid M c1 k1 -> can_give (donor (leaf_state idx left M pa pb pp c1 k1)) ->
  page_underpopulated ps (recipient (leaf_state idx left M pa pb pp c1 k1)) = true ->
  page_underpopulated ps (donor (leaf_state idx left M pa pb pp (shift left c1) k2)) = true ->
  32 + leaf_body M <= ps.
Proof.
  intros Hps Hfit Hv Hg Hr Hd. apply underpopulated_true in Hr; [|done]. apply underpopulated_true in Hd; [|done].
  unfold leaf_state, mk_trio, shift, leaf_valid, good_page_size, max_leaf_slot in *.
  pose proof (Z.div_mod (ps - 32) 5 ltac:(lia)). pose proof (Z.mod_pos_bound (ps - 32) 5 ltac:(lia)).
  destruct left; cbn [donor recipient leaf_slots set_leaf_slots can_give] in *;
    rewrite leaf_page_size in Hr, Hd; cbn [leaf_slots set_leaf_slots] in Hr, Hd;
    rewrite ?length_take, ?length_drop in Hg.
  - destruct (lookup_lt_is_Some_2 M (c1 - 1) ltac:(lia)) as [s Hs]. pose proof (leaf_body_take_drop (c1 - 1) M) as Hsum.
    rewrite (drop_S _ _ _ Hs), leaf_body_cons, <-leaf_slot_size in Hsum.
    replace (S (c1 - 1)) with c1 in Hsum by lia. rewrite Forall_forall in Hfit.
    specialize (Hfit s ltac:(by eapply list_elem_of_lookup_2)). lia.
  - destruct (lookup_lt_is_Some_2 M c1 ltac:(lia)) as [s Hs]. pose proof (leaf_body_take_drop c1 M) as Hsum.
    rewrite (drop_S _ _ _ Hs), leaf_body_cons, <-leaf_slot_size in Hsum. rewrite Forall_forall in Hfit.
    specialize (Hfit s ltac:(by eapply list_elem_of_lookup_2)). lia.
Qed.

Lemma redistribute_leaf ps kmax left id1 l1 s1 k id2 l2 s2 pa pb pp idx sep :
  good_page_size ps -> Forall (item_fits ps kmax) (seg_flat (Leaf id1 l1 s1) [(k, Leaf id2 l2 s2)]) ->
  erase (PLeaf pa) = leaf_of l1 s1 -> erase (PLeaf pb) = leaf_of l2 s2 ->
  internal_slots pp !! idx = Some sep ->
  page_underpopulated ps (pick left (PLeaf pb) (PLeaf pa)) = true -> page_ok ps (pick left (PLeaf pa) (PLeaf pb)) ->
  (exists a' k' b' pa' pb',
    redistribute ps idx left (mk_trio left (PLeaf pa) (PLeaf pb) pp) = (mk_trio left pa' pb' (set_separator idx k' pp), Ok true) /\
    Spread ps kmax (Leaf id1 l1 s1) k (Leaf id2 l2 s2) (PLeaf pa) (PLeaf pb) a' k' b' pa' pb') \/
  (redistribute ps idx left (mk_trio left (PLeaf pa) (PLeaf pb) pp) = (mk_trio left (PLeaf pa) (PLeaf pb) pp, Ok false) /\
   32 + leaf_body (s1 ++ s2) <= ps).
Proof.
  intros Hps Hfit Ha Hb Hsep Hu Hok. injection Ha as El1 Es1. injection Hb as El2 Es2.
  set (M := s1 ++ s2).
  assert (Forall (fun s => calculate_leaf_slot_size s true <= max_leaf_slot ps) M) as HM.
  { rewrite seg_flat_leaves, Forall_app, Forall_cons in Hfit. destruct Hfit as (H1 & _ & H2).
    apply Forall_app. split; by eapply leaf_slot_bounds. }
  pose proof (leaf_state_start left M pa pb pp idx s1 s2 sep eq_refl Es1 Es2 Hsep) as Hst.
  set (t0 := mk_trio left (PLeaf pa) (PLeaf pb) pp) in *.
  assert (can_give (donor t0)) as Hg.
  { destruct Hok as [_ Hok]. apply (page_ok_can_give ps); [done|].
    unfold t0, mk_trio. cbn [donor]. unfold M in HM. apply Forall_app in HM as [HM1 HM2].
    destruct left; simpl in *; rewrite ?Es1, ?Es2; done. }
  assert (page_underpopulated ps (recipient t0) = true) as Hu0 by (by destruct left).
  unfold redistribute. rewrite <-Hst in Hg, Hu0.
  destruct (redistribute_loop_spec ps idx left (max_leaf_slot ps) (leaf_state idx left M pa pb pp)
    (leaf_key_at M) (shift left) (leaf_valid M) (leaf_step ps idx left M pa pb pp HM)
    (leaf_give ps idx left Hps M pa pb pp HM) t0
    (S (length (page_keys (donor (leaf_state idx left M pa pb pp (length s1) (islot_key sep))))))
    (length s1) (islot_key sep))
    as (c1 & k1 & Hv1 & Hg1 & Hr1 & Hv2 & Hsd & Hsr & [(E & Hr2 & Hd2)|(E & Hd2)]); [| |lia|done|..].
  { unfold leaf_valid, M. rewrite length_app. lia. } { done. }
  - left. rewrite Hst in E. set (c2 := shift left c1) in *.
    assert (2 * ps <= 5 * (32 + leaf_body (take c2 M)) <= 5 * ps /\
            2 * ps <= 5 * (32 + leaf_body (drop c2 M)) <= 5 * ps) as [Hta Hdr].
    { apply underpopulated_false in Hr2, Hd2; [|done..]. apply underpopulated_true in Hr1; [|done].
      destruct Hok as [Hok _]. rewrite Hst in Hsd. unfold good_page_size, max_leaf_slot in *.
      pose proof (Z.div_mod (ps - 32) 5 ltac:(lia)). pose proof (Z.mod_pos_bound (ps - 32) 5 ltac:(lia)).
      unfold t0, leaf_state, mk_trio, pick in *. destruct left; cbn [donor recipient] in *;
        rewrite !leaf_page_size in *; cbn [leaf_slots set_leaf_slots] in *; lia. }
    unfold good_page_size in Hps.
    destruct (take c2 M) as [|y ys _] eqn:Et using rev_ind; [change (leaf_body []) with 0 in Hta; lia|].
    destruct (drop c2 M) as [|z zs] eqn:Ed; [change (leaf_body []) with 0 in Hdr; lia|].
    assert (M = ys ++ y :: z :: zs) as HMeq by (by rewrite <-(take_drop c2 M), Et, Ed, <-app_assoc).
    assert (leaf_key_at M c2 = lslot_key z) as Hkey.
    { unfold leaf_key_at. assert (M !! c2 = Some z) as ->; [|done].
      rewrite <-(Nat.add_0_r c2), <-lookup_drop, Ed. done. }
    eexists (Leaf id1 l1 (ys ++ [y])), (lslot_key z), (Leaf id2 l2 (z :: zs)), _, _.
    split; [rewrite E; unfold leaf_state; rewrite Et, Ed, Hkey; reflexivity|].
    split; try done.
    + split; unfold erase, root_of, leaf_of; simpl; by rewrite ?El1, ?El2.
    + by apply morph_respread_leaf.
    + unfold page_ok, root_of. rewrite !leaf_of_size. simpl. lia.
  - right. rewrite Hst in E. split; [rewrite E; unfold t0; by rewrite restore_leaves|].
    by eapply (leaves_merge ps left M pa pb pp idx c1 k1).
Qed.

Lemma below_pair id1 c1 kids1 k id2 c2 kids2 :
  below (Node id1 c1 kids1) ++ below (Node id2 c2 kids2) ≡ₚ nodes c1 ++ kids_nodes (kids1 ++ (k, c2) :: kids2).
Proof.
  simpl. rewrite kids_nodes_app. change (kids_nodes ((k, c2) :: kids2)) with (nodes c2 ++ kids_nodes kids2).
  solve_Permutation.
Qed.

Lemma internal_state_start left K pa pb pp idx kids1 k c2 kids2 lm sep : K = kids1 ++ (k, c2) :: kids2 ->
  erase (PInternal pa) = internal_of lm (kid_slot <$> kids1) ->
  erase (PInternal pb) = internal_of (tid c2) (kid_slot <$> kids2) ->
  internal_slots pp !! idx = Some sep -> islot_key sep = k ->
  internal_state idx left (kid_slot <$> K) pa pb pp (length kids1) k = mk_trio left (PInternal pa) (PInternal pb) pp.
Proof.
  intros -> Ha Hb Hsep <-. injection Ha as _ Hsa. injection Hb as Hlb Hsb.
  unfold internal_state. rewrite (set_separator_same _ _ _ Hsep), fmap_app, fmap_cons.
  rewrite <-(length_fmap kid_slot kids1), take_app_length.
  assert (child_at ((kid_slot <$> kids1) ++ kid_slot (islot_key sep, c2) :: (kid_slot <$> kids2))
    (length (kid_slot <$> kids1)) = tid c2) as -> by (unfold child_at; by rewrite list_lookup_middle).
  rewrite drop_app_ge by lia.
  replace (S (length (kid_slot <$> kids1)) - length (kid_slot <$> kids1))%nat with 1%nat by lia.
  simpl drop. rewrite drop_0, <-Hsa, <-Hsb, <-Hlb. by destruct pa, pb.
Qed.

Lemma restore_internals left M pa pb pp idx c k :
  restore_trio (mk_trio left (PInternal pa) (PInternal pb) pp) (internal_state idx left M pa pb pp c k) =
  mk_trio left (PInternal pa) (PInternal pb) pp.
Proof. destruct pa, pb, pp. by destruct left. Qed.
Lemma internals_merge ps kmax left M pa pb pp idx c1 k1 k2 : good_page_size ps -> small_keys ps kmax ->
  Forall (fun s => len (islot_key s) <= kmax) M ->
  internal_valid M c1 k1 -> can_give (donor (internal_state idx left M pa pb pp c1 k1)) ->
  page_underpopulated ps (recipient (internal_state idx left M pa pb pp c1 k1)) = true ->
  page_underpopulated ps (donor (internal_state idx left M pa pb pp (shift left c1) k2)) = true ->
  32 + internal_body M <= ps.
Proof.
  intros Hps Hk Hfit [Hv _] Hg Hr Hd. apply underpopulated_true in Hr; [|done]. apply underpopulated_true in Hd; [|done].
  unfold internal_state, mk_trio, shift, good_page_size, small_keys in *.
  destruct (lookup_lt_is_Some_2 M c1 Hv) as [s Hs]. pose proof (internal_body_take_drop c1 M s Hs) as Hsum.
  rewrite internal_slot_size in Hsum. rewrite Forall_forall in Hfit.
  pose proof (Hfit s ltac:(by eapply list_elem_of_lookup_2)) as Hsk. cbv beta in Hsk.
  destruct left; cbn [donor recipient internal_slots set_internal_slots set_leftmost can_give] in *;
    rewrite internal_page_size in Hr, Hd; cbn [internal_slots set_internal_slots set_leftmost] in Hr, Hd;
    rewrite ?length_take, ?length_drop in Hg.
  - destruct (lookup_lt_is_Some_2 M (c1 - 1) ltac:(lia)) as [s' Hs'].
    pose proof (Hfit s' ltac:(by eapply list_elem_of_lookup_2)) as Hsk'. cbv beta in Hsk'.
    assert (take c1 M = take (c1 - 1) M ++ [s']) as Et by (replace c1 with (S (c1 - 1)) at 1 by lia; by apply take_S_r).
    rewrite Et, internal_body_app, internal_body_cons in Hsum. change (internal_body []) with 0 in Hsum. lia.
  - destruct (lookup_lt_is_Some_2 M (S c1) ltac:(lia)) as [s' Hs'].
    pose proof (Hfit s' ltac:(by eapply list_elem_of_lookup_2)) as Hsk'. cbv beta in Hsk'.
    rewrite (drop_S _ _ _ Hs'), internal_body_cons in Hsum. lia.
Qed.

Lemma seg_flat_internals_keys ps kmax id1 c1 kids1 k id2 c2 kids2 :
  Forall (item_fits ps kmax) (seg_flat (Node id1 c1 kids1) [(k, Node id2 c2 kids2)]) ->
  Forall (fun s => len (islot_key s) <= kmax) (kid_slot <$> (kids1 ++ (k, c2) :: kids2)).
Proof.
  unfold seg_flat. simpl. rewrite app_nil_r, !Forall_app, Forall_cons, Forall_app.
  fold (kids_flat kids1) (kids_flat kids2). intros ((_ & H1) & [Hk _] & _ & H2).
  apply kids_keys_fit in H1, H2. apply Forall_fmap, Forall_app. split.
  - eapply Forall_impl; [exact H1|]. by intros [].
  - constructor; [exact Hk|]. eapply Forall_impl; [exact H2|]. by intros [].
Qed.

Lemma redistribute_internal ps kmax left id1 c1 kids1 k id2 c2 kids2 pa pb pp idx sep :
  good_page_size ps -> good_key_bound ps kmax ->
  Forall (item_fits ps kmax) (seg_flat (Node id1 c1 kids1) [(k, Node id2 c2 kids2)]) ->
  erase (PInternal pa) = root_of (Node id1 c1 kids1) -> erase (PInternal pb) = root_of (Node id2 c2 kids2) ->
  internal_slots pp !! idx = Some sep -> islot_key sep = k ->
  page_underpopulated ps (pick left (PInternal pb) (PInternal pa)) = true ->
  page_ok ps (pick left (PInternal pa) (PInternal pb)) ->
  (exists a' k' b' pa' pb',
    redistribute ps idx left (mk_trio left (PInternal pa) (PInternal pb) pp) =
      (mk_trio left pa' pb' (set_separator idx k' pp), Ok true) /\
    Spread ps kmax (Node id1 c1 kids1) k (Node id2 c2 kids2) (PInternal pa) (PInternal pb) a' k' b' pa' pb') \/
  (redistribute ps idx left (mk_trio left (PInternal pa) (PInternal pb) pp) =
     (mk_trio left (PInternal pa) (PInternal pb) pp, Ok false) /\
   (small_keys ps kmax -> 32 + internal_body (kid_slot <$> (kids1 ++ (k, c2) :: kids2)) <= ps)).
Proof.
  intros Hps Hkb Hfit Ha Hb Hsep Hk Hu Hok. set (K := kids1 ++ (k, c2) :: kids2).
  pose proof (seg_flat_internals_keys _ _ _ _ _ _ _ _ _ Hfit) as HM. fold K in HM.
  assert (has_slot pp idx) as Hidx by (by eapply lookup_lt_Some).
  pose proof (internal_state_start left K pa pb pp idx kids1 k c2 kids2 _ sep eq_refl Ha Hb Hsep Hk) as Hst.
  set (t0 := mk_trio left (PInternal pa) (PInternal pb) pp) in *. set (M := kid_slot <$> K) in *.
  assert (can_give (donor t0)) as Hg.
  { unfold good_page_size in *. apply (page_ok_root ps) in Hok as [_ Hok]; [|lia].
    apply (page_ok_can_give ps); [done|]. by destruct left. }
  assert (page_underpopulated ps (recipient t0) = true) as Hu0 by (by destruct left).
  unfold redistribute. rewrite <-Hst in Hg, Hu0.
  destruct (redistribute_loop_spec ps idx left (20 + kmax) (internal_state idx left M pa pb pp)
    (internal_key_at M) (shift left) (internal_valid M) (internal_step kmax idx left M pa pb pp Hidx HM)
    (internal_give ps idx left Hps M pa pb pp) t0
    (S (length (page_keys (donor (internal_state idx left M pa pb pp (length kids1) k))))) (length kids1) k)
    as (i1 & k1 & Hv1 & Hg1 & Hr1 & [Hv2 _] & Hsd & Hsr & [(E & Hr2 & Hd2)|(E & Hd2)]); [|done|lia|done|..].
  { unfold internal_valid, internal_key_at, M, K. rewrite length_fmap, length_app, fmap_app, fmap_cons.
    split; [simpl; lia|]. rewrite <-(length_fmap kid_slot kids1), list_lookup_middle by done. done. }
  - left. rewrite Hst in E, Hsd. set (i2 := shift left i1) in *.
    destruct (lookup_lt_is_Some_2 M i2 Hv2) as [s Hs].
    destruct (kid_slot_split K i2 s Hs) as (c' & HK & Hc' & Ht & Hd). fold M in Ht, Hd.
    assert (internal_key_at M i2 = islot_key s /\ child_at M i2 = tid c') as [Ekey Echild].
    { unfold internal_key_at, child_at. by rewrite Hs. }
    assert (2 * ps <= 5 * (32 + internal_body (kid_slot <$> take i2 K)) <= 5 * ps /\
            2 * ps <= 5 * (32 + internal_body (kid_slot <$> drop (S i2) K)) <= 5 * ps) as [Hta Hdr].
    { rewrite <-Ht, <-Hd. apply underpopulated_false in Hr2, Hd2; [|done..]. apply underpopulated_true in Hr1; [|done].
      destruct Hok as [Hok _]. unfold good_page_size, good_key_bound, max_internal_slot in *.
      pose proof (Z.div_mod (ps - 32) 5 ltac:(lia)). pose proof (Z.mod_pos_bound (ps - 32) 5 ltac:(lia)).
      unfold t0, internal_state, mk_trio, pick in *. destruct left; cbn [donor recipient] in *;
        rewrite !internal_page_size in *; cbn [internal_slots set_internal_slots set_leftmost] in *; lia. }
    unfold good_page_size in Hps. injection Ha as Hla _. 
    eexists (Node id1 c1 (take i2 K)), (islot_key s), (Node id2 c' (drop (S i2) K)), _, _.
    split; [rewrite E; unfold internal_state; rewrite Ekey, Echild, Ht, Hd; reflexivity|].
    split; try done.
    + split; unfold erase, root_of, internal_of; simpl; by rewrite ?Hla, ?Hc'.
    + rewrite (below_pair _ _ _ (islot_key s)), (below_pair _ _ kids1 k), <-HK. done.
    + apply morph_respread. by rewrite <-HK.
    + unfold page_ok, root_of. rewrite !internal_of_size. simpl.
      lia.
  - right. rewrite Hst in E. split; [rewrite E; unfold t0; by rewrite restore_internals|].
    intros Hsm. by eapply (internals_merge ps kmax left M pa pb pp idx i1 k1).
Qed.
