(* ===== verification/TreeBorrow.v ===== *)
(** * Borrowing from a neighbour

    The invariant of two neighbours in the store, what a round of the cascade
    comes to, and the redistribution of slots between the two, with the
    separator in their parent, through references to the three pages. *)

From S2P Require Import Prelude Bytes Bisect Entities Codec Fs Pager Cache Tree.
From S2P Require Import CodecFacts PagerFacts CacheFacts CacheOps.
From S2P Require Import TreeSizes TreeShape TreeSteps TreeSearch TreeStore TreeFind TreeSplit TreeBalance TreeRedistribute.

(** A healthy tree. *)
Record TreeOk (ps kmax : Z) (t : tree) : Prop := {
  ok_wf : Wf ps kmax t;
  ok_pages : pages_ok ps (tid t) (nodes t);
}.

(** The tree between two operations, with [n] steps left. *)
Record Done {L : Limit} (ps kmax : Z) (t : tree) (n : Z) (tr : BPlusTree) (D : Disk) : Prop := {
  dn_ps : dk_ps D = ps;
  dn_rep : Rep ∅ ∅ (tr_store tr) D (nodes t);
  dn_root : root_page_id (dk_meta D) = tid t;
  dn_ok : TreeOk ps kmax t;
  dn_slack : slack (tr_store tr) n;
  dn_next : next_page_id (dk_meta D) + n <= page_limit;
}.

(** What a round of the cascade on a page below the context [ctx] comes to:
    the tree is finished, or its parent is next. *)
Definition Outcome {L : Limit} (ps kmax : Z) (ctx : context) (n : Z) (t0 : tree) (tr : BPlusTree)
    (out : Revisit) : Prop :=
  match out with
  | None => exists t D, Done ps kmax t n tr D /\ Kept 0 t0 t
  | Some (id, l) => exists t D, id = tid t /\ Bal ps kmax ctx t l n tr D /\ Kept 0 t0 (plug ctx t)
  end.

Lemma assign_same l p s : object s l = Some p -> assign l p s = (s, Ok tt).
Proof.
  intros H. unfold assign, modify. f_equal. destruct s as [pg pool [nx objs]]. unfold object in H. simpl in *.
  unfold set_heap. simpl. f_equal. f_equal. by apply insert_id.
Qed.

(** ** Two neighbours *)

Section pair.
Context {L : Limit} (ps kmax lsn : Z) (Hps : good_page_size ps) (Hkb : good_key_bound ps kmax) (Hlsn : fits 8 lsn = true).

Definition pair_rest (ctx : context) (f : frame) (a b : tree) : list (Z * Page) :=
  below a ++ below b ++ frame_siblings f ++ ctx_nodes ctx (frame_id f).

Definition pair_nodes (ctx : context) (f : frame) (a : tree) (k : bytes) (b : tree) : list (Z * Page) :=
  (tid a, root_of a) :: (tid b, root_of b) ::
  (frame_id f, frame_page_with f (tid a) [kid_slot (k, b)]) :: pair_rest ctx f a b.

Lemma nodes_pair ctx f a k b : nodes (plug ctx (fills f a [(k, b)])) ≡ₚ pair_nodes ctx f a k b.
Proof.
  rewrite nodes_plug_fills. unfold seg_nodes, pair_nodes, pair_rest. simpl. rewrite app_nil_r.
  rewrite (nodes_below a), (nodes_below b). solve_Permutation.
Qed.

Lemma pair_member ctx f a k b left : (tid (pick left a b), root_of (pick left a b)) ∈ pair_nodes ctx f a k b.
Proof. unfold pair_nodes. destruct left; [left|right; left]. Qed.

Lemma pair_parent_member ctx f a k b :
  (frame_id f, frame_page_with f (tid a) [kid_slot (k, b)]) ∈ pair_nodes ctx f a k b.
Proof. unfold pair_nodes. right. right. left. Qed.

Lemma pair_id ctx f a k b left : tid (pick left a b) ∈ (pair_nodes ctx f a k b).*1.
Proof. apply list_elem_of_fmap. eexists. split; [|apply (pair_member ctx f a k b left)]. done. Qed.

Lemma pair_parent_id ctx f a k b : frame_id f ∈ (pair_nodes ctx f a k b).*1.
Proof. apply list_elem_of_fmap. eexists. split; [|apply pair_parent_member]. done. Qed.

Lemma pick_tid (left : bool) (a b a' b' : tree) : tid a' = tid a -> tid b' = tid b ->
  tid (pick left a b) = tid (pick left a' b').
Proof. by destruct left. Qed.

Lemma pick_negb (left : bool) {A} (x y : A) : pick left x y = pick (negb left) y x.
Proof. by destruct left. Qed.

(** [left] tells whether the sibling is the left one of the two; the other is
    the page to rebalance. *)
Record Near (ctx : context) (f : frame) (a : tree) (k : bytes) (b : tree) (left : bool)
    (tr : BPlusTree) (D : Disk) (n : Z) (l lsib lp : loc) : Prop := {
  nr_ps : dk_ps D = ps;
  nr_rep : Rep {[tid (pick left b a)]} ∅ (tr_store tr) D (pair_nodes ctx f a k b);
  nr_focus : holds (tr_store tr) (tid (pick left b a)) l;
  nr_sib : holds (tr_store tr) (tid (pick left a b)) lsib;
  nr_parent : holds (tr_store tr) (frame_id f) lp;
  nr_shield : exists P, shielded P n (tr_store tr) /\ tid a ∈ P /\ tid b ∈ P /\ frame_id f ∈ P;
  nr_next : next_page_id (dk_meta D) + n <= page_limit;
  nr_root : root_page_id (dk_meta D) = tid (plug ctx (fills f a [(k, b)]));
  nr_wf : Wf ps kmax (plug ctx (fills f a [(k, b)]));
  nr_pages : pages_ok ps (tid (plug ctx (fills f a [(k, b)]))) (pair_rest ctx f a b);
  nr_ppage : calculate_page_size (frame_page_with f (tid a) [kid_slot (k, b)]) <= ps;
  nr_ok : page_ok ps (root_of (pick left a b));
  nr_under : 5 * calculate_page_size (root_of (pick left b a)) < 2 * ps;
}.

(** The two pages are of one kind. *)
Lemma same_kind ctx f a k b : Wf ps kmax (plug ctx (fills f a [(k, b)])) ->
  match a, b with Leaf _ _ _, Leaf _ _ _ => True | Node _ _ _, Node _ _ _ => True | _, _ => False end.
Proof.
  intros [[h Hu] _ _ _]. apply uniform_plug in Hu as (h' & _ & _ & Hu).
  apply uniform_fills in Hu as (h2 & _ & _ & [Ha Hb]). apply Forall_cons in Hb as [Hb _].
  by destruct h2, a, b.
Qed.

Lemma pair_fits ctx f a k b : Wf ps kmax (plug ctx (fills f a [(k, b)])) ->
  Forall (item_fits ps kmax) (seg_flat a [(k, b)]).
Proof. intros H. apply wf_sub_fits in H. rewrite flat_fills, !Forall_app in H. tauto. Qed.

(** The two together, with the separator an internal merge pulls down, fit a page. *)
Definition merge_size (a : tree) (k : bytes) (b : tree) : Z :=
  match a, b with
  | Leaf _ _ s1, Leaf _ _ s2 => 32 + leaf_body (s1 ++ s2)
  | Node _ _ k1, Node _ c k2 => 32 + internal_body (kid_slot <$> (k1 ++ (k, c) :: k2))
  | _, _ => 0
  end.

Definition merge_fits (a : tree) (k : bytes) (b : tree) : Prop :=
  match a with Leaf _ _ _ => merge_size a k b <= ps | Node _ _ _ => small_keys ps kmax -> merge_size a k b <= ps end.

Lemma redistribute_ok a k b left pa pb pp idx sep :
  match a, b with Leaf _ _ _, Leaf _ _ _ => True | Node _ _ _, Node _ _ _ => True | _, _ => False end ->
  Forall (item_fits ps kmax) (seg_flat a [(k, b)]) ->
  erase pa = root_of a -> erase pb = root_of b -> internal_slots pp !! idx = Some sep -> islot_key sep = k ->
  page_underpopulated ps (pick left pb pa) = true -> page_ok ps (pick left pa pb) ->
  (exists a' k' b' pa' pb',
    redistribute ps idx left (mk_trio left pa pb pp) = (mk_trio left pa' pb' (set_separator idx k' pp), Ok true) /\
    Spread ps kmax a k b pa pb a' k' b' pa' pb') \/
  (redistribute ps idx left (mk_trio left pa pb pp) = (mk_trio left pa pb pp, Ok false) /\ merge_fits a k b).
Proof.
  intros Hk Hfit Ha Hb Hsep Hsk Hu Hok. destruct a as [id1 l1 s1|id1 c1 k1], b as [id2 l2 s2|id2 c2 k2]; try done.
  - pose proof Ha as Ha'. pose proof Hb as Hb'. apply erase_leaf in Ha' as (x & ->). apply erase_leaf in Hb' as (y & ->).
    destruct (redistribute_leaf ps kmax left id1 l1 s1 k id2 l2 s2 _ _ pp idx sep Hps Hfit Ha Hb Hsep Hu Hok)
      as [H|[H1 H2]]; [by left|by right].
  - pose proof Ha as Ha'. pose proof Hb as Hb'. apply erase_internal in Ha' as (x & ->). apply erase_internal in Hb' as (y & ->).
    destruct (redistribute_internal ps kmax left id1 c1 k1 k id2 c2 k2 _ _ pp idx sep Hps Hkb Hfit Ha Hb Hsep Hsk Hu Hok)
      as [H|[H1 H2]]; [by left|by right].
Qed.

Lemma page_ok_erase p q : erase p = q -> page_ok ps q <-> page_ok ps p.
Proof. intros <-. unfold page_ok, erase. by rewrite page_size_lsn. Qed.

Lemma sep_lookup f a k b : (frame_slots1 f a ++ [kid_slot (k, b)] ++ frame_slots2 f) !! length (frame_slots1 f a) = Some (kid_slot (k, b)).
Proof. by apply (list_lookup_middle _ (frame_slots2 f)). Qed.

Lemma set_separator_frame f ida k b k' b' lsn0 : tid b' = tid b ->
  erase (PInternal (set_separator (length (frame_slots1 f ida)) k'
    {| internal_lsn := lsn0; leftmost_child_page_id := frame_lm f ida;
       internal_slots := frame_slots1 f ida ++ [kid_slot (k, b)] ++ frame_slots2 f |})) =
  frame_page_with f ida [kid_slot (k', b')].
Proof.
  intros Hb. unfold erase, frame_page_with, internal_of, set_separator. simpl. do 2 f_equal.
  rewrite <-(Nat.add_0_r (length _)), alter_app_r. simpl. unfold kid_slot. simpl. by rewrite Hb.
Qed.

Lemma rep_assign_perm pend loose s D ns ns' id q p l : Rep pend loose s D ns -> ns ≡ₚ (id, q) :: ns' ->
  holds s id l -> tree_page p -> lsn_fits p ->
  Rep ({[id]} ∪ pend) loose (assigned l p s) D ((id, erase p) :: ns').
Proof. intros Hr Hp Hh Ht Hf. rewrite Hp in Hr. by apply (rep_assign _ _ _ _ _ _ q p l Hr Hh Ht Hf). Qed.

Lemma tree_page_root t : tree_page (root_of t).
Proof. by destruct t. Qed.

Lemma erase_tree_page p t : erase p = root_of t -> tree_page p.
Proof. intros E. apply tree_page_erase. rewrite E. apply tree_page_root. Qed.

(** *** Redistribution *)

(** Writing the three pages back. *)
Lemma write_trio ctx f a k b left tr D n l lsib lp a' k' b' pa' pb' pp' :
  Near ctx f a k b left tr D n l lsib lp ->
  tid a' = tid a -> tid b' = tid b -> erase pa' = root_of a' -> erase pb' = root_of b' ->
  lsn_fits pa' -> lsn_fits pb' -> lsn_fits (PInternal pp') ->
  erase (PInternal pp') = frame_page_with f (tid a) [kid_slot (k', b')] ->
  below a' ++ below b' ≡ₚ below a ++ below b ->
  exists s', (in_store (assign lp (PInternal pp'));; in_store (assign lsib (pick left pa' pb'));;
      in_store (assign l (pick left pb' pa'));; mret true) tr = (set_store s' tr, Ok true) /\
    Rep {[tid a; tid b; frame_id f]} ∅ s' D (pair_nodes ctx f a' k' b') /\
    (forall i x, holds s' i x <-> holds (tr_store tr) i x) /\ st_pool s' = st_pool (tr_store tr).
Proof.
  intros [_ Hr Hl Hls Hlp _ _ _ _ _ _ _ _] Ea Eb Ha Hb Hfa Hfb Hfp Hpp Hbelow.
  set (s0 := tr_store tr) in *. set (s1 := assigned lp (PInternal pp') s0).
  set (s2 := assigned lsib (pick left pa' pb') s1). set (s3 := assigned l (pick left pb' pa') s2).
  exists s3. split; [by destruct tr|].
  assert (Rep ({[frame_id f]} ∪ {[tid (pick left b a)]}) ∅ s1 D
    ((frame_id f, frame_page_with f (tid a) [kid_slot (k', b')]) ::
     (tid a, root_of a) :: (tid b, root_of b) :: pair_rest ctx f a b)) as Hr1.
  { rewrite <-Hpp. eapply (rep_assign_perm _ _ s0); [exact Hr| |exact Hlp|done|done].
    unfold pair_nodes. solve_Permutation. }
  assert (pair_rest ctx f a' b' ≡ₚ pair_rest ctx f a b) as Hrest.
  { unfold pair_rest. rewrite !(app_assoc (below _) (below _)), Hbelow. done. }
  split; [|by split].
  unfold pair_nodes. rewrite Hrest, Ea, Eb. destruct left; simpl pick in *.
  - assert (Rep ({[tid a]} ∪ ({[frame_id f]} ∪ {[tid b]})) ∅ s2 D
      ((tid a, root_of a') :: (frame_id f, frame_page_with f (tid a) [kid_slot (k', b')]) ::
       (tid b, root_of b) :: pair_rest ctx f a b)) as Hr2.
    { rewrite <-Ha. eapply (rep_assign_perm _ _ s1); [exact Hr1|solve_Permutation|exact Hls|by eapply erase_tree_page|done]. }
    assert (Rep ({[tid b]} ∪ ({[tid a]} ∪ ({[frame_id f]} ∪ {[tid b]}))) ∅ s3 D
      ((tid b, root_of b') :: (tid a, root_of a') ::
       (frame_id f, frame_page_with f (tid a) [kid_slot (k', b')]) :: pair_rest ctx f a b)) as Hr3.
    { rewrite <-Hb. eapply (rep_assign_perm _ _ s2); [exact Hr2|solve_Permutation|exact Hl|by eapply erase_tree_page|done]. }
    rewrite Permutation_swap in Hr3. eapply rep_mono; [|exact Hr3]. set_solver.
  - assert (Rep ({[tid b]} ∪ ({[frame_id f]} ∪ {[tid a]})) ∅ s2 D
      ((tid b, root_of b') :: (frame_id f, frame_page_with f (tid a) [kid_slot (k', b')]) ::
       (tid a, root_of a) :: pair_rest ctx f a b)) as Hr2.
    { rewrite <-Hb. eapply (rep_assign_perm _ _ s1); [exact Hr1|solve_Permutation|exact Hls|by eapply erase_tree_page|done]. }
    assert (Rep ({[tid a]} ∪ ({[tid b]} ∪ ({[frame_id f]} ∪ {[tid a]}))) ∅ s3 D
      ((tid a, root_of a') :: (tid b, root_of b') ::
       (frame_id f, frame_page_with f (tid a) [kid_slot (k', b')]) :: pair_rest ctx f a b)) as Hr3.
    { rewrite <-Ha. eapply (rep_assign_perm _ _ s2); [exact Hr2|solve_Permutation|exact Hl|by eapply erase_tree_page|done]. }
    eapply rep_mono; [|exact Hr3]. set_solver.
Qed.

Lemma try_redistribute_ok ctx f a k b left tr D n l lsib lp :
  Near ctx f a k b left tr D n l lsib lp ->
  (exists s' a' k' b',
     try_redistribute_slots lsib l lp (frame_idx f + 1) left tr = (set_store s' tr, Ok true) /\
     tid a' = tid a /\ tid b' = tid b /\ Morph ps kmax a [(k, b)] a' [(k', b')] /\
     page_ok ps (root_of a') /\ page_ok ps (root_of b') /\ below a' ++ below b' ≡ₚ below a ++ below b /\
     Rep {[tid a; tid b; frame_id f]} ∅ s' D (pair_nodes ctx f a' k' b') /\
     (forall i x, holds s' i x <-> holds (tr_store tr) i x) /\ st_pool s' = st_pool (tr_store tr)) \/
  (try_redistribute_slots lsib l lp (frame_idx f + 1) left tr = (tr, Ok false) /\ merge_fits a k b).
Proof.
  intros Hnear. pose proof Hnear as [Eps Hr Hl Hls Hlp _ _ _ Hwf _ _ Hok Hu].
  unfold try_redistribute_slots. rewrite (page_size_bind _ _ _ _ _ Hr), Eps.
  match goal with |- context [in_store (deref lsib) ≫= ?g] =>
    destruct (deref_bind _ _ tr D _ Hr (tid (pick left a b)) (root_of (pick left a b)) lsib g) as (d & Hd & Hdf & Hdo & ->) end;
    [destruct left; set_solver|done|].
  match goal with |- context [in_store (deref l) ≫= ?g] =>
    destruct (deref_bind _ _ tr D _ Hr (tid (pick left b a)) (root_of (pick left b a)) l g) as (r & Hrr & Hrf & Hro & ->) end;
    [destruct left; set_solver|done|].
  destruct (rep_deref _ _ _ _ _ (frame_id f) _ lp Hr ltac:(do 2 right; left) Hlp) as (pp0 & Hpo & Hpe & Hpf).
  pose proof Hpe as Hpe'. apply erase_internal in Hpe' as (lsn0 & ->).
  set (pp := {| internal_lsn := lsn0 |}) in *.
  assert (deref_internal lp tr = (tr, Ok pp)) as Ederef.
  { unfold deref_internal. pose proof (deref_run _ _ _ Hpo) as E. by rewrite (in_store_bind _ _ _ _ _ E), set_store_same. }
  rewrite (bind_Ok _ _ _ _ _ Ederef).
  assert (internal_slots pp !! length (frame_slots1 f (tid a)) = Some (kid_slot (k, b))) as Hsep by apply sep_lookup.
  rewrite <-(frame_slots1_length f (tid a)), (py_get_lookup _ _ _ Hsep), Nat2Z.id. lift_step.
  set (pa := pick left d r). set (pb := pick left r d).
  replace {| donor := d; recipient := r; parent := pp |} with (mk_trio left pa pb pp) by (by destruct left).
  assert (erase pa = root_of a /\ erase pb = root_of b /\ lsn_fits pa /\ lsn_fits pb) as (Hpa & Hpb & Hfa & Hfb)
    by (by destruct left).
  destruct (redistribute_ok a k b left pa pb pp (length (frame_slots1 f (tid a))) (kid_slot (k, b))
    (same_kind _ _ _ _ _ Hwf) (pair_fits _ _ _ _ _ Hwf) Hpa Hpb Hsep eq_refl)
    as [(a' & k' & b' & pa' & pb' & E & Hsp)|[E Hm]].
  { apply underpopulated_true; [done|]. rewrite <-Hrr in Hu. unfold erase in Hu. rewrite page_size_lsn in Hu.
    by destruct left. }
  { rewrite (page_ok_erase d _ Hd) in Hok. by destruct left. }
  - left. rewrite E. destruct Hsp as [[Ea Eb] [Hpa' Hpb'] [Ela Elb] Hbelow Hmorph [Hoka Hokb]].
    destruct (write_trio ctx f a k b left tr D n l lsib lp a' k' b' pa' pb'
      (set_separator (length (frame_slots1 f (tid a))) k' pp) Hnear Ea Eb Hpa' Hpb') as (s' & Ew & Hr' & Hh' & Hpool');
      [unfold lsn_fits; by rewrite Ela|unfold lsn_fits; by rewrite Elb|exact Hpf|by apply set_separator_frame|done|].
    exists s', a', k', b'. split; [|by split_and!].
    rewrite <-Ew. by destruct left.
  - right. rewrite E. split; [|done]. cbn [mk_trio parent].
    rewrite (in_store_bind (assign lp (PInternal pp)) _ tr (tr_store tr) tt (assign_same _ _ _ Hpo)), set_store_same.
    assert (donor (mk_trio left pa pb pp) = d /\ recipient (mk_trio left pa pb pp) = r) as [-> ->] by (by destruct left).
    rewrite (in_store_bind (assign lsib d) _ tr (tr_store tr) tt (assign_same _ _ _ Hdo)), set_store_same.
    rewrite (in_store_bind (assign l r) _ tr (tr_store tr) tt (assign_same _ _ _ Hro)), set_store_same. done.
Qed.

Lemma tree_ok_plug ctx t : Wf ps kmax (plug ctx t) -> pages_ok ps (tid (plug ctx t)) (around ctx t) ->
  placed ps (tid (plug ctx t)) (tid t, root_of t) -> TreeOk ps kmax (plug ctx t).
Proof. intros Hwf Hp Ht. split; [done|]. rewrite nodes_around. by apply pages_ok_cons. Qed.

Definition bumped (c : TreeCounter) (tr : BPlusTree) : BPlusTree :=
  {| tr_store := tr_store tr; tr_stats := bump_tree_stat c (tr_stats tr) |}.

Lemma count_bind {B} c (g : unit -> M BPlusTree B) tr : (count_tree c ≫= g) tr = g tt (bumped c tr).
Proof. done. Qed.

Lemma fills_has_kids f a kb rest : has_kids (fills f a (kb :: rest)).
Proof. destruct f as [|id c [|x l] key kids2]; done. Qed.

Lemma pair_key ctx f a k b : Wf ps kmax (plug ctx (fills f a [(k, b)])) -> len k <= kmax.
Proof.
  intros H. apply pair_fits in H. unfold seg_flat in H. apply Forall_app in H as [_ H]. simpl in H.
  apply Forall_cons in H as [[Hk _] _]. exact Hk.
Qed.

(** The parent of two neighbours after a change of their separator. *)
Lemma pair_bal ctx f a k b a' k' b' lp n tr D :
  dk_ps D = ps -> Rep {[frame_id f]} ∅ (tr_store tr) D (pair_nodes ctx f a' k' b') ->
  holds (tr_store tr) (frame_id f) lp -> shielded {[frame_id f]} n (tr_store tr) ->
  next_page_id (dk_meta D) + n <= page_limit ->
  root_page_id (dk_meta D) = tid (plug ctx (fills f a [(k, b)])) ->
  Wf ps kmax (plug ctx (fills f a' [(k', b')])) -> tid a' = tid a ->
  pages_ok ps (tid (plug ctx (fills f a [(k, b)]))) (pair_rest ctx f a' b') ->
  page_ok ps (root_of a') -> page_ok ps (root_of b') ->
  calculate_page_size (frame_page_with f (tid a) [kid_slot (k, b)]) <= ps ->
  Bal ps kmax ctx (fills f a' [(k', b')]) lp n tr D.
Proof.
  intros Eps Hr Hh Hs Hn Hroot Hwf Ha Hrest Hoka Hokb Hpp. set (t' := fills f a' [(k', b')]) in *.
  assert (tid t' = frame_id f) as Ht by apply tid_fills.
  split; try done; rewrite ?Ht; try done.
  - unfold t'. by rewrite nodes_pair.
  - rewrite Hroot. apply tid_plug. by rewrite Ht, tid_fills.
  - unfold t'. rewrite below_fills. unfold seg_nodes. simpl. rewrite app_nil_r.
    rewrite (nodes_below a'), (nodes_below b').
    assert (tid (plug ctx (fills f a' [(k', b')])) = tid (plug ctx (fills f a [(k, b)]))) as -> by (apply tid_plug; by rewrite !tid_fills).
    apply (page_ok_placed _ (tid (plug ctx (fills f a [(k, b)]))) (tid a')) in Hoka.
    apply (page_ok_placed _ (tid (plug ctx (fills f a [(k, b)]))) (tid b')) in Hokb.
    unfold pair_rest in Hrest. repeat (rewrite !pages_ok_app in * || rewrite !pages_ok_cons in *). tauto.
  - unfold t'. rewrite root_of_fills.
    pose proof (frame_page_with_size f (tid a) k b) as E1. pose proof (frame_page_with_size f (tid a') k' b') as E2.
    simpl fmap in E1, E2 |- *. rewrite E2. rewrite E1 in Hpp. rewrite Ha.
    pose proof (pair_key _ _ _ _ _ Hwf). pose proof (len_nonneg k). unfold good_key_bound in Hkb.
    destruct f; simpl overflow; lia.
  - intros _. apply fills_has_kids.
Qed.

(** The leaves above the parent are not concerned: a healthy parent ends the cascade. *)
Lemma bal_done ctx t l n tr D tr' : Bal ps kmax ctx t l n tr D -> Rep ∅ ∅ (tr_store tr') D (nodes (plug ctx t)) ->
  slack (tr_store tr') n ->
  placed ps (tid (plug ctx t)) (tid t, root_of t) -> Done ps kmax (plug ctx t) n tr' D.
Proof.
  intros [Eps _ _ _ Hn Hroot Hwf Hp _ Hk] Hr Hsl Hok. split; try done.
  by apply tree_ok_plug.
Qed.

Lemma redistribute_with_ok ctx f a k b left tr D n l lsib lp idx :
  Near ctx f a k b left tr D n l lsib lp -> 3 <= n -> (if left then idx else idx + 1) = frame_idx f + 1 ->
  (exists tr' out,
     redistribute_with (tid (pick left b a)) l (frame_id f) lp idx lsn (tid (pick left a b), Some lsib) left tr
       = (tr', Ok (Some out)) /\
     Outcome ps kmax ctx (n - 3) (plug ctx (fills f a [(k, b)])) tr' out) \/
  (redistribute_with (tid (pick left b a)) l (frame_id f) lp idx lsn (tid (pick left a b), Some lsib) left tr
     = (tr, Ok None) /\ merge_fits a k b).
Proof.
  intros Hnear Hn3 Hidx. unfold redistribute_with. rewrite Hidx.
  destruct (try_redistribute_ok _ _ _ _ _ _ _ _ _ _ _ _ Hnear) as [(s1 & a' & k' & b' & E & Ea & Eb & Hmorph & Hoka & Hokb & Hbelow & Hr1 & Hh1 & Hp1)|[E Hm]].
  2:{ right. by rewrite (bind_Ok _ _ _ _ _ E). }
  left. rewrite (bind_Ok _ _ _ _ _ E).
  destruct Hnear as [Eps _ Hl Hls Hlp (P & Hs & HPa & HPb & HPf) Hn Hroot Hwf Hpages Hpp _ _].
  destruct (wf_morph ps kmax ctx f a _ _ _ Hmorph Hwf) as [Hwf' Hrec].
  assert (tid (pick left b a) = tid (pick (negb left) a' b')) as Efocus by (by destruct left).
  assert (tid (pick left a b) = tid (pick left a' b')) as Esib by (by destruct left).
  destruct (rep_mark _ _ _ _ _ (tid (pick left b a)) l lsn Hr1) as (s2 & E2 & Hr2 & Hh2 & _ & Hs2);
    [by apply Hh1|rewrite Efocus; apply pair_id|done|].
  store_step E2.
  destruct (rep_mark _ _ _ _ _ (tid (pick left a b)) lsib lsn Hr2) as (s3 & E3 & Hr3 & Hh3 & _ & Hs3);
    [by apply Hh2, Hh1|rewrite Esib; apply pair_id|done|].
  store_step E3. set (tr3 := set_store s3 (set_store s2 (set_store s1 tr))).
  assert (Rep {[frame_id f]} ∅ (tr_store tr3) D (pair_nodes ctx f a' k' b')) as Hr3'.
  { eapply rep_mono; [|exact Hr3]. destruct left; simpl; set_solver. }
  assert (forall i x, holds s3 i x <-> holds (tr_store tr) i x) as Hh by (intros; by rewrite Hh3, Hh2, Hh1).
  match goal with |- context [in_store (deref l) ≫= ?g] =>
    destruct (deref_bind _ _ tr3 D _ Hr3' (tid (pick left b a)) (root_of (pick (negb left) a' b')) l g) as (r & _ & _ & _ & ->) end;
    [rewrite Efocus; apply pair_member|by apply Hh|].
  rewrite count_bind. set (tr4 := bumped _ tr3).
  match goal with |- context [in_store (deref lp) ≫= ?g] =>
    destruct (deref_bind _ _ tr4 D _ Hr3' (frame_id f) (frame_page_with f (tid a') [kid_slot (k', b')]) lp g) as (q & Hq & _ & _ & ->) end;
    [apply pair_parent_member|by apply Hh|].
  rewrite (over_bind _ _ tr4 _ _ Hr3'), (under_bind _ _ tr4 _ _ Hr3'), Eps.
  set (t' := fills f a' [(k', b')]) in *.
  assert (shielded {[frame_id f]} (n - 2) s3) as Hsh.
  { apply Hs3, Hs2. apply (shielded_same_pool _ _ (tr_store tr)); [exact Hp1|].
    eapply shielded_weaken; [| |exact Hs]; [set_solver|lia]. }
  assert (pages_ok ps (tid (plug ctx (fills f a [(k, b)]))) (pair_rest ctx f a' b')) as Hpages'.
  { unfold pair_rest in *. rewrite !(app_assoc (below _) (below _)) in *. by rewrite Hbelow. }
  assert (Bal ps kmax ctx t' lp (n - 3) tr4 D) as Hbal.
  { apply (pair_bal ctx f a k b); try done; [by apply Hh| |lia].
    eapply shielded_weaken; [done| |exact Hsh]. lia. }
  assert (root_of t' = frame_page_with f (tid a') [kid_slot (k', b')]) as Hroot' by apply root_of_fills.
  destruct (page_overpopulated ps q || page_underpopulated ps q) eqn:Ehealth.
  - eexists tr4, _. split; [done|]. exists t', D. split; [symmetry; apply tid_fills|]. done.
  - destruct (rep_mark _ _ _ _ _ (frame_id f) lp lsn Hr3') as (s5 & E5 & Hr5 & _ & _ & Hs5);
      [by apply Hh|apply pair_parent_id|done|].
    store_step E5. eexists (set_store s5 tr4), None. split; [done|].
    exists (plug ctx t'), D. split; [|done]. apply (bal_done ctx t' lp (n - 3) tr4); [done| | |].
    + unfold t'. rewrite nodes_pair. eapply rep_mono; [|exact Hr5]. set_solver.
    + apply (shielded_slack {[frame_id f]}), Hs5. eapply shielded_weaken; [reflexivity| |exact Hsh]. lia.
    + apply orb_false_iff in Ehealth as [Hov Hun%underpopulated_false]; [|done]. left. simpl. rewrite Hroot'.
      apply (page_ok_erase q); [exact Hq|]. split; [by apply Z.ltb_ge|exact Hun].
Qed.
End pair.
