(* ===== verification/TreeMerge.v ===== *)
(** * Merging two neighbours

    A merge moves everything of the right one of two neighbours into the left
    one, drops the separator, frees the page, and takes the root away when it
    is left without separators. *)

From S2P Require Import Prelude Bytes Bisect Entities Codec Fs Pager Cache Tree.
From S2P Require Import CodecFacts PagerFacts CacheFacts CacheOps.
From S2P Require Import TreeSizes TreeShape TreeSteps TreeSearch TreeStore TreeFind TreeSplit TreeBalance TreeRedistribute.
From S2P Require Import TreeBorrow.

(** ** The merged page *)

Definition merged (a : tree) (k : bytes) (b : tree) : tree :=
  match a, b with
  | Leaf id _ s1, Leaf _ link s2 => Leaf id link (s1 ++ s2)
  | Node id c kids1, Node _ c2 kids2 => Node id c (kids1 ++ (k, c2) :: kids2)
  | _, _ => a
  end.

Lemma tid_merged a k b : tid (merged a k b) = tid a.
Proof. by destruct a, b. Qed.

Section merge.
Context {L : Limit} (ps kmax lsn : Z) (Hps : good_page_size ps) (Hkb : good_key_bound ps kmax) (Hlsn : fits 8 lsn = true).

Definition alike (a b : tree) : Prop :=
  match a, b with Leaf _ _ _, Leaf _ _ _ => True | Node _ _ _, Node _ _ _ => True | _, _ => False end.

Record Merger (a : tree) (k : bytes) (b : tree) (pa probe : Page) : Prop := {
  mg_page : erase (apply_merge pa probe) = root_of (merged a k b);
  mg_lsn : page_lsn (apply_merge pa probe) = page_lsn pa;
  mg_size : calculate_page_size probe = merge_size a k b;
}.

Lemma merge_probe_ok a k b pa pb : alike a b -> erase pa = root_of a -> erase pb = root_of b ->
  exists probe, merge_probe pa pb (match pa with PInternal _ => k | _ => [] end) = Ok probe /\ Merger a k b pa probe.
Proof.
  intros Hk Ha Hb. destruct a as [id1 l1 s1|id1 c1 k1], b as [id2 l2 s2|id2 c2 k2]; try done; simpl in Ha, Hb.
  - apply erase_leaf in Ha as (x & ->). apply erase_leaf in Hb as (y & ->). eexists. split; [reflexivity|].
    split; try done. by rewrite leaf_page_size.
  - apply erase_internal in Ha as (x & ->). apply erase_internal in Hb as (y & ->). eexists. split; [reflexivity|].
    split; [| |rewrite internal_page_size]; simpl; by rewrite ?fmap_app.
Qed.

Lemma morph_merge a k b : alike a b -> Morph ps kmax a [(k, b)] (merged a k b) [].
Proof. destruct a, b; try done; intros _; [apply morph_merge_leaf|apply morph_merge_internal]. Qed.

Lemma below_merged a k b : alike a b -> below (merged a k b) ≡ₚ below a ++ below b.
Proof.
  destruct a as [|id1 c1 k1], b as [|id2 c2 k2]; try done. intros _. simpl. rewrite kids_nodes_app.
  change (kids_nodes ((k, c2) :: k2)) with (nodes c2 ++ kids_nodes k2). solve_Permutation.
Qed.

Lemma merged_size a k b : alike a b -> calculate_page_size (root_of (merged a k b)) = merge_size a k b.
Proof.
  destruct a as [id1 l1 s1|id1 c1 k1], b as [id2 l2 s2|id2 c2 k2]; try done; intros _; simpl root_of;
    by rewrite ?leaf_of_size, ?internal_of_size.
Qed.

(** A merge that fits gives a healthy page: one of the two is healthy already. *)
Lemma merged_ok a k b left : alike a b -> merge_size a k b <= ps -> page_ok ps (root_of (pick left a b)) ->
  page_ok ps (root_of (merged a k b)).
Proof.
  intros Hk Hsz [_ Hok]. unfold page_ok. rewrite merged_size by done. split; [done|].
  assert (calculate_page_size (root_of (pick left a b)) <= merge_size a k b); [|lia].
  destruct a as [id1 l1 s1|id1 c1 k1], b as [id2 l2 s2|id2 c2 k2]; try done; unfold merge_size.
  - rewrite leaf_body_app. pose proof (leaf_body_nonneg s1). pose proof (leaf_body_nonneg s2).
    destruct left; simpl pick; simpl root_of; rewrite leaf_of_size; lia.
  - rewrite fmap_app, fmap_cons, internal_body_app, internal_body_cons.
    pose proof (internal_body_nonneg (kid_slot <$> k1)). pose proof (internal_body_nonneg (kid_slot <$> k2)).
    pose proof (len_nonneg (islot_key (kid_slot (k, c2)))).
    destruct left; simpl pick; simpl root_of; rewrite internal_of_size; lia.
Qed.

(** ** The root of a tree with a context *)

Lemma root_in_ctx f ctx hole t : tid (plug (f :: ctx) t) ∈ (ctx_nodes (f :: ctx) hole).*1.
Proof.
  revert f hole t. induction ctx as [|g ctx IH]; intros f hole t.
  - simpl. rewrite tid_fill. left.
  - change (plug (f :: g :: ctx) t) with (plug (g :: ctx) (fill f t)).
    change (ctx_nodes (f :: g :: ctx) hole) with
      ((frame_id f, frame_page f hole) :: frame_siblings f ++ ctx_nodes (g :: ctx) (frame_id f)).
    rewrite fmap_cons, fmap_app. right. apply elem_of_app. right. apply IH.
Qed.

Lemma root_not_focus ctx t : NoDup (nodes (plug ctx t)).*1 -> ctx = [] \/ tid (plug ctx t) <> tid t.
Proof.
  intros H. destruct ctx as [|f ctx]; [by left|right]. intros E.
  rewrite nodes_plug, fmap_app in H. apply NoDup_app in H as (_ & H & _).
  apply (H (tid t)); [rewrite nodes_below; left|]. rewrite <-E. apply root_in_ctx.
Qed.

(** ** The merge in the store *)

Lemma pair_nodup pend ctx f a k b s D : Rep pend ∅ s D (pair_nodes ctx f a k b) ->
  tid a <> tid b /\ tid a <> frame_id f /\ tid b <> frame_id f.
Proof.
  intros Hr. pose proof (rep_nodup _ _ _ _ _ Hr) as Hnd. unfold pair_nodes in Hnd. simpl in Hnd.
  rewrite !NoDup_cons, !elem_of_cons in Hnd. tauto.
Qed.

(** The two pages are one, the other one is free, the parent has forgotten
    the separator. *)
Record Joined (ctx : context) (f : frame) (m : tree) (n : Z) (s : Store) (D : Disk) (lp : loc) : Prop := {
  jn_ps : dk_ps D = ps;
  jn_rep : Rep ∅ ∅ s D ((tid m, root_of m) :: (frame_id f, frame_page f (tid m)) ::
             below m ++ frame_siblings f ++ ctx_nodes ctx (frame_id f));
  jn_holds : holds s (frame_id f) lp;
  jn_shield : shielded {[frame_id f]} n s;
  jn_next : next_page_id (dk_meta D) + n <= page_limit;
}.

Lemma joined_nodes ctx f m : nodes (plug ctx (fill f m)) ≡ₚ
  (tid m, root_of m) :: (frame_id f, frame_page f (tid m)) :: below m ++ frame_siblings f ++ ctx_nodes ctx (frame_id f).
Proof. rewrite nodes_around. unfold around. rewrite tid_fill, root_of_fill, below_fill, nodes_below. simpl. solve_Permutation. Qed.

Lemma join_ok ctx f a k b left tr D n l lsib lp pa probe pp : Near ps kmax ctx f a k b left tr D n l lsib lp -> 3 <= n ->
  Merger a k b pa probe -> lsn_fits pa -> alike a b ->
  erase (PInternal pp) = frame_page f (tid a) -> lsn_fits (PInternal pp) ->
  exists s1 s2 s3 s4 s5 s6 D', 
    assign (pick left lsib l) (apply_merge pa probe) (tr_store tr) = (s1, Ok tt) /\
    assign lp (PInternal pp) s1 = (s2, Ok tt) /\ mark_dirty (tid a) lsn s2 = (s3, Ok tt) /\
    mark_dirty (frame_id f) lsn s3 = (s4, Ok tt) /\ pool_delete (tid b) s4 = (s5, Ok tt) /\
    on_pager (free_page (tid b)) s5 = (s6, Ok tt) /\
    Joined ctx f (merged a k b) (n - 3) s6 D' lp /\ root_page_id (dk_meta D') = root_page_id (dk_meta D).
Proof.
  intros Hnear Hn3 [Hpage Hlsn' _] Hfa Hk Hpe Hpf.
  destruct Hnear as [Eps Hr Hl Hls Hlp (P & Hs & HPa & HPb & HPf) Hn _ _ _ _ _ _].
  destruct (pair_nodup _ _ _ _ _ _ _ _ Hr) as (Hab & Haf & Hbf). set (m := merged a k b) in *.
  assert (holds (tr_store tr) (tid a) (pick left lsib l)) as Hla by (by destruct left).
  assert (tree_page (apply_merge pa probe)) as Htp by (by eapply (erase_tree_page _ m)).
  set (others := below a ++ below b ++ frame_siblings f ++ ctx_nodes ctx (frame_id f)).
  unfold pair_nodes, pair_rest in Hr. fold others in Hr.
  assert (Rep ({[tid a]} ∪ {[tid (pick left b a)]}) ∅ (assigned (pick left lsib l) (apply_merge pa probe) (tr_store tr)) D
    ((tid a, root_of m) :: (tid b, root_of b) :: (frame_id f, frame_page_with f (tid a) [kid_slot (k, b)]) :: others)) as Hr1.
  { rewrite <-Hpage. apply (rep_assign _ _ _ _ _ _ (root_of a)); [exact Hr|done|done|]. unfold lsn_fits. by rewrite Hlsn'. }
  set (s1 := assigned _ _ (tr_store tr)) in *.
  assert (Rep ({[frame_id f]} ∪ ({[tid a]} ∪ {[tid (pick left b a)]})) ∅ (assigned lp (PInternal pp) s1) D
    ((tid b, root_of b) :: (tid a, root_of m) :: (frame_id f, frame_page f (tid a)) :: others)) as Hr2.
  { rewrite Permutation_swap in Hr1. rewrite <-Hpe.
    assert (forall x y z (l : list (Z * Page)), x :: y :: z :: l ≡ₚ z :: x :: y :: l) as -> by (intros; solve_Permutation).
    eapply (rep_assign_perm _ _ s1); [exact Hr1|solve_Permutation|exact Hlp|done|done]. }
  set (s2 := assigned _ _ s1) in *.
  destruct (rep_mark _ _ s2 D _ (tid a) (pick left lsib l) lsn Hr2 Hla) as (s3 & E3 & Hr3 & Hh3 & _ & Hs3);
    [right; left|done|].
  destruct (rep_mark _ _ s3 D _ (frame_id f) lp lsn Hr3) as (s4 & E4 & Hr4 & Hh4 & _ & Hs4);
    [by apply Hh3|do 2 right; left|done|].
  destruct (rep_delete _ _ s4 D _ (tid b) _ Hr4) as (s5 & E5 & Hr5 & Hh5 & Hs5).
  assert (Rep ∅ {[tid b]} s5 D ((tid a, root_of m) :: (frame_id f, frame_page f (tid a)) :: others)) as Hr5'.
  { rewrite (right_id_L ∅ (∪)) in Hr5. eapply rep_mono; [|exact Hr5]. destruct left; simpl; set_solver. }
  destruct (rep_free _ _ s5 D _ (tid b) Hr5') as (s6 & D' & E6 & Hr6 & Hp6 & _ & [Eps' Eroot Enext]); [limit_lia|set_solver|].
  exists s1, s2, s3, s4, s5, s6, D'. do 6 (split; [done|]). split; [|done]. split.
  - congruence.
  - rewrite difference_diag_L in Hr6. unfold others in Hr6. pose proof (below_merged a k b Hk) as Hbm. fold m in Hbm.
    rewrite Hbm. unfold m at 1 3. by rewrite tid_merged, <-app_assoc.
  - apply (holds_same_pool s5); [done|]. apply Hh5; [done|]. by apply Hh4, Hh3.
  - apply (shielded_same_pool _ _ s5); [done|]. eapply shielded_weaken; [|reflexivity|apply Hs5, Hs4, Hs3].
    2:{ apply (shielded_same_pool _ _ (tr_store tr)); [done|]. eapply shielded_weaken; [reflexivity| |exact Hs]. lia. }
    set_solver.
  - lia.
Qed.

(** The separator read for an internal merge and the parent without it. *)
Lemma pop_separator f a k b lsn0 :
  py_pop (internal_slots {| internal_lsn := lsn0; leftmost_child_page_id := frame_lm f (tid a);
    internal_slots := frame_slots1 f (tid a) ++ [kid_slot (k, b)] ++ frame_slots2 f |}) (frame_idx f + 1) =
    Ok (kid_slot (k, b), frame_slots1 f (tid a) ++ frame_slots2 f).
Proof.
  cbn [internal_slots]. rewrite <-(frame_slots1_length f (tid a)), (py_pop_lookup _ _ _ (sep_lookup f (tid a) k b)). do 2 f_equal.
  by rewrite take_app_length, <-Nat.add_1_r, drop_app_add.
Qed.

Lemma separator_key_ok f a k b pa lsn0 :
  separator_key pa {| internal_lsn := lsn0; leftmost_child_page_id := frame_lm f (tid a);
    internal_slots := frame_slots1 f (tid a) ++ [kid_slot (k, b)] ++ frame_slots2 f |} (frame_idx f + 1) =
    Ok (match pa with PInternal _ => k | _ => [] end).
Proof.
  unfold separator_key. destruct pa; try done. cbn [internal_slots]. rewrite <-(frame_slots1_length f (tid a)).
  by rewrite (py_get_lookup _ _ _ (sep_lookup f (tid a) k b)).
Qed.

(** The root goes when the merge leaves it one child. *)
Lemma collapse_ok f m n tr D lp : Joined [] f m n (tr_store tr) D lp -> 2 <= n ->
  Wf ps kmax (fill f m) -> frame_slots1 f (tid m) ++ frame_slots2 f = [] ->
  page_ok ps (root_of m) -> pages_ok ps (frame_id f) (below m) ->
  exists s1 s2 s3 D', on_pager (update_meta (with_root (frame_lm f (tid m)))) (tr_store tr) = (s1, Ok tt) /\
    pool_delete (frame_id f) s1 = (s2, Ok tt) /\ on_pager (free_page (frame_id f)) s2 = (s3, Ok tt) /\
    Done ps kmax m (n - 1) (set_store s3 tr) D' /\ Kept 0 (fill f m) m.
Proof.
  intros [Eps Hr _ Hs Hn] Hn1 Hwf Hslots Hok Hp.
  destruct f as [id kids|id c kids1 key kids2]; [|by destruct kids1].
  simpl in Hslots. apply fmap_nil_inv in Hslots as ->. simpl fill in *. simpl frame_lm. simpl frame_id in *.
  simpl in Hr. rewrite app_nil_r in Hr.
  destruct (wf_collapse _ _ _ _ Hwf) as [Hwf' Hflat].
  destruct (rep_set_root _ _ _ _ _ (tid m) Hr) as (s1 & E1 & Hr1 & Hp1 & _).
  rewrite Permutation_swap in Hr1. destruct (rep_delete _ _ s1 _ _ id _ Hr1) as (s2 & E2 & Hr2 & _ & Hs2).
  assert (Rep ∅ {[id]} s2 (with_disk_root (tid m) D) (nodes m)) as Hr2'.
  { rewrite nodes_below. rewrite (right_id_L ∅ (∪)) in Hr2. eapply rep_mono; [|exact Hr2]. set_solver. }
  destruct (rep_free _ _ s2 _ _ id Hr2') as (s3 & D' & E3 & Hr3 & Hp3 & _ & [Eps' Eroot Enext]); [simpl; limit_lia|set_solver|].
  exists s1, s2, s3, D'. do 3 (split; [done|]). split; [|exact Hflat].
  split; [by rewrite Eps'|by rewrite difference_diag_L in Hr3|by rewrite Eroot| | |simpl in *; lia].
  2:{ apply (shielded_slack ({[id]} ∖ {[id]})), (shielded_same_pool _ _ s2); [done|]. apply Hs2.
      apply (shielded_same_pool _ _ (tr_store tr)); [done|]. eapply shielded_weaken; [reflexivity| |exact Hs]. lia. }
  split; [done|]. rewrite nodes_below. apply pages_ok_cons. split; [by apply page_ok_placed|].
  apply (pages_ok_reroot ps id); [|done]. pose proof (rep_nodup _ _ _ _ _ Hr) as Hnd. simpl in Hnd.
  rewrite !NoDup_cons in Hnd. tauto.
Qed.

Lemma in_store_seq {B} (m : M Store unit) (f : M BPlusTree B) tr s' : m (tr_store tr) = (s', Ok tt) ->
  (in_store m;; f) tr = f (set_store s' tr).
Proof. apply in_store_bind. Qed.

Lemma has_kids_fill f t : has_kids (fill f t) <-> frame_slots1 f (tid t) ++ frame_slots2 f <> [].
Proof. destruct f as [id [|]|id c [|] key kids2]; simpl; split; done. Qed.

(** The parent when it goes on being a page. *)
Lemma joined_bal ctx f m n n' tr D lp : Joined ctx f m n (tr_store tr) D lp -> n' <= n ->
  root_page_id (dk_meta D) = tid (plug ctx (fill f m)) -> Wf ps kmax (plug ctx (fill f m)) ->
  page_ok ps (root_of m) ->
  pages_ok ps (tid (plug ctx (fill f m))) (below m ++ frame_siblings f ++ ctx_nodes ctx (frame_id f)) ->
  calculate_page_size (frame_page f (tid m)) <= ps -> (ctx = [] -> has_kids (fill f m)) ->
  Bal ps kmax ctx (fill f m) lp n' tr D.
Proof.
  intros [Eps Hr Hh Hs Hn] Hn' Hroot Hwf Hok Hp Hsz Hk.
  split; try done; rewrite ?tid_fill; try done.
  - rewrite joined_nodes. eapply rep_mono; [|exact Hr]. set_solver.
  - eapply shielded_weaken; [reflexivity|exact Hn'|exact Hs].
  - lia.
  - rewrite below_fill, nodes_below. apply (page_ok_placed _ (tid (plug ctx (fill f m))) (tid m)) in Hok.
    repeat (rewrite !pages_ok_app in * || rewrite !pages_ok_cons in *). tauto.
  - rewrite root_of_fill. destruct f; simpl overflow; unfold max_leaf_slot, max_internal_slot, good_page_size in *.
    + pose proof (Z.div_pos (ps - 32) 5). lia.
    + pose proof (Z.div_pos (ps - 32) 5). lia.
Qed.

Lemma merge_with_ok ctx f a k b left tr D n l lsib lp idx :
  Near ps kmax ctx f a k b left tr D n l lsib lp -> 5 <= n ->
  (if left then idx else idx + 1) = frame_idx f + 1 ->
  (exists tr' out,
     merge_with (tid (pick left b a)) l (frame_id f) lp idx lsn (tid (pick left a b), Some lsib) left tr
       = (tr', Ok (Some out)) /\
     Outcome ps kmax ctx (n - 4) (plug ctx (fills f a [(k, b)])) tr' out) \/
  (merge_with (tid (pick left b a)) l (frame_id f) lp idx lsn (tid (pick left a b), Some lsib) left tr
     = (tr, Ok None) /\ ps < merge_size a k b).
Proof.
  intros Hnear Hn5 Hidx. pose proof Hnear as [Eps Hr Hl Hls Hlp _ Hn Hroot Hwf Hpages Hpsz Hok _].
  pose proof (same_kind _ _ _ _ _ _ _ Hwf) as Hk. change (alike a b) in Hk.
  unfold merge_with.
  assert ((if left then (tid (pick left a b), tid (pick left b a), lsib, l, idx)
           else (tid (pick left b a), tid (pick left a b), l, lsib, idx + 1)) =
    (tid a, tid b, pick left lsib l, pick left l lsib, frame_idx f + 1)) as -> by (rewrite <-Hidx; by destruct left).
  rewrite (page_size_bind _ _ _ _ _ Hr), Eps.
  match goal with |- context [in_store (deref (pick left lsib l)) ≫= ?g] =>
    destruct (deref_bind _ _ tr D _ Hr (tid a) (root_of a) (pick left lsib l) g) as (pa & Hpa & Hfa & _ & ->) end;
    [left|by destruct left|].
  match goal with |- context [in_store (deref (pick left l lsib)) ≫= ?g] =>
    destruct (deref_bind _ _ tr D _ Hr (tid b) (root_of b) (pick left l lsib) g) as (pb & Hpb & _ & _ & ->) end;
    [right; left|by destruct left|].
  match goal with |- context [(deref_internal lp ≫= ?g) tr] =>
    destruct (deref_internal_bind _ _ tr D _ (frame_id f) (frame_lm f (tid a)) _ lp g Hr (pair_parent_member _ _ _ _ _) Hlp)
      as (lsn0 & Hl0 & ->) end.
  rewrite separator_key_ok. lift_step.
  destruct (merge_probe_ok a k b pa pb Hk Hpa Hpb) as (probe & -> & Hmg). lift_step.
  rewrite (mg_size _ _ _ _ _ Hmg). destruct (Z.ltb_spec ps (merge_size a k b)) as [Hbig|Hsz]; [by right|left].
  rewrite pop_separator.
  set (rest := frame_slots1 f (tid a) ++ frame_slots2 f).
  set (pp := {| internal_lsn := lsn0; leftmost_child_page_id := frame_lm f (tid a); internal_slots := rest |}).
  set (m := merged a k b).
  destruct (join_ok ctx f a k b left tr D n l lsib lp pa probe pp Hnear ltac:(lia) Hmg Hfa Hk)
    as (s1 & s2 & s3 & s4 & s5 & s6 & D' & E1 & E2 & E3 & E4 & E5 & E6 & Hj & Hroot').
  { unfold erase. simpl. by rewrite frame_page_slots. } { done. }
  rewrite (in_store_seq _ _ _ _ E1). lift_step.
  change (set_internal_slots rest _) with pp.
  rewrite (in_store_seq (assign lp (PInternal pp)) _ (set_store s1 tr) s2 E2).
  rewrite (in_store_seq (mark_dirty (tid a) lsn) _ (set_store s2 _) s3 E3).
  rewrite (in_store_seq (mark_dirty (frame_id f) lsn) _ (set_store s3 _) s4 E4).
  rewrite (in_store_seq (pool_delete (tid b)) _ (set_store s4 _) s5 E5).
  rewrite (in_pager_bind (free_page (tid b)) _ (set_store s5 _) s6 tt E6). rewrite count_bind.
  set (tr6 := bumped _ _). change (Joined ctx f m (n - 3) (tr_store tr6) D' lp) in Hj.
  destruct (wf_morph ps kmax ctx f a _ _ _ (morph_merge a k b Hk) Hwf) as [Hwf' Hrec]. rewrite fills_nil in Hwf', Hrec.
  fold m in Hwf', Hrec. assert (tid m = tid a) as Hid by apply tid_merged.
  assert (page_ok ps (root_of m)) as Hokm by (by apply (merged_ok a k b left)).
  assert (pages_ok ps (tid (plug ctx (fill f m))) (below m ++ frame_siblings f ++ ctx_nodes ctx (frame_id f))) as Hp.
  { rewrite (tid_plug ctx (fill f m) (fills f a [(k, b)])) by (by rewrite tid_fill, tid_fills). unfold pair_rest in Hpages. rewrite app_assoc, <-(below_merged a k b Hk) in Hpages. done. }
  rewrite (root_bind _ _ tr6 _ _ (jn_rep _ _ _ _ _ _ _ Hj)), Hroot'.
  assert (frame_page f (tid m) = internal_of (frame_lm f (tid a)) rest) as Hfp by (rewrite Hid; apply frame_page_slots).
  destruct (bool_decide (rest = []) && (frame_id f =? root_page_id (dk_meta D))) eqn:Egone.
  - apply andb_true_iff in Egone as [Hrest%bool_decide_eq_true Eid%Z.eqb_eq].
    assert (ctx = []) as ->.
    { pose proof (rep_nodup _ _ _ _ _ (jn_rep _ _ _ _ _ _ _ Hj)) as Hnd. rewrite <-joined_nodes in Hnd.
      destruct (root_not_focus _ _ Hnd) as [|Hne]; [done|]. destruct Hne. rewrite tid_fill, Eid, Hroot.
      apply tid_plug. by rewrite tid_fill, tid_fills. }
    simpl in Hp, Hwf', Hrec. rewrite app_nil_r, tid_fill in Hp. apply pages_ok_app in Hp as [Hpm _].
    destruct (collapse_ok f m (n - 3) tr6 D' lp Hj ltac:(lia) Hwf') as (s7 & s8 & s9 & D9 & E7 & E8 & E9 & Hdone & Hr9);
      [by rewrite Hid|done|done|].
    rewrite Hid in E7. rewrite <-Eid.
    rewrite (in_pager_bind (update_meta (with_root (frame_lm f (tid a)))) _ tr6 s7 tt E7).
    rewrite (in_store_seq (pool_delete (frame_id f)) _ (set_store s7 _) s8 E8).
    rewrite (in_pager_bind (free_page (frame_id f)) _ (set_store s8 _) s9 tt E9). rewrite count_bind.
    eexists _, None. split; [reflexivity|]. exists m, D9. split; [|exact (kept_trans 0 0 _ _ _ Hrec Hr9)].
    replace (n - 4) with (n - 3 - 1) by lia. by destruct Hdone.
  - eexists tr6, _. split; [reflexivity|]. exists (fill f m), D'. split; [symmetry; apply tid_fill|]. split; [|done].
    apply (joined_bal ctx f m (n - 3)); try done.
    + lia.
    + rewrite Hroot', Hroot. apply tid_plug. by rewrite tid_fill, tid_fills.
    + rewrite Hid. pose proof (frame_page_with_size f (tid a) k b) as E. simpl fmap in E. rewrite E in Hpsz.
      pose proof (len_nonneg k). lia.
    + intros ->. rewrite has_kids_fill. intros Hrest. rewrite Hid in Hrest. fold rest in Hrest.
      rewrite Hrest in Egone. simpl in Egone. rewrite Hroot in Egone. simpl in Egone. rewrite tid_fills, Z.eqb_refl in Egone. done.
Qed.
End merge.
