(* ===== verification/TreeCascade.v ===== *)
(** * The rebalancing cascade

    The siblings of a page, one round of the loop, and the whole cascade from
    the leaf to the root. *)

From S2P Require Import Prelude Bytes Bisect Entities Codec Fs Pager Cache Tree.
From S2P Require Import CodecFacts PagerFacts CacheFacts CacheOps.
From S2P Require Import TreeSizes TreeShape TreeSteps TreeSearch TreeStore TreeFind TreeSplit TreeBalance TreeRedistribute.
From S2P Require Import TreeBorrow TreeMerge.

(** ** Siblings *)

(** [sib] is the left or the right sibling of [t], [k] the separator between
    them and [f'] the place of the two in their parent. *)
Record Adjacent (left : bool) (f : frame) (t : tree) (f' : frame) (k : bytes) (sib : tree) : Prop := {
  ad_fill : fill f t = fills f' (pick left sib t) [(k, pick left t sib)];
  ad_id : frame_id f' = frame_id f;
  ad_siblings : frame_siblings f ≡ₚ nodes sib ++ frame_siblings f';
  ad_idx : (if left then frame_idx f else frame_idx f + 1) = frame_idx f' + 1;
}.

Definition Neighbour (left : bool) (f : frame) (t : tree) (o : option (frame * bytes * tree)) : Prop :=
  match o with Some (f', k, sib) => Adjacent left f t f' k sib | None => True end.

Definition neighbour_id (o : option (frame * bytes * tree)) : Z :=
  match o with Some (_, _, sib) => tid sib | None => -1 end.

Definition parent_of (f : frame) (hole lsn : Z) : InternalPage :=
  {| internal_lsn := lsn; leftmost_child_page_id := frame_lm f hole;
     internal_slots := frame_slots1 f hole ++ frame_slots2 f |}.

Lemma left_neighbour f t lsn : exists o, (sibling_ids (parent_of f (tid t) lsn) (frame_idx f)).1 = neighbour_id o /\
  Neighbour true f t o /\ (o = None -> exists id kids, f = FLeftmost id kids).
Proof.
  destruct f as [id kids|id c kids1 key kids2].
  - exists None. split; [done|]. split; [done|]. eauto.
  - destruct kids1 as [|[k0 s] kids1 _] using rev_ind.
    + exists (Some (FLeftmost id kids2, key, c)). split; [done|]. split; [by split|done].
    + exists (Some (FKid id c kids1 k0 kids2, key, s)). split; [|split; [|done]].
      * unfold sibling_ids, parent_of. cbn [internal_slots leftmost_child_page_id frame_idx frame_slots1 frame_slots2].
        rewrite !length_app, fmap_app. simpl.
        rewrite (proj2 (Z.eqb_neq _ 0)) by lia.
        rewrite (proj2 (Z.ltb_lt 0 _)) by lia.
        rewrite (proj2 (Z.ltb_lt _ _)) by (rewrite !len_app; unfold len; rewrite !length_fmap; simpl; lia). simpl.
        replace (Z.to_nat _) with (length (kid_slot <$> kids1)) by (rewrite length_fmap; lia).
        rewrite <-!app_assoc. simpl. by rewrite list_lookup_middle.
      * split; simpl; [by rewrite <-app_assoc|done| |rewrite length_app; simpl; lia].
        rewrite kids_nodes_app. simpl. rewrite app_nil_r. solve_Permutation.
Qed.

Lemma right_neighbour f t lsn : exists o, (sibling_ids (parent_of f (tid t) lsn) (frame_idx f)).2 = neighbour_id o /\
  Neighbour false f t o /\ (o = None -> frame_slots2 f = []).
Proof.
  destruct f as [id kids|id c kids1 key kids2].
  - destruct kids as [|[k b] kids].
    + exists None. done.
    + exists (Some (FLeftmost id kids, k, b)). split; [|split; [|done]].
      * unfold sibling_ids, parent_of. simpl. rewrite (proj2 (Z.leb_le 1 _)); [done|]. unfold len. simpl. lia.
      * split; simpl; [done|done|done|lia].
  - destruct kids2 as [|[k b] kids2].
    + exists None. split; [|done]. unfold sibling_ids, parent_of. simpl.
      rewrite (proj2 (Z.eqb_neq _ (-1))) by lia. simpl.
      rewrite (proj2 (Z.ltb_ge _ _)), andb_false_r; [done|].
      rewrite !len_app. unfold len. rewrite length_fmap. simpl. lia.
    + exists (Some (FKid id c kids1 key kids2, k, b)). split; [|split; [|done]].
      * unfold sibling_ids, parent_of. simpl.
        rewrite (proj2 (Z.eqb_neq _ (-1))) by lia. simpl.
        rewrite (proj2 (Z.leb_le 0 _)) by lia.
        rewrite (proj2 (Z.ltb_lt _ _)) by (rewrite !len_app; unfold len; rewrite !length_fmap; simpl; rewrite ?length_fmap; lia). simpl.
        replace (Z.to_nat _) with (length ((kid_slot <$> kids1) ++ [{| islot_key := key; child_page_id := tid t |}]))
          by (rewrite length_app, length_fmap; simpl; lia).
        by rewrite list_lookup_middle.
      * split; simpl; [done|done| |lia].
        change (kids_nodes ((k, b) :: kids2)) with (nodes b ++ kids_nodes kids2). solve_Permutation.
Qed.

(** ** Fetching the siblings *)

Definition sib_held (s : Store) (P : gset Z) (o : option (frame * bytes * tree)) (lo : option loc) : Prop :=
  match o, lo with
  | None, None => True
  | Some (_, _, sib), Some l => holds s (tid sib) l /\ tid sib ∈ P
  | _, _ => False
  end.

Lemma sib_held_keeps P P' s s' o lo : P ⊆ P' -> keeps P s s' -> sib_held s P o lo -> sib_held s' P' o lo.
Proof.
  intros HP Hk. destruct o as [[[f' k] sib]|], lo as [l|]; try done. intros [Hh Hin]. split; [by apply Hk|set_solver].
Qed.

Lemma sibling_page_ok pend loose tr D ns (o : option (frame * bytes * tree)) P n :
  Rep pend loose (tr_store tr) D ns -> pend ⊆ P -> shielded P (n + 1) (tr_store tr) -> 0 <= n ->
  (forall f' k sib, o = Some (f', k, sib) -> (tid sib, root_of sib) ∈ ns) ->
  exists s' lo P', sibling_page (neighbour_id o) tr = (set_store s' tr, Ok lo) /\ Rep pend loose s' D ns /\
    P ⊆ P' /\ shielded P' n s' /\ keeps P (tr_store tr) s' /\ sib_held s' P' o lo.
Proof.
  intros Hr Hp Hs Hn Ho. unfold sibling_page. destruct o as [[[f' k] sib]|]; simpl.
  - specialize (Ho _ _ _ eq_refl). destruct (rep_member _ _ _ _ _ _ Hr Ho) as (((Hpos & _) & _) & _ & _). simpl in Hpos.
    rewrite (proj2 (Z.ltb_ge _ 0)) by lia.
    destruct (rep_get _ _ _ _ _ _ _ P n Hr Ho Hp Hs Hn) as (s' & l & E & Hr' & Hh & Hs' & Hk).
    exists s', (Some l), ({[tid sib]} ∪ P). rewrite (in_store_bind _ _ _ _ _ E).
    split_and!; try done; set_solver.
  - exists (tr_store tr), None, P. rewrite set_store_same. split_and!; try done.
    + eapply shielded_weaken; [reflexivity| |exact Hs]. lia.
    + by intros i k.
Qed.

Section cascade.
Context {L : Limit} (ps kmax lsn : Z) (Hps : good_page_size ps) (Hkb : good_key_bound ps kmax) (Hlsn : fits 8 lsn = true).
Context (Hsmall : small_keys ps kmax).

(** ** Two neighbours on the stack *)

(** The root is the parent or above it. *)
Lemma root_above ctx f x : tid x = frame_id f -> tid (plug ctx x) ∈ frame_id f :: (ctx_nodes ctx (frame_id f)).*1.
Proof. intros Hx. destruct ctx as [|g ctx]; [rewrite <-Hx; left|right]. apply root_in_ctx. Qed.

Lemma pair_not_root pend ctx f a k b left s D : Rep pend ∅ s D (pair_nodes ctx f a k b) ->
  tid (pick left a b) <> tid (plug ctx (fills f a [(k, b)])).
Proof.
  intros Hr E. pose proof (root_above ctx f (fills f a [(k, b)]) (tid_fills _ _ _)) as Hin. rewrite <-E in Hin.
  destruct (pair_nodup _ _ _ _ _ _ _ _ Hr) as (_ & Haf & Hbf).
  pose proof (rep_nodup _ _ _ _ _ Hr) as Hnd. unfold pair_nodes, pair_rest in Hnd. simpl in Hnd.
  rewrite !NoDup_cons, !elem_of_cons, !fmap_app, !elem_of_app in Hnd. rewrite elem_of_cons in Hin.
  destruct left; simpl in Hin; tauto.
Qed.

Lemma adjacent_near left f ctx t f' k sib l n tr D tr1 P n1 lp lsib :
  Bal ps kmax (f :: ctx) t l n tr D -> Adjacent left f t f' k sib ->
  5 * calculate_page_size (root_of t) < 2 * ps ->
  Rep {[tid t]} ∅ (tr_store tr1) D (nodes (plug (f :: ctx) t)) -> holds (tr_store tr1) (tid t) l ->
  holds (tr_store tr1) (tid sib) lsib -> holds (tr_store tr1) (frame_id f) lp ->
  shielded P n1 (tr_store tr1) -> tid t ∈ P -> tid sib ∈ P -> frame_id f ∈ P -> n1 <= n ->
  Near ps kmax ctx f' (pick left sib t) k (pick left t sib) left tr1 D n1 l lsib lp.
Proof.
  intros [Eps _ _ _ Hn Hroot Hwf Hp _ _] [Hfill Hid Hsib Hidx] Hu Hr Hl Hls Hlp Hs HPt HPs HPf Hn1.
  simpl in Hr, Hroot, Hwf, Hp. rewrite Hfill in Hr, Hroot, Hwf. rewrite nodes_pair in Hr. rewrite <-Hid in Hlp, HPf.
  assert (pick left (pick left t sib) (pick left sib t) = t) as Et by (by destruct left).
  assert (pick left (pick left sib t) (pick left t sib) = sib) as Es by (by destruct left).
  rewrite Hsib, (nodes_below sib) in Hp. rewrite Hfill in Hp.
  repeat (rewrite !pages_ok_app in Hp || rewrite !pages_ok_cons in Hp).
  destruct Hp as (Hpt & Hpf & ((Hps' & Hpsib) & Hpfr) & Hpctx).
  pose proof (pair_not_root _ _ _ _ _ _ left _ _ Hr) as Hne. rewrite Es in Hne.
  split; rewrite ?Et, ?Es, ?Hid; try done.
  - by rewrite <-Hid.
  - exists P. split; [done|]. rewrite <-Hid. by destruct left.
  - lia.
  - unfold pair_rest. rewrite Hid. destruct left; simpl pick in *; rewrite !pages_ok_app; tauto.
  - rewrite <-root_of_fill, Hfill, root_of_fills in Hpf. apply placed_root in Hpf as [Hpf _]; [exact Hpf|].
    unfold good_page_size in Hps. lia.
  - by apply placed_other in Hps'.
Qed.

(** Trying one side: it ends the round, or changes nothing and leaves the
    merge with that side possible. *)
Lemma redistribute_side left f ctx t o l n tr D tr1 P n1 lp lo :
  Bal ps kmax (f :: ctx) t l n tr D -> Neighbour left f t o ->
  5 * calculate_page_size (root_of t) < 2 * ps ->
  Rep {[tid t]} ∅ (tr_store tr1) D (nodes (plug (f :: ctx) t)) -> holds (tr_store tr1) (tid t) l ->
  sib_held (tr_store tr1) P o lo -> holds (tr_store tr1) (frame_id f) lp ->
  shielded P n1 (tr_store tr1) -> tid t ∈ P -> frame_id f ∈ P -> 3 <= n1 <= n ->
  (exists tr' out, redistribute_with (tid t) l (frame_id f) lp (frame_idx f) lsn (neighbour_id o, lo) left tr1 = (tr', Ok (Some out)) /\
    Outcome ps kmax ctx (n1 - 3) (plug (f :: ctx) t) tr' out) \/
  (redistribute_with (tid t) l (frame_id f) lp (frame_idx f) lsn (neighbour_id o, lo) left tr1 = (tr1, Ok None) /\
    match o with Some (f', k, sib) => merge_size (pick left sib t) k (pick left t sib) <= ps | None => True end).
Proof.
  intros Hbal Ho Hu Hr Hl Hls Hlp Hs HPt HPf Hn1. destruct o as [[[f' k] sib]|], lo as [lsib|]; try done; [|by right].
  destruct Hls as [Hls HPs]. simpl in Ho. pose proof Ho as [Hfill Hid _ Hidx].
  pose proof (adjacent_near _ _ _ _ _ _ _ _ _ _ _ _ _ _ _ _ Hbal Ho Hu Hr Hl Hls Hlp Hs HPt HPs HPf ltac:(lia)) as Hnear.
  assert (pick left (pick left t sib) (pick left sib t) = t) as Et by (by destruct left).
  assert (pick left (pick left sib t) (pick left t sib) = sib) as Es by (by destruct left).
  destruct (redistribute_with_ok ps kmax lsn Hps Hkb Hlsn ctx f' _ k _ left tr1 D n1 l lsib lp (frame_idx f) Hnear ltac:(lia) Hidx)
    as [(tr' & out & E & Hout)|[E Hm]]; rewrite Et, Es, Hid in E; simpl plug; rewrite Hfill.
  - left. by exists tr', out.
  - right. split; [done|]. unfold merge_fits in Hm. destruct (pick left sib t); [done|by apply Hm].
Qed.

Lemma merge_side left f ctx t o l n tr D tr1 P n1 lp lo :
  Bal ps kmax (f :: ctx) t l n tr D -> Neighbour left f t o ->
  5 * calculate_page_size (root_of t) < 2 * ps ->
  Rep {[tid t]} ∅ (tr_store tr1) D (nodes (plug (f :: ctx) t)) -> holds (tr_store tr1) (tid t) l ->
  sib_held (tr_store tr1) P o lo -> holds (tr_store tr1) (frame_id f) lp ->
  shielded P n1 (tr_store tr1) -> tid t ∈ P -> frame_id f ∈ P -> 5 <= n1 <= n ->
  match o with Some (f', k, sib) => merge_size (pick left sib t) k (pick left t sib) <= ps | None => True end ->
  (exists tr' out, merge_with (tid t) l (frame_id f) lp (frame_idx f) lsn (neighbour_id o, lo) left tr1 = (tr', Ok (Some out)) /\
    Outcome ps kmax ctx (n1 - 4) (plug (f :: ctx) t) tr' out) \/
  (merge_with (tid t) l (frame_id f) lp (frame_idx f) lsn (neighbour_id o, lo) left tr1 = (tr1, Ok None) /\ o = None).
Proof.
  intros Hbal Ho Hu Hr Hl Hls Hlp Hs HPt HPf Hn1 Hm. destruct o as [[[f' k] sib]|], lo as [lsib|]; try done; [left|by right].
  destruct Hls as [Hls HPs]. simpl in Ho. pose proof Ho as [Hfill Hid _ Hidx].
  pose proof (adjacent_near _ _ _ _ _ _ _ _ _ _ _ _ _ _ _ _ Hbal Ho Hu Hr Hl Hls Hlp Hs HPt HPs HPf ltac:(lia)) as Hnear.
  assert (pick left (pick left t sib) (pick left sib t) = t) as Et by (by destruct left).
  assert (pick left (pick left sib t) (pick left t sib) = sib) as Es by (by destruct left).
  destruct (merge_with_ok ps kmax lsn Hps Hkb Hlsn ctx f' _ k _ left tr1 D n1 l lsib lp (frame_idx f) Hnear ltac:(lia) Hidx)
    as [(tr' & out & E & Hout)|[_ Hbig]]; [|lia]. rewrite Et, Es, Hid in E. simpl plug. rewrite Hfill.
  by exists tr', out.
Qed.

Lemma done_weaken t n n' tr D : n' <= n -> Done ps kmax t n tr D -> Done ps kmax t n' tr D.
Proof. intros Hn []. split; try done; [|lia]. destruct dn_slack; [by left|right; lia]. Qed.

Lemma outcome_weaken ctx n n' rs tr out : n' <= n -> Outcome ps kmax ctx n rs tr out -> Outcome ps kmax ctx n' rs tr out.
Proof.
  intros Hn. destruct out as [[id l]|]; simpl.
  - intros (t & D & Hid & [] & Hrs). exists t, D. split; [done|]. split; [|done]. split; try done; [|lia].
    eapply shielded_weaken; [reflexivity|exact Hn|done].
  - intros (t & D & Hd & Hrs). exists t, D. split; [|done]. by eapply done_weaken.
Qed.

(** ** The underfull page *)

Lemma frame_page_nonempty r f hole : placed ps r (frame_id f, frame_page f hole) ->
  frame_slots1 f hole ++ frame_slots2 f <> [].
Proof.
  intros H. apply placed_root in H as [_ H]; [|unfold good_page_size in Hps; lia]. rewrite frame_page_slots in H. exact H.
Qed.

Lemma redistribute_or_merge_ok f ctx t l n tr D : Bal ps kmax (f :: ctx) t l n tr D ->
  5 * calculate_page_size (root_of t) < 2 * ps -> 8 <= n ->
  exists tr' out, redistribute_or_merge_page (tid t) (Some (path_item f)) l lsn tr = (tr', Ok out) /\
    Outcome ps kmax ctx (n - 8) (plug (f :: ctx) t) tr' out.
Proof.
  intros Hbal Hu Hn8. pose proof Hbal as [Eps Hr Hl Hs Hn Hroot Hwf Hp Hsz _].
  unfold redistribute_or_merge_page. cbn [path_item parent_page_id parent_slot_index].
  assert (nodes (plug (f :: ctx) t) ≡ₚ (tid t, root_of t) :: below t ++ (frame_id f, frame_page f (tid t)) ::
    frame_siblings f ++ ctx_nodes ctx (frame_id f)) as Hnodes by apply nodes_around.
  assert ((frame_id f, internal_of (frame_lm f (tid t)) (frame_slots1 f (tid t) ++ frame_slots2 f)) ∈ nodes (plug (f :: ctx) t)) as Hin.
  { rewrite Hnodes, <-frame_page_slots, elem_of_cons, elem_of_app. right. right. left. }
  destruct (rep_get _ _ _ _ _ (frame_id f) _ {[tid t]} (n - 1) Hr Hin) as (s1 & lp & E1 & Hr1 & Hh1 & Hs1 & Hk1);
    [done|by replace (n - 1 + 1) with n by lia|lia|].
  rewrite (in_store_bind _ _ _ _ _ E1).
  match goal with |- context [(deref_internal lp ≫= ?g) ?tr1] =>
    destruct (deref_internal_bind _ _ tr1 D _ (frame_id f) _ _ lp g Hr1 Hin Hh1) as (lsn0 & Hl0 & ->) end.
  change {| internal_lsn := lsn0 |} with (parent_of f (tid t) lsn0).
  destruct (left_neighbour f t lsn0) as (ol & El & Hol & Hnol).
  destruct (right_neighbour f t lsn0) as (or & Er & Hor & Hnor).
  unfold determine_same_parent_siblings. destruct (sibling_ids _ _) as [il ir]. simpl in El, Er. subst il ir.
  set (tr1 := set_store s1 tr). set (P1 := {[frame_id f]} ∪ {[tid t]}) in *.
  assert (forall left o f' k sib, Neighbour left f t o -> o = Some (f', k, sib) -> (tid sib, root_of sib) ∈ nodes (plug (f :: ctx) t)) as Hsib.
  { intros left o f' k sib Ho ->. destruct Ho as [_ _ Hsib _]. rewrite Hnodes, Hsib, (nodes_below sib).
    rewrite elem_of_cons, elem_of_app. right. right. right. left. }
  destruct (sibling_page_ok _ _ tr1 D _ ol P1 (n - 2) Hr1) as (s2 & ll & P2 & E2 & Hr2 & HP2 & Hs2 & Hk2 & Hsl);
    [set_solver|by replace (n - 2 + 1) with (n - 1) by lia|lia|by intros; eapply (Hsib true)|].
  destruct (sibling_page_ok _ _ (set_store s2 tr1) D _ or P2 (n - 3) Hr2) as (s3 & lr & P3 & E3 & Hr3 & HP3 & Hs3 & Hk3 & Hsr);
    [set_solver|by replace (n - 3 + 1) with (n - 2) by lia|lia|by intros; eapply (Hsib false)|].
  set (tr3 := set_store s3 (set_store s2 tr1)).
  match goal with |- context [(?m ≫= _) tr1] =>
    assert (m tr1 = (tr3, Ok ((neighbour_id ol, ll), (neighbour_id or, lr)))) as Esib end.
  { rewrite (bind_Ok _ _ _ _ _ E2), (bind_Ok _ _ _ _ _ E3). done. }
  rewrite (bind_Ok _ _ _ _ _ Esib). cbv beta iota.
  assert (tid t ∈ P1 /\ frame_id f ∈ P1) as [Ht1 Hf1] by set_solver.
  assert (holds (tr_store tr3) (tid t) l) as Hl3 by (apply Hk3; [set_solver|]; apply Hk2; [done|]; apply Hk1; [set_solver|done]).
  assert (holds (tr_store tr3) (frame_id f) lp) as Hp3 by (apply Hk3; [set_solver|]; apply Hk2; [done|]; done).
  apply (sib_held_keeps P2 P3 _ (tr_store tr3)) in Hsl; [|done|done].
  assert (tid t ∈ P3 /\ frame_id f ∈ P3) as [Ht3 Hf3] by set_solver.
  destruct (redistribute_side true f ctx t ol l n tr D tr3 P3 (n - 3) lp ll) as [(tr' & out & E & Hout)|[E Hml]]; try done; [lia|..].
  { rewrite (bind_Ok _ _ _ _ _ E). exists tr', out. split; [done|]. eapply outcome_weaken; [|exact Hout]. lia. }
  rewrite (bind_Ok _ _ _ _ _ E). clear E.
  destruct (redistribute_side false f ctx t or l n tr D tr3 P3 (n - 3) lp lr) as [(tr' & out & E & Hout)|[E Hmr]]; try done; [lia|..].
  { rewrite (bind_Ok _ _ _ _ _ E). exists tr', out. split; [done|]. eapply outcome_weaken; [|exact Hout]. lia. }
  rewrite (bind_Ok _ _ _ _ _ E). clear E.
  destruct (merge_side true f ctx t ol l n tr D tr3 P3 (n - 3) lp ll) as [(tr' & out & E & Hout)|[E ->]]; try done; [lia|..].
  { rewrite (bind_Ok _ _ _ _ _ E). exists tr', out. split; [done|]. eapply outcome_weaken; [|exact Hout]. lia. }
  rewrite (bind_Ok _ _ _ _ _ E). clear E.
  destruct (merge_side false f ctx t or l n tr D tr3 P3 (n - 3) lp lr) as [(tr' & out & E & Hout)|[E ->]]; try done; [lia|..].
  { rewrite (bind_Ok _ _ _ _ _ E). exists tr', out. split; [done|]. eapply outcome_weaken; [|exact Hout]. lia. }
  (* no sibling at all: the parent would be empty *)
  exfalso. destruct (Hnol eq_refl) as (id & kids & ->). specialize (Hnor eq_refl).
  rewrite pages_ok_app in Hp. destruct Hp as [_ Hp]. simpl in Hp. apply pages_ok_cons in Hp as [Hp _].
  by apply (frame_page_nonempty _ (FLeftmost id kids) (tid t) Hp).
Qed.

(** ** A round *)

Lemma balance_step_ok ctx t l n tr D : Bal ps kmax ctx t l n tr D -> 8 <= n ->
  exists tr' out, balance_step (tid t) l (path_item <$> head ctx) lsn tr = (tr', Ok out) /\
    match ctx, out with
    | [], Some (id, l') => exists t' D', id = tid t' /\ Bal ps kmax [] t' l' (n - 8) tr' D' /\
        calculate_page_size (root_of t') <= ps /\ Kept 1 t t' /\
        ps < calculate_page_size (root_of t)
    | _, _ => Outcome ps kmax (tail ctx) (n - 8) (plug ctx t) tr' out
    end.
Proof.
  intros Hbal Hn8. pose proof Hbal as [Eps Hr Hl Hs Hn Hroot Hwf Hp Hsz _]. unfold balance_step.
  assert ((tid t, root_of t) ∈ nodes (plug ctx t)) as Hin by apply nodes_plug_sub, nodes_root.
  match goal with |- context [(in_store (deref l) ≫= ?g) tr] =>
    destruct (deref_bind _ _ tr D _ Hr (tid t) (root_of t) l g Hin Hl) as (p & Hpe & _ & _ & ->) end.
  assert (calculate_page_size p = calculate_page_size (root_of t)) as Esz by (rewrite <-Hpe; unfold erase; by rewrite page_size_lsn).
  rewrite (over_bind _ _ tr _ _ Hr), Eps. unfold page_overpopulated. rewrite Esz.
  destruct (Z.ltb_spec ps (calculate_page_size (root_of t))) as [Hover|Hfits].
  - destruct ctx as [|f ctx].
    + destruct (split_root_ok ps kmax lsn Hps Hkb Hlsn Hsmall t l n tr D Hbal Hover Hn8) as (tr' & D' & t' & l' & E & Hbal' & Hsz' & Hrec).
      rewrite (bind_Ok _ _ _ _ _ E). exists tr', (Some (tid t', l')). split; [done|]. by exists t', D'.
    + destruct (split_child_ok ps kmax lsn Hps Hkb Hlsn Hsmall f ctx t l n tr D Hbal Hover Hn8) as (tr' & D' & t' & l' & E & Hbal' & Hrec).
      cbn [head fmap option_fmap option_map path_item parent_page_id].
      rewrite (bind_Ok _ _ _ _ _ E). exists tr', (Some (tid t', l')). split; [done|]. by exists t', D'.
  - rewrite (under_bind _ _ tr _ _ Hr), (root_bind _ _ tr _ _ Hr), Eps, Hroot.
    destruct (page_underpopulated ps p && negb (tid t =? tid (plug ctx t))) eqn:Eu.
    + apply andb_true_iff in Eu as [Hu Hne%negb_true_iff%Z.eqb_neq]. apply underpopulated_true in Hu; [|done]. rewrite Esz in Hu.
      destruct ctx as [|f ctx]; [done|].
      destruct (redistribute_or_merge_ok f ctx t l n tr D Hbal Hu Hn8) as (tr' & out & E & Hout).
      exists tr', out. split; [exact E|]. exact Hout.
    + destruct (rep_mark _ _ _ _ _ (tid t) l lsn Hr Hl) as (s' & E & Hr' & _ & _ & Hs');
        [apply list_elem_of_fmap; exists (tid t, root_of t); done|done|].
      rewrite (in_store_bind _ _ _ _ _ E). rewrite difference_diag_L in Hr'.
      exists (set_store s' tr), None. split; [done|].
      enough (Outcome ps kmax (tail ctx) (n - 8) (plug ctx t) (set_store s' tr) None) by (by destruct ctx).
      exists (plug ctx t), D. split; [|done].
      apply (done_weaken _ (n - 1)); [lia|].
      assert (Bal ps kmax ctx t l (n - 1) tr D) as Hbal'.
      { destruct Hbal. split; try done; [|lia]. eapply shielded_weaken; [reflexivity| |exact Hs]. lia. }
      apply (bal_done ps kmax ctx t l (n - 1) tr); [done|done| |].
      * apply (shielded_slack {[tid t]}), Hs'. by replace (n - 1 + 1) with n by lia.
      * pose proof (rep_nodup _ _ _ _ _ Hr') as Hnd. destruct (root_not_focus _ _ Hnd) as [->|Hne].
        { right. split; [done|]. split; [done|]. destruct Hbal' as [_ _ _ _ _ _ _ _ _ Hk]. specialize (Hk eq_refl).
          simpl. destruct t as [|id c [|]]; done. }
        left. split; [done|].
        rewrite (proj2 (Z.eqb_neq _ _)), andb_true_r in Eu by (intros E'; by apply Hne).
        apply underpopulated_false in Eu; [|done]. by rewrite Esz in Eu.
Qed.

(** ** The loop *)

Lemma balance_loop_ok ctx t l n tr D : Bal ps kmax ctx t l n tr D -> 8 * (Z.of_nat (length ctx) + 2) <= n ->
  exists tr' T D', balance_loop (length ctx + 2) (tid t) l (path_item <$> ctx) lsn tr = (tr', Ok tt) /\
    Done ps kmax T (n - 8 * (Z.of_nat (length ctx) + 2)) tr' D' /\ Kept 1 (plug ctx t) T.
Proof.
  revert t l n tr D. induction ctx as [|f ctx IH]; intros t l n tr D Hbal Hn.
  - destruct (balance_step_ok [] t l n tr D Hbal ltac:(lia)) as (tr1 & out & E & Hout).
    simpl length. cbn [balance_loop Nat.add fmap list_fmap head tail]. rewrite (bind_Ok _ _ _ _ _ E).
    destruct out as [[id l']|].
    + destruct Hout as (t' & D' & -> & Hbal' & Hsz & Hrec & _).
      destruct (balance_step_ok [] t' l' (n - 8) tr1 D' Hbal' ltac:(lia)) as (tr2 & out & E2 & Hout).
      rewrite (bind_Ok _ _ _ _ _ E2). destruct out as [[id l2]|].
      * destruct Hout as (_ & _ & _ & _ & _ & _ & Hover). lia.
      * destruct Hout as (T & D2 & Hd & Hrec2). exists tr2, T, D2. split; [done|].
        split; [|exact (kept_trans 1 0 _ _ _ Hrec Hrec2)]. simpl length. by replace (n - _) with (n - 8 - 8) by lia.
    + destruct Hout as (T & D2 & Hd & Hrec2). exists tr1, T, D2. split; [done|]. split; [|by apply kept_more].
      eapply done_weaken; [|exact Hd]. simpl. lia.
  - destruct (balance_step_ok (f :: ctx) t l n tr D Hbal ltac:(simpl in Hn; lia)) as (tr1 & out & E & Hout).
    simpl length. cbn [balance_loop Nat.add fmap list_fmap head tail]. rewrite (bind_Ok _ _ _ _ _ E). simpl tail in Hout.
    destruct out as [[id l']|].
    + destruct Hout as (t' & D' & -> & Hbal' & Hrec).
      destruct (IH t' l' (n - 8) tr1 D' Hbal') as (tr2 & T & D2 & E2 & Hd & Hrec2); [simpl in Hn; lia|].
      exists tr2, T, D2. split; [exact E2|]. split; [|exact (kept_trans 0 1 _ _ _ Hrec Hrec2)].
      simpl length. by replace (n - _) with (n - 8 - 8 * (Z.of_nat (length ctx) + 2)) by lia.
    + destruct Hout as (T & D2 & Hd & Hrec2). exists tr1, T, D2. split; [done|]. split; [|by apply kept_more].
      eapply done_weaken; [|exact Hd]. simpl. lia.
Qed.
End cascade.
