(* ===== verification/TreeOps.v ===== *)
(** * The operations of the tree on a healthy tree

    Search, insertion and deletion on the tree of a store: each returns, keeps
    the tree healthy, and does to its records what the map operation does. *)

From S2P Require Import Prelude Bytes Bisect Entities Codec Fs Pager Cache Tree.
From S2P Require Import CodecFacts PagerFacts CacheFacts CacheOps.
From S2P Require Import TreeSizes TreeShape TreeSteps TreeSearch TreeStore TreeFind TreeSplit TreeBalance TreeRedistribute.
From S2P Require Import TreeBorrow TreeMerge TreeCascade.

(** The pages an operation on a tree of height [h] fetches, makes dirty and
    allocates, at most. *)
Definition step_cost (h : nat) : Z := 8 * (Z.of_nat h + 2) + 1.

(** The page sizes and key lengths the rebalancing can cope with. *)
Record GoodBounds (ps kmax : Z) : Prop := {
  gb_ps : good_page_size ps;
  gb_key : good_key_bound ps kmax;
  gb_small : small_keys ps kmax;
  gb_nonneg : 0 <= kmax;
}.

Lemma record_limit ps key value : calculate_leaf_record_size key value <= get_max_leaf_record_size ps ->
  calculate_leaf_slot_size (mkslot key value) true <= max_leaf_slot ps.
Proof.
  unfold calculate_leaf_record_size, get_max_leaf_record_size, max_leaf_slot. rewrite leaf_slot_size.
  change (sizeof LENGTH_FIELD) with 4. change (sizeof SLOT_ENTRY) with 8. change (sizeof PAGE_HEADER) with 32. simpl. lia.
Qed.

Section ops.
Context {L : Limit} (ps kmax : Z) (Hb : GoodBounds ps kmax).

(** The pages above a leaf, and the leaf itself. *)
Lemma leaf_context ctx id link slots : TreeOk ps kmax (plug ctx (Leaf id link slots)) ->
  pages_ok ps (tid (plug ctx (Leaf id link slots))) (ctx_nodes ctx id) /\ 32 + leaf_body slots <= ps.
Proof.
  intros [_ Hp]. rewrite nodes_around in Hp. unfold around in Hp. apply pages_ok_cons in Hp as [Hl Hp].
  apply pages_ok_app in Hp as [_ Hp]. split; [exact Hp|]. destruct Hb as [Hps _ _]. unfold good_page_size in Hps.
  apply placed_root in Hl as [Hl _]; [|lia]. rewrite <-(leaf_of_size link slots). exact Hl.
Qed.

(** ** Finding the leaf *)

Lemma done_find T n tr D key : Done ps kmax T n tr D -> 1 <= n ->
  exists s' ctx id link slots l,
    find_leaf key tr = (set_store s' tr, Ok {| leaf_page_id := id; leaf_page := l; leaf_path := path_of ctx |}) /\
    Found kmax key T (set_store s' tr) D (n - 1) ctx id link slots l /\ uniform (length ctx) T.
Proof.
  clear Hb. intros [Eps Hr Hroot [Hwf _] Hs Hn] Hn1. apply find_leaf_ok; try done; [lia|by rewrite Eps|].
  by replace (n - 1 + 1) with n by lia.
Qed.

Lemma found_deref {B} key T tr D n ctx id link slots l (f : LeafPage -> M BPlusTree B) :
  Found kmax key T tr D n ctx id link slots l ->
  exists lsn, lsn_fits (PLeaf {| leaf_lsn := lsn; right_sibling_page_id := link; leaf_slots := slots |}) /\
    (deref_leaf l ≫= f) tr = f {| leaf_lsn := lsn; right_sibling_page_id := link; leaf_slots := slots |} tr.
Proof.
  intros [HT _ Hr Hh _]. assert ((id, leaf_of link slots) ∈ nodes T) as Hin by (subst T; apply nodes_plug_sub; left).
  destruct (rep_deref _ _ _ _ _ _ _ _ Hr Hin Hh) as (p & Ho & Hq & Hf). apply erase_leaf in Hq as (lsn & ->).
  exists lsn. split; [done|]. apply bind_Ok. unfold deref_leaf. pose proof (deref_run _ _ _ Ho) as E.
  by rewrite (in_store_bind _ _ _ _ _ E), set_store_same.
Qed.

(** Nothing but the order of the cache has changed. *)
Lemma found_done T n tr D key s' ctx id link slots l : Done ps kmax T n tr D ->
  Found kmax key T (set_store s' tr) D (n - 1) ctx id link slots l -> Done ps kmax T n (set_store s' tr) D.
Proof.
  clear Hb. intros [Eps _ Hroot Hok _ Hn] [_ _ Hr _ Hs]. split; try done.
  apply (shielded_again {[id]} (n - 1) _ id) in Hs; [|set_solver]. apply shielded_slack in Hs.
  by replace (n - 1 + 1) with n in Hs by lia.
Qed.

Lemma search_ok T n tr D key : Done ps kmax T n tr D -> 1 <= n ->
  exists s', search key tr = (set_store s' tr, Ok (contents (flat T) !! key)) /\ Done ps kmax T n (set_store s' tr) D.
Proof.
  clear Hb. intros Hd Hn. destruct (done_find T n tr D key Hd Hn) as (s' & ctx & id & link & slots & l & E & Hf & _).
  exists s'. split; [|by eapply found_done]. unfold search. rewrite (bind_Ok _ _ _ _ _ E). cbn [leaf_page].
  match goal with |- context [(deref_leaf l ≫= ?g) _] => destruct (found_deref _ _ _ _ _ _ _ _ _ _ g Hf) as (lsn & _ & ->) end.
  cbn [leaf_slots]. pose proof Hf as [HT Hloc _ _ _]. pose proof (ok_wf _ _ _ (dn_ok _ _ _ _ _ _ Hd)) as Hwf.
  rewrite <-HT in Hwf |- *. by rewrite (search_leaf ps kmax ctx id link slots key Hwf Hloc).
Qed.

(** ** Changing the leaf *)

(** A changed leaf is a page for the cascade to start on. *)
Lemma edit_ok T n tr D key s' ctx id link slots l lsn0 slots' lsn : Done ps kmax T n tr D ->
  Found kmax key T (set_store s' tr) D (n - 1) ctx id link slots l -> uniform (length ctx) T ->
  step_cost (length ctx) <= n -> fits 8 lsn = true ->
  lsn_fits (PLeaf {| leaf_lsn := lsn0; right_sibling_page_id := link; leaf_slots := slots |}) ->
  Wf ps kmax (plug ctx (Leaf id link slots')) ->
  leaf_body slots' <= leaf_body slots + max_leaf_slot ps ->
  exists tr' T' D',
    (in_store (assign l (PLeaf {| leaf_lsn := lsn0; right_sibling_page_id := link; leaf_slots := slots' |}));;
     balance_and_write_tree id l (path_of ctx) lsn) (set_store s' tr) = (tr', Ok tt) /\
    Done ps kmax T' (n - step_cost (length ctx)) tr' D' /\ low (S (length ctx)) T' /\
    contents (flat T') = contents (flat (plug ctx (Leaf id link slots'))).
Proof.
  intros [Eps _ Hroot Hok _ Hn] [HT Hloc Hr Hh Hs] Hu Hcost Hlsn Hl0 Hwf' Hsz. destruct Hb as [Hps Hkb Hsmall].
  rewrite <-HT in Hok, Hr, Hroot. destruct (leaf_context ctx id link slots Hok) as [Hpages Hfits].
  rewrite nodes_plug in Hr. cbn [nodes app tid] in Hr.
  set (p := PLeaf {| leaf_lsn := lsn0; right_sibling_page_id := link; leaf_slots := slots' |}).
  destruct (rep_assign _ _ _ _ _ _ _ p l Hr Hh I Hl0) as [Hr' Hh'].
  rewrite (in_store_bind (assign l p) _ (set_store s' tr) (assigned l p s') tt eq_refl).
  set (tr1 := set_store (assigned l p s') (set_store s' tr)).
  assert (Bal ps kmax ctx (Leaf id link slots') l (n - 1) tr1 D) as Hbal.
  { split; try done.
    - rewrite nodes_plug. by rewrite (right_id_L ∅ (∪)) in Hr'.
    - lia.
    - rewrite Hroot. by apply tid_plug.
    - rewrite (tid_plug ctx _ (Leaf id link slots)) by done. exact Hpages.
    - simpl root_of. rewrite leaf_of_size. simpl. lia. }
  unfold balance_and_write_tree, path_of. rewrite reverse_involutive, length_reverse, length_fmap.
  unfold step_cost in *.
  destruct (balance_loop_ok ps kmax lsn Hps Hkb Hlsn Hsmall ctx _ l (n - 1) tr1 D Hbal ltac:(lia))
    as (tr' & T' & D' & E & Hd & Hrec).
  exists tr', T', D'. split; [exact E|]. destruct Hrec as [Hrec Hlow]. split; [|split; [|by apply contents_records]].
  - by replace (n - (8 * (Z.of_nat (length ctx) + 2) + 1)) with (n - 1 - 8 * (Z.of_nat (length ctx) + 2)) by lia.
  - apply (Hlow (length ctx)). exists (length ctx). split; [done|]. rewrite <-HT in Hu.
    apply uniform_plug in Hu as (h' & E' & Hctx & _). apply uniform_plug. exists h'. split; [done|]. split; [done|].
    by assert (h' = 0%nat) as -> by lia.
Qed.

Lemma low_more h h' T : (h <= h')%nat -> low h T -> low h' T.
Proof. intros Hh (h0 & ? & ?). exists h0. split; [lia|done]. Qed.

Lemma low_cost h T n (ctx : context) : low h T -> uniform (length ctx) T -> step_cost h <= n ->
  (S (length ctx) <= S h)%nat /\ step_cost (length ctx) <= n /\ n - step_cost h <= n - step_cost (length ctx).
Proof.
  intros (h' & Hh & Hu) Hc Hcost. pose proof (uniform_unique _ _ _ Hu Hc) as ->. unfold step_cost in *. lia.
Qed.

Lemma too_large_ok T n tr D key value : Done ps kmax T n tr D ->
  raise_if_record_too_large key value tr =
    (tr, if get_max_leaf_record_size ps <? calculate_leaf_record_size key value
         then Raise (DBRecordTooLargeError (get_max_leaf_record_size ps) (calculate_leaf_record_size key value)) else Ok tt).
Proof.
  intros [Eps Hr _ _ _ _]. unfold raise_if_record_too_large. rewrite (page_size_bind _ _ _ _ _ Hr), Eps. by case_match.
Qed.

Lemma insert_ok T n tr D key value lsn h : Done ps kmax T n tr D -> low h T -> step_cost h <= n ->
  len key <= kmax -> calculate_leaf_record_size key value <= get_max_leaf_record_size ps -> fits 8 lsn = true ->
  exists tr' T' D', insert key value lsn tr = (tr', Ok tt) /\ Done ps kmax T' (n - step_cost h) tr' D' /\
    low (S h) T' /\ contents (flat T') = <[key := value]> (contents (flat T)).
Proof.
  intros Hd Hu Hcost Hkey Hrec Hlsn. unfold insert. pose proof (too_large_ok _ _ _ _ key value Hd) as Etl.
  rewrite (proj2 (Z.ltb_ge _ _) Hrec) in Etl. rewrite (bind_Ok _ _ _ _ _ Etl).
  destruct (done_find T n tr D key Hd) as (s' & ctx & id & link & slots & l & E & Hf & Hc); [unfold step_cost in *; lia|].
  rewrite (bind_Ok _ _ _ _ _ E). cbn [leaf_page leaf_page_id leaf_path].
  destruct (low_cost h T n ctx Hu Hc Hcost) as (Hh & Hcost' & Hless).
  match goal with |- context [(deref_leaf l ≫= ?g) _] => destruct (found_deref _ _ _ _ _ _ _ _ _ _ g Hf) as (lsn0 & Hl0 & ->) end.
  cbn [leaf_slots]. pose proof Hf as [HT Hloc _ _ _]. pose proof (ok_wf _ _ _ (dn_ok _ _ _ _ _ _ Hd)) as Hwf.
  rewrite <-HT in Hwf. pose proof (record_limit ps key value Hrec) as Hlim.
  destruct (insert_leaf ps kmax ctx id link slots key Hwf Hloc value) as [Hwf' Hcont]; [by split|].
  destruct (edit_ok T n tr D key s' ctx id link slots l lsn0 (leaf_upsert key value slots) lsn Hd Hf Hc Hcost' Hlsn Hl0 Hwf')
    as (tr' & T' & D' & E2 & Hd' & Hlow' & Hcont').
  { pose proof (leaf_upsert_size key value slots (leaf_slots_sorted ps kmax ctx id link slots Hwf)). lia. }
  exists tr', T', D'. split; [exact E2|]. split; [by eapply done_weaken|]. split; [|by rewrite Hcont', Hcont, HT].
  by eapply low_more.
Qed.

Lemma delete_ok T n tr D key lsn h : Done ps kmax T n tr D -> low h T -> step_cost h <= n -> fits 8 lsn = true ->
  exists tr' T' D', tree_delete key lsn tr = (tr', Ok (bool_decide (is_Some (contents (flat T) !! key)))) /\
    Done ps kmax T' (n - step_cost h) tr' D' /\ low (S h) T' /\ contents (flat T') = delete key (contents (flat T)).
Proof.
  intros Hd Hu Hcost Hlsn. unfold tree_delete.
  destruct (done_find T n tr D key Hd) as (s' & ctx & id & link & slots & l & E & Hf & Hc); [unfold step_cost in *; lia|].
  rewrite (bind_Ok _ _ _ _ _ E). cbn [leaf_page leaf_page_id leaf_path].
  destruct (low_cost h T n ctx Hu Hc Hcost) as (Hh & Hcost' & Hless).
  match goal with |- context [(deref_leaf l ≫= ?g) _] => destruct (found_deref _ _ _ _ _ _ _ _ _ _ g Hf) as (lsn0 & Hl0 & ->) end.
  cbn [leaf_slots]. pose proof Hf as [HT Hloc _ _ _]. pose proof (ok_wf _ _ _ (dn_ok _ _ _ _ _ _ Hd)) as Hwf.
  rewrite <-HT in Hwf. pose proof (search_leaf ps kmax ctx id link slots key Hwf Hloc) as Hlook. rewrite HT in Hlook.
  rewrite <-Hlook. destruct (leaf_lookup slots key) as [sl|] eqn:El.
  - destruct (delete_leaf ps kmax ctx id link slots key Hwf sl El) as (rest & Epop & Hwf' & Hsz & Hcont).
    rewrite Epop. lift_step.
    destruct (edit_ok T n tr D key s' ctx id link slots l lsn0 rest lsn Hd Hf Hc Hcost' Hlsn Hl0 Hwf')
      as (tr' & T' & D' & E2 & Hd' & Hlow' & Hcont').
    { rewrite leaf_slot_size in Hsz. pose proof (len_nonneg (lslot_key sl)). pose proof (len_nonneg (lslot_value sl)).
      destruct Hb as [[]]. unfold max_leaf_slot. pose proof (Z.div_pos (ps - 32) 5). lia. }
    exists tr', T', D'. split; [|split; [by eapply done_weaken|split; [by eapply low_more|by rewrite Hcont', Hcont, HT]]].
    destruct (bind_split _ _ _ _ _ E2) as (tr1 & E3 & E4). unfold set_leaf_slots. cbn [leaf_lsn right_sibling_page_id].
    by rewrite (bind_Ok _ _ _ _ _ E3), (bind_Ok _ _ _ _ _ E4).
  - eexists _, T, D. split; [done|]. split.
    + apply (done_weaken _ _ _ n); [unfold step_cost; lia|]. by eapply found_done.
    + split; [by apply (low_more h); [lia|]|]. symmetry. apply delete_id. rewrite <-Hlook. done.
Qed.
End ops.
