(* ===== verification/TreeFrame.v ===== *)
(** * What no operation of the tree touches

    The tree, the pool (but for its flushes) and the allocator never write a
    page of the data file, sync it, or change the settings of the pool: the
    file only grows at its end. *)

From S2P Require Import Prelude Bytes Bisect Entities Codec Fs Pager Cache Tree.

(** ** Computations that stay within a relation *)

Definition moves {S A} (R : S -> S -> Prop) (m : M S A) : Prop := forall s, R s (m s).1.

Section moves_rules.
Context {S : Type} (R : S -> S -> Prop) `{!PreOrder R}.

Lemma moves_ret {A} (a : A) : moves R (mret a).
Proof. intros s. reflexivity. Qed.

Lemma moves_raise {A} e : moves R (@raise S A e).
Proof. intros s. reflexivity. Qed.

Lemma moves_get : moves R get_state.
Proof. intros s. reflexivity. Qed.

Lemma moves_gets {A} (f : S -> A) : moves R (gets f).
Proof. intros s. reflexivity. Qed.

Lemma moves_lift {A} (r : Result A) : moves R (lift r).
Proof. intros s. reflexivity. Qed.

Lemma moves_assert b : moves R (py_assert b).
Proof. destruct b; intros s; reflexivity. Qed.

Lemma moves_modify (f : S -> S) : (forall s, R s (f s)) -> moves R (modify f).
Proof. intros H s. apply H. Qed.

Lemma moves_bind {A B} (m : M S A) (f : A -> M S B) :
  moves R m -> (forall a, moves R (f a)) -> moves R (m ≫= f).
Proof.
  intros Hm Hf s. unfold mbind, M_bind. specialize (Hm s). destruct (m s) as [s' [a|e]]; [|done].
  etransitivity; [exact Hm|apply Hf].
Qed.

Lemma moves_zoom {T A} (R' : T -> T -> Prop) (get : S -> T) (set : T -> S -> S) (m : M T A) :
  (forall s t, R' (get s) t -> R s (set t s)) -> moves R' m -> moves R (zoom get set m).
Proof. intros H Hm s. unfold zoom. specialize (Hm (get s)). destruct (m (get s)). by apply H. Qed.

Lemma moves_mfor {A} (l : list A) (f : A -> M S unit) : (forall x, moves R (f x)) -> moves R (mfor l f).
Proof. intros H. induction l as [|x l IH]; simpl; [apply moves_ret|]. by apply moves_bind. Qed.
End moves_rules.

Create HintDb moves.

Ltac moves_tac :=
  repeat match goal with
  | |- moves _ (mret _) => exact (moves_ret _ _)
  | |- moves _ (raise _) => exact (moves_raise _ _)
  | |- moves _ get_state => exact (moves_get _)
  | |- moves _ (gets _) => exact (moves_gets _ _)
  | |- moves _ (lift _) => exact (moves_lift _ _)
  | |- moves _ (py_assert _) => exact (moves_assert _ _)
  | |- moves _ (_ ≫= _) => refine (moves_bind _ _ _ _ _); [|intros ?]
  | |- moves _ (match ?x with _ => _ end) => destruct x
  | |- moves _ _ => progress (auto with moves)
  end.

(** ** The pager *)

(** A data file that has grown at its end, without a sync. *)
Definition grows (o o' : option File) : Prop :=
  o' = o \/ exists f z, o = Some f /\ o' = Some {| f_data := f_data f ++ z; f_synced := f_synced f |}.

#[export] Instance grows_preorder : PreOrder grows.
Proof.
  split; [by left|]. intros o1 o2 o3 [->|(f & z & -> & ->)] H; [done|].
  destruct H as [->|(f' & z' & [= <-] & ->)]; [right; by exists f, z|].
  right. exists f, (z ++ z'). simpl. by rewrite app_assoc.
Qed.

(** A meta page whose page count has not gone down. *)
Definition counts_up (o o' : option MetaPage) : Prop :=
  forall m, o = Some m -> exists m', o' = Some m' /\ next_page_id m <= next_page_id m'.

#[export] Instance counts_up_preorder : PreOrder counts_up.
Proof.
  split; [intros o m ->; by exists m|]. intros o1 o2 o3 A B m Hm. destruct (A m Hm) as (m2 & H2 & L2).
  destruct (B m2 H2) as (m3 & H3 & L3). exists m3. split; [done|lia].
Qed.

Record PagerFrame (p p' : Pager) : Prop := {
  pf_open : pg_is_open p' = pg_is_open p;
  pf_size : pg_page_size_bytes p' = pg_page_size_bytes p;
  pf_lsn : last_checkpoint_lsn <$> pg_meta_page p' = last_checkpoint_lsn <$> pg_meta_page p;
  pf_next : counts_up (pg_meta_page p) (pg_meta_page p');
  pf_disk : grows (pg_disk p) (pg_disk p');
}.

#[export] Instance pager_frame_preorder : PreOrder PagerFrame.
Proof.
  split; [by intros p; split|]. intros p1 p2 p3 [A1 A2 A3 A4 A5] [B1 B2 B3 B4 B5].
  split; [congruence..|by etransitivity|by etransitivity].
Qed.

Lemma frame_bump c p : PagerFrame p (bump c p).
Proof. by split. Qed.

Lemma frame_freelists c d p : PagerFrame p (set_freelists c d p).
Proof. by split. Qed.

Lemma moves_bump c : moves PagerFrame (modify (bump c)).
Proof. apply moves_modify, frame_bump. Qed.

Lemma moves_freelists c d : moves PagerFrame (modify (fun p => set_freelists (c p) (d p) p)).
Proof. apply moves_modify. intros p. apply frame_freelists. Qed.
#[export] Hint Resolve moves_bump moves_freelists : moves.

Lemma moves_open_file : moves PagerFrame open_file.
Proof. unfold open_file. moves_tac. Qed.

Lemma moves_meta_page : moves PagerFrame meta_page.
Proof. unfold meta_page. moves_tac. Qed.
#[export] Hint Resolve moves_open_file moves_meta_page : moves.

Lemma moves_page_count : moves PagerFrame page_count.
Proof. unfold page_count. moves_tac. Qed.

Lemma moves_read_page id : moves PagerFrame (read_page id).
Proof. unfold read_page. moves_tac. Qed.

(** The fields of an update that leave the checkpoint LSN alone and do not
    lower the page count. *)
Lemma moves_update_meta fields :
  (forall m, last_checkpoint_lsn (fields m) = last_checkpoint_lsn m /\ next_page_id m <= next_page_id (fields m)) ->
  moves PagerFrame (update_meta fields).
Proof.
  intros H p. unfold update_meta, meta_page. mrun. destruct (pg_meta_page p) as [m|] eqn:E; [|reflexivity].
  destruct (H m) as [Hl Hn]. split; try done; simpl; rewrite E; [simpl; by rewrite Hl|].
  intros m0 [= <-]. by exists (fields m).
Qed.

Lemma moves_extend : moves PagerFrame extend_file_by_one_page.
Proof.
  intros p. unfold extend_file_by_one_page, open_file. mrun.
  destruct (pg_is_open p) eqn:Eo; [|reflexivity]. destruct (pg_disk p) as [f|] eqn:Ed; [|reflexivity].
  destruct (py_zeros _ (pg_page_size_bytes p)) as [z|]; [|reflexivity].
  split; try done. simpl. rewrite Ed. right. by exists f, z.
Qed.
#[export] Hint Resolve moves_page_count moves_read_page moves_extend : moves.

Lemma moves_bump_allocate : moves PagerFrame bump_allocate_one_page.
Proof.
  intros p. unfold bump_allocate_one_page, meta_page. unfold mbind, M_bind, get_state.
  destruct (pg_meta_page p) as [m|] eqn:E; [|reflexivity]. simpl.
  pose proof (moves_extend p) as H. destruct (extend_file_by_one_page p) as [p1 [[]|e]] eqn:Ex; [|exact H].
  assert (pg_meta_page p1 = Some m) as E1.
  { revert Ex. unfold extend_file_by_one_page, open_file. mrun. destruct (pg_is_open p); [|done].
    destruct (pg_disk p) as [f|]; [|done]. destruct (py_zeros _ _); [|done]. by intros [= <-]. }
  etransitivity; [exact H|]. unfold update_meta, meta_page. mrun. rewrite E1.
  split; try done; simpl; rewrite E1; [done|]. intros m0 [= <-]. eexists. split; [done|]. simpl. lia.
Qed.

Lemma moves_get_freelist_page id : moves PagerFrame (get_freelist_page id).
Proof. unfold get_freelist_page. moves_tac. Qed.

Lemma moves_mark_freelist id fp : moves PagerFrame (mark_freelist_page_dirty id fp).
Proof. apply moves_freelists. Qed.

Lemma moves_forget id : moves PagerFrame (forget_freelist_page id).
Proof. apply moves_freelists. Qed.
#[export] Hint Resolve moves_bump_allocate moves_get_freelist_page moves_mark_freelist moves_forget : moves.

Lemma moves_read_head : moves PagerFrame read_freelist_head_page.
Proof. unfold read_freelist_head_page. moves_tac. Qed.

Lemma moves_push_head id : moves PagerFrame (push_freelist_head id).
Proof. unfold push_freelist_head. moves_tac. apply moves_update_meta; intros; simpl; lia. Qed.
#[export] Hint Resolve moves_read_head moves_push_head : moves.

Lemma moves_allocate : moves PagerFrame allocate_page.
Proof. unfold allocate_page. moves_tac. apply moves_update_meta; intros; simpl; lia. Qed.

Lemma moves_free id : moves PagerFrame (free_page id).
Proof. unfold free_page. moves_tac. Qed.
#[export] Hint Resolve moves_allocate moves_free : moves.

(** ** The store *)

Record StoreFrame (s s' : Store) : Prop := {
  sf_pager : PagerFrame (st_pager s) (st_pager s');
  sf_capacity : bp_capacity_pages (st_pool s') = bp_capacity_pages (st_pool s);
  sf_eviction : bp_eviction_enabled (st_pool s') = bp_eviction_enabled (st_pool s);
}.

#[export] Instance store_frame_preorder : PreOrder StoreFrame.
Proof.
  split; [by intros s; split|]. intros s1 s2 s3 [A1 A2 A3] [B1 B2 B3]. split; [by etransitivity|congruence..].
Qed.

Lemma moves_on_pager {A} (m : M Pager A) : moves PagerFrame m -> moves StoreFrame (on_pager m).
Proof. apply moves_zoom. intros s p Hp. by split. Qed.

Lemma moves_store_modify (f : Store -> Store) :
  (forall s, st_pager (f s) = st_pager s /\ bp_capacity_pages (st_pool (f s)) = bp_capacity_pages (st_pool s) /\
             bp_eviction_enabled (st_pool (f s)) = bp_eviction_enabled (st_pool s)) ->
  moves StoreFrame (modify f).
Proof. intros H. apply moves_modify. intros s. destruct (H s) as (Hp & Hc & He). split; [by rewrite Hp|done..]. Qed.

Lemma moves_set_cache f : moves StoreFrame (modify (fun s => set_cache (f s) s)).
Proof. by apply moves_store_modify. Qed.

Lemma moves_set_cache_to c : moves StoreFrame (modify (set_cache c)).
Proof. exact (moves_set_cache (fun _ => c)). Qed.

Lemma moves_set_heap_to h : moves StoreFrame (modify (set_heap h)).
Proof. by apply moves_store_modify. Qed.

Lemma moves_count_stat f : moves StoreFrame (count_stat f).
Proof. by apply moves_store_modify. Qed.

Lemma moves_assign l p : moves StoreFrame (assign l p).
Proof. by apply moves_store_modify. Qed.
#[export] Hint Resolve moves_on_pager moves_set_cache moves_set_cache_to moves_set_heap_to moves_count_stat moves_assign : moves.

Lemma moves_deref l : moves StoreFrame (deref l).
Proof. unfold deref. moves_tac. Qed.

Lemma moves_new_object p : moves StoreFrame (new_object p).
Proof. unfold new_object. moves_tac. Qed.

Lemma moves_evict : moves StoreFrame evict_oldest_clean_page_if_full.
Proof. unfold evict_oldest_clean_page_if_full. moves_tac. Qed.
#[export] Hint Resolve moves_deref moves_new_object moves_evict : moves.

Lemma moves_pool_get id : moves StoreFrame (pool_get id).
Proof. unfold pool_get. moves_tac. Qed.

Lemma moves_pool_insert id l lsn : moves StoreFrame (pool_insert id l lsn).
Proof. unfold pool_insert. moves_tac. Qed.

Lemma moves_mark_dirty id lsn : moves StoreFrame (mark_dirty id lsn).
Proof. unfold mark_dirty. moves_tac. Qed.

Lemma moves_pool_delete id : moves StoreFrame (pool_delete id).
Proof. unfold pool_delete. moves_tac. Qed.
#[export] Hint Resolve moves_pool_get moves_pool_insert moves_mark_dirty moves_pool_delete : moves.

(** ** The tree *)

Definition StillFrame (t t' : BPlusTree) : Prop := StoreFrame (tr_store t) (tr_store t').

#[export] Instance still_frame_preorder : PreOrder StillFrame.
Proof. split; [by intros t|]. intros t1 t2 t3 A B. unfold StillFrame. by etransitivity. Qed.

Lemma moves_in_store {A} (m : M Store A) : moves StoreFrame m -> moves StillFrame (in_store m).
Proof. apply moves_zoom. by intros t s Hs. Qed.

Lemma moves_in_pager {A} (m : M Pager A) : moves PagerFrame m -> moves StillFrame (in_pager m).
Proof. intros H. by apply moves_in_store, moves_on_pager. Qed.

Lemma moves_count_tree c : moves StillFrame (count_tree c).
Proof. apply moves_modify. by intros t. Qed.

Lemma moves_update_root r : moves PagerFrame (update_meta (with_root r)).
Proof. apply moves_update_meta; intros; simpl; lia. Qed.
#[export] Hint Resolve moves_in_store moves_in_pager moves_count_tree moves_update_root : moves.

Lemma moves_get_meta : moves PagerFrame get_meta.
Proof. unfold get_meta. moves_tac. Qed.
#[export] Hint Resolve moves_get_meta : moves.

Lemma moves_page_size : moves StillFrame tree_page_size_bytes.
Proof. unfold tree_page_size_bytes. moves_tac. Qed.

Lemma moves_root : moves StillFrame tree_root_page_id.
Proof. unfold tree_root_page_id. moves_tac. Qed.

Lemma moves_deref_leaf l : moves StillFrame (deref_leaf l).
Proof. unfold deref_leaf. moves_tac. Qed.

Lemma moves_deref_internal l : moves StillFrame (deref_internal l).
Proof. unfold deref_internal. moves_tac. Qed.
#[export] Hint Resolve moves_page_size moves_root moves_deref_leaf moves_deref_internal : moves.

Lemma moves_over p : moves StillFrame (is_page_overpopulated p).
Proof. unfold is_page_overpopulated. moves_tac. Qed.

Lemma moves_under p : moves StillFrame (is_page_underpopulated p).
Proof. unfold is_page_underpopulated. moves_tac. Qed.

Lemma moves_too_large key value : moves StillFrame (raise_if_record_too_large key value).
Proof. unfold raise_if_record_too_large. moves_tac. Qed.

Lemma moves_descend fuel key : forall id page path, moves StillFrame (descend fuel key id page path).
Proof. induction fuel as [|fuel IH]; intros; simpl; moves_tac; apply IH. Qed.
#[export] Hint Resolve moves_over moves_under moves_too_large moves_descend : moves.

Lemma moves_find_leaf key : moves StillFrame (find_leaf key).
Proof. unfold find_leaf. moves_tac. Qed.

Lemma moves_split_objects page lsn : moves StillFrame (split_page_objects page lsn).
Proof. unfold split_page_objects. moves_tac. Qed.
#[export] Hint Resolve moves_find_leaf moves_split_objects : moves.

Lemma moves_split_page id parent page lsn : moves StillFrame (split_page id parent page lsn).
Proof. unfold split_page. moves_tac. Qed.

Lemma moves_try_redistribute d r p idx left : moves StillFrame (try_redistribute_slots d r p idx left).
Proof. unfold try_redistribute_slots. moves_tac. Qed.

Lemma moves_sibling_page id : moves StillFrame (sibling_page id).
Proof. unfold sibling_page. moves_tac. Qed.
#[export] Hint Resolve moves_split_page moves_try_redistribute moves_sibling_page : moves.

Lemma moves_siblings p idx : moves StillFrame (determine_same_parent_siblings p idx).
Proof. unfold determine_same_parent_siblings. moves_tac. Qed.

Lemma moves_redistribute_with id page pid parent idx lsn sib left :
  moves StillFrame (redistribute_with id page pid parent idx lsn sib left).
Proof. unfold redistribute_with. moves_tac. Qed.

Lemma moves_merge_with id page pid parent idx lsn sib left :
  moves StillFrame (merge_with id page pid parent idx lsn sib left).
Proof. unfold merge_with. moves_tac. Qed.
#[export] Hint Resolve moves_siblings moves_redistribute_with moves_merge_with : moves.

Lemma moves_redistribute_or_merge id parent page lsn : moves StillFrame (redistribute_or_merge_page id parent page lsn).
Proof. unfold redistribute_or_merge_page. moves_tac. Qed.
#[export] Hint Resolve moves_redistribute_or_merge : moves.

Lemma moves_balance_step id page item lsn : moves StillFrame (balance_step id page item lsn).
Proof. unfold balance_step. moves_tac. Qed.
#[export] Hint Resolve moves_balance_step : moves.

Lemma moves_balance_loop fuel lsn : forall id page path, moves StillFrame (balance_loop fuel id page path lsn).
Proof. induction fuel as [|fuel IH]; intros; simpl; moves_tac; apply IH. Qed.
#[export] Hint Resolve moves_balance_loop : moves.

Lemma moves_search key : moves StillFrame (search key).
Proof. unfold search. moves_tac. Qed.

Lemma moves_insert key value lsn : moves StillFrame (insert key value lsn).
Proof. unfold insert, balance_and_write_tree. moves_tac. Qed.

Lemma moves_tree_delete key lsn : moves StillFrame (tree_delete key lsn).
Proof. unfold tree_delete, balance_and_write_tree. moves_tac. Qed.

Lemma moves_scan_from fuel check e : forall page idx, moves StillFrame (scan_from fuel check e page idx).
Proof. induction fuel as [|fuel IH]; intros; simpl; moves_tac; apply IH. Qed.
#[export] Hint Resolve moves_scan_from : moves.

Lemma moves_scan_next check g : moves StillFrame (scan_next check g).
Proof. unfold scan_next. moves_tac. Qed.
#[export] Hint Resolve moves_search moves_insert moves_tree_delete moves_scan_next : moves.
