(* ===== verification/TreeHeight.v ===== *)
(** * The height of a healthy tree

    Every page but the root is two fifths full.  With keys of at most [kmax]
    bytes an internal page therefore has [fanout ps kmax] children, and with
    the record limit a leaf has two records, so that a tree of height [h + 1]
    holds [4 * fanout ps kmax ^ h] records. *)

From S2P Require Import Prelude Bytes Bisect Entities Codec Fs Pager Cache Tree.
From S2P Require Import TreeSizes TreeShape TreeSteps TreeSearch TreeStore TreeFind TreeSplit TreeBalance TreeRedistribute TreeBorrow.

(** The children of a page that is two fifths full, at least. *)
Definition fanout (ps kmax : Z) : Z := 1 + (2 * ps - 160 + (5 * (20 + kmax) - 1)) / (5 * (20 + kmax)).

Lemma fanout_two ps kmax : 80 < ps -> 0 <= kmax -> 2 <= fanout ps kmax.
Proof.
  intros Hps Hk. unfold fanout.
  pose proof (Z.div_le_lower_bound (2 * ps - 160 + (5 * (20 + kmax) - 1)) (5 * (20 + kmax)) 1 ltac:(lia)). lia.
Qed.

Lemma internal_body_le kmax l : Forall (fun s => len (islot_key s) <= kmax) l -> internal_body l <= (20 + kmax) * len l.
Proof.
  induction 1 as [|s l Hs _ IH]; [change (0 <= (20 + kmax) * 0); lia|]. rewrite internal_body_cons, len_cons. lia.
Qed.

Lemma leaf_body_le b l : Forall (fun s => calculate_leaf_slot_size s true <= b) l -> leaf_body l <= b * len l.
Proof.
  induction 1 as [|s l Hs _ IH]; [change (0 <= b * 0); lia|].
  rewrite leaf_body_cons, len_cons. rewrite leaf_slot_size in Hs. lia.
Qed.

Lemma fanout_kids ps kmax q : 80 < ps -> 0 <= kmax -> page_ok ps (PInternal q) ->
  Forall (fun s => len (islot_key s) <= kmax) (internal_slots q) -> fanout ps kmax <= 1 + len (internal_slots q).
Proof.
  intros Hps Hk0 [_ Hh] Hk. rewrite internal_page_size in Hh. pose proof (internal_body_le _ _ Hk) as Hb.
  unfold fanout. set (n := len _) in *. apply Zplus_le_compat_l, Zlt_succ_le, Z.div_lt_upper_bound; lia.
Qed.

Lemma two_records ps q : 128 <= ps -> page_ok ps (PLeaf q) ->
  Forall (fun s => calculate_leaf_slot_size s true <= max_leaf_slot ps) (leaf_slots q) -> 2 <= len (leaf_slots q).
Proof.
  intros Hps [_ Hh] Hk. rewrite leaf_page_size in Hh. pose proof (leaf_body_le _ _ Hk) as Hb. unfold max_leaf_slot in *.
  pose proof (Z.div_mod (ps - 32) 5). pose proof (Z.mod_pos_bound (ps - 32) 5). pose proof (len_nonneg (leaf_slots q)).
  set (m := (ps - 32) / 5) in *. set (n := len (leaf_slots q)) in *.
  destruct (Z.eq_dec n 0) as [->|]; [lia|]. destruct (Z.eq_dec n 1) as [->|]; lia.
Qed.

(** ** Counting the records of a subtree *)

Definition count (t : tree) : Z := len (records (flat t)).

Lemma kids_count k kids : Forall (fun kt => k <= count kt.2) kids -> k * len kids <= len (records (kids_flat kids)).
Proof.
  induction 1 as [|[key t] kids Ht _ IH]; [change (k * 0 <= 0); lia|].
  change (kids_flat ((key, t) :: kids)) with (Sep key :: flat t ++ kids_flat kids). change (records (Sep key :: ?l)) with (records l).
  rewrite records_app, len_app, len_cons. unfold count in Ht. simpl in Ht. lia.
Qed.

(** A node whose subtrees have [k] records each. *)
Lemma node_count k id c kids : k <= count c -> Forall (fun kt => k <= count kt.2) kids ->
  k * (1 + len kids) <= count (Node id c kids).
Proof.
  intros Hc Hk%kids_count. unfold count in *. change (flat (Node id c kids)) with (flat c ++ kids_flat kids).
  rewrite records_app, len_app. lia.
Qed.

(** What holds of the items and the pages of a node holds of its subtrees'. *)
Lemma kid_items (P : item -> Prop) kids : Forall P (kids_flat kids) -> Forall (fun kt => P (Sep kt.1) /\ Forall P (flat kt.2)) kids.
Proof.
  induction kids as [|[key t] kids IH]; [done|]. change (kids_flat ((key, t) :: kids)) with (Sep key :: flat t ++ kids_flat kids).
  rewrite Forall_cons, Forall_app. intros (Hs & Ht & Hk). constructor; [done|by apply IH].
Qed.

Lemma kid_pages (P : Z * Page -> Prop) kids : Forall P (kids_nodes kids) -> Forall (fun kt => Forall P (nodes kt.2)) kids.
Proof.
  induction kids as [|[key t] kids IH]; [done|]. change (kids_nodes ((key, t) :: kids)) with (nodes t ++ kids_nodes kids).
  rewrite Forall_app. intros [Ht Hk]. constructor; [done|by apply IH].
Qed.

Section height.
Context (ps kmax : Z) (Hps : 128 <= ps).

Lemma subtree_count t : 0 <= kmax -> forall h, uniform h t -> Forall (fun e => page_ok ps e.2) (nodes t) -> Forall (item_fits ps kmax) (flat t) ->
  2 * fanout ps kmax ^ Z.of_nat h <= count t.
Proof.
  intros Hk0. pose proof (fanout_two ps kmax ltac:(lia) Hk0).
  induction t as [id link slots|id c kids IHc IHk] using tree_induction; intros h Hu Hp Hi.
  - destruct h as [|h]; [|done]. apply Forall_cons in Hp as [Hp _].
    unfold count. change (flat (Leaf id link slots)) with (Rec <$> slots) in *. rewrite records_Rec.
    apply (two_records ps _ Hps Hp). rewrite Forall_fmap in Hi. eapply Forall_impl; [exact Hi|]. by intros s [_ Hs].
  - destruct h as [|h]; [done|]. destruct Hu as [Huc Huk]. rewrite nodes_below in Hp. apply Forall_cons in Hp as [Hr Hp].
    simpl below in Hp. apply Forall_app in Hp as [Hpc Hpk%kid_pages]. change (flat (Node id c kids)) with (flat c ++ kids_flat kids) in Hi.
    apply Forall_app in Hi as [Hic Hik%kid_items].
    assert (fanout ps kmax <= 1 + len kids) as Hf.
    { pose proof (fanout_kids ps kmax _ ltac:(lia) Hk0 Hr) as Hf. simpl in Hf. unfold len in Hf. rewrite length_fmap in Hf. apply Hf.
      apply Forall_fmap. eapply Forall_impl; [exact Hik|]. by intros kt [[Hk _] _]. }
    pose proof (node_count (2 * fanout ps kmax ^ Z.of_nat h) id c kids (IHc h Huc Hpc Hic)) as Hn.
    rewrite Nat2Z.inj_succ, Z.pow_succ_r by lia.
    enough (2 * fanout ps kmax ^ Z.of_nat h * (1 + len kids) <= count (Node id c kids)) as Hm.
    { pose proof (Z.pow_nonneg (fanout ps kmax) (Z.of_nat h) ltac:(lia)). nia. }
    apply Hn. rewrite Forall_forall in *. intros kt Hkt. apply IHk; [done|by apply Huk|by apply Hpk|by apply Hik].
Qed.

Lemma contents_size T : items_sorted (flat T) -> size (contents (flat T)) = length (records (flat T)).
Proof.
  intros Hs. unfold contents. rewrite map_size_list_to_map; [by rewrite length_fmap|].
  rewrite <-list_fmap_compose. apply keys_lt_nodup, (records_keys_lt _ Hs).
Qed.

(** The height is logarithmic in the number of records: the root has two
    children at least. *)
Lemma height_log T h : TreeOk ps kmax T -> NoDup (nodes T).*1 -> uniform (S h) T ->
  4 * fanout ps kmax ^ Z.of_nat h <= Z.of_nat (size (contents (flat T))).
Proof.
  intros [Hwf Hp] Hnd Hu. rewrite contents_size by apply Hwf. pose proof (wf_fits _ _ _ Hwf) as Hi.
  destruct T as [|id c kids]; [done|]. destruct Hu as [Huc Huk]. rewrite nodes_below in Hp, Hnd.
  apply NoDup_cons in Hnd as [Hni _]. apply pages_ok_cons in Hp as [Hr Hp].
  apply placed_root in Hr as [_ Hr]; [|lia]. simpl in Hr.
  assert (Forall (fun e => page_ok ps e.2) (nodes c ++ kids_nodes kids)) as Hok.
  { unfold pages_ok in Hp. rewrite Forall_forall in *. intros e He. eapply placed_other; [|by apply Hp].
    intros E. apply Hni. simpl in E. rewrite <-E. apply list_elem_of_fmap. by exists e. }
  apply Forall_app in Hok as [Hpc Hpk%kid_pages]. change (flat (Node id c kids)) with (flat c ++ kids_flat kids) in Hi.
  apply Forall_app in Hi as [Hic Hik%kid_items].
  assert (0 <= kmax) as Hk0.
  { destruct Hik as [|[key t] kids [[Hk _] _] _]; [done|]. pose proof (len_nonneg key). simpl in Hk. lia. }
  pose proof (fanout_two ps kmax ltac:(lia) Hk0).
  pose proof (node_count (2 * fanout ps kmax ^ Z.of_nat h) id c kids (subtree_count _ Hk0 _ Huc Hpc Hic)) as Hn.
  fold (len (records (flat (Node id c kids)))). fold (count (Node id c kids)).
  assert (1 <= len kids) by (destruct kids; [done|rewrite len_cons; pose proof (len_nonneg kids); lia]).
  enough (2 * fanout ps kmax ^ Z.of_nat h * (1 + len kids) <= count (Node id c kids)) as Hm.
  { pose proof (Z.pow_nonneg (fanout ps kmax) (Z.of_nat h) ltac:(lia)). nia. }
  apply Hn. rewrite Forall_forall in *. intros kt Hkt. apply subtree_count; [done|by apply Huk|by apply Hpk|by apply Hik].
Qed.
End height.
