(* ===== verification/TreeBudget.v ===== *)
(** * What an operation of the tree uses up

    The two budgets of a healthy tree, clean entries of the pool and unused page
    ids, and what a call takes from each. *)

From S2P Require Import Prelude Bytes Bisect Entities Codec Fs Pager Cache Tree.
From S2P Require Import CodecFacts PagerFacts CacheFacts CacheOps.
From S2P Require Import TreeSizes TreeShape TreeSteps TreeSearch TreeStore TreeFind TreeSplit TreeBalance TreeRedistribute.
From S2P Require Import TreeBorrow TreeMerge TreeCascade TreeOps TreeFrame TreeHeight.

(** A healthy tree with [N] unused page ids. *)
Record Settled (ps kmax : Z) (T : tree) (N : Z) (tr : BPlusTree) (D : Disk) : Prop := {
  se_ps : dk_ps D = ps;
  se_rep : Rep ∅ ∅ (tr_store tr) D (nodes T);
  se_root : root_page_id (dk_meta D) = tid T;
  se_ok : TreeOk ps kmax T;
  se_next : next_page_id (dk_meta D) + N <= 2 ^ 64;
}.

(** And with [n] entries of the pool to make dirty. *)
Record Budget (ps kmax : Z) (T : tree) (n N : Z) (tr : BPlusTree) (D : Disk) : Prop := {
  bg_settled : Settled ps kmax T N tr D;
  bg_slack : slack (tr_store tr) n;
  bg_le : n <= N;
}.

Lemma slack_weaken s n n' : n' <= n -> slack s n -> slack s n'.
Proof. intros Hn [?|?]; [by left|right; lia]. Qed.

Lemma settled_weaken ps kmax T N N' tr D : N' <= N -> Settled ps kmax T N tr D -> Settled ps kmax T N' tr D.
Proof. intros HN []. split; try done. lia. Qed.

Lemma budget_weaken ps kmax T n n' N N' tr D : n' <= n -> n' <= N' -> N' <= N ->
  Budget ps kmax T n N tr D -> Budget ps kmax T n' N' tr D.
Proof. intros Hn Hle HN []. split; [by apply (settled_weaken _ _ _ N)|by apply (slack_weaken _ n)|done]. Qed.

Lemma settled_pager ps kmax T N tr D : Settled ps kmax T N tr D -> PagerOk (st_pager (tr_store tr)) D.
Proof. intros H. apply (si_pager _ _ _ (rep_inv _ _ _ _ _ (se_rep _ _ _ _ _ _ H))). Qed.

Lemma settled_meta ps kmax T N tr D : Settled ps kmax T N tr D -> pg_meta_page (st_pager (tr_store tr)) = Some (dk_meta D).
Proof. intros H. apply (inv_meta _ _ _ _ _ (settled_pager _ _ _ _ _ _ H)). Qed.

(** The checkpoint LSN stays. *)
Lemma still_lsn ps kmax T N tr D T' N' tr' D' : Settled ps kmax T N tr D -> Settled ps kmax T' N' tr' D' ->
  StillFrame tr tr' -> last_checkpoint_lsn (dk_meta D') = last_checkpoint_lsn (dk_meta D).
Proof.
  intros H H' [[_ _ Hl _] _ _]. rewrite (settled_meta _ _ _ _ _ _ H), (settled_meta _ _ _ _ _ _ H') in Hl. by injection Hl.
Qed.

(** Few records make a low tree. *)
Definition small_map (ps kmax : Z) (h : nat) (m : gmap bytes bytes) : Prop :=
  Z.of_nat (size m) < 4 * fanout ps kmax ^ Z.of_nat h.

Lemma empty_small ps kmax h : 128 <= ps -> 0 <= kmax -> small_map ps kmax h ∅.
Proof.
  intros Hps Hk. pose proof (fanout_two ps kmax ltac:(lia) Hk). unfold small_map. rewrite map_size_empty.
  pose proof (Z.pow_pos_nonneg (fanout ps kmax) (Z.of_nat h)). lia.
Qed.

Lemma settled_low ps kmax T N tr D h : Settled ps kmax T N tr D -> 128 <= ps -> 0 <= kmax ->
  small_map ps kmax h (contents (flat T)) -> low h T.
Proof.
  intros [_ Hr _ Hok _] Hps Hk0 Hs. destruct (wf_uniform _ _ _ (ok_wf _ _ _ Hok)) as [k Hk]. exists k. split; [|done].
  destruct k as [|k]; [lia|]. pose proof (height_log ps kmax Hps T k Hok (rep_nodup _ _ _ _ _ Hr) Hk) as Hb.
  unfold small_map in Hs. apply Nat.nlt_ge. intros Hlt. pose proof (fanout_two ps kmax ltac:(lia) Hk0).
  pose proof (Z.pow_le_mono_r (fanout ps kmax) (Z.of_nat h) (Z.of_nat k) ltac:(lia) ltac:(lia)). lia.
Qed.

(** ** A limit just above what a call may use *)

Section call.
Context (ps kmax : Z).

Definition up_to (k : Z) (H : k <= 2 ^ 64) : Limit := {| page_limit := k; page_limit_le := H |}.

Lemma done_settled {L : Limit} T n tr D : Done ps kmax T n tr D -> Settled ps kmax T n tr D.
Proof. intros []. split; try done. limit_lia. Qed.

Lemma budget_done T n N tr D : Budget ps kmax T n N tr D ->
  exists L : Limit, page_limit = next_page_id (dk_meta D) + n /\ Done ps kmax T n tr D.
Proof.
  intros [Hs Hsl Hle]. pose proof Hs as [? ? ? ? Hn].
  assert (next_page_id (dk_meta D) + n <= 2 ^ 64) as H by lia. exists (up_to _ H). split; [done|].
  by split.
Qed.

Lemma done_budget {L : Limit} T n N c tr D T' tr' D' : Settled ps kmax T N tr D -> n <= N ->
  page_limit = next_page_id (dk_meta D) + n ->
  Done ps kmax T' (n - c) tr' D' -> Budget ps kmax T' (n - c) (N - c) tr' D'.
Proof. intros [] Hle HL []. split; [split; try done; lia|done|lia]. Qed.

Lemma search_budget T n N tr D key : Budget ps kmax T n N tr D -> 1 <= n ->
  exists s', search key tr = (set_store s' tr, Ok (contents (flat T) !! key)) /\
    Budget ps kmax T n N (set_store s' tr) D.
Proof.
  intros Hb Hn. destruct (budget_done _ _ _ _ _ Hb) as (L & HL & Hd). destruct Hb as [Hs _ Hle].
  destruct (search_ok ps kmax T n tr D key Hd Hn) as (s' & E & Hd'). exists s'. split; [done|].
  rewrite <-(Z.sub_0_r n), <-(Z.sub_0_r N). eapply done_budget; [done|done|done|by rewrite Z.sub_0_r].
Qed.

Lemma insert_budget T n N tr D key value lsn h : GoodBounds ps kmax -> Budget ps kmax T n N tr D -> low h T ->
  step_cost h <= n -> len key <= kmax -> calculate_leaf_record_size key value <= get_max_leaf_record_size ps ->
  fits 8 lsn = true ->
  exists tr' T' D', insert key value lsn tr = (tr', Ok tt) /\
    Budget ps kmax T' (n - step_cost h) (N - step_cost h) tr' D' /\ low (S h) T' /\
    contents (flat T') = <[key := value]> (contents (flat T)) /\ StillFrame tr tr'.
Proof.
  intros Hg Hb Hh Hn Hkey Hrec Hlsn. destruct (budget_done _ _ _ _ _ Hb) as (L & HL & Hd). destruct Hb as [Hs _ Hle].
  destruct (insert_ok ps kmax Hg T n tr D key value lsn h Hd Hh Hn Hkey Hrec Hlsn) as (tr' & T' & D' & E & Hd' & Hh' & Hc).
  exists tr', T', D'. split; [done|]. split; [by eapply done_budget|]. split; [done|]. split; [done|].
  pose proof (moves_insert key value lsn tr) as Hm. by rewrite E in Hm.
Qed.

Lemma delete_budget T n N tr D key lsn h : GoodBounds ps kmax -> Budget ps kmax T n N tr D -> low h T ->
  step_cost h <= n -> fits 8 lsn = true ->
  exists tr' T' D', tree_delete key lsn tr = (tr', Ok (bool_decide (is_Some (contents (flat T) !! key)))) /\
    Budget ps kmax T' (n - step_cost h) (N - step_cost h) tr' D' /\ low (S h) T' /\
    contents (flat T') = delete key (contents (flat T)) /\ StillFrame tr tr'.
Proof.
  intros Hg Hb Hh Hn Hlsn. destruct (budget_done _ _ _ _ _ Hb) as (L & HL & Hd). destruct Hb as [Hs _ Hle].
  destruct (delete_ok ps kmax Hg T n tr D key lsn h Hd Hh Hn Hlsn) as (tr' & T' & D' & E & Hd' & Hh' & Hc).
  exists tr', T', D'. split; [done|]. split; [by eapply done_budget|]. split; [done|]. split; [done|].
  pose proof (moves_tree_delete key lsn tr) as Hm. by rewrite E in Hm.
Qed.

Lemma too_large_settled T N tr D key value : Settled ps kmax T N tr D ->
  raise_if_record_too_large key value tr =
    (tr, if get_max_leaf_record_size ps <? calculate_leaf_record_size key value
         then Raise (DBRecordTooLargeError (get_max_leaf_record_size ps) (calculate_leaf_record_size key value)) else Ok tt).
Proof.
  intros [Eps Hr _ _ _]. unfold raise_if_record_too_large. rewrite (page_size_bind _ _ _ _ _ Hr), Eps. by case_match.
Qed.
End call.

(** ** A fresh tree *)

(** A pager on a path without a file. *)
Definition closed_pager (ps : Z) : Pager :=
  {| pg_disk := None; pg_is_open := false; pg_page_size_bytes := ps; pg_meta_page := None;
     pg_is_meta_dirty := false; pg_freelist_cache := ∅; pg_dirty_freelist_page_ids := ∅;
     pg_stats := pager_stats_zero |}.

Definition fresh_tree (p : Pager) (capacity : Z) : BPlusTree :=
  {| tr_store := {| st_pager := p; st_pool := pool_init capacity; st_heap := empty_heap |};
     tr_stats := tree_stats_zero |}.

Definition fresh_disk (f : File) (ps : Z) : Disk :=
  {| dk_file := f; dk_meta := initial_meta ps; dk_heads := []; dk_freed := [] |}.

Definition empty_tree : tree := Leaf DEFAULT_ROOT_PAGE_ID 0 [].

Lemma no_entry p capacity i cp : entry (tr_store (fresh_tree p capacity)) i = Some cp -> False.
Proof. discriminate. Qed.

Lemma fresh_rep ps p f capacity : MIN_PAGE_SIZE <= ps -> PagerInv p f (initial_meta ps) [] [] ->
  disk_page f ps DEFAULT_ROOT_PAGE_ID = Some (PLeaf empty_leaf) ->
  Rep ∅ ∅ (tr_store (fresh_tree p capacity)) (fresh_disk f ps) (nodes empty_tree).
Proof.
  intros Hps Hinv Hpage. split.
  - split; try (intros; by edestruct no_entry); [exact Hinv|constructor|intros l _; apply lookup_empty].
  - repeat constructor. apply not_elem_of_nil.
  - constructor; [|constructor]. split; [|done]. exists (PLeaf empty_leaf). split; [exact Hpage|]. split; [done|]. reflexivity.
  - intros i. unfold usable. simpl. rewrite elem_of_cons. unfold DEFAULT_ROOT_PAGE_ID. split.
    + intros [Hi _]. left. left. lia.
    + intros [[->|?%elem_of_nil]|?%elem_of_empty]; [|done|done]. split; [lia|apply not_elem_of_nil].
  - intros i ?%elem_of_empty. done.
  - intros. by edestruct no_entry.
Qed.

Lemma fresh_settled ps kmax p p' capacity N stats : good_page_size ps -> ps < 2 ^ 32 -> pager_init None ps = Ok p ->
  pager_open p = (p', Ok tt) -> 2 + N <= 2 ^ 64 ->
  exists D, Settled ps kmax empty_tree N {| tr_store := tr_store (fresh_tree p' capacity); tr_stats := stats |} D /\
    dk_meta D = initial_meta ps.
Proof.
  intros Hps Hps' Hp Ep HN. assert (MIN_PAGE_SIZE <= ps) as Hmin by (change MIN_PAGE_SIZE with 52; unfold good_page_size in Hps; lia).
  destruct (pager_open_fresh ps p) as (p1 & f & E & Hinv & _ & _ & Hpage & _); [done|done|].
  assert (p1 = p') as -> by congruence. exists (fresh_disk f ps). split; [|done]. split; try done.
  - by apply fresh_rep.
  - unfold good_page_size in Hps. split; [split; [by exists 0%nat|constructor|done|constructor]|].
    constructor; [|constructor]. right. split; [done|]. split; [|done]. change (32 <= ps). lia.
Qed.
