(* ===== verification/TreeScan.v ===== *)
(** * Scans

    A scan begins at the leaf of its start key and follows the sibling links;
    what a client gets from it on a healthy tree is the sorted range of the map
    of its records. *)

From S2P Require Import Prelude Bytes Bisect Entities Codec Fs Pager Cache Tree.
From S2P Require Import CodecFacts PagerFacts CacheFacts CacheOps.
From S2P Require Import TreeSizes TreeShape TreeSteps TreeSearch TreeStore TreeFind TreeSplit TreeBalance TreeRedistribute.
From S2P Require Import TreeBorrow TreeMerge TreeCascade TreeOps TreeFrame TreeHeight TreeBudget.

(** ** The leaves and their records *)

Fixpoint leaf_pages (t : tree) : list (Z * Z * list LeafSlot) :=
  match t with
  | Leaf id link slots => [(id, link, slots)]
  | Node _ c kids => leaf_pages c ++ flat_map (fun kt => leaf_pages kt.2) kids
  end.

Definition kids_pages (kids : list (bytes * tree)) : list (Z * Z * list LeafSlot) := flat_map (fun kt => leaf_pages kt.2) kids.

(** The records of a list of leaves. *)
Definition page_records (l : list (Z * Z * list LeafSlot)) : list LeafSlot := concat (snd <$> l).

Lemma page_records_app a b : page_records (a ++ b) = page_records a ++ page_records b.
Proof. unfold page_records. by rewrite fmap_app, concat_app. Qed.

Lemma kids_pages_app a b : kids_pages (a ++ b) = kids_pages a ++ kids_pages b.
Proof. apply flat_map_app. Qed.

Lemma records_kids kids : Forall (fun kt => page_records (leaf_pages kt.2) = records (flat kt.2)) kids ->
  page_records (kids_pages kids) = records (kids_flat kids).
Proof.
  induction 1 as [|[k t] kids Ht Hk IH]; [done|]. simpl in Ht.
  change (kids_pages ((k, t) :: kids)) with (leaf_pages t ++ kids_pages kids).
  change (records (kids_flat ((k, t) :: kids))) with (records (flat t ++ kids_flat kids)).
  by rewrite page_records_app, records_app, Ht, IH.
Qed.

Lemma records_pages t : page_records (leaf_pages t) = records (flat t).
Proof.
  induction t as [id link slots|id c kids IHc IHk] using tree_induction.
  - simpl. rewrite records_Rec. apply app_nil_r.
  - simpl. fold (kids_pages kids) (kids_flat kids). rewrite page_records_app, records_app, IHc. f_equal. by apply records_kids.
Qed.

Lemma records_kids_pages kids : page_records (kids_pages kids) = records (kids_flat kids).
Proof. apply records_kids, Forall_forall. intros kt _. apply records_pages. Qed.

Lemma leaves_pages t : leaves t = fst <$> leaf_pages t.
Proof.
  induction t as [id link slots|id c kids IHc IHk] using tree_induction; [done|]. simpl.
  rewrite fmap_app, <-IHc. f_equal. induction IHk as [|kt kids Hk _ IH]; [done|]. simpl. by rewrite fmap_app, <-Hk, <-IH.
Qed.

Lemma page_in_nodes t id link slots : (id, link, slots) ∈ leaf_pages t -> (id, leaf_of link slots) ∈ nodes t.
Proof.
  induction t as [i k s|i c kids IHc IHk] using tree_induction; intros H.
  - apply list_elem_of_singleton in H as [= -> -> ->]. left.
  - simpl in H. rewrite nodes_below. right. simpl. apply elem_of_app. apply elem_of_app in H as [H|H]; [left; auto|right].
    apply list_elem_of_In, in_flat_map in H as (kt & Hk & H). apply list_elem_of_In in Hk, H.
    rewrite Forall_forall in IHk. apply list_elem_of_In, in_flat_map. exists kt.
    split; apply list_elem_of_In; [done|]. by apply IHk.
Qed.

(** The leaves before and after a position. *)
Lemma pages_plug ctx : forall t, exists pre post, leaf_pages (plug ctx t) = pre ++ leaf_pages t ++ post /\
  page_records pre = records (ctx_pre ctx) /\ page_records post = records (ctx_post ctx).
Proof.
  induction ctx as [|f ctx IH]; intros t; [exists [], []; by rewrite app_nil_r|].
  destruct (IH (fill f t)) as (pre & post & E & Hpre & Hpost). simpl.
  destruct f as [id kids|id c kids1 key kids2].
  - exists pre, (kids_pages kids ++ post). rewrite E. simpl. fold (kids_pages kids).
    rewrite <-app_assoc, app_nil_r, records_app, page_records_app, Hpost, records_kids_pages. done.
  - exists (pre ++ leaf_pages c ++ kids_pages kids1), (kids_pages kids2 ++ post). rewrite E. simpl.
    fold (kids_pages (kids1 ++ (key, t) :: kids2)). rewrite kids_pages_app.
    change (kids_pages ((key, t) :: kids2)) with (leaf_pages t ++ kids_pages kids2).
    rewrite !page_records_app, !records_app, Hpre, Hpost, !records_kids_pages, records_pages, <-!app_assoc.
    split; [done|]. change (records [Sep key]) with (@nil LeafSlot). by rewrite app_nil_r.
Qed.

(** ** One step of a scan *)

(** The records up to the end of the range. *)
Fixpoint upto (e : option bytes) (l : list LeafSlot) : list LeafSlot :=
  match l with
  | [] => []
  | s :: l => if past_end e (lslot_key s) then [] else s :: upto e l
  end.

(** Slot [idx] of the leaf object [l], which the pool may have evicted since;
    [rest] are the records of the tree from there on. *)
Definition scan_place (T : tree) (s : Store) (l : loc) (idx : nat) (rest : list LeafSlot) : Prop :=
  exists pre id link slots post lsn, leaf_pages T = pre ++ (id, link, slots) :: post /\
    object s l = Some (PLeaf {| leaf_lsn := lsn; right_sibling_page_id := link; leaf_slots := slots |}) /\
    rest = drop idx slots ++ page_records post.

(** The records a suspended scan has still to give. *)
Definition pending (T : tree) (s : Store) (e : option bytes) (ph : ScanPhase) (l : list (bytes * bytes)) : Prop :=
  match ph with
  | ScanSuspended page idx => exists rest, scan_place T s page (S idx) rest /\ l = slot_pair <$> upto e rest
  | _ => False
  end.

(** After a step that had the records [l] to choose from. *)
Definition after_step (T : tree) (s : Store) (e : option bytes) (ph : ScanPhase) (l : list (bytes * bytes)) : Prop :=
  match l with [] => ph = ScanDone | _ :: l => pending T s e ph l end.

(** The next of the records [l], or the end; the version checker has a say when
    there is one. *)
Definition next_answer (check : Result unit) (l : list (bytes * bytes)) (ph : ScanPhase) : Result (option (bytes * bytes) * ScanPhase) :=
  match l with
  | [] => Ok (None, ScanDone)
  | r :: _ => _ ← check; Ok (Some r, ph)
  end.

Section scan.
Context (T : tree) (D : Disk) (n : Z) (Hn : 0 <= n).

Lemma leaf_object_bind {B} tr l lp (f : LeafPage -> M BPlusTree B) :
  object (tr_store tr) l = Some (PLeaf lp) -> (deref_leaf l ≫= f) tr = f lp tr.
Proof.
  intros Ho. apply bind_Ok. unfold deref_leaf. pose proof (deref_run _ _ _ Ho) as E.
  by rewrite (in_store_bind _ _ _ _ _ E), set_store_same.
Qed.

Lemma next_link s pre id link slots post : chained (leaves T) 0 -> Rep ∅ ∅ s D (nodes T) ->
  leaf_pages T = pre ++ (id, link, slots) :: post ->
  match post with [] => link = 0 | (j, _, _) :: _ => link = j /\ 0 < j end.
Proof.
  intros Hc Hr E. rewrite leaves_pages, E, fmap_app in Hc. apply chained_app in Hc as [_ [Hl _]].
  destruct post as [|[[j k] sl] post]; [done|]. split; [done|].
  assert ((j, leaf_of k sl) ∈ nodes T) as Hin.
  { apply page_in_nodes. rewrite E. apply elem_of_app. right. right. left. }
  destruct (rep_member _ _ _ _ _ _ Hr Hin) as ((Hj & _) & _). simpl in Hj. lia.
Qed.

(** The state after a step. *)
Definition stepped (s : Store) (e : option bytes) (ph : ScanPhase) (l : list (bytes * bytes)) : Prop :=
  Rep ∅ ∅ s D (nodes T) /\ slack s (n + 1) /\ after_step T s e ph l.

(** A slot is left on the page. *)
Lemma scan_here check e fuel pre id link slots post l lsn idx tr x : slots !! idx = Some x ->
  leaf_pages T = pre ++ (id, link, slots) :: post -> Rep ∅ ∅ (tr_store tr) D (nodes T) -> slack (tr_store tr) (n + 1) ->
  object (tr_store tr) l = Some (PLeaf {| leaf_lsn := lsn; right_sibling_page_id := link; leaf_slots := slots |}) ->
  let rs := slot_pair <$> upto e (drop idx slots ++ page_records post) in
  exists ph, scan_from fuel check e l idx tr = (tr, next_answer check rs ph) /\ stepped (tr_store tr) e ph rs.
Proof.
  intros Ex E Hr Hs Ho. cbv zeta. rewrite (drop_S _ _ _ Ex). cbn [app upto].
  assert (scan_from fuel check e l idx tr =
    (if past_end e (lslot_key x) then mret (None, ScanDone)
     else lift check;; mret (Some (slot_pair x), ScanSuspended l idx)) tr) as ->.
  { destruct fuel as [|fuel]; cbn [scan_from]; rewrite (leaf_object_bind _ _ _ _ Ho); cbn [leaf_slots]; by rewrite Ex. }
  destruct (past_end e (lslot_key x)); [by exists ScanDone|]. exists (ScanSuspended l idx). split; [by destruct check as [[]|]|].
  split; [done|]. split; [done|]. exists (drop (S idx) slots ++ page_records post). split; [|done].
  by exists pre, id, link, slots, post, lsn.
Qed.

Lemma scan_from_ok check e : chained (leaves T) 0 -> forall post fuel pre id link slots l lsn idx tr,
  leaf_pages T = pre ++ (id, link, slots) :: post -> (length post <= fuel)%nat ->
  Rep ∅ ∅ (tr_store tr) D (nodes T) -> slack (tr_store tr) (n + 1) ->
  object (tr_store tr) l = Some (PLeaf {| leaf_lsn := lsn; right_sibling_page_id := link; leaf_slots := slots |}) ->
  let rs := slot_pair <$> upto e (drop idx slots ++ page_records post) in
  exists s' ph, scan_from fuel check e l idx tr = (set_store s' tr, next_answer check rs ph) /\ stepped s' e ph rs.
Proof.
  intros Hc. induction post as [|[[j k] sl] post IH]; intros fuel pre id link slots l lsn idx tr E Hfuel Hr Hs Ho rs;
    pose proof (next_link _ _ _ _ _ _ Hc Hr E) as Hlink;
    (destruct (slots !! idx) as [x|] eqn:Ex;
      [destruct (scan_here check e fuel pre id link slots _ l lsn idx tr x Ex E Hr Hs Ho) as (ph & E1 & Hres);
       exists (tr_store tr), ph; by rewrite set_store_same|]);
    unfold rs; rewrite (drop_ge slots idx) by (by apply lookup_ge_None); cbn [app upto].
  - exists (tr_store tr), ScanDone. simpl in Hlink. subst link. destruct fuel as [|fuel]; cbn [scan_from];
    rewrite (leaf_object_bind _ _ _ _ Ho); cbn [leaf_slots right_sibling_page_id]; rewrite Ex, set_store_same; done.
  - destruct Hlink as [-> Hj]. destruct fuel as [|fuel]; [simpl in Hfuel; lia|]. cbn [scan_from].
    rewrite (leaf_object_bind _ _ _ _ Ho). cbn [leaf_slots right_sibling_page_id]. rewrite Ex, (proj2 (Z.ltb_lt _ _) Hj).
    assert ((j, leaf_of k sl) ∈ nodes T) as Hin by (apply page_in_nodes; rewrite E; apply elem_of_app; right; right; left).
    destruct (rep_fetch _ D _ j _ n Hr Hin Hs Hn) as (s1 & l1 & p & Eg & Hr1 & Hs1 & Ho1 & Hq).
    rewrite (in_store_bind _ _ _ _ _ Eg). apply erase_leaf in Hq as (lsn1 & ->).
    destruct (IH fuel (pre ++ [(id, j, slots)]) j k sl l1 lsn1 0%nat (set_store s1 tr)) as (s2 & ph & E2 & Hres);
      [by rewrite <-app_assoc|simpl in Hfuel; lia|done|done|done|].
    exists s2, ph. rewrite E2. split; [done|]. exact Hres.
Qed.

Lemma pages_count pend loose s : Rep pend loose s D (nodes T) -> (length (leaf_pages T) <= Z.to_nat (next_page_id (dk_meta D)))%nat.
Proof.
  intros Hr. assert (length (leaf_pages T) <= length (nodes T))%nat as H.
  { clear. induction T as [id link slots|id c kids IHc IHk] using tree_induction; [done|].
    rewrite nodes_below. simpl. rewrite !length_app. enough (length (kids_pages kids) <= length (kids_nodes kids))%nat.
    { unfold kids_pages in *. lia. }
    induction IHk as [|kt kids Hk _ IH]; [done|]. unfold kids_pages, kids_nodes in *. simpl. rewrite !length_app. lia. }
  destruct (nodup_below_bound (nodes T).*1 (next_page_id (dk_meta D)) (rep_nodup _ _ _ _ _ Hr)) as [H'|H'].
  - intros i Hi. apply (rep_usable _ _ _ _ _ Hr). by left.
  - rewrite length_fmap in H'. lia.
  - destruct (rep_member _ _ _ _ _ _ Hr (nodes_root T)) as ((? & _) & _). lia.
Qed.

(** From a place in the tree on, with the fuel of [scan_next]. *)
Lemma scan_on check e tr l idx rest : chained (leaves T) 0 -> Rep ∅ ∅ (tr_store tr) D (nodes T) -> slack (tr_store tr) (n + 1) ->
  scan_place T (tr_store tr) l idx rest -> let rs := slot_pair <$> upto e rest in
  exists s' ph, scan_from (Z.to_nat (next_page_id (dk_meta D))) check e l idx tr = (set_store s' tr, next_answer check rs ph) /\
    stepped s' e ph rs.
Proof.
  intros Hc Hr Hs (pre & id & link & slots & post & lsn & E & Ho & ->).
  pose proof (pages_count _ _ _ Hr) as Hcount. rewrite E, length_app in Hcount. simpl in Hcount.
  eapply scan_from_ok; try done. lia.
Qed.

(** A step of a scan that was started on this tree. *)
Lemma scan_next_resumed g tr l : chained (leaves T) 0 -> Rep ∅ ∅ (tr_store tr) D (nodes T) -> slack (tr_store tr) (n + 1) ->
  pending T (tr_store tr) (sc_end g) (sc_phase g) l ->
  exists s' ph, scan_next (Ok tt) g tr = (set_store s' tr, Ok (head l, with_phase ph g)) /\ stepped s' (sc_end g) ph l.
Proof.
  intros Hc Hr Hs Hp. unfold scan_next. rewrite (page_count_bind _ _ tr D _ Hr). unfold mbind at 1, M_bind at 1.
  destruct (sc_phase g) as [|page idx|]; [done| |done].
  destruct Hp as (rest & Hat & ->). rewrite (bind_Ok (lift (Ok tt)) _ tr tr tt eq_refl).
  destruct (scan_on (Ok tt) (sc_end g) tr page (S idx) rest Hc Hr Hs Hat) as (s' & ph & -> & Hst).
  destruct (upto (sc_end g) rest) as [|x l2]; [exists s', ScanDone|by exists s', ph]. split; [done|].
  destruct Hst as (? & ? & _). by split; [|split].
Qed.

(** ** A scan and its client *)

(** A client that asks for the next record up to [limit] times, or until the
    scan is over; the version checker never objects. *)
Fixpoint take_scan (limit : nat) (g : Scan) : M BPlusTree (list (bytes * bytes)) :=
  match limit with
  | O => mret []
  | S limit =>
      '(out, g') ← scan_next (Ok tt) g;
      match out with
      | None => mret []
      | Some r => l ← take_scan limit g'; mret (r :: l)
      end
  end.

Lemma take_resumed : chained (leaves T) 0 -> forall limit g tr l, Rep ∅ ∅ (tr_store tr) D (nodes T) -> slack (tr_store tr) (n + 1) ->
  pending T (tr_store tr) (sc_end g) (sc_phase g) l ->
  exists s', take_scan limit g tr = (set_store s' tr, Ok (take limit l)) /\ Rep ∅ ∅ s' D (nodes T) /\ slack s' (n + 1).
Proof.
  intros Hc. induction limit as [|limit IH]; intros g tr l Hr Hs Hp.
  { exists (tr_store tr). by rewrite set_store_same. }
  destruct (scan_next_resumed g tr l Hc Hr Hs Hp) as (s1 & ph & E1 & Hr1 & Hs1 & Hp1).
  cbn [take_scan]. rewrite (bind_Ok _ _ _ _ _ E1). destruct l as [|r l]; [by exists s1|]. cbn [head].
  destruct (IH (with_phase ph g) (set_store s1 tr) l Hr1 Hs1 Hp1) as (s2 & E2 & H2). exists s2.
  by rewrite (bind_Ok _ _ _ _ _ E2).
Qed.
End scan.

(** The records of the tree split at a key. *)
Lemma split_at_key kmax key T tr D n ctx id link slots l : Found kmax key T tr D n ctx id link slots l -> items_sorted (flat T) ->
  exists pre post before, leaf_pages T = pre ++ (id, link, slots) :: post /\
    records (flat T) = before ++ drop (leaf_position slots key) slots ++ page_records post /\
    Forall (slot_lt key) before /\
    Forall (fun s => bytes_le key (lslot_key s)) (drop (leaf_position slots key) slots ++ page_records post).
Proof.
  intros [HT [Hl Hr] _ _ _] Hs. destruct (pages_plug ctx (Leaf id link slots)) as (pre & post & E & Hpre & Hpost).
  rewrite HT in E. pose proof (records_pages T) as Hrec. rewrite E in Hrec.
  change (pre ++ leaf_pages (Leaf id link slots) ++ post) with (pre ++ [(id, link, slots)] ++ post) in *.
  rewrite !page_records_app in Hrec. change (page_records [(id, link, slots)]) with (slots ++ []) in Hrec. rewrite app_nil_r in Hrec.
  assert (keys_lt (lslot_key <$> slots)) as Hk.
  { pose proof (records_keys_lt _ Hs) as H. rewrite <-Hrec, !fmap_app in H.
    apply keys_lt_app in H as (_ & H & _). by apply keys_lt_app in H as (H & _). }
  destruct (leaf_position_spec slots key Hk) as (l1 & l2 & -> & -> & Hlt & Hge). rewrite drop_app_length.
  exists pre, post, (page_records pre ++ l1). split; [exact E|]. split; [by rewrite <-Hrec, <-!app_assoc|].
  rewrite Hpre, Hpost, !Forall_app. split; split; [|done| |].
  - apply Forall_forall. intros s Hin. apply elem_of_records in Hin. rewrite Forall_forall in Hl.
    by destruct (Hl _ Hin) as [H|[_ H]].
  - destruct l2 as [|s l2]; [constructor|]. destruct Hge as [Hs0 Hge]. constructor.
    + destruct Hs0 as [->|H]; [apply bytes_le_refl|by apply bytes_lt_le].
    + eapply Forall_impl; [exact Hge|]. intros x Hx. by apply bytes_lt_le.
  - apply Forall_forall. intros s Hin. apply elem_of_records in Hin. rewrite Forall_forall in Hr.
    apply bytes_lt_le. exact (Hr _ Hin).
Qed.

Lemma past_end_mono e a b : bytes_lt a b -> past_end e a = true -> past_end e b = true.
Proof.
  intros Hab. destruct e as [e|]; [|done]. simpl. rewrite !negb_true_iff. intros Ha.
  eapply bytes_le_trans; [exact Ha|by apply bytes_lt_le].
Qed.

(** Cutting a sorted list at the end of the range filters it. *)
Lemma upto_elem e l : keys_lt (lslot_key <$> l) ->
  keys_lt (lslot_key <$> upto e l) /\ forall s, s ∈ upto e l <-> s ∈ l /\ past_end e (lslot_key s) = false.
Proof.
  induction l as [|x l IH]; intros Hk.
  { split; [constructor|]. intros s. simpl. rewrite elem_of_nil. tauto. }
  rewrite fmap_cons in Hk. apply keys_lt_cons in Hk as [Hx Hk]. destruct (IH Hk) as [Hs He].
  rewrite Forall_fmap, Forall_forall in Hx. simpl. destruct (past_end e (lslot_key x)) eqn:Ep.
  - split; [constructor|]. intros s. rewrite elem_of_nil, elem_of_cons. split; [done|]. intros [[->|Hin] Hs']; [congruence|].
    pose proof (past_end_mono e _ _ (Hx s Hin) Ep). congruence.
  - split.
    + rewrite fmap_cons. apply keys_lt_cons. split; [|done]. apply Forall_fmap, Forall_forall. intros s Hin. apply Hx. by apply He.
    + intros s. rewrite !elem_of_cons, He. naive_solver.
Qed.

(** ** The range of a map *)

Definition in_range (start stop : option bytes) (key : bytes) : bool :=
  bool_decide (bytes_le (default [] start) key) && negb (past_end stop key).

Definition record_le (r1 r2 : bytes * bytes) : Prop := bytes_le r1.1 r2.1.

#[export] Instance record_le_dec : RelDecision record_le.
Proof. intros r1 r2. unfold record_le. apply _. Defined.

#[export] Instance record_le_trans : Transitive record_le.
Proof. intros r1 r2 r3. apply bytes_le_trans. Qed.

#[export] Instance record_le_total : Total record_le.
Proof.
  intros r1 r2. destruct (decide (record_le r1 r2)) as [H|H]; [by left|right].
  apply bytes_lt_le. by apply bytes_nle_lt in H.
Qed.

(** What a scan is to give: the records of the range sorted by their keys. *)
Definition map_range (start stop : option bytes) (m : gmap bytes bytes) : list (bytes * bytes) :=
  merge_sort record_le (filter (fun r => in_range start stop r.1 = true) (map_to_list m)).

Lemma elem_of_map_range start stop m key value : (key, value) ∈ map_range start stop m <->
  m !! key = Some value /\ bytes_le (default [] start) key /\ past_end stop key = false.
Proof.
  unfold map_range. rewrite merge_sort_Permutation, list_elem_of_filter, elem_of_map_to_list. simpl.
  unfold in_range. rewrite andb_true_iff, negb_true_iff, bool_decide_eq_true. tauto.
Qed.

Lemma nodup_map_range start stop m : NoDup (map_range start stop m).
Proof. unfold map_range. rewrite merge_sort_Permutation. apply NoDup_filter, NoDup_map_to_list. Qed.

(** The one list in the order of the keys that has the elements of the range. *)
Lemma map_range_unique start stop m l : keys_lt l.*1 ->
  (forall key value, (key, value) ∈ l <-> (key, value) ∈ map_range start stop m) -> l = map_range start stop m.
Proof.
  intros Hk He. apply (StronglySorted_unique_strong record_le).
  - intros [k1 v1] [k2 v2] H1 H2 H12 H21. assert (k1 = k2) as ->.
    { apply bytes_le_alt in H12 as [H12|]; [|done]. simpl in H12. unfold record_le, bytes_le, bytes_lt in *. simpl in *. congruence. }
    f_equal. apply He in H1. apply elem_of_map_range in H1 as [E1 _], H2 as [E2 _]. congruence.
  - clear He. induction l as [|r l IH]; [constructor|]. rewrite fmap_cons in Hk. apply keys_lt_cons in Hk as [Hr Hk].
    constructor; [by apply IH|]. rewrite Forall_fmap in Hr. eapply Forall_impl; [exact Hr|]. intros r' H. by apply bytes_lt_le.
  - apply StronglySorted_merge_sort; apply _.
  - apply NoDup_Permutation; [|apply nodup_map_range|].
    + apply (NoDup_fmap_1 fst). by apply keys_lt_nodup.
    + intros [k v]. apply He.
Qed.

Lemma map_range_sorted start stop m : keys_lt (map_range start stop m).*1.
Proof.
  assert (StronglySorted record_le (map_range start stop m)) as Hs by (apply StronglySorted_merge_sort; apply _).
  assert (forall r1 r2, r1 ∈ map_range start stop m -> r2 ∈ map_range start stop m -> r1.1 = r2.1 -> r1 = r2) as Hu.
  { intros [k1 v1] [k2 v2] H1 H2 E. simpl in E. subst k2.
    apply elem_of_map_range in H1 as [E1 _], H2 as [E2 _]. congruence. }
  pose proof (nodup_map_range start stop m) as Hn. induction Hs as [|r l Hs IH Hr]; [constructor|].
  apply NoDup_cons in Hn as [Hnin Hn]. rewrite fmap_cons. apply keys_lt_cons. split.
  - apply Forall_fmap, Forall_forall. intros r' Hin. rewrite Forall_forall in Hr.
    destruct (proj1 (bytes_le_alt _ _) (Hr r' Hin)) as [H|E]; [done|]. exfalso. apply Hnin.
    rewrite (Hu r r'); [done|by left|by right|done].
  - apply IH; [|done]. intros r1 r2 H1 H2. apply Hu; by right.
Qed.

(** The records after a key, up to the end of the range. *)
Lemma map_range_records T before after start stop : items_sorted (flat T) -> records (flat T) = before ++ after ->
  Forall (slot_lt (default [] start)) before -> Forall (fun s => bytes_le (default [] start) (lslot_key s)) after ->
  slot_pair <$> upto stop after = map_range start stop (contents (flat T)).
Proof.
  intros Hs Erec Hlt Hge.
  pose proof (records_keys_lt _ Hs) as Hk. rewrite Erec, fmap_app in Hk. apply keys_lt_app in Hk as (_ & Hk & _).
  destruct (upto_elem stop after Hk) as [Hsorted Helem]. apply map_range_unique.
  { by rewrite <-list_fmap_compose. }
  intros key value. rewrite elem_of_map_range, (contents_lookup _ _ _ Hs), <-elem_of_records, Erec, elem_of_app, list_elem_of_fmap.
  rewrite Forall_forall in Hlt, Hge. split.
  - intros ([k v] & [= -> ->] & Hin). apply Helem in Hin as [Hin Hp]. split; [by right|]. split; [apply (Hge _ Hin)|done].
  - intros ([Hin|Hin] & Hle & Hp).
    + apply Hlt in Hin. unfold slot_lt in Hin. simpl in Hin. unfold bytes_lt, bytes_le in *. congruence.
    + exists {| lslot_key := key; lslot_value := value |}. split; [done|]. by apply Helem.
Qed.

(** The first step of a scan. *)
Lemma scan_next_started {L : Limit} ps kmax T n tr D check start stop : Done ps kmax T n tr D -> 1 <= n ->
  let rs := map_range start stop (contents (flat T)) in
  exists s' ph, scan_next check (scan start stop) tr =
      (set_store s' tr, result_map (fun a => (a.1, with_phase a.2 (scan start stop))) (next_answer check rs ph)) /\
    Done ps kmax T n (set_store s' tr) D /\ after_step T s' stop ph rs.
Proof.
  intros Hd Hn rs. pose proof Hd as [Eps Hr Hroot Hok Hs Hnx]. pose proof (wf_sorted _ _ _ (ok_wf _ _ _ Hok)) as Hsorted.
  destruct (done_find ps kmax T n tr D (default [] start) Hd Hn) as (s1 & ctx & id & link & slots & l & E & Hf & _).
  pose proof Hf as [HT _ Hr1 Hh1 Hs1].
  destruct (split_at_key _ _ _ _ _ _ _ _ _ _ _ Hf Hsorted) as (pre & post & before & Ep & Erec & Hlt & Hge).
  set (after := drop (leaf_position slots (default [] start)) slots ++ page_records post) in *.
  assert (slot_pair <$> upto stop after = rs) as <- by (eapply map_range_records; done).
  assert ((id, leaf_of link slots) ∈ nodes T) as Hin by (apply page_in_nodes; rewrite Ep; apply elem_of_app; right; left).
  destruct (rep_deref _ _ _ _ _ _ _ _ Hr1 Hin Hh1) as (p & Ho1 & Hq & _). apply erase_leaf in Hq as (lsn1 & ->).
  destruct (scan_on T D (n - 1) ltac:(lia) check stop (set_store s1 tr) l (leaf_position slots (default [] start)) after)
    as (s2 & ph & E2 & Hr2 & Hs2 & Hp2); [apply wf_chained with ps kmax, Hok|done| |by exists pre, id, link, slots, post, lsn1|].
  { exact (shielded_slack _ _ _ (shielded_again {[id]} _ _ id ltac:(set_solver) Hs1)). }
  exists s2, ph. split; [|split; [|exact Hp2]].
  - unfold scan_next. rewrite (page_count_bind _ _ tr D _ Hr). cbn [sc_phase sc_start sc_end scan]. unfold mbind at 1, M_bind at 1.
    rewrite (bind_Ok _ _ _ _ _ E). cbn [leaf_page]. rewrite (leaf_object_bind _ _ _ _ Ho1). cbn [leaf_slots]. rewrite E2.
    by destruct (next_answer check _ ph) as [[out ph']|].
  - split; try done. by replace n with (n - 1 + 1) by lia.
Qed.

(** A scan of a healthy tree, and a client that takes up to [limit] records. *)
Lemma scan_range_ok {L : Limit} ps kmax T n tr D start stop limit : Done ps kmax T n tr D -> 1 <= n ->
  exists s', take_scan limit (scan start stop) tr =
      (set_store s' tr, Ok (take limit (map_range start stop (contents (flat T))))) /\ Done ps kmax T n (set_store s' tr) D.
Proof.
  intros Hd Hn. destruct limit as [|limit]; [exists (tr_store tr); by rewrite set_store_same|].
  destruct (scan_next_started ps kmax T n tr D (Ok tt) start stop Hd Hn) as (s1 & ph & E1 & Hd1 & Hp1).
  cbn [take_scan]. destruct (map_range start stop (contents (flat T))) as [|r l]; rewrite (bind_Ok _ _ _ _ _ E1); [by exists s1|].
  pose proof Hd1 as [_ Hr1 _ Hok Hs1 _].
  destruct (take_resumed T D (n - 1) ltac:(lia) (wf_chained _ _ _ (ok_wf _ _ _ Hok)) limit (with_phase ph (scan start stop)) (set_store s1 tr) l)
    as (s2 & E2 & Hr2 & Hs2); [done|by replace (n - 1 + 1) with n by lia|done|].
  exists s2. cbn [fst snd]. rewrite (bind_Ok _ _ _ _ _ E2). split; [done|]. destruct Hd1. split; try done.
  by replace n with (n - 1 + 1) by lia.
Qed.

Lemma moves_take_scan limit : forall g, moves StillFrame (take_scan limit g).
Proof.
  induction limit as [|limit IH]; intros g; cbn [take_scan]; [moves_tac|].
  refine (moves_bind _ _ _ _ _); [moves_tac|]. intros [[r|] g']; [|moves_tac].
  refine (moves_bind _ _ _ _ _); [apply IH|intros l; moves_tac].
Qed.
#[export] Hint Resolve moves_take_scan : moves.

(** The steps of a scan take nothing from the budget. *)
Lemma started_budget ps kmax T n N tr D check start stop : Budget ps kmax T n N tr D -> 1 <= n ->
  let rs := map_range start stop (contents (flat T)) in
  exists s' ph, scan_next check (scan start stop) tr =
      (set_store s' tr, result_map (fun a => (a.1, with_phase a.2 (scan start stop))) (next_answer check rs ph)) /\
    Budget ps kmax T n N (set_store s' tr) D /\ after_step T s' stop ph rs.
Proof.
  intros Hb Hn rs. destruct (budget_done _ _ _ _ _ _ _ Hb) as (L & HL & Hd). destruct Hb as [Hs _ Hle].
  destruct (scan_next_started ps kmax T n tr D check start stop Hd Hn) as (s' & ph & E & Hd' & Hp).
  exists s', ph. split; [done|]. split; [|done].
  rewrite <-(Z.sub_0_r n), <-(Z.sub_0_r N). eapply done_budget; [done|done|done|by rewrite Z.sub_0_r].
Qed.

Lemma resumed_budget ps kmax T n N tr D g l : Budget ps kmax T n N tr D -> 1 <= n ->
  pending T (tr_store tr) (sc_end g) (sc_phase g) l ->
  exists s' ph, scan_next (Ok tt) g tr = (set_store s' tr, Ok (head l, with_phase ph g)) /\
    Budget ps kmax T n N (set_store s' tr) D /\ after_step T s' (sc_end g) ph l.
Proof.
  intros [[Eps Hr Hroot Hok Hnx] Hs Hle] Hn Hp.
  destruct (scan_next_resumed T D (n - 1) ltac:(lia) g tr l (wf_chained _ _ _ (ok_wf _ _ _ Hok)) Hr)
    as (s' & ph & E & Hr' & Hs' & Hp'); [by replace (n - 1 + 1) with n by lia|done|].
  exists s', ph. split; [done|]. split; [|done]. split; [by split| |done]. by replace n with (n - 1 + 1) by lia.
Qed.
