(* ===== verification/TreeReads.v ===== *)
(** * Page objects under reading calls

    A search, a step of a scan and a flush create page objects and never change
    one: whatever a suspended scan refers to stays as it is, also when the pool
    evicts it. *)

From S2P Require Import Prelude Bytes Bisect Entities Codec Fs Pager Cache Tree.
From S2P Require Import CacheFacts TreeShape TreeStore TreeFrame TreeScan.

(** ** The store *)

Definition fresh_heap (s : Store) : Prop := forall l, heap_next (st_heap s) <= l -> object s l = None.

(** With an allocator that gives unused addresses, it still does, and no object
    has changed. *)
Definition ObjectsKept (s s' : Store) : Prop := fresh_heap s ->
  fresh_heap s' /\ forall l p, object s l = Some p -> object s' l = Some p.

#[export] Instance objects_kept_preorder : PreOrder ObjectsKept.
Proof.
  split; [by intros s|]. intros s1 s2 s3 H12 H23 H1. destruct (H12 H1) as [H2 K2], (H23 H2) as [H3 K3]. auto.
Qed.

Lemma kept_same_heap s s' : st_heap s' = st_heap s -> ObjectsKept s s'.
Proof. unfold ObjectsKept, fresh_heap, object. intros ->. auto. Qed.

Lemma kept_modify f : (forall s, st_heap (f s) = st_heap s) -> moves ObjectsKept (modify f).
Proof. intros H. apply moves_modify. intros s. by apply kept_same_heap. Qed.

Lemma kept_on_pager {A} (m : M Pager A) : moves ObjectsKept (on_pager m).
Proof. apply (moves_zoom _ (fun _ _ => True)); [|done]. intros s p _. by apply kept_same_heap. Qed.

Lemma kept_set_cache f : moves ObjectsKept (modify (fun s => set_cache (f s) s)).
Proof. by apply kept_modify. Qed.

Lemma kept_set_cache_to c : moves ObjectsKept (modify (set_cache c)).
Proof. by apply kept_modify. Qed.

Lemma kept_count_stat f : moves ObjectsKept (count_stat f).
Proof. by apply kept_modify. Qed.
#[export] Hint Resolve kept_on_pager kept_set_cache kept_set_cache_to kept_count_stat : moves.

Lemma kept_deref l : moves ObjectsKept (deref l).
Proof. unfold deref. moves_tac. Qed.

Lemma kept_new_object p : moves ObjectsKept (new_object p).
Proof.
  intros s Hs. unfold new_object. mrun. simpl. split.
  - intros l Hl. unfold object. simpl in *. rewrite lookup_insert_ne by lia. apply Hs. lia.
  - intros l q Hq. unfold object in *. simpl. rewrite lookup_insert_ne; [done|]. intros <-.
    pose proof (Hs _ (Z.le_refl _)) as E. unfold object in E. congruence.
Qed.

Lemma kept_evict : moves ObjectsKept evict_oldest_clean_page_if_full.
Proof. unfold evict_oldest_clean_page_if_full. moves_tac. Qed.
#[export] Hint Resolve kept_deref kept_new_object kept_evict : moves.

Lemma kept_pool_get id : moves ObjectsKept (pool_get id).
Proof. unfold pool_get. moves_tac. Qed.

Lemma kept_flush_entry e : moves ObjectsKept (flush_entry e).
Proof. unfold flush_entry. moves_tac. Qed.
#[export] Hint Resolve kept_pool_get kept_flush_entry : moves.

Lemma kept_flush_all : moves ObjectsKept flush_all.
Proof. unfold flush_all. moves_tac. by apply moves_mfor; [apply _|intros e; apply kept_flush_entry]. Qed.
#[export] Hint Resolve kept_flush_all : moves.

(** ** The tree *)

Definition TreeKept (t t' : BPlusTree) : Prop := ObjectsKept (tr_store t) (tr_store t').

#[export] Instance tree_kept_preorder : PreOrder TreeKept.
Proof. split; [by intros t|]. intros t1 t2 t3 A B. unfold TreeKept. by etransitivity. Qed.

Lemma kept_in_store {A} (m : M Store A) : moves ObjectsKept m -> moves TreeKept (in_store m).
Proof. apply moves_zoom. by intros t s Hs. Qed.

Lemma kept_in_pager {A} (m : M Pager A) : moves TreeKept (in_pager m).
Proof. apply kept_in_store, kept_on_pager. Qed.

Lemma kept_count_tree c : moves TreeKept (count_tree c).
Proof. apply moves_modify. by intros t. Qed.
#[export] Hint Resolve kept_in_store kept_in_pager kept_count_tree : moves.

Lemma kept_deref_leaf l : moves TreeKept (deref_leaf l).
Proof. unfold deref_leaf. moves_tac. Qed.

Lemma kept_root : moves TreeKept tree_root_page_id.
Proof. unfold tree_root_page_id. moves_tac. Qed.
#[export] Hint Resolve kept_deref_leaf kept_root : moves.

Lemma kept_descend fuel key : forall id page path, moves TreeKept (descend fuel key id page path).
Proof. induction fuel as [|fuel IH]; intros; simpl; moves_tac; apply IH. Qed.
#[export] Hint Resolve kept_descend : moves.

Lemma kept_find_leaf key : moves TreeKept (find_leaf key).
Proof. unfold find_leaf. moves_tac. Qed.
#[export] Hint Resolve kept_find_leaf : moves.

Lemma kept_search key : moves TreeKept (search key).
Proof. unfold search. moves_tac. Qed.

Lemma kept_scan_from fuel check e : forall page idx, moves TreeKept (scan_from fuel check e page idx).
Proof. induction fuel as [|fuel IH]; intros; simpl; moves_tac; apply IH. Qed.
#[export] Hint Resolve kept_scan_from : moves.

Lemma kept_scan_next check g : moves TreeKept (scan_next check g).
Proof. unfold scan_next. moves_tac. Qed.
#[export] Hint Resolve kept_search kept_scan_next : moves.

(** A suspended scan can go on where it was. *)
Lemma pending_kept T s s' e ph l : fresh_heap s -> ObjectsKept s s' -> pending T s e ph l -> pending T s' e ph l.
Proof.
  intros Hf Hk. destruct ph as [|page idx|]; [done| |done].
  intros (rest & (pre & id & link & slots & post & lsn & E & Ho & ->) & ->). destruct (Hk Hf) as [_ Hobj].
  exists (drop (S idx) slots ++ page_records post). split; [|done]. exists pre, id, link, slots, post, lsn. auto.
Qed.
