(* ===== verification/TreePages.v ===== *)
(** * The pages of a tree

    How the pages of a healthy tree refer to each other, and that the pages
    reached from the root are exactly those not on the freelist. *)

From S2P Require Import Prelude Bytes Bisect Entities Codec Fs Pager Cache Tree.
From S2P Require Import CodecFacts PagerFacts CacheFacts CacheOps.
From S2P Require Import TreeSizes TreeShape TreeSteps TreeSearch TreeStore TreeFind TreeSplit TreeBalance TreeRedistribute TreeBorrow.

(** ** References between pages *)

Lemma kids_nodes_in kt kids e : kt ∈ kids -> e ∈ nodes kt.2 -> e ∈ kids_nodes kids.
Proof.
  intros Hk He. apply list_elem_of_In, in_flat_map. exists kt. split; by apply list_elem_of_In.
Qed.

Lemma kids_nodes_elem e kids : e ∈ kids_nodes kids -> exists kt, kt ∈ kids /\ e ∈ nodes kt.2.
Proof.
  intros He. apply list_elem_of_In, in_flat_map in He as (kt & Hk & He). exists kt. by split; apply list_elem_of_In.
Qed.

Lemma nodes_Node id c kids : nodes (Node id c kids) = (id, internal_of (tid c) (kid_slot <$> kids)) :: nodes c ++ kids_nodes kids.
Proof. apply (nodes_below (Node id c kids)). Qed.

Lemma leaves_Node id c kids : leaves (Node id c kids) = leaves c ++ kids_leaves kids.
Proof. done. Qed.

(** The pages of a tree that are leaves, with their links. *)
Lemma leaf_in_leaves t id link slots : (id, leaf_of link slots) ∈ nodes t -> (id, link) ∈ leaves t.
Proof.
  induction t as [i l s|i c kids IHc IHk] using tree_induction; intros H.
  - apply list_elem_of_singleton in H as [= -> -> ->]. left.
  - rewrite nodes_Node, elem_of_cons, elem_of_app in H. rewrite leaves_Node, elem_of_app.
    destruct H as [[=]|[H|H]]; [left; auto|right].
    apply kids_nodes_elem in H as (kt & Hk & He). rewrite Forall_forall in IHk. specialize (IHk kt Hk He).
    apply list_elem_of_In, in_flat_map. exists kt. split; by apply list_elem_of_In.
Qed.

Lemma leaves_sub t i l : (i, l) ∈ leaves t -> i ∈ (nodes t).*1.
Proof.
  induction t as [id link s|id c kids IHc IHk] using tree_induction; intros H.
  - apply list_elem_of_singleton in H as [= -> ->]. left.
  - rewrite nodes_Node, fmap_cons, fmap_app. rewrite leaves_Node, elem_of_app in H. right. apply elem_of_app.
    destruct H as [H|H]; [left; auto|right].
    apply list_elem_of_In, in_flat_map in H as (kt & Hk & H). rewrite Forall_forall in IHk.
    apply list_elem_of_In in Hk, H. specialize (IHk kt Hk H). apply list_elem_of_fmap in IHk as (e & -> & He).
    apply list_elem_of_fmap. exists e. split; [done|]. by eapply kids_nodes_in.
Qed.

Lemma chained_link l e i k : chained l e -> (i, k) ∈ l -> k = e \/ k ∈ l.*1.
Proof.
  induction l as [|[j r] l IH]; [by intros _ ?%elem_of_nil|]. simpl. intros [Hr Hc] [[= <- <-]|H]%elem_of_cons.
  - rewrite Hr. destruct l as [|[j' r'] l]; [by left|right]. simpl. rewrite !elem_of_cons. tauto.
  - destruct (IH Hc H) as [?|?]; [by left|right]. by right.
Qed.

(** The children of an internal page are pages of the tree. *)
Lemma child_in_nodes t id lm slots : (id, internal_of lm slots) ∈ nodes t ->
  lm ∈ (nodes t).*1 /\ Forall (fun s => child_page_id s ∈ (nodes t).*1) slots.
Proof.
  assert (forall t, tid t ∈ (nodes t).*1) as Hroot by (intros t0; rewrite nodes_below; left).
  assert (forall kt (kids : list (bytes * tree)), kt ∈ kids -> tid kt.2 ∈ (kids_nodes kids).*1) as Hkid.
  { intros kt kids Hk. specialize (Hroot kt.2). apply list_elem_of_fmap in Hroot as (e & -> & He).
    apply list_elem_of_fmap. exists e. split; [done|]. by eapply kids_nodes_in. }
  induction t as [i l s|i c kids IHc IHk] using tree_induction; intros H.
  - apply list_elem_of_singleton in H as [=].
  - rewrite nodes_Node, elem_of_cons, elem_of_app in H. rewrite nodes_Node, fmap_cons, fmap_app.
    assert (forall x, x ∈ (nodes c).*1 \/ x ∈ (kids_nodes kids).*1 -> x ∈ i :: (nodes c).*1 ++ (kids_nodes kids).*1) as Hin
      by (intros x Hx; right; by apply elem_of_app).
    destruct H as [[= -> -> ->]|[H|H]].
    + split; [apply Hin; by left|]. apply Forall_fmap, Forall_forall. intros kt Hk. apply Hin. right. by apply Hkid.
    + destruct (IHc H) as [H1 H2]. split; [apply Hin; by left|]. eapply Forall_impl; [exact H2|]. intros s Hs. apply Hin. by left.
    + apply kids_nodes_elem in H as (kt & Hk & He). rewrite Forall_forall in IHk. destruct (IHk kt Hk He) as [H1 H2].
      assert (forall x, x ∈ (nodes kt.2).*1 -> x ∈ (kids_nodes kids).*1) as Hsub.
      { intros x (e & -> & Hx)%list_elem_of_fmap. apply list_elem_of_fmap. exists e. split; [done|]. by eapply kids_nodes_in. }
      split; [apply Hin; right; auto|]. eapply Forall_impl; [exact H2|]. intros s Hs. apply Hin. right. auto.
Qed.

(** ** Reachability in the store *)

(** The page the store holds under an id, in the pool or else in the file. *)
Definition page_now (s : Store) (i : Z) : option Page :=
  match cache_find i (cache_of s) with
  | Some cp => heap_objects (st_heap s) !! cp_page cp
  | None =>
      match pg_disk (st_pager s) with
      | Some f => disk_page f (pg_page_size_bytes (st_pager s)) i
      | None => None
      end
  end.

(** The pages a descent can come to. *)
Inductive reachable (s : Store) : Z -> Prop :=
  | reach_root m : pg_meta_page (st_pager s) = Some m -> reachable s (root_page_id m)
  | reach_child i p j : reachable s i -> page_now s i = Some (PInternal p) ->
      j ∈ leftmost_child_page_id p :: (child_page_id <$> internal_slots p) -> reachable s j.

Lemma page_now_view pend s D i : StoreInv pend s D -> page_now s i = view s D i.
Proof.
  intros Hinv. unfold page_now, view, entry, object, on_disk. destruct (cache_find i (cache_of s)); [done|].
  by rewrite (inv_disk _ _ _ _ _ (si_pager _ _ _ Hinv)), (si_ps _ _ _ Hinv).
Qed.

Section reachability.
Context (s : Store) (D : Disk) (T : tree) (Hr : Rep ∅ ∅ s D (nodes T)) (Hroot : root_page_id (dk_meta D) = tid T).

Lemma node_now id q : (id, q) ∈ nodes T -> exists p, page_now s id = Some p /\ erase p = q.
Proof.
  intros Hin. destruct (rep_member _ _ _ _ _ _ Hr Hin) as (_ & (p & Hv & Hq & _) & _). exists p.
  by rewrite (page_now_view ∅ s D id (rep_inv _ _ _ _ _ Hr)).
Qed.

Lemma reachable_in i : reachable s i -> i ∈ (nodes T).*1.
Proof.
  induction 1 as [m Hm|i p j _ IH Hp Hj].
  - rewrite (inv_meta _ _ _ _ _ (si_pager _ _ _ (rep_inv _ _ _ _ _ Hr))) in Hm. injection Hm as <-.
    rewrite Hroot, nodes_below. left.
  - apply list_elem_of_fmap in IH as ([i' q] & -> & Hin). destruct (node_now _ _ Hin) as (p' & Hp' & Hq).
    simpl in Hp. rewrite Hp in Hp'. injection Hp' as <-. subst q. destruct p as [lsn lm slots].
    destruct (child_in_nodes T i' lm slots Hin) as [Hlm Hs]. simpl in Hj.
    apply elem_of_cons in Hj as [->|Hj]; [done|]. apply list_elem_of_fmap in Hj as (sl & -> & Hsl).
    rewrite Forall_forall in Hs. by apply Hs.
Qed.

Lemma in_reachable t : (forall e, e ∈ nodes t -> e ∈ nodes T) -> reachable s (tid t) -> forall e, e ∈ nodes t -> reachable s e.1.
Proof.
  induction t as [id link slots|id c kids IHc IHk] using tree_induction; intros Hsub Ht e He.
  - by apply list_elem_of_singleton in He as ->.
  - assert (forall j, j ∈ tid c :: (child_page_id <$> (kid_slot <$> kids)) -> reachable s j) as Hch.
    { intros j Hj. destruct (node_now id (internal_of (tid c) (kid_slot <$> kids))) as (p & Hp & Hq); [apply Hsub; left|].
      apply erase_internal in Hq as (lsn & ->). by apply (reach_child s id _ j Ht Hp). }
    rewrite nodes_Node, elem_of_cons, elem_of_app in He. destruct He as [->|[He|He]]; [done| |].
    + apply IHc; [|apply Hch; left|done]. intros x Hx. apply Hsub. rewrite nodes_Node. right. apply elem_of_app. by left.
    + apply kids_nodes_elem in He as (kt & Hk & He). rewrite Forall_forall in IHk. apply (IHk kt Hk); [| |done].
      * intros x Hx. apply Hsub. rewrite nodes_Node. right. apply elem_of_app. right. by eapply kids_nodes_in.
      * apply Hch. right. rewrite <-list_fmap_compose. apply list_elem_of_fmap. by exists kt.
Qed.

(** A page is reached from the root exactly when it is in use. *)
Lemma reachable_usable i : reachable s i <-> usable D i.
Proof.
  rewrite (rep_usable _ _ _ _ _ Hr). split.
  - intros H. left. by apply reachable_in.
  - intros [H|?%elem_of_empty]; [|done]. apply list_elem_of_fmap in H as (e & -> & He).
    apply (in_reachable T); [done| |done]. rewrite <-Hroot.
    apply (reach_root s), (inv_meta _ _ _ _ _ (si_pager _ _ _ (rep_inv _ _ _ _ _ Hr))).
Qed.
End reachability.

(** ** The freelist as the pager has it *)

(** [free] is the freelist: its own pages, chained from the head the meta page
    has, followed by the ids they list. *)
Definition freelist (s : Store) (free : list Z) : Prop :=
  exists f m heads freed, pg_disk (st_pager s) = Some f /\ pg_meta_page (st_pager s) = Some m /\
    chain (freelist_at (st_pager s) f) (freelist_head_page_id m) heads freed /\ free = heads ++ freed.

(** The number of pages the file has. *)
Definition page_total (s : Store) : Z :=
  match pg_meta_page (st_pager s) with Some m => next_page_id m | None => 0 end.

(** Every page but the meta page is either reached from the root or free, and
    free once only. *)
Definition accounted (s : Store) (free : list Z) : Prop :=
  NoDup free /\ Forall (fun i => 0 < i < page_total s) free /\
  forall i, reachable s i <-> 0 < i < page_total s /\ i ∉ free.

Lemma rep_accounted s D T : Rep ∅ ∅ s D (nodes T) -> root_page_id (dk_meta D) = tid T ->
  exists free, freelist s free /\ accounted s free.
Proof.
  intros Hr Hroot. pose proof (si_pager _ _ _ (rep_inv _ _ _ _ _ Hr)) as Hp.
  pose proof (inv_meta _ _ _ _ _ Hp) as Hm.
  exists (dk_heads D ++ dk_freed D). split.
  - exists (dk_file D), (dk_meta D), (dk_heads D), (dk_freed D). split; [apply Hp|]. split; [done|]. split; [apply Hp|done].
  - unfold accounted, page_total. rewrite Hm. split; [apply Hp|]. split; [apply Hp|].
    intros i. by apply (reachable_usable s D T).
Qed.

(** ** Pages by kind and level *)

Definition page_is (f : Page -> bool) (s : Store) (i : Z) : bool :=
  match page_now s i with Some p => f p | None => false end.

(** The page [i] is [n] steps below the root. *)
Inductive at_level (s : Store) : nat -> Z -> Prop :=
  | level_root m : pg_meta_page (st_pager s) = Some m -> at_level s 0 (root_page_id m)
  | level_child n i p j : at_level s n i -> page_now s i = Some (PInternal p) ->
      j ∈ leftmost_child_page_id p :: (child_page_id <$> internal_slots p) -> at_level s (S n) j.

Section levels.
Context (s : Store) (D : Disk) (T : tree) (Hr : Rep ∅ ∅ s D (nodes T)) (Hroot : root_page_id (dk_meta D) = tid T).

Lemma page_is_node f id q : (forall p, f (erase p) = f p) -> (id, q) ∈ nodes T -> page_is f s id = f q.
Proof.
  intros Hf Hin. destruct (node_now s D T Hr _ _ Hin) as (p & Hp & Hq). unfold page_is. by rewrite Hp, <-Hq, Hf.
Qed.

(** The subtree of a page. *)
Definition subtree_at (k n : nat) (i : Z) : Prop :=
  exists t, (forall e, e ∈ nodes t -> e ∈ nodes T) /\ tid t = i /\ (n <= k)%nat /\ uniform (k - n) t.

Lemma level_subtree k n i : uniform k T -> at_level s n i -> subtree_at k n i.
Proof.
  intros Hu. induction 1 as [m Hm|n i p j _ (t & Hsub & Hid & Hn & Hut) Hp Hj].
  - rewrite (inv_meta _ _ _ _ _ (si_pager _ _ _ (rep_inv _ _ _ _ _ Hr))) in Hm. injection Hm as <-.
    exists T. rewrite Nat.sub_0_r. split; [done|]. split; [done|]. split; [lia|done].
  - destruct t as [id link slots|id c kids]; simpl in Hid; subst id.
    + destruct (node_now s D T Hr i (leaf_of link slots)) as (q & Hq & He); [apply Hsub; left|].
      rewrite Hp in Hq. injection Hq as <-. done.
    + destruct (node_now s D T Hr i (internal_of (tid c) (kid_slot <$> kids))) as (q & Hq & He); [apply Hsub; rewrite nodes_Node; left|].
      rewrite Hp in Hq. injection Hq as <-. apply erase_internal in He as (lsn & [= ->]).
      destruct (k - n)%nat as [|k'] eqn:Ek; [done|]. destruct Hut as [Huc Huk]. simpl in Hj.
      apply elem_of_cons in Hj as [->|Hj].
      * exists c. replace (k - S n)%nat with k' by lia. split; [|split; [done|split; [lia|done]]].
        intros e He. apply Hsub. rewrite nodes_Node. right. apply elem_of_app. by left.
      * rewrite <-list_fmap_compose in Hj. apply list_elem_of_fmap in Hj as (kt & -> & Hk). rewrite Forall_forall in Huk.
        exists kt.2. replace (k - S n)%nat with k' by lia. split; [|split; [done|split; [lia|by apply Huk]]].
        intros e He. apply Hsub. rewrite nodes_Node. right. apply elem_of_app. right. by eapply kids_nodes_in.
Qed.

(** All leaves are on the last level, and nothing else is. *)
Lemma level_kind k n i : uniform k T -> at_level s n i -> (n <= k)%nat /\ (page_is is_leaf s i = true <-> n = k).
Proof.
  intros Hu Hl. destruct (level_subtree k n i Hu Hl) as (t & Hsub & <- & Hn & Hut). split; [done|].
  rewrite (page_is_node is_leaf (tid t) (root_of t)); [|by intros []|apply Hsub; rewrite nodes_below; left].
  destruct t, (k - n)%nat as [|k'] eqn:Ek; try done; simpl; split; (done || lia).
Qed.

(** Counting the pages that can be reached is counting the nodes. *)
Lemma reachable_nodes : NoDup (nodes T).*1 /\ (forall i, i ∈ (nodes T).*1 <-> reachable s i) /\
  forall f, (forall p, f (erase p) = f p) ->
    length (filter (fun i => page_is f s i = true) (nodes T).*1) = length (filter (fun q => f q = true) (nodes T).*2).
Proof.
  split; [apply Hr|]. split.
  - intros i. rewrite (reachable_usable s D T Hr Hroot), (rep_usable _ _ _ _ _ Hr).
    split; [by left|]. intros [?|?%elem_of_empty]; done.
  - intros f Hf. assert (forall l, (forall e, e ∈ l -> e ∈ nodes T) ->
      length (filter (fun i => page_is f s i = true) l.*1) = length (filter (fun q => f q = true) l.*2)) as H; [|by apply H].
    induction l as [|[id q] l IH]; intros Hin; [done|]. rewrite !fmap_cons, !filter_cons. simpl.
    rewrite (page_is_node f id q Hf) by (apply Hin; left). specialize (IH (fun e He => Hin e (list_elem_of_further _ _ _ He))).
    case_decide; simpl; by rewrite IH.
Qed.
End levels.
