(* ===== verification/DebugWalk.v ===== *)
(** * The breadth-first walk of a healthy tree

    [bfs_walk_tree] makes one node per page of the tree, level by level, with
    the children of each in order; the objects of the nodes are those of the
    pool, and stay as they are while the walk fetches others. *)

From S2P Require Import Prelude Bytes Entities Codec Fs Pager Cache Tree Debug.
From S2P Require Import PagerFacts CacheFacts TreeShape TreeSteps TreeStore TreeFind TreeFrame TreePages TreeReads.

(** ** The levels of a tree *)

Definition subtrees (t : tree) : list tree :=
  match t with Leaf _ _ _ => [] | Node _ c kids => c :: kids.*2 end.

Definition next_level (l : list tree) : list tree := flat_map subtrees l.

(** The levels below and including [l], for trees of height [h]. *)
Fixpoint tree_levels (h : nat) (l : list tree) : list (list tree) :=
  match h with
  | O => [l]
  | S h => l :: tree_levels h (next_level l)
  end.

Lemma uniform_subtrees h t : uniform (S h) t -> Forall (uniform h) (subtrees t).
Proof.
  destruct t as [|id c kids]; [done|]. intros [Hc Hk]. constructor; [done|]. apply Forall_fmap. exact Hk.
Qed.

Lemma uniform_next h l : Forall (uniform (S h)) l -> Forall (uniform h) (next_level l).
Proof.
  induction 1 as [|t l Ht Hl IH]; [constructor|]. simpl. apply Forall_app. split; [by apply uniform_subtrees|done].
Qed.

Lemma uniform_leaf t : uniform 0 t -> exists id link slots, t = Leaf id link slots.
Proof. destruct t as [id link slots|]; [|done]. by exists id, link, slots. Qed.

Lemma next_level_leaves l : Forall (uniform 0) l -> next_level l = [].
Proof. induction 1 as [|t l Ht Hl IH]; [done|]. apply uniform_leaf in Ht as (? & ? & ? & ->). done. Qed.

Lemma nodes_subtrees t : nodes t = (tid t, root_of t) :: flat_map nodes (subtrees t).
Proof.
  destruct t as [|id c kids]; [done|]. simpl. do 2 f_equal. induction kids as [|kt kids IH]; [done|]. simpl. by rewrite IH.
Qed.

(** One node per page. *)
Lemma levels_size h : forall l, Forall (uniform h) l -> length (concat (tree_levels h l)) = length (flat_map nodes l).
Proof.
  assert (forall l, length (flat_map nodes l) = length l + length (flat_map nodes (next_level l)))%nat as Hstep.
  { induction l as [|t l IH]; [done|]. cbn [flat_map length next_level]. rewrite length_app, nodes_subtrees, IH.
    fold (next_level l). rewrite flat_map_app, length_app. simpl. lia. }
  induction h as [|h IH]; intros l Hu.
  - rewrite Hstep, (next_level_leaves l Hu). simpl. by rewrite app_nil_r, Nat.add_0_r.
  - rewrite Hstep. cbn [tree_levels concat]. rewrite length_app. f_equal. apply IH. by apply uniform_next.
Qed.

Lemma subtrees_nodes t u e : u ∈ subtrees t -> e ∈ nodes u -> e ∈ below t.
Proof.
  destruct t as [|id c kids]; [by intros ?%elem_of_nil|]. cbn [subtrees below]. rewrite elem_of_cons, elem_of_app.
  intros [->|H] He; [by left|right]. apply list_elem_of_fmap in H as (kt & -> & Hk). by eapply kids_nodes_in.
Qed.

Lemma below_nodes t e : e ∈ below t -> e ∈ nodes t.
Proof. rewrite nodes_below. by right. Qed.

(** ** Nodes *)

(** The node [nd] stands for the tree [t]. *)
Definition shows (s : Store) (nd : BPlusTreeNode) (t : tree) : Prop :=
  node_page_id nd = tid t /\ exists p, object s (node_page nd) = Some p /\ erase p = root_of t.

Lemma shows_kept s s' nd t : fresh_heap s -> ObjectsKept s s' -> shows s nd t -> shows s' nd t.
Proof. intros Hf Hk (Hid & p & Ho & Hq). destruct (Hk Hf) as [_ H]. split; [done|]. exists p. auto. Qed.

(** The nodes stand for the trees [gs]; node [i] has been given the children
    [kids i]. *)
Record Walked (s : Store) (ns : list BPlusTreeNode) (gs : list tree) (kids : nat -> list tree) : Prop := {
  wa_length : length ns = length gs;
  wa_shows : forall i nd t, ns !! i = Some nd -> gs !! i = Some t -> shows s nd t;
  wa_kids : forall i nd, ns !! i = Some nd -> Forall2 (fun c u => gs !! c = Some u) (node_children nd) (kids i);
}.

Lemma walked_kept s s' ns gs kids : fresh_heap s -> ObjectsKept s s' -> Walked s ns gs kids -> Walked s' ns gs kids.
Proof. intros Hf Hk []. split; try done. intros i nd t Hn Ht. eapply shows_kept; eauto. Qed.

Lemma walked_ext s ns gs kids kids' : (forall i, (i < length gs)%nat -> kids i = kids' i) -> Walked s ns gs kids -> Walked s ns gs kids'.
Proof.
  intros H [Hl Hs Hk]. split; [done..|]. intros i nd Hn. rewrite <-H; [by apply Hk|]. rewrite <-Hl. by eapply lookup_lt_Some.
Qed.

Lemma walked_at s ns gs kids i t : Walked s ns gs kids -> gs !! i = Some t -> exists nd, ns !! i = Some nd /\ shows s nd t.
Proof.
  intros [Hl Hs _] Ht. destruct (lookup_lt_is_Some_2 ns i) as [nd Hn]; [rewrite Hl; by eapply lookup_lt_Some|].
  exists nd. split; [done|]. by eapply Hs.
Qed.

(** ** The children of a node *)

Section walk.
Context (T : tree) (D : Disk) (n : Z) (Hn : 0 <= n).

(** The store during the walk. *)
Definition walking (s : Store) : Prop := Rep ∅ ∅ s D (nodes T) /\ slack s (n + 1).

Lemma walking_fresh s : walking s -> fresh_heap s.
Proof. intros [Hr _]. exact (si_fresh _ _ _ (rep_inv _ _ _ _ _ Hr)). Qed.

Lemma node_of_page tr t : walking (tr_store tr) -> (forall e, e ∈ nodes t -> e ∈ nodes T) ->
  exists s' nd, page_id_to_node (tid t) tr = (set_store s' tr, Ok nd) /\ walking s' /\
    ObjectsKept (tr_store tr) s' /\ shows s' nd t /\ node_children nd = [].
Proof.
  intros [Hr Hs] Hsub.
  destruct (rep_fetch _ D _ (tid t) (root_of t) n Hr ltac:(apply Hsub; rewrite nodes_below; left) Hs Hn)
    as (s' & l & p & E & Hr' & Hs' & Ho & Hq).
  exists s', {| node_page_id := tid t; node_page := l; node_children := [] |}. unfold page_id_to_node.
  rewrite (in_store_bind _ _ _ _ _ E). split; [done|]. split; [done|]. split; [|split; [split; [done|by exists p]|done]].
  pose proof (kept_pool_get (tid t) (tr_store tr)) as H. by rewrite E in H.
Qed.

Definition one_more (k : nat) (u : tree) (kids : nat -> list tree) (i : nat) : list tree :=
  if decide (i = k) then kids i ++ [u] else kids i.

Lemma child_ok k lv w u tr gs kids : walking (tr_store tr) -> (forall e, e ∈ nodes u -> e ∈ nodes T) ->
  Walked (tr_store tr) (wk_nodes w) gs kids -> kids (length gs) = [] -> (k < length gs)%nat ->
  exists s' ns', add_child k lv w (tid u) tr =
      (set_store s' tr, Ok {| wk_nodes := ns'; wk_queue := wk_queue w ++ [(length gs, S lv)]; wk_result := wk_result w |}) /\
    walking s' /\ ObjectsKept (tr_store tr) s' /\ Walked s' ns' (gs ++ [u]) (one_more k u kids).
Proof.
  intros Hw Hsub Hwa Hnew Hk. destruct (node_of_page tr u Hw Hsub) as (s' & nd & E & Hw' & Hkept & Hsh & Hch).
  destruct (walked_kept _ s' _ _ _ (walking_fresh _ Hw) Hkept Hwa) as [Hl Hs Hkids].
  unfold add_child. rewrite (bind_Ok _ _ _ _ _ E), Hl. eexists s', _. split; [done|]. split; [done|]. split; [done|].
  assert (forall (l : list nat) us, Forall2 (fun c u' => gs !! c = Some u') l us -> Forall2 (fun c u' => (gs ++ [u]) !! c = Some u') l us) as Hmore.
  { intros l us H. eapply Forall2_impl; [exact H|]. intros c u' Hc. by apply lookup_app_l_Some. }
  split.
  - rewrite !length_app, length_alter. simpl. lia.
  - intros i nd' t Hi Ht. apply lookup_app_Some in Hi as [Hi|[Hi Hn']].
    + assert (i < length gs)%nat as Hlt by (rewrite <-Hl; apply lookup_lt_Some in Hi; by rewrite length_alter in Hi).
      rewrite lookup_app_l in Ht by done. destruct (decide (i = k)) as [->|Hne].
      * rewrite list_lookup_alter_eq in Hi. apply fmap_Some in Hi as (nd0 & Hi & ->). exact (Hs k nd0 t Hi Ht).
      * rewrite list_lookup_alter_ne in Hi by done. by apply (Hs i).
    + rewrite length_alter in Hi, Hn'. apply list_lookup_singleton_Some in Hn' as [Hi0 <-].
      rewrite lookup_app_r in Ht by lia. replace (i - length gs)%nat with 0%nat in Ht by lia. by injection Ht as <-.
  - intros i nd' Hi. unfold one_more. apply lookup_app_Some in Hi as [Hi|[Hi Hn']].
    + destruct (decide (i = k)) as [->|Hne].
      * rewrite list_lookup_alter_eq in Hi. apply fmap_Some in Hi as (nd0 & Hi & ->). simpl.
        apply Forall2_app; [apply Hmore; by apply Hkids|]. constructor; [|constructor]. by rewrite lookup_app_r, Nat.sub_diag by lia.
      * rewrite list_lookup_alter_ne in Hi by done. apply Hmore. by apply Hkids.
    + rewrite length_alter in Hi, Hn'. apply list_lookup_singleton_Some in Hn' as [Hi0 <-].
      assert (i = length gs) as -> by lia. rewrite decide_False by lia. by rewrite Hch, Hnew.
Qed.

Definition more (k : nat) (us : list tree) (kids : nat -> list tree) (i : nat) : list tree :=
  if decide (i = k) then kids i ++ us else kids i.

Lemma children_ok k lv us : forall w tr gs kids, walking (tr_store tr) -> Forall (fun u => forall e, e ∈ nodes u -> e ∈ nodes T) us ->
  Walked (tr_store tr) (wk_nodes w) gs kids -> (forall i, (length gs <= i)%nat -> kids i = []) -> (k < length gs)%nat ->
  exists s' ns', add_children k lv w (tid <$> us) tr =
      (set_store s' tr, Ok {| wk_nodes := ns'; wk_queue := wk_queue w ++ ((., S lv) <$> seq (length gs) (length us)); wk_result := wk_result w |}) /\
    walking s' /\ ObjectsKept (tr_store tr) s' /\ Walked s' ns' (gs ++ us) (more k us kids).
Proof.
  induction us as [|u us IH]; intros w tr gs kids Hw Hsub Hwa Hnew Hk.
  - exists (tr_store tr), (wk_nodes w). simpl. rewrite !app_nil_r, set_store_same. split; [by destruct w|]. split; [done|]. split; [done|].
    eapply walked_ext; [|exact Hwa]. intros i _. unfold more. case_decide; [by rewrite app_nil_r|done].
  - apply Forall_cons in Hsub as [Hu Hsub].
    destruct (child_ok k lv w u tr gs kids Hw Hu Hwa (Hnew _ (le_n _)) Hk) as (s1 & ns1 & E1 & Hw1 & Hk1 & Hwa1).
    destruct (IH {| wk_nodes := ns1; wk_queue := wk_queue w ++ [(length gs, S lv)]; wk_result := wk_result w |}
      (set_store s1 tr) (gs ++ [u]) (one_more k u kids) Hw1 Hsub Hwa1) as (s2 & ns2 & E2 & Hw2 & Hk2 & Hwa2).
    { intros i Hi. rewrite length_app in Hi. simpl in Hi. unfold one_more. rewrite decide_False by lia. apply Hnew. lia. }
    { rewrite length_app. lia. }
    exists s2, ns2. cbn [fmap list_fmap add_children]. rewrite (bind_Ok _ _ _ _ _ E1). rewrite length_app in E2. cbn [length] in E2.
    rewrite E2. cbn [wk_queue wk_result]. rewrite <-!app_assoc, Nat.add_1_r in *. split; [done|]. split; [done|].
    split; [by etransitivity|]. eapply walked_ext; [|exact Hwa2]. intros i _. unfold more, one_more.
    case_decide; [|done]. by rewrite <-app_assoc.
Qed.

(** ** A level *)

(** The levels so far, the last of them, [acc], perhaps not begun. *)
Definition level_so_far (acc : list nat) : list (list nat) := match acc with [] => [] | _ => [acc] end.

Lemma add_to_level_ok lv x prev acc : length prev = lv ->
  add_to_level lv x (prev ++ level_so_far acc) = prev ++ level_so_far (acc ++ [x]).
Proof.
  intros Hl. unfold add_to_level. rewrite length_app, Hl. destruct acc as [|a acc]; cbn [level_so_far length app].
  - rewrite app_nil_r, (proj2 (Nat.ltb_lt _ _)) by lia. rewrite alter_app_r_alt by lia. by rewrite Hl, Nat.sub_diag.
  - rewrite (proj2 (Nat.ltb_ge _ _)) by lia. rewrite alter_app_r_alt by lia. by rewrite Hl, Nat.sub_diag.
Qed.

(** The first [k] of the trees [gs] have all their children among the nodes,
    the others none. *)
Definition visited (gs : list tree) (kids : nat -> list tree) (k : nat) : Prop :=
  (forall i t, (i < k)%nat -> gs !! i = Some t -> kids i = subtrees t) /\ forall i, (k <= i)%nat -> kids i = [].

Lemma visited_more gs kids k t : visited gs kids k -> gs !! k = Some t ->
  visited (gs ++ subtrees t) (more k (subtrees t) kids) (S k).
Proof.
  intros [H1 H2] Ht. pose proof (lookup_lt_Some _ _ _ Ht). split.
  - intros i u Hi Hu. rewrite lookup_app_l in Hu by lia. unfold more. case_decide as Hik; [subst i|].
    + rewrite Ht in Hu. injection Hu as <-. by rewrite H2.
    + apply H1; [lia|done].
  - intros i Hi. unfold more. rewrite decide_False by lia. apply H2. lia.
Qed.

(** Visiting a node: its children are made and queued. *)
Lemma visit_ok fuel k lv queue w tr gs kids t : walking (tr_store tr) -> (forall e, e ∈ nodes t -> e ∈ nodes T) ->
  Walked (tr_store tr) (wk_nodes w) gs kids -> visited gs kids k -> gs !! k = Some t -> wk_queue w = (k, lv) :: queue ->
  exists s' ns' kids', bfs_loop (S fuel) w tr =
      bfs_loop fuel {| wk_nodes := ns'; wk_queue := queue ++ ((., S lv) <$> seq (length gs) (length (subtrees t)));
                       wk_result := add_to_level lv k (wk_result w) |} (set_store s' tr) /\
    walking s' /\ ObjectsKept (tr_store tr) s' /\ Walked s' ns' (gs ++ subtrees t) kids' /\ visited (gs ++ subtrees t) kids' (S k).
Proof.
  intros Hw Hsub Hwa Hv Ht Hq. destruct (walked_at _ _ _ _ _ _ Hwa Ht) as (nd & Hnd & _ & p & Ho & Hp).
  pose proof (lookup_lt_Some _ _ _ Ht) as Hk. cbn [bfs_loop]. rewrite Hq. cbn [wk_nodes]. rewrite Hnd.
  rewrite (in_store_bind _ _ _ _ _ (deref_run _ _ _ Ho)), set_store_same.
  pose proof (visited_more gs kids k t Hv Ht) as Hv'. destruct t as [id link slots|id c kts]; simpl in Hp.
  - apply erase_leaf in Hp as (lsn & ->). exists (tr_store tr), (wk_nodes w), (more k [] kids).
    cbn [subtrees length seq fmap list_fmap] in *. rewrite !app_nil_r in *. rewrite set_store_same.
    split; [done|]. split; [done|]. split; [done|]. split; [|done]. eapply walked_ext; [|exact Hwa].
    intros i _. unfold more. by case_decide; [rewrite app_nil_r|].
  - apply erase_internal in Hp as (lsn & ->).
    set (w' := {| wk_nodes := wk_nodes w; wk_queue := queue; wk_result := add_to_level lv k (wk_result w) |}).
    assert (child_ids {| internal_lsn := lsn; leftmost_child_page_id := tid c; internal_slots := kid_slot <$> kts |} =
      tid <$> subtrees (Node id c kts)) as ->.
    { unfold child_ids. cbn [leftmost_child_page_id internal_slots subtrees fmap list_fmap]. f_equal. by rewrite <-!list_fmap_compose. }
    destruct (children_ok k lv (subtrees (Node id c kts)) w' tr gs kids Hw) as (s1 & ns1 & E1 & Hw1 & Hk1 & Hwa1); [|done| |done|].
    { apply Forall_forall. intros u Hu e He. by apply Hsub, below_nodes, (subtrees_nodes _ u). }
    { intros i Hi. apply Hv. lia. }
    exists s1, ns1, (more k (subtrees (Node id c kts)) kids). by rewrite (bind_Ok _ _ _ _ _ E1).
Qed.

Lemma level_ok lv prev cur : forall fuel w tr gs kids k nxt acc, walking (tr_store tr) ->
  Forall (fun t => forall e, e ∈ nodes t -> e ∈ nodes T) cur ->
  Walked (tr_store tr) (wk_nodes w) gs kids -> visited gs kids k ->
  (forall j t, cur !! j = Some t -> gs !! (k + j)%nat = Some t) -> length gs = (k + length cur + length nxt)%nat ->
  wk_queue w = ((., lv) <$> seq k (length cur)) ++ ((., S lv) <$> seq (k + length cur) (length (nxt : list tree))) ->
  wk_result w = prev ++ level_so_far acc -> length prev = lv ->
  exists s' ns' kids', bfs_loop (length cur + fuel) w tr =
      bfs_loop fuel {| wk_nodes := ns'; wk_queue := (., S lv) <$> seq (k + length cur) (length (nxt ++ next_level cur));
                       wk_result := prev ++ level_so_far (acc ++ seq k (length cur)) |} (set_store s' tr) /\
    walking s' /\ ObjectsKept (tr_store tr) s' /\ Walked s' ns' (gs ++ next_level cur) kids' /\
    visited (gs ++ next_level cur) kids' (k + length cur).
Proof.
  induction cur as [|t cur IH]; intros fuel w tr gs kids k nxt acc Hw Hsub Hwa Hv Hcur Hlen Hq Hres Hprev.
  - exists (tr_store tr), (wk_nodes w), kids. simpl in *. rewrite Nat.add_0_r, !app_nil_r in *. rewrite set_store_same.
    split; [|done]. destruct w as [ns q r]. simpl in *. by subst.
  - apply Forall_cons in Hsub as [Ht Hsub]. pose proof (Hcur 0%nat t eq_refl) as Hk. rewrite Nat.add_0_r in Hk.
    cbn [length seq fmap list_fmap app plus] in *.
    destruct (visit_ok (length cur + fuel) k lv _ w tr gs kids t Hw Ht Hwa Hv Hk Hq) as (s1 & ns1 & kids1 & E1 & Hw1 & Hk1 & Hwa1 & Hv1).
    rewrite E1. match goal with |- context [bfs_loop _ ?x _] => set (w1 := x) end.
    destruct (IH fuel w1 (set_store s1 tr) (gs ++ subtrees t) kids1 (S k) (nxt ++ subtrees t) (acc ++ [k]) Hw1 Hsub Hwa1 Hv1)
      as (s2 & ns2 & kids2 & E2 & Hw2 & Hk2 & Hwa2 & Hv2).
    + intros j u Hu. rewrite lookup_app_l; [replace (S k + j)%nat with (k + S j)%nat by lia; by apply Hcur|].
      apply lookup_lt_Some in Hu. lia.
    + rewrite !length_app. lia.
    + unfold w1. cbn [wk_queue]. rewrite length_app, seq_app, fmap_app, app_assoc.
      replace (k + S (length cur))%nat with (S k + length cur)%nat by lia.
      by replace (length gs) with (S k + length cur + length nxt)%nat by lia.
    + unfold w1. cbn [wk_result]. by rewrite Hres, add_to_level_ok.
    + done.
    + exists s2, ns2, kids2. cbn [next_level flat_map]. fold (next_level cur). rewrite E2.
      rewrite <-!app_assoc in *. cbn [app] in *. replace (k + S (length cur))%nat with (S k + length cur)%nat by lia.
      split; [done|]. split; [done|]. split; [by etransitivity|]. done.
Qed.

(** ** The whole walk *)

Definition at_indices (gs : list tree) : list nat -> list tree -> Prop := Forall2 (fun i t => gs !! i = Some t).

Lemma at_indices_app gs more l ts : at_indices gs l ts -> at_indices (gs ++ more) l ts.
Proof. intros H. eapply Forall2_impl; [exact H|]. intros i t Hi. by apply lookup_app_l_Some. Qed.

Lemma at_seq gs cur : forall k, (forall j t, cur !! j = Some t -> gs !! (k + j)%nat = Some t) -> at_indices gs (seq k (length cur)) cur.
Proof.
  induction cur as [|t cur IH]; intros k H; [constructor|]. constructor; [by rewrite <-(Nat.add_0_r k); apply H|].
  apply IH. intros j u Hu. replace (S k + j)%nat with (k + S j)%nat by lia. by apply H.
Qed.

(** The walk, done: the nodes stand for the trees [gs], with all their
    children, and the result lists the levels [ls]. *)
Record Materialized (s : Store) (w : Walk) (gs : list tree) (kids : nat -> list tree) (ls : list (list tree)) : Prop := {
  mt_nodes : Walked s (wk_nodes w) gs kids;
  mt_kids : visited gs kids (length gs);
  mt_levels : Forall2 (at_indices gs) (wk_result w) ls;
}.

Lemma levels_ok h : forall lv prev prels cur fuel w tr gs kids k, walking (tr_store tr) -> Forall (uniform h) cur -> cur <> [] ->
  Forall (fun t => forall e, e ∈ nodes t -> e ∈ nodes T) cur ->
  Walked (tr_store tr) (wk_nodes w) gs kids -> visited gs kids k ->
  (forall j t, cur !! j = Some t -> gs !! (k + j)%nat = Some t) -> length gs = (k + length cur)%nat ->
  wk_queue w = (., lv) <$> seq k (length cur) -> wk_result w = prev -> length prev = lv -> Forall2 (at_indices gs) prev prels ->
  exists s' w' gs' kids', bfs_loop (length (concat (tree_levels h cur)) + fuel) w tr = (set_store s' tr, Ok w') /\
    walking s' /\ Materialized s' w' gs' kids' (prels ++ tree_levels h cur) /\
    length gs' = (k + length (concat (tree_levels h cur)))%nat.
Proof.
  induction h as [|h IH]; intros lv prev prels cur fuel w tr gs kids k Hw Hu Hne Hsub Hwa Hv Hcur Hlen Hq Hres Hprev Hpre.
  - destruct (level_ok lv prev cur fuel w tr gs kids k [] []) as (s1 & ns1 & kids1 & E1 & Hw1 & _ & Hwa1 & Hv1); try done.
    { simpl. lia. } { simpl. by rewrite app_nil_r. } { simpl. by rewrite app_nil_r. }
    rewrite (next_level_leaves cur Hu) in *. cbn [tree_levels concat length seq fmap list_fmap app] in *. rewrite !app_nil_r in *.
    eexists s1, _, gs, kids1. rewrite E1. split; [by destruct fuel|]. split; [done|]. split; [|done].
    split; [done|by rewrite Hlen|]. cbn [wk_result]. apply Forall2_app; [done|].
    pose proof (at_seq gs cur k Hcur) as Hat. destruct cur as [|t cur]; [done|]. constructor; [exact Hat|constructor].
  - pose proof (uniform_next _ _ Hu) as Hu'. cbn [tree_levels concat]. rewrite length_app, <-Nat.add_assoc.
    destruct (level_ok lv prev cur (length (concat (tree_levels h (next_level cur))) + fuel) w tr gs kids k [] [])
      as (s1 & ns1 & kids1 & E1 & Hw1 & _ & Hwa1 & Hv1); try done.
    { simpl. lia. } { simpl. by rewrite app_nil_r. } { simpl. by rewrite app_nil_r. }
    rewrite E1. match goal with |- context [bfs_loop _ ?x _] => set (w1 := x) end.
    assert (level_so_far (seq k (length cur)) = [seq k (length cur)]) as El by (by destruct cur).
    destruct (IH (S lv) (prev ++ [seq k (length cur)]) (prels ++ [cur]) (next_level cur) fuel w1 (set_store s1 tr)
      (gs ++ next_level cur) kids1 (k + length cur)%nat Hw1 Hu') as (s2 & w2 & gs2 & kids2 & E2 & Hw2 & Hm2 & Hlen2); try done.
    + destruct cur as [|t cur]; [done|]. apply Forall_cons in Hu as [Ht _]. by destruct t.
    + apply Forall_forall. intros u Hin e He. apply list_elem_of_In, in_flat_map in Hin as (t & Ht & Hin).
      apply list_elem_of_In in Ht, Hin. rewrite Forall_forall in Hsub. by apply (Hsub t Ht), below_nodes, (subtrees_nodes _ u).
    + intros j u Hj. rewrite lookup_app_r by lia. by replace (k + length cur + j - length gs)%nat with j by lia.
    + rewrite length_app. lia.
    + unfold w1. cbn [wk_result app]. by rewrite El.
    + rewrite length_app. simpl. lia.
    + apply Forall2_app; [eapply Forall2_impl; [exact Hpre|]; intros l ts; apply at_indices_app|]. constructor; [|constructor].
      by apply at_indices_app, at_seq.
    + exists s2, w2, gs2, kids2. split; [done|]. split; [done|]. rewrite <-app_assoc in Hm2. split; [done|]. lia.
Qed.

Lemma get_meta_run tr : Rep ∅ ∅ (tr_store tr) D (nodes T) -> in_pager get_meta tr = (tr, Ok (dk_meta D)).
Proof.
  intros Hr. pose proof (meta_page_run _ _ _ _ _ (si_pager _ _ _ (rep_inv _ _ _ _ _ Hr))) as E.
  unfold in_pager, in_store, on_pager, zoom. unfold get_meta in *. rewrite E. by destruct tr as [[]].
Qed.

Lemma walk_ok h tr : walking (tr_store tr) -> uniform h T -> root_page_id (dk_meta D) = tid T ->
  exists s' w gs kids, bfs_walk_tree tr = (set_store s' tr, Ok w) /\ walking s' /\
    Materialized s' w gs kids (tree_levels h [T]) /\ length gs = length (nodes T).
Proof.
  intros Hw Hu Hroot. pose proof Hw as [Hr _].
  assert (length (nodes T) <= Z.to_nat (next_page_id (dk_meta D)))%nat as Hcount.
  { destruct (nodup_below_bound (nodes T).*1 (next_page_id (dk_meta D)) (rep_nodup _ _ _ _ _ Hr)) as [H'|H'].
    - intros i Hi. apply (rep_usable _ _ _ _ _ Hr). by left.
    - rewrite length_fmap in H'. lia.
    - destruct (rep_member _ _ _ _ _ _ Hr (nodes_root T)) as ((? & _) & _). lia. }
  unfold bfs_walk_tree. rewrite (bind_Ok _ _ _ _ _ (get_meta_run tr Hr)), Hroot.
  destruct (node_of_page tr T Hw ltac:(done)) as (s1 & nd & E1 & Hw1 & _ & Hsh & Hch). rewrite (bind_Ok _ _ _ _ _ E1).
  assert (length (concat (tree_levels h [T])) = length (nodes T)) as Hsize.
  { rewrite levels_size by (by repeat constructor). simpl. by rewrite app_nil_r. }
  destruct (levels_ok h 0%nat [] [] [T] (Z.to_nat (next_page_id (dk_meta D)) - length (nodes T))
    {| wk_nodes := [nd]; wk_queue := [(0%nat, 0%nat)]; wk_result := [] |} (set_store s1 tr) [T] (fun _ => []) 0%nat Hw1)
    as (s2 & w & gs & kids & E2 & Hw2 & Hm & Hlen); try done.
  - by repeat constructor.
  - constructor; [done|constructor].
  - split; [done| |].
    + intros i nd' t [-> ->]%list_lookup_singleton_Some [_ ->]%list_lookup_singleton_Some. done.
    + intros i nd' [-> ->]%list_lookup_singleton_Some. rewrite Hch. constructor.
  - split; [lia|done].
  - exists s2, w, gs, kids. rewrite Hsize in *. replace (length (nodes T) + (Z.to_nat (next_page_id (dk_meta D)) - length (nodes T)))%nat
      with (Z.to_nat (next_page_id (dk_meta D))) in E2 by lia. by rewrite E2.
Qed.
End walk.
