(* ===== verification/DebugFacts.v ===== *)
(** * The checker accepts healthy trees

    [assert_tree_invariants], which the repository's tests run after their
    operations, finds nothing to object to in a healthy tree. *)

From S2P Require Import Prelude Bytes Bisect Float64 Entities Codec Fs Pager Cache Tree Debug.
From S2P Require Import PagerFacts CacheFacts TreeSizes TreeShape TreeSteps TreeStore TreeFind TreeBalance TreeBorrow.
From S2P Require Import TreeFrame TreeScan TreePages TreeReads DebugWalk.

(** ** Pure checks *)

Lemma mfor_pure {S A} (f : A -> M S unit) s l : (forall x, x ∈ l -> f x s = (s, Ok tt)) -> mfor l f s = (s, Ok tt).
Proof.
  induction l as [|x l IH]; intros H; [done|]. cbn [mfor]. rewrite (bind_Ok _ _ _ _ _ (H x ltac:(left))).
  apply IH. intros y Hy. apply H. by right.
Qed.

Lemma elem_of_imap {A B} (f : nat -> A -> B) l y : y ∈ imap f l -> exists i x, l !! i = Some x /\ y = f i x.
Proof.
  intros (i & Hi)%list_elem_of_lookup_1. rewrite list_lookup_imap in Hi. apply fmap_Some in Hi as (x & Hx & ->). by exists i, x.
Qed.

Lemma keys_lt_sorted ks : keys_lt ks -> keys_sorted ks = true.
Proof.
  induction ks as [|k ks IH]; [done|]. intros [Hk Hs]%keys_lt_cons. destruct ks as [|k2 ks]; [done|].
  change (negb (bytes_ltb k2 k) && keys_sorted (k2 :: ks) = true). rewrite IH by done. rewrite andb_true_r. apply negb_true_iff.
  apply Forall_cons in Hk as [Hk _]. by apply bytes_lt_le.
Qed.

Lemma page_keys_erase p : page_keys (erase p) = page_keys p.
Proof. by destruct p. Qed.

Lemma page_underpopulated_erase ps p : page_underpopulated ps (erase p) = page_underpopulated ps p.
Proof. by destruct p. Qed.

(** ** The order of a tree's parts *)

(** The separator of a child is between the subtrees around it. *)
Lemma flat_around id kids : forall c i l key r, (c :: kids.*2) !! i = Some l -> kids !! i = Some (key, r) ->
  exists pre post, flat (Node id c kids) = pre ++ flat l ++ Sep key :: flat r ++ post.
Proof.
  induction kids as [|[k t] kids IH]; intros c i l key r Hl Hr; [done|]. destruct i as [|i]; simpl in Hl, Hr.
  - injection Hl as ->. injection Hr as -> ->. by exists [], (kids_flat kids).
  - destruct (IH t i l key r Hl Hr) as (pre & post & E). exists (flat c ++ Sep k :: pre), post.
    change (flat (Node id c ((k, t) :: kids))) with (flat c ++ Sep k :: flat (Node id t kids)). rewrite E.
    by rewrite <-!app_assoc.
Qed.

Lemma sorted_around id c kids i l key r x y : items_sorted (flat (Node id c kids)) -> (c :: kids.*2) !! i = Some l ->
  kids !! i = Some (key, r) -> Rec x ∈ flat l -> Rec y ∈ flat r ->
  bytes_ltb (lslot_key x) key && negb (bytes_ltb (lslot_key y) key) = true.
Proof.
  intros Hs Hl Hr Hx Hy. destruct (flat_around id kids c i l key r Hl Hr) as (pre & post & E). rewrite E in Hs.
  apply items_sorted_app in Hs as (_ & _ & Hs). apply items_sorted_app in Hs as (Hlt & _ & Hs).
  apply items_sorted_cons in Hs as [Hlt2 _]. apply andb_true_iff. split.
  - destruct (Hlt (Rec x) (Sep key) Hx ltac:(left)) as [H|(_ & H & _)]; [exact H|done].
  - apply negb_true_iff. destruct (Hlt2 (Rec y) ltac:(apply elem_of_app; by left)) as [H|(H & _)]; simpl in H.
    + by apply bytes_lt_le.
    + rewrite <-H. apply bytes_le_refl.
Qed.

Lemma sorted_subtree t u : items_sorted (flat t) -> u ∈ subtrees t -> items_sorted (flat u).
Proof.
  destruct t as [|id c kids]; [by intros _ ?%elem_of_nil|]. simpl. fold (kids_flat kids). intros Hs Hu.
  apply items_sorted_app in Hs as (_ & Hc & Hk). apply elem_of_cons in Hu as [->|Hu]; [done|].
  apply list_elem_of_fmap in Hu as ([k t] & -> & Hin). apply list_elem_of_split in Hin as (l1 & l2 & ->).
  rewrite kids_flat_app in Hk. apply items_sorted_app in Hk as (_ & _ & Hk). simpl in Hk.
  apply items_sorted_cons in Hk as [_ Hk]. by apply items_sorted_app in Hk as (_ & Hk & _).
Qed.

(** ** The levels *)

Section levels.
Context (T : tree).

(** A subtree of [T], in order, and one that is not [T]. *)
Definition part (t : tree) : Prop := (forall e, e ∈ nodes t -> e ∈ nodes T) /\ items_sorted (flat t).
Definition proper (t : tree) : Prop := forall e, e ∈ nodes t -> e ∈ below T.

Lemma part_subtree t u : part t -> u ∈ subtrees t -> part u.
Proof.
  intros [Hn Hs] Hu. split; [|by eapply sorted_subtree]. intros e He. by apply Hn, below_nodes, (subtrees_nodes _ u).
Qed.

Lemma proper_subtree t u : t = T \/ proper t -> u ∈ subtrees t -> proper u.
Proof.
  intros [->|Hp] Hu e He; [by eapply subtrees_nodes|]. by apply Hp, below_nodes, (subtrees_nodes _ u).
Qed.

Lemma next_level_elem l u : u ∈ next_level l -> exists t, t ∈ l /\ u ∈ subtrees t.
Proof. intros Hu. apply list_elem_of_In, in_flat_map in Hu as (t & Ht & Hu). exists t. by split; apply list_elem_of_In. Qed.

Lemma level_facts h : forall l i ts, Forall (uniform h) l -> Forall part l -> Forall (fun t => t = T \/ proper t) l ->
  tree_levels h l !! i = Some ts ->
  (i <= h)%nat /\ Forall (uniform (h - i)) ts /\ Forall part ts /\ Forall (fun t => t = T \/ proper t) ts /\ ((0 < i)%nat -> Forall proper ts).
Proof.
  induction h as [|h IH]; intros l i ts Hu Hp Ht Hi.
  - apply list_lookup_singleton_Some in Hi as [-> <-]. split; [done|]. split; [done|]. split; [done|]. split; [done|lia].
  - destruct i as [|i]; cbn [tree_levels lookup] in Hi.
    + injection Hi as <-. split; [lia|]. split; [done|]. split; [done|]. split; [done|lia].
    + assert (Forall proper (next_level l)) as Hprop.
      { apply Forall_forall. intros u (t & Hin & Hsub)%next_level_elem. rewrite Forall_forall in Ht. by apply (proper_subtree t), Hsub; apply Ht. }
      destruct (IH (next_level l) i ts) as (H1 & H2 & H3 & H4 & H5); [by apply uniform_next| | |done|].
      { apply Forall_forall. intros u (t & Hin & Hsub)%next_level_elem. rewrite Forall_forall in Hp. apply (part_subtree t), Hsub. by apply Hp. }
      { eapply Forall_impl; [exact Hprop|]. by right. }
      split; [lia|]. split; [done|]. split; [done|]. split; [done|]. intros _. destruct i as [|i]; [|apply H5; lia].
      destruct h; cbn [tree_levels lookup] in Hi; by injection Hi as <-.
Qed.
End levels.

Lemma tree_levels_length h : forall l, length (tree_levels h l) = S h.
Proof. induction h as [|h IH]; intros l; [done|]. simpl. by rewrite IH. Qed.

Lemma leaf_pages_next l h : Forall (uniform (S h)) l -> flat_map leaf_pages (next_level l) = flat_map leaf_pages l.
Proof.
  induction 1 as [|t l Ht Hl IH]; [done|]. cbn [next_level flat_map]. fold (next_level l). rewrite flat_map_app, IH. f_equal.
  destruct t as [|id c kts]; [done|]. cbn [subtrees flat_map leaf_pages]. f_equal. clear.
  induction kts as [|kt kts IH]; [done|]. rewrite fmap_cons. cbn [flat_map]. by rewrite IH.
Qed.

(** The last level has the leaves, from left to right. *)
Lemma last_level h : forall l, Forall (uniform h) l ->
  exists ls ts, tree_levels h l = ls ++ [ts] /\ Forall (uniform 0) ts /\ flat_map leaf_pages ts = flat_map leaf_pages l.
Proof.
  induction h as [|h IH]; intros l Hu; [by exists [], l|].
  destruct (IH (next_level l) (uniform_next _ _ Hu)) as (ls & ts & E & Hts & Hp). exists (l :: ls), ts.
  simpl. rewrite E, Hp. split; [done|]. split; [done|]. by eapply leaf_pages_next.
Qed.

Lemma leaf_ids ts : Forall (uniform 0) ts -> tid <$> ts = (flat_map leaf_pages ts).*1.*1.
Proof. induction 1 as [|t ts Ht Hts IH]; [done|]. apply uniform_leaf in Ht as (? & ? & ? & ->). rewrite fmap_cons, IH. done. Qed.

Lemma leaves_submseteq t : (leaves t).*1 ⊆+ (nodes t).*1.
Proof.
  induction t as [id link slots|id c kts IHc IHk] using tree_induction; [done|].
  rewrite leaves_Node, nodes_Node, fmap_cons, !fmap_app. apply submseteq_cons, submseteq_app; [done|].
  induction IHk as [|kt kts Hk _ IH]; [done|]. unfold kids_leaves, kids_nodes in *. cbn [flat_map]. rewrite !fmap_app. by apply submseteq_app.
Qed.

(** ** The checks *)

Section checks.
Context (ps kmax : Z) (T : tree) (D : Disk) (tr : BPlusTree) (h : nat).
Context (Hr : Rep ∅ ∅ (tr_store tr) D (nodes T)) (Eps : dk_ps D = ps) (Hps : good_page_size ps).
Context (Hok : TreeOk ps kmax T) (Hu : uniform h T).
Context (w : Walk) (gs : list tree) (kids : nat -> list tree).
Context (Hm : Materialized (tr_store tr) w gs kids (tree_levels h [T])) (Hlen : length gs = length (nodes T)).

Lemma page_ok_below e : e ∈ below T -> page_ok ps e.2.
Proof.
  intros He. pose proof (ok_pages _ _ _ Hok) as Hp. unfold pages_ok in Hp. rewrite Forall_forall in Hp.
  destruct (Hp e ltac:(by apply below_nodes)) as [H|[H _]]; [done|]. exfalso.
  pose proof (rep_nodup _ _ _ _ _ Hr) as Hnd. rewrite nodes_below, fmap_cons in Hnd. apply NoDup_cons in Hnd as [Hnin _].
  apply Hnin. simpl. rewrite <-H. apply list_elem_of_fmap. by exists e.
Qed.

(** A leaf below the root has a slot. *)
Lemma slots_below id link slots : (id, leaf_of link slots) ∈ below T -> slots <> [].
Proof.
  intros He ->. apply page_ok_below in He as [_ He]. simpl in He. unfold leaf_of in He. rewrite leaf_page_size in He.
  change (leaf_body (leaf_slots _)) with 0 in He. unfold good_page_size in Hps. lia.
Qed.

(** What a node of the walk gives. *)
Lemma node_ok i t : gs !! i = Some t -> exists nd p, node_at w i tr = (tr, Ok nd) /\ node_page_id nd = tid t /\
  in_store (deref (node_page nd)) tr = (tr, Ok p) /\ erase p = root_of t /\ at_indices gs (node_children nd) (subtrees t).
Proof.
  intros Hi. destruct Hm as [Hw [Hv _] _]. destruct (walked_at _ _ _ _ _ _ Hw Hi) as (nd & Hnd & Hid & p & Ho & Hp).
  exists nd, p. unfold node_at. rewrite Hnd. split; [done|]. split; [done|]. split; [|split; [done|]].
  - unfold in_store, zoom. rewrite (deref_run _ _ _ Ho). by destruct tr.
  - rewrite <-(Hv i t); [by eapply wa_kids|by eapply lookup_lt_Some|done].
Qed.

(** The leaves at the two ends of a subtree. *)
Lemma first_leaf_ok k : forall fuel i t, uniform k t -> (k <= fuel)%nat -> gs !! i = Some t ->
  exists lp id link rest, extreme_leaf fuel 0 w i tr = (tr, Ok lp) /\ (id, leaf_of link (leaf_slots lp)) ∈ nodes t /\
    flat t = (Rec <$> leaf_slots lp) ++ rest.
Proof.
  induction k as [|k IH]; intros fuel i t Hut Hfuel Hi;
    destruct (node_ok i t Hi) as (nd & p & En & _ & Ep & Hp & Hch).
  - apply uniform_leaf in Hut as (id & link & slots & ->). simpl in Hp. apply erase_leaf in Hp as (lsn & ->).
    eexists _, id, link, []. split; [destruct fuel; simpl; by rewrite (bind_Ok _ _ _ _ _ En), (bind_Ok _ _ _ _ _ Ep)|].
    simpl. rewrite app_nil_r. split; [left|done].
  - destruct t as [|id c kts]; [done|]. destruct Hut as [Huc _]. simpl in Hp. apply erase_internal in Hp as (lsn & ->).
    destruct fuel as [|fuel]; [lia|]. cbn [subtrees] in Hch. apply Forall2_cons_inv_r in Hch as (j & l & Hj & _ & El).
    destruct (IH fuel j c Huc ltac:(lia) Hj) as (lp & id' & link & rest & E & Hin & Hflat).
    exists lp, id', link, (rest ++ kids_flat kts). split; [|split].
    + cbn [extreme_leaf]. rewrite (bind_Ok _ _ _ _ _ En), (bind_Ok _ _ _ _ _ Ep), El.
      by rewrite (bind_Ok (lift (py_get (j :: l) 0)) _ tr tr j eq_refl).
    + rewrite nodes_Node. right. apply elem_of_app. by left.
    + simpl. by rewrite Hflat, <-app_assoc.
Qed.

Lemma last_leaf_ok k : forall fuel i t, uniform k t -> (k <= fuel)%nat -> gs !! i = Some t ->
  exists lp id link rest, extreme_leaf fuel (-1) w i tr = (tr, Ok lp) /\ (id, leaf_of link (leaf_slots lp)) ∈ nodes t /\
    flat t = rest ++ (Rec <$> leaf_slots lp).
Proof.
  induction k as [|k IH]; intros fuel i t Hut Hfuel Hi;
    destruct (node_ok i t Hi) as (nd & p & En & _ & Ep & Hp & Hch).
  - apply uniform_leaf in Hut as (id & link & slots & ->). simpl in Hp. apply erase_leaf in Hp as (lsn & ->).
    eexists _, id, link, []. split; [destruct fuel; simpl; by rewrite (bind_Ok _ _ _ _ _ En), (bind_Ok _ _ _ _ _ Ep)|].
    simpl. split; [left|done].
  - destruct t as [|id c kts]; [done|]. simpl in Hp. apply erase_internal in Hp as (lsn & ->).
    destruct fuel as [|fuel]; [lia|].
    assert (exists us u rest, subtrees (Node id c kts) = us ++ [u] /\ uniform k u /\ flat (Node id c kts) = rest ++ flat u) as
      (us & u & rest0 & Esub & Huu & Hflat0).
    { destruct Hut as [Huc Huk]. destruct kts as [|[key r] kts _] using rev_ind.
      - exists [], c, []. simpl. by rewrite app_nil_r.
      - exists (c :: kts.*2), r, (flat c ++ kids_flat kts ++ [Sep key]). apply Forall_app in Huk as [_ Huk].
        apply Forall_cons in Huk as [Huk _]. split; [simpl; by rewrite fmap_app|]. split; [done|].
        simpl. fold (kids_flat (kts ++ [(key, r)])). rewrite kids_flat_app. simpl. by rewrite app_nil_r, <-!app_assoc. }
    rewrite Esub in Hch. apply Forall2_app_inv_r in Hch as (l & l' & _ & Hj & El).
    apply Forall2_cons_inv_r in Hj as (j & l2 & Hj & Hnil & ->). apply Forall2_nil_inv_r in Hnil as ->.
    destruct (IH fuel j u Huu ltac:(lia) Hj) as (lp & id' & link & rest & E & Hin & Hflat).
    exists lp, id', link, (rest0 ++ rest). split; [|split].
    + cbn [extreme_leaf]. rewrite (bind_Ok _ _ _ _ _ En), (bind_Ok _ _ _ _ _ Ep), El.
      assert (lift (py_get (l ++ [j]) (-1)) tr = (tr, Ok j)) as E1 by (unfold lift; by rewrite py_get_last).
      by rewrite (bind_Ok _ _ _ _ _ E1).
    + apply below_nodes, (subtrees_nodes _ u); [|done]. rewrite Esub. apply elem_of_app. right. left.
    + by rewrite Hflat0, Hflat, <-app_assoc.
Qed.

Lemma fuel_enough k : (k <= h)%nat -> (k <= length (wk_nodes w))%nat.
Proof.
  intros Hk. rewrite (wa_length _ _ _ _ (mt_nodes _ _ _ _ _ Hm)), Hlen. pose proof (uniform_nodes h T Hu). lia.
Qed.

Lemma smallest_ok k i t : uniform k t -> (k <= h)%nat -> gs !! i = Some t -> proper T t ->
  exists s, smallest_leaf_key w i tr = (tr, Ok (lslot_key s)) /\ Rec s ∈ flat t.
Proof.
  intros Hut Hk Hi Hp. destruct (first_leaf_ok k _ i t Hut (fuel_enough k Hk) Hi) as (lp & id & link & rest & E & Hin & Hflat).
  pose proof (slots_below _ _ _ (Hp _ Hin)) as Hne. unfold smallest_leaf_key. rewrite (bind_Ok _ _ _ _ _ E).
  destruct (leaf_slots lp) as [|s l]; [done|]. exists s. split; [done|]. rewrite Hflat. left.
Qed.

Lemma largest_ok k i t : uniform k t -> (k <= h)%nat -> gs !! i = Some t -> proper T t ->
  exists s, largest_leaf_key w i tr = (tr, Ok (lslot_key s)) /\ Rec s ∈ flat t.
Proof.
  intros Hut Hk Hi Hp. destruct (last_leaf_ok k _ i t Hut (fuel_enough k Hk) Hi) as (lp & id & link & rest & E & Hin & Hflat).
  pose proof (slots_below _ _ _ (Hp _ Hin)) as Hne. unfold largest_leaf_key. rewrite (bind_Ok _ _ _ _ _ E).
  destruct (leaf_slots lp) as [|s l _] using rev_ind; [done|]. exists s. split.
  - assert (lift (py_get (l ++ [s]) (-1)) tr = (tr, Ok s)) as E1 by (unfold lift; by rewrite py_get_last).
    by rewrite (bind_Ok _ _ _ _ _ E1).
  - rewrite Hflat, fmap_app. apply elem_of_app. right. apply elem_of_app. right. left.
Qed.

Lemma separator_ok k id c kts nd i kt : uniform (S k) (Node id c kts) -> (k <= h)%nat ->
  items_sorted (flat (Node id c kts)) -> Forall (proper T) (c :: kts.*2) ->
  at_indices gs (node_children nd) (c :: kts.*2) -> kts !! i = Some kt ->
  check_separator w nd i kt.1 tr = (tr, Ok tt).
Proof.
  intros [Huc Huk] Hk Hs Hp Hch Hi. destruct kt as [key r].
  assert (Forall (uniform k) (c :: kts.*2)) as Hall by (constructor; [done|by apply Forall_fmap]).
  assert ((c :: kts.*2) !! S i = Some r) as Hri by (simpl; by rewrite list_lookup_fmap, Hi).
  destruct (lookup_lt_is_Some_2 (c :: kts.*2) i) as [l Hli].
  { simpl. rewrite length_fmap. apply lookup_lt_Some in Hi. lia. }
  destruct (Forall2_lookup_r _ _ _ _ _ Hch Hli) as (a & Ha & Hla). destruct (Forall2_lookup_r _ _ _ _ _ Hch Hri) as (b & Hb & Hrb).
  rewrite Forall_lookup in Hall, Hp. pose proof (Hall _ _ Hli) as Hul. pose proof (Hall _ _ Hri) as Hur.
  destruct (largest_ok k a l Hul Hk Hla (Hp _ _ Hli)) as (x & Ex & Hx).
  destruct (smallest_ok k b r Hur Hk Hrb (Hp _ _ Hri)) as (y & Ey & Hy).
  unfold check_separator. simpl.
  assert (lift (py_get (node_children nd) (Z.of_nat i)) tr = (tr, Ok a)) as E1 by (unfold lift; by rewrite (py_get_lookup _ _ _ Ha)).
  assert (lift (py_get (node_children nd) (Z.of_nat i + 1)) tr = (tr, Ok b)) as E2.
  { unfold lift. replace (Z.of_nat i + 1) with (Z.of_nat (S i)) by lia. by rewrite (py_get_lookup _ _ _ Hb). }
  rewrite (bind_Ok _ _ _ _ _ E1), (bind_Ok _ _ _ _ _ Ex), (bind_Ok _ _ _ _ _ E2), (bind_Ok _ _ _ _ _ Ey).
  by rewrite (sorted_around id c kts i l key r x y Hs Hli Hi Hx Hy).
Qed.

(** The checks of a node of level [i]. *)
Lemma check_node_ok i x t : (i <= h)%nat -> gs !! x = Some t -> uniform (h - i) t -> part T t -> (t = T \/ proper T t) ->
  ((0 < i)%nat -> proper T t) -> check_node w (next_page_id (dk_meta D)) i (S h) x tr = (tr, Ok tt).
Proof.
  intros Hi Hx Hut [Hn Hs] Htop Hp. destruct (node_ok x t Hx) as (nd & p & En & Hid & Ep & Hpg & Hch).
  unfold check_node. rewrite (bind_Ok _ _ _ _ _ En), (bind_Ok _ _ _ _ _ Ep).
  assert ((node_page_id nd <? next_page_id (dk_meta D)) = true) as ->.
  { apply Z.ltb_lt. rewrite Hid. destruct (rep_member _ _ _ _ _ _ Hr (Hn (tid t, root_of t) ltac:(rewrite nodes_below; left))) as ((? & _) & _).
    simpl in *. lia. }
  rewrite (bind_Ok (check_invariant true) _ tr tr tt eq_refl).
  assert (keys_sorted (page_keys p) = true) as -> by (rewrite <-page_keys_erase, Hpg; by apply keys_lt_sorted, sorted_page_keys).
  rewrite (bind_Ok (check_invariant true) _ tr tr tt eq_refl). replace (S h - 1)%nat with h by lia.
  assert (negb ((i <? h)%nat && is_leaf p) = true) as ->.
  { destruct (Nat.ltb_spec i h); [|done]. replace (h - i)%nat with (S (h - i - 1)) in Hut by lia.
    destruct t; [done|]. simpl in Hpg. by apply erase_internal in Hpg as (? & ->). }
  rewrite (bind_Ok (check_invariant true) _ tr tr tt eq_refl).
  assert (negb ((i =? h)%nat && is_internal p) = true) as ->.
  { destruct (Nat.eqb_spec i h) as [->|]; [|done]. rewrite Nat.sub_diag in Hut.
    apply uniform_leaf in Hut as (? & ? & ? & ->). by apply erase_leaf in Hpg as (? & ->). }
  rewrite (bind_Ok (check_invariant true) _ tr tr tt eq_refl), (under_bind ∅ ∅ tr D (nodes T) Hr), Eps.
  assert (negb ((0 <? i)%nat && page_underpopulated ps p) = true) as ->.
  { destruct (Nat.ltb_spec 0 i); [|done]. rewrite <-page_underpopulated_erase, Hpg. simpl. apply negb_true_iff, underpopulated_false; [done|].
    apply (page_ok_below (tid t, root_of t)). apply Hp; [done|]. rewrite nodes_below. left. }
  rewrite (bind_Ok (check_invariant true) _ tr tr tt eq_refl).
  destruct (Nat.ltb_spec i h) as [Hlt|]; [|done]. replace (h - i)%nat with (S (h - i - 1)) in Hut by lia.
  destruct t as [|id c kts]; [done|]. simpl in Hpg. apply erase_internal in Hpg as (lsn & ->). cbn [internal_slots].
  apply mfor_pure. intros e (j & s & Hj & ->)%elem_of_imap. apply list_lookup_fmap_Some in Hj as (kt & -> & Hj).
  apply (separator_ok (h - i - 1) id c kts nd j kt); try done; [lia|].
  apply Forall_forall. intros u Hsub. by apply (proper_subtree T (Node id c kts)).
Qed.

(** A leaf and the next one on its level. *)
Lemma next_leaf_ok m p id2 link2 slots2 : gs !! m = Some (Leaf id2 link2 slots2) -> right_sibling_page_id p = id2 ->
  leaf_slots p <> [] -> slots2 <> [] -> keys_lt (lslot_key <$> leaf_slots p ++ slots2) ->
  (next ← node_at w m;
   check_invariant (right_sibling_page_id p =? node_page_id next);;
   q ← deref_leaf (node_page next);
   last ← lift (py_get (leaf_slots p) (-1));
   first ← lift (py_get (leaf_slots q) 0);
   check_invariant (negb (bytes_ltb (lslot_key first) (lslot_key last)))) tr = (tr, Ok tt).
Proof.
  intros Hmu Hlink Hne1 Hne2 Hk.
  destruct (node_ok m _ Hmu) as (nd2 & p2 & En2 & Hid2 & Ep2 & Hpg2 & _). simpl in Hpg2. apply erase_leaf in Hpg2 as (lsn2 & ->).
  rewrite (bind_Ok _ _ _ _ _ En2). simpl in Hid2. rewrite Hid2, Hlink, Z.eqb_refl.
  rewrite (bind_Ok (check_invariant true) _ tr tr tt eq_refl).
  assert (deref_leaf (node_page nd2) tr = (tr, Ok {| leaf_lsn := lsn2; right_sibling_page_id := link2; leaf_slots := slots2 |})) as El2
    by (unfold deref_leaf; by rewrite (bind_Ok _ _ _ _ _ Ep2)).
  rewrite (bind_Ok _ _ _ _ _ El2). cbn [leaf_slots]. destruct slots2 as [|y slots2]; [done|].
  destruct (leaf_slots p) as [|x slots _] using rev_ind; [done|].
  assert (lift (py_get (slots ++ [x]) (-1)) tr = (tr, Ok x)) as E1 by (unfold lift; by rewrite py_get_last).
  rewrite (bind_Ok _ _ _ _ _ E1), (bind_Ok (lift (py_get (y :: slots2) 0)) _ tr tr y eq_refl).
  assert (bytes_lt (lslot_key x) (lslot_key y)) as Hxy.
  { rewrite !fmap_app in Hk. apply keys_lt_app in Hk as (_ & _ & Hlt). apply Forall_app in Hlt as [_ Hlt].
    apply Forall_cons in Hlt as [Hlt _]. by apply Forall_cons in Hlt as [Hlt _]. }
  assert (bytes_ltb (lslot_key y) (lslot_key x) = false) as -> by (by apply bytes_lt_le). done.
Qed.

(** The loop over the leaf level. *)
Lemma leaf_chain_ok ts : forall ns seen, at_indices gs ns ts -> Forall (uniform 0) ts ->
  chained (flat_map leaf_pages ts).*1 0 -> keys_lt (lslot_key <$> page_records (flat_map leaf_pages ts)) ->
  NoDup (tid <$> ts) -> (forall t, t ∈ ts -> tid t ∉ seen) ->
  (length ts <= 1)%nat \/ Forall (fun x => x.2 <> []) (flat_map leaf_pages ts) ->
  check_leaf_chain w seen ns tr = (tr, Ok (size seen + length ts)%nat).
Proof.
  induction ts as [|t ts IH]; intros ns seen Hat Hu0 Hc Hk Hnd Hseen Hne; apply Forall2_cons_inv_r in Hat || apply Forall2_nil_inv_r in Hat.
  { subst ns. simpl. by rewrite Nat.add_0_r. }
  destruct Hat as (n & l & Hn & Hat & ->). apply Forall_cons in Hu0 as [Ht Hu0].
  apply uniform_leaf in Ht as (id & link & slots & ->).
  destruct (node_ok n _ Hn) as (nd & p & En & Hid & Ep & Hpg & _). simpl in Hpg. apply erase_leaf in Hpg as (lsn & ->).
  simpl in Hid. cbn [flat_map leaf_pages app fmap list_fmap] in *. apply NoDup_cons in Hnd as [Hnin Hnd].
  cbn [check_leaf_chain]. rewrite (bind_Ok _ _ _ _ _ En).
  assert (forall lp : LeafPage, in_store (deref (node_page nd)) tr = (tr, Ok (PLeaf lp)) -> deref_leaf (node_page nd) tr = (tr, Ok lp)) as Hleaf
    by (intros lp E; unfold deref_leaf; by rewrite (bind_Ok _ _ _ _ _ E)).
  rewrite (bind_Ok _ _ _ _ _ (Hleaf _ Ep)). rewrite Hid, bool_decide_eq_false_2 by (apply (Hseen (Leaf id link slots)); left).
  rewrite (bind_Ok (check_invariant (negb false)) _ tr tr tt eq_refl).
  assert (size ({[id]} ∪ seen) = S (size seen)) as Hsize.
  { rewrite size_union by (apply disjoint_singleton_l, (Hseen (Leaf id link slots)); left). by rewrite size_singleton. }
  assert (check_leaf_chain w ({[id]} ∪ seen) l tr = (tr, Ok (size seen + length (Leaf id link slots :: ts))%nat)) as Hrest.
  { simpl. rewrite <-Nat.add_succ_comm, <-Hsize. apply IH; try done.
    - by apply Hc.
    - unfold page_records in Hk. simpl in Hk. rewrite fmap_app in Hk. by apply keys_lt_app in Hk as (_ & Hk & _).
    - intros u Hu'. rewrite not_elem_of_union, not_elem_of_singleton. split; [|by apply Hseen; right].
      intros E. apply Hnin. simpl. rewrite <-E. by apply list_elem_of_fmap_2.
    - destruct Hne as [Hne|Hne]; [left; simpl in Hne; lia|right]. by apply Forall_cons in Hne as [_ Hne]. }
  match goal with |- (?m ≫= _) _ = _ => assert (m tr = (tr, Ok tt)) as Em end; [|by rewrite (bind_Ok _ _ _ _ _ Em)].
  destruct ts as [|u ts]; [by apply Forall2_nil_inv_r in Hat as ->|].
  apply Forall2_cons_inv_r in Hat as (m & l' & Hmu & _ & ->). apply Forall_cons in Hu0 as [Hu1 _].
  apply uniform_leaf in Hu1 as (id2 & link2 & slots2 & ->). cbn [flat_map leaf_pages app fmap list_fmap] in *.
  destruct Hne as [Hne|Hne]; [simpl in Hne; lia|]. apply Forall_cons in Hne as [Hne1 Hne]. apply Forall_cons in Hne as [Hne2 _].
  destruct Hc as [Hlink _]. apply (next_leaf_ok m _ id2 link2 slots2); try done.
  unfold page_records in Hk. simpl in Hk. rewrite app_assoc, fmap_app in Hk. by apply keys_lt_app in Hk as (Hk & _ & _).
Qed.

Lemma level_ok_at i lvl : wk_result w !! i = Some lvl ->
  mfor lvl (check_node w (next_page_id (dk_meta D)) i (S h)) tr = (tr, Ok tt).
Proof.
  intros Hi. destruct (Forall2_lookup_l _ _ _ _ _ (mt_levels _ _ _ _ _ Hm) Hi) as (ts & Hts & Hat).
  pose proof (wf_sorted _ _ _ (ok_wf _ _ _ Hok)) as Hs.
  destruct (level_facts T h [T] i ts) as (Hle & Hut & Hpt & Htop & Hprop); [by repeat constructor| | |done|].
  { constructor; [by split|constructor]. } { constructor; [by left|constructor]. }
  apply mfor_pure. intros x (j & Hj)%list_elem_of_lookup_1.
  destruct (Forall2_lookup_l _ _ _ _ _ Hat Hj) as (t & Ht & Hx). rewrite Forall_lookup in Hut, Hpt, Htop.
  apply (check_node_ok i x t); [done|done|by apply (Hut j)|by apply (Hpt j)|by apply (Htop j)|].
  intros H0. specialize (Hprop H0). rewrite Forall_lookup in Hprop. by apply (Hprop j).
Qed.

Lemma leaf_level_ok : exists lvls lvl, wk_result w = lvls ++ [lvl] /\ check_leaf_chain w ∅ lvl tr = (tr, Ok (length lvl)).
Proof.
  destruct (last_level h [T]) as (ls & ts & E & Hts & Hp); [by repeat constructor|]. simpl in Hp. rewrite app_nil_r in Hp.
  pose proof (mt_levels _ _ _ _ _ Hm) as Hl. rewrite E in Hl. apply Forall2_app_inv_r in Hl as (lvls & l2 & _ & Hl & El).
  apply Forall2_cons_inv_r in Hl as (lvl & l3 & Hat & Hnil & ->). apply Forall2_nil_inv_r in Hnil as ->.
  exists lvls, lvl. split; [done|]. pose proof (ok_wf _ _ _ Hok) as [_ Hs Hc _].
  rewrite (leaf_chain_ok ts lvl ∅); [by rewrite size_empty, (Forall2_length _ _ _ Hat)|done|done|..].
  - by rewrite Hp, <-leaves_pages.
  - rewrite Hp, records_pages. by apply records_keys_lt.
  - rewrite leaf_ids, Hp by done. rewrite <-leaves_pages.
    destruct (submseteq_Permutation _ _ (leaves_submseteq T)) as (k & Hk). pose proof (rep_nodup _ _ _ _ _ Hr) as Hnd.
    rewrite Hk in Hnd. by apply NoDup_app in Hnd as [Hnd _].
  - intros t _. apply not_elem_of_empty.
  - rewrite Hp. destruct h as [|h'].
    + left. destruct ls as [|l0 ls]; [by injection E as <-|]. by destruct ls.
    + right. apply Forall_forall. intros [[id link] slots] Hin. apply (slots_below id link).
      apply page_in_nodes in Hin. rewrite nodes_below in Hin. apply elem_of_cons in Hin as [Hin|Hin]; [|done].
      by destruct T.
Qed.
End checks.

(** The checker returns on a healthy tree. *)
Lemma checker_ok {L : Limit} ps kmax T n tr D : good_page_size ps -> Done ps kmax T n tr D -> 1 <= n ->
  exists s', assert_tree_invariants tr = (set_store s' tr, Ok tt) /\ Done ps kmax T n (set_store s' tr) D.
Proof.
  intros Hps Hd Hn. pose proof Hd as [Eps Hr Hroot Hok Hs Hnx]. destruct (wf_uniform _ _ _ (ok_wf _ _ _ Hok)) as [h Hu].
  destruct (walk_ok T D (n - 1) ltac:(lia) h tr) as (s1 & w & gs & kids & E & [Hr1 Hs1] & Hm & Hlen); [|done|done|].
  { split; [done|]. by replace (n - 1 + 1) with n by lia. }
  set (tr1 := set_store s1 tr) in *. exists s1. split; [|split; try done; by replace n with (n - 1 + 1) by lia].
  pose proof (leaf_level_ok ps kmax T D tr1 h Hr1 Hps Hok Hu w gs kids Hm Hlen) as (lvls & lvl & El & Ec).
  assert (length (wk_result w) = S h) as Hlv by (by rewrite (Forall2_length _ _ _ (mt_levels _ _ _ _ _ Hm)), tree_levels_length).
  unfold assert_tree_invariants. rewrite (bind_Ok _ _ _ _ _ (get_meta_run T D tr Hr)), (bind_Ok _ _ _ _ _ E). fold tr1.
  rewrite Hlv. match goal with |- (?m ≫= _) _ = _ => assert (m tr1 = (tr1, Ok tt)) as Em end.
  { apply mfor_pure. intros e (i & l & Hi & ->)%elem_of_imap.
    exact (level_ok_at ps kmax T D tr1 h Hr1 Eps Hps Hok Hu w gs kids Hm Hlen i l Hi). }
  rewrite (bind_Ok _ _ _ _ _ Em).
  assert (lift (py_get (wk_result w) (-1)) tr1 = (tr1, Ok lvl)) as E1 by (unfold lift; by rewrite El, py_get_last).
  rewrite (bind_Ok _ _ _ _ _ E1), (bind_Ok _ _ _ _ _ Ec), Nat.eqb_refl. done.
Qed.
