(* ===== verification/TreeTheorems.v ===== *)
(** * What the tree promises

    The operations of [tree.py] against finite maps: one call, a scan, any
    sequence of calls; the pages of the tree, its height, and the bounds of a
    split. *)

From S2P Require Import Prelude Bytes Bisect Entities Codec Fs Pager Cache Tree.
From S2P Require Import CodecFacts PagerFacts CacheFacts CacheOps.
From S2P Require Import TreeSizes TreeShape TreeSteps TreeSearch TreeStore TreeFind TreeSplit TreeBalance TreeRedistribute.
From S2P Require Import TreeBorrow TreeMerge TreeCascade TreeOps TreeFrame TreeHeight TreeBudget TreeScan TreePages.
From S2P Require Import Debug DebugFacts.

(** ** The abstraction *)

#[local] Existing Instance all_ids.

(** The tree of [tr] is healthy, has [h] levels above the leaves at most, and
    holds the records [m]; [n] bounds the pages that may be made dirty or
    allocated before a checkpoint. *)
Definition tree_holds (ps kmax n : Z) (h : nat) (tr : BPlusTree) (m : gmap bytes bytes) : Prop :=
  exists T D, Done ps kmax T n tr D /\ low h T /\ contents (flat T) = m.

(** A record the tree takes: a short key, and within the limit of the code. *)
Definition acceptable (ps kmax : Z) (key value : bytes) : Prop :=
  len key <= kmax /\ calculate_leaf_record_size key value <= get_max_leaf_record_size ps.

(** A call of the tree and its answer. *)
Inductive TreeOp :=
  | TSearch (key : bytes)
  | TInsert (key value : bytes) (lsn : Z)
  | TDelete (key : bytes) (lsn : Z)
  | TScan (start stop : option bytes) (limit : nat).

Inductive TreeAnswer :=
  | AFound (value : option bytes)
  | AInserted
  | ADeleted (was_there : bool)
  | AScanned (records : list (bytes * bytes)).

Definition run_tree_op (op : TreeOp) : M BPlusTree TreeAnswer :=
  match op with
  | TSearch key => v ← search key; mret (AFound v)
  | TInsert key value lsn => insert key value lsn;; mret AInserted
  | TDelete key lsn => b ← tree_delete key lsn; mret (ADeleted b)
  | TScan start stop limit => l ← take_scan limit (scan start stop); mret (AScanned l)
  end.

Definition map_op (op : TreeOp) (m : gmap bytes bytes) : TreeAnswer * gmap bytes bytes :=
  match op with
  | TSearch key => (AFound (m !! key), m)
  | TInsert key value _ => (AInserted, <[key := value]> m)
  | TDelete key _ => (ADeleted (bool_decide (is_Some (m !! key))), delete key m)
  | TScan start stop limit => (AScanned (take limit (map_range start stop m)), m)
  end.

Fixpoint run_tree_ops (ops : list TreeOp) : M BPlusTree (list TreeAnswer) :=
  match ops with
  | [] => mret []
  | op :: ops => a ← run_tree_op op; l ← run_tree_ops ops; mret (a :: l)
  end.

Fixpoint map_ops (ops : list TreeOp) (m : gmap bytes bytes) : list TreeAnswer * gmap bytes bytes :=
  match ops with
  | [] => ([], m)
  | op :: ops =>
      let '(a, m1) := map_op op m in
      let '(l, m2) := map_ops ops m1 in (a :: l, m2)
  end.

Definition op_ok (ps kmax : Z) (op : TreeOp) : Prop :=
  match op with
  | TSearch _ => True
  | TInsert key value lsn => acceptable ps kmax key value /\ fits 8 lsn = true
  | TDelete _ lsn => fits 8 lsn = true
  | TScan _ _ _ => True
  end.

(** The steps a sequence takes from a tree of height [h]: each call may add a
    level. *)
Fixpoint ops_cost (h : nat) (ops : list TreeOp) : Z :=
  match ops with
  | [] => 0
  | _ :: ops => step_cost h + ops_cost (S h) ops
  end.

Lemma step_cost_pos h : 1 <= step_cost h.
Proof. unfold step_cost. lia. Qed.

Lemma ops_cost_nonneg ops : forall h, 0 <= ops_cost h ops.
Proof. induction ops as [|op ops IH]; intros h; simpl; [lia|]. pose proof (step_cost_pos h). specialize (IH (S h)). lia. Qed.

Lemma run_tree_op_ok ps kmax op tr m n h : GoodBounds ps kmax -> op_ok ps kmax op ->
  tree_holds ps kmax n h tr m -> step_cost h <= n ->
  exists tr', run_tree_op op tr = (tr', Ok (map_op op m).1) /\
    tree_holds ps kmax (n - step_cost h) (S h) tr' (map_op op m).2.
Proof.
  intros Hb Hop (T & D & Hd & Hh & <-) Hn. pose proof (step_cost_pos h). destruct op as [key|key value lsn|key lsn|start stop limit]; simpl in *.
  - destruct (search_ok ps kmax T n tr D key Hd ltac:(lia)) as (s' & E & Hd').
    rewrite (bind_Ok _ _ _ _ _ E). exists (set_store s' tr). split; [done|]. exists T, D.
    split; [|split; [by eapply low_more, Hh; lia|done]]. by apply (done_weaken _ _ _ n); [lia|].
  - destruct Hop as [[Hkey Hrec] Hlsn].
    destruct (insert_ok ps kmax Hb T n tr D key value lsn h Hd Hh Hn Hkey Hrec Hlsn) as (tr' & T' & D' & E & Hd' & Hh' & Hc).
    rewrite (bind_Ok _ _ _ _ _ E). exists tr'. split; [done|]. by exists T', D'.
  - destruct (delete_ok ps kmax Hb T n tr D key lsn h Hd Hh Hn Hop) as (tr' & T' & D' & E & Hd' & Hh' & Hc).
    rewrite (bind_Ok _ _ _ _ _ E). exists tr'. split; [done|]. by exists T', D'.
  - destruct (scan_range_ok ps kmax T n tr D start stop limit Hd ltac:(lia)) as (s' & E & Hd').
    rewrite (bind_Ok _ _ _ _ _ E). exists (set_store s' tr). split; [done|]. exists T, D.
    split; [|split; [by eapply low_more, Hh; lia|done]]. by apply (done_weaken _ _ _ n); [lia|].
Qed.

Lemma run_tree_ops_ok ps kmax ops : GoodBounds ps kmax -> Forall (op_ok ps kmax) ops ->
  forall n h tr m, tree_holds ps kmax n h tr m -> ops_cost h ops <= n ->
  exists tr', run_tree_ops ops tr = (tr', Ok (map_ops ops m).1) /\
    tree_holds ps kmax (n - ops_cost h ops) (h + length ops) tr' (map_ops ops m).2.
Proof.
  intros Hb Hops. induction Hops as [|op ops Hop Hops IH]; intros n h tr m Hm Hn; simpl in *.
  - exists tr. by rewrite Z.sub_0_r, Nat.add_0_r.
  - pose proof (ops_cost_nonneg ops (S h)).
    destruct (run_tree_op_ok ps kmax op tr m n h Hb Hop Hm ltac:(lia)) as (tr1 & E1 & H1).
    destruct (map_op op m) as [a m1]. cbn [fst snd] in *.
    destruct (IH (n - step_cost h) (S h) tr1 m1 H1 ltac:(lia)) as (tr2 & E2 & H2).
    rewrite (bind_Ok _ _ _ _ _ E1), (bind_Ok _ _ _ _ _ E2).
    destruct (map_ops ops m1) as [l m2]. exists tr2. split; [done|].
    by rewrite <-Nat.add_succ_comm, Z.sub_add_distr.
Qed.

Lemma moves_tree_op op : moves StillFrame (run_tree_op op).
Proof. destruct op; simpl; moves_tac. Qed.

Lemma moves_tree_ops ops : moves StillFrame (run_tree_ops ops).
Proof. induction ops as [|op ops IH]; simpl; [apply moves_ret, _|]. pose proof (moves_tree_op op). moves_tac. Qed.

Lemma page_total_mono tr tr' : StillFrame tr tr' -> is_Some (pg_meta_page (st_pager (tr_store tr))) ->
  page_total (tr_store tr) <= page_total (tr_store tr').
Proof.
  intros [[_ _ _ Hn _] _ _] [m Hm]. unfold page_total. rewrite Hm. by destruct (Hn m Hm) as (m' & -> & ?).
Qed.

Lemma tree_accounted ps kmax n h tr m : tree_holds ps kmax n h tr m ->
  exists free, freelist (tr_store tr) free /\ accounted (tr_store tr) free.
Proof. intros (T & D & [_ Hr Hroot _ _ _] & _). by apply (rep_accounted _ D T). Qed.

(** ** Samples *)

Lemma fresh_holds ps kmax p p' capacity : good_page_size ps -> ps < 2 ^ 32 -> pager_init None ps = Ok p ->
  pager_open p = (p', Ok tt) -> 0 <= capacity < 2 ^ 63 ->
  tree_holds ps kmax capacity 0 (fresh_tree p' capacity) ∅.
Proof.
  intros Hps Hps' Hp Ep Hcap. destruct (fresh_settled ps kmax p p' capacity capacity tree_stats_zero Hps Hps' Hp Ep ltac:(lia)) as (D & [] & _).
  exists empty_tree, D. split; [|split; [by exists 0%nat|done]]. split; try done.
  right. change (dirty_count _) with 0. simpl. lia.
Qed.

(** A small database: pages of 256 bytes, the default pool of 256 pages, keys of up to 21
    bytes. *)
Definition sample_tree : BPlusTree := fresh_tree (pager_open (closed_pager 256)).1 256.

Lemma sample_bounds : GoodBounds 256 21.
Proof. split; [unfold good_page_size; lia| | |]; vm_compute; discriminate. Qed.

Lemma sample_holds : tree_holds 256 21 256 0 sample_tree ∅.
Proof.
  destruct (pager_open_fresh 256 (closed_pager 256)) as (p' & f & E & _); [vm_compute; split; congruence|reflexivity|].
  unfold sample_tree. rewrite E. cbn [fst].
  apply (fresh_holds 256 21 (closed_pager 256) p' 256); [unfold good_page_size; lia|lia|reflexivity|exact E|lia].
Qed.

(** One record in it. *)
Definition sample_key : bytes := [byte_of_Z 97].
Definition sample_value : bytes := [byte_of_Z 98; byte_of_Z 99].
Definition grown_tree : BPlusTree := (insert sample_key sample_value 1 sample_tree).1.

Lemma sample_acceptable : acceptable 256 21 sample_key sample_value.
Proof. split; vm_compute; discriminate. Qed.

Lemma insert_answer key value lsn tr tr' a :
  run_tree_op (TInsert key value lsn) tr = (tr', Ok a) -> (insert key value lsn tr).1 = tr'.
Proof.
  simpl. unfold mbind, M_bind. destruct (insert key value lsn tr) as [tr1 [[]|e]]; [|done]. by intros [= <- _].
Qed.

Lemma grown_holds : tree_holds 256 21 239 1 grown_tree {[sample_key := sample_value]}.
Proof.
  destruct (run_tree_op_ok 256 21 (TInsert sample_key sample_value 1) sample_tree ∅ 256 0 sample_bounds)
    as (tr' & E & H); [split; [exact sample_acceptable|reflexivity]|exact sample_holds|vm_compute; discriminate|].
  assert (grown_tree = tr') as <- by exact (insert_answer _ _ _ _ _ _ E). exact H.
Qed.

(** ** Properties *)

(** C5. Inserting an acceptable record in a healthy tree of any height
    returns, through every split, redistribution and merge the cascade comes
    to, and leaves a healthy tree, one level higher at most, that holds the old
    records with this one inserted or overwritten. *)
Theorem insert_correct ps kmax n h tr m key value lsn : GoodBounds ps kmax ->
  tree_holds ps kmax n h tr m -> step_cost h <= n -> acceptable ps kmax key value -> fits 8 lsn = true ->
  exists tr', insert key value lsn tr = (tr', Ok tt) /\
    tree_holds ps kmax (n - step_cost h) (S h) tr' (<[key := value]> m).
Proof.
  intros Hb (T & D & Hd & Hh & <-) Hn [Hkey Hrec] Hlsn.
  destruct (insert_ok ps kmax Hb T n tr D key value lsn h Hd Hh Hn Hkey Hrec Hlsn) as (tr' & T' & D' & E & Hd' & Hh' & Hc).
  exists tr'. split; [done|]. by exists T', D'.
Qed.

Lemma insert_correct_witness : exists tr', insert sample_key sample_value 7 sample_tree = (tr', Ok tt) /\
  tree_holds 256 21 239 1 tr' (<[sample_key := sample_value]> ∅).
Proof.
  exact (insert_correct 256 21 256 0 sample_tree ∅ sample_key sample_value 7 sample_bounds sample_holds
    ltac:(vm_compute; discriminate) sample_acceptable eq_refl).
Defined.

(** C6. Deleting any key from a healthy tree returns whether the key was
    there, never trips the assertion that ends the search for a sibling to
    merge with, and leaves a healthy tree that holds the other records; an
    absent key changes nothing that the tree holds. *)
Theorem tree_delete_correct ps kmax n h tr m key lsn : GoodBounds ps kmax ->
  tree_holds ps kmax n h tr m -> step_cost h <= n -> fits 8 lsn = true ->
  exists tr', tree_delete key lsn tr = (tr', Ok (bool_decide (is_Some (m !! key)))) /\
    tree_holds ps kmax (n - step_cost h) (S h) tr' (delete key m).
Proof.
  intros Hb (T & D & Hd & Hh & <-) Hn Hlsn.
  destruct (delete_ok ps kmax Hb T n tr D key lsn h Hd Hh Hn Hlsn) as (tr' & T' & D' & E & Hd' & Hh' & Hc).
  exists tr'. split; [done|]. by exists T', D'.
Qed.

Lemma tree_delete_correct_witness : exists tr', tree_delete sample_key 8 grown_tree = (tr', Ok true) /\
  tree_holds 256 21 214 2 tr' (delete sample_key {[sample_key := sample_value]}).
Proof.
  exact (tree_delete_correct 256 21 239 1 grown_tree {[sample_key := sample_value]} sample_key 8 sample_bounds grown_holds
    ltac:(vm_compute; discriminate) eq_refl).
Defined.

(** C4. From any healthy tree, any sequence of searches, insertions of
    acceptable records, deletions and scans answers call by call as a finite
    map does, and ends in a healthy tree that holds that map, as long as the pool
    has room for the pages the sequence makes dirty. *)
Theorem tree_refines_map ps kmax ops : GoodBounds ps kmax -> Forall (op_ok ps kmax) ops ->
  forall n h tr m, tree_holds ps kmax n h tr m -> ops_cost h ops <= n ->
  exists tr', run_tree_ops ops tr = (tr', Ok (map_ops ops m).1) /\
    tree_holds ps kmax (n - ops_cost h ops) (h + length ops) tr' (map_ops ops m).2.
Proof. intros Hb Hops n h tr m. by apply run_tree_ops_ok. Qed.

Definition sample_calls : list TreeOp :=
  [TInsert sample_key sample_value 1; TSearch sample_key; TScan None None 5; TDelete sample_key 2].

Lemma sample_scan : take 5 (map_range None None (<[sample_key := sample_value]> ∅)) = [(sample_key, sample_value)].
Proof. vm_compute. reflexivity. Qed.

Lemma tree_refines_map_witness : exists tr',
  run_tree_ops sample_calls sample_tree =
    (tr', Ok [AInserted; AFound (<[sample_key := sample_value]> (∅ : gmap bytes bytes) !! sample_key);
              AScanned [(sample_key, sample_value)];
              ADeleted (bool_decide (is_Some (<[sample_key := sample_value]> (∅ : gmap bytes bytes) !! sample_key)))]) /\
  tree_holds 256 21 140 4 tr' (delete sample_key (<[sample_key := sample_value]> ∅)).
Proof.
  rewrite <-sample_scan. apply (tree_refines_map 256 21 sample_calls sample_bounds) with (n := 256) (h := 0%nat) (m := ∅).
  - constructor; [split; [exact sample_acceptable|reflexivity]|].
    constructor; [exact I|]. constructor; [exact I|]. constructor; [reflexivity|constructor].
  - exact sample_holds.
  - vm_compute. discriminate.
Defined.

(** C9. A scan of a healthy tree, from which a client takes records one by one
    until it has enough or the scan is over, gives a prefix of the records of
    its range in strictly ascending order of the keys, all of them when the
    client never has enough: those whose key is at or after the start and
    before the end, a missing bound excluding nothing.  Every step returns. *)
Theorem scan_in_order ps kmax n h tr m start stop limit : tree_holds ps kmax n h tr m -> 1 <= n ->
  (exists tr', take_scan limit (scan start stop) tr = (tr', Ok (take limit (map_range start stop m))) /\
    tree_holds ps kmax n h tr' m) /\
  keys_lt (map_range start stop m).*1 /\
  forall key value, (key, value) ∈ map_range start stop m <->
    m !! key = Some value /\ bytes_le (default [] start) key /\ past_end stop key = false.
Proof.
  intros (T & D & Hd & Hh & <-) Hn. split; [|split; [apply map_range_sorted|intros key value; apply elem_of_map_range]].
  destruct (scan_range_ok ps kmax T n tr D start stop limit Hd Hn) as (s' & E & Hd').
  exists (set_store s' tr). split; [exact E|]. by exists T, D.
Qed.

Lemma scan_in_order_witness :
  (exists tr', take_scan 2 (scan (Some sample_key) None) grown_tree =
    (tr', Ok (take 2 (map_range (Some sample_key) None {[sample_key := sample_value]}))) /\
    tree_holds 256 21 239 1 tr' {[sample_key := sample_value]}) /\
  keys_lt (map_range (Some sample_key) None {[sample_key := sample_value]}).*1 /\
  forall key value, (key, value) ∈ map_range (Some sample_key) None {[sample_key := sample_value]} <->
    ({[sample_key := sample_value]} : gmap bytes bytes) !! key = Some value /\ bytes_le sample_key key /\ past_end None key = false.
Proof.
  exact (scan_in_order 256 21 239 1 grown_tree {[sample_key := sample_value]} (Some sample_key) None 2 grown_holds ltac:(lia)).
Defined.

(** ** Pages and files *)

(** C11. The repository's own checker of the structural invariants, run on a
    healthy tree, returns and finds nothing to object to: page ids in range,
    keys in order, leaves on one level, pages two fifths full, separators
    between their subtrees, and the chain of the leaves.  As every operation
    leaves a healthy tree, it accepts every tree they lead to. *)
Theorem checker_accepts ps kmax n h tr m : good_page_size ps -> tree_holds ps kmax n h tr m -> 1 <= n ->
  exists tr', assert_tree_invariants tr = (tr', Ok tt) /\ tree_holds ps kmax n h tr' m.
Proof.
  intros Hps (T & D & Hd & Hh & <-) Hn. destruct (checker_ok ps kmax T n tr D Hps Hd Hn) as (s' & E & Hd').
  exists (set_store s' tr). split; [exact E|]. by exists T, D.
Qed.

Lemma checker_accepts_witness : exists tr', assert_tree_invariants grown_tree = (tr', Ok tt) /\
  tree_holds 256 21 239 1 tr' {[sample_key := sample_value]}.
Proof.
  exact (checker_accepts 256 21 239 1 grown_tree {[sample_key := sample_value]} ltac:(unfold good_page_size; lia) grown_holds ltac:(lia)).
Defined.

(** C12. No page is lost or used twice by the operations of the tree.  After any
    sequence of searches, insertions, deletions and scans on a healthy tree,
    with the splits and merges they come to, every page id in the file is
    either reached from the root, through the child ids of the internal pages
    as the pool or the file holds them, or once on the freelist the pager has,
    and never both.  A page that has left the tree is on the freelist, and a page
    that has come into it was on the freelist or past the end of the file. *)
Theorem pages_accounted_for ps kmax ops n h tr m : GoodBounds ps kmax -> Forall (op_ok ps kmax) ops ->
  tree_holds ps kmax n h tr m -> ops_cost h ops <= n ->
  exists tr' answers free free', run_tree_ops ops tr = (tr', Ok answers) /\
    freelist (tr_store tr) free /\ freelist (tr_store tr') free' /\ accounted (tr_store tr') free' /\
    (forall i, reachable (tr_store tr) i -> reachable (tr_store tr') i \/ i ∈ free') /\
    (forall i, reachable (tr_store tr') i -> reachable (tr_store tr) i \/ i ∈ free \/ page_total (tr_store tr) <= i).
Proof.
  intros Hb Hops Ht Hn. destruct (run_tree_ops_ok ps kmax ops Hb Hops n h tr m Ht Hn) as (tr' & E & Ht').
  pose proof (moves_tree_ops ops tr) as Hf. rewrite E in Hf. simpl in Hf.
  destruct (tree_accounted _ _ _ _ _ _ Ht) as (free & Hl & _ & _ & Ha).
  destruct (tree_accounted _ _ _ _ _ _ Ht') as (free' & Hl' & Hnd & Hin & Ha').
  assert (page_total (tr_store tr) <= page_total (tr_store tr')) as Hle.
  { apply page_total_mono; [done|]. by destruct Hl as (f & mt & _ & _ & _ & -> & _). }
  exists tr', (map_ops ops m).1, free, free'. do 3 (split; [done|]). split; [by split|]. split; intros i Hi.
  - destruct (decide (i ∈ free')); [by right|left]. apply Ha'. apply Ha in Hi. split; [lia|done].
  - destruct (decide (i ∈ free)); [by right; left|]. destruct (Z.le_gt_cases (page_total (tr_store tr)) i); [by right; right|].
    left. apply Ha. apply Ha' in Hi. split; [lia|done].
Qed.

Lemma pages_accounted_for_witness :
  let ops := [TDelete sample_key 2; TInsert sample_key sample_value 3] in
  exists tr' answers free free', run_tree_ops ops grown_tree = (tr', Ok answers) /\
    freelist (tr_store grown_tree) free /\ freelist (tr_store tr') free' /\ accounted (tr_store tr') free' /\
    (forall i, reachable (tr_store grown_tree) i -> reachable (tr_store tr') i \/ i ∈ free') /\
    (forall i, reachable (tr_store tr') i ->
      reachable (tr_store grown_tree) i \/ i ∈ free \/ page_total (tr_store grown_tree) <= i).
Proof.
  apply (pages_accounted_for 256 21 _ 239 1 grown_tree {[sample_key := sample_value]} sample_bounds).
  - constructor; [reflexivity|]. constructor; [split; [exact sample_acceptable|reflexivity]|constructor].
  - exact grown_holds.
  - vm_compute. discriminate.
Defined.

(** C16. No operation of the tree writes a page: whatever the tree and its
    state, a search, an insertion, a deletion or a scan, also one that raises, leaves
    every byte of the data file as it was and what is synced of it, adding at
    most new pages at the end; the checkpoint LSN of the meta page and the
    settings of the pool stay too. *)
Theorem tree_keeps_file op tr :
  let p := st_pager (tr_store tr) in
  let p' := st_pager (tr_store (run_tree_op op tr).1) in
  (pg_disk p' = pg_disk p \/
   exists f z, pg_disk p = Some f /\ pg_disk p' = Some {| f_data := f_data f ++ z; f_synced := f_synced f |}) /\
  last_checkpoint_lsn <$> pg_meta_page p' = last_checkpoint_lsn <$> pg_meta_page p /\
  same_pool_config (tr_store tr) (tr_store (run_tree_op op tr).1).
Proof.
  destruct (moves_tree_op op tr) as [[_ _ Hl _ Hd] Hc He]. split; [exact Hd|]. split; [exact Hl|]. by split.
Qed.

(** ** Bounds *)

(** C14. The test for an underfull page, a product of floats compared with an
    integer, is exact: for every page size up to [2 ^ 50] it decides whether
    the page is less than two fifths full. *)
Theorem underfull_test_exact ps page : good_page_size ps ->
  page_underpopulated ps page = bool_decide (5 * calculate_page_size page < 2 * ps).
Proof.
  intros Hps. rewrite underpopulated_spec by done. by destruct (Z.ltb_spec (5 * calculate_page_size page) (2 * ps)); case_bool_decide; try lia.
Qed.

Lemma underfull_test_exact_witness :
  page_underpopulated 4096 (PLeaf empty_leaf) = bool_decide (5 * calculate_page_size (PLeaf empty_leaf) < 2 * 4096).
Proof. apply (underfull_test_exact 4096 (PLeaf empty_leaf)). unfold good_page_size. lia. Defined.

(** C13. Splitting a leaf that one acceptable record has made too large: the
    split point the code chooses leaves two pages of at least one slot each,
    which fit and are two fifths full at least. *)
Theorem leaf_split_bounds ps p new_id lsn : good_page_size ps ->
  Forall (fun s => calculate_leaf_record_size (lslot_key s) (lslot_value s) <= get_max_leaf_record_size ps) (leaf_slots p) ->
  ps < calculate_page_size (PLeaf p) <= ps + (ps - 32) / 5 ->
  exists i, split_slot_index ps (PLeaf p) = Ok i /\ (1 <= i < length (leaf_slots p))%nat /\
    let '(lhs, rhs) := split_leaf p i new_id lsn in
    leaf_slots lhs ++ leaf_slots rhs = leaf_slots p /\
    Forall (fun h => calculate_page_size h <= ps /\ page_underpopulated ps h = false) [PLeaf lhs; PLeaf rhs].
Proof.
  intros Hps Hf Hsz. destruct (split_leaf_balanced ps p Hps) as (i & Ei & Hi & H1 & H2); [|done|].
  - eapply Forall_impl; [exact Hf|]. intros s Hs. exact (record_limit ps _ _ Hs).
  - exists i. split; [done|]. split; [done|]. simpl. split; [apply take_drop|].
    repeat constructor; rewrite ?underpopulated_false by done; rewrite ?leaf_page_size; simpl; lia.
Qed.

Definition sample_full_leaf : LeafPage :=
  {| leaf_lsn := 0; right_sibling_page_id := 0;
     leaf_slots := replicate 6 {| lslot_key := sample_key; lslot_value := replicate 23 (byte_of_Z 0) |} |}.

Lemma leaf_split_bounds_witness :
  exists i, split_slot_index 256 (PLeaf sample_full_leaf) = Ok i /\ (1 <= i < length (leaf_slots sample_full_leaf))%nat /\
    let '(lhs, rhs) := split_leaf sample_full_leaf i 9 1 in
    leaf_slots lhs ++ leaf_slots rhs = leaf_slots sample_full_leaf /\
    Forall (fun h => calculate_page_size h <= 256 /\ page_underpopulated 256 h = false) [PLeaf lhs; PLeaf rhs].
Proof.
  apply (leaf_split_bounds 256 sample_full_leaf 9 1); [unfold good_page_size; lia| |vm_compute; split; [reflexivity|discriminate]].
  repeat constructor; vm_compute; discriminate.
Defined.

(** C15. The search for a leaf is logarithmic, with the fan-out of pages two
    fifths full for a base: on a healthy tree it passes [k + 1] internal pages
    only if there are [4 * fanout ^ k] records at least, and it never runs out of
    the fuel of the model. *)
Theorem find_leaf_logarithmic ps kmax n h tr m key : tree_holds ps kmax n h tr m -> 1 <= n -> GoodBounds ps kmax ->
  exists tr' r, find_leaf key tr = (tr', Ok r) /\ tree_holds ps kmax n h tr' m /\ 2 <= TreeHeight.fanout ps kmax /\
    forall k, length (leaf_path r) = S k -> 4 * TreeHeight.fanout ps kmax ^ Z.of_nat k <= Z.of_nat (size m).
Proof.
  intros (T & D & Hd & Hh & <-) Hn Hb. pose proof (gb_ps _ _ Hb) as [Hps _].
  destruct (done_find ps kmax T n tr D key Hd Hn) as (s' & ctx & id & link & slots & l & E & Hf & Hu).
  eexists _, _. split; [exact E|]. split; [exists T, D; split; [by eapply found_done|done]|].
  split; [apply TreeHeight.fanout_two; [lia|apply Hb]|]. intros k Hk.
  apply TreeHeight.height_log; [done|apply Hd|apply (rep_nodup _ _ _ _ _ (dn_rep _ _ _ _ _ _ Hd))|].
  cbn [leaf_path] in Hk. unfold path_of in Hk. rewrite length_reverse, length_fmap in Hk. by rewrite <-Hk.
Qed.

Lemma find_leaf_logarithmic_witness : exists tr' r, find_leaf sample_key grown_tree = (tr', Ok r) /\
  tree_holds 256 21 239 1 tr' {[sample_key := sample_value]} /\ 2 <= TreeHeight.fanout 256 21 /\
  forall k, length (leaf_path r) = S k ->
    4 * TreeHeight.fanout 256 21 ^ Z.of_nat k <= Z.of_nat (size ({[sample_key := sample_value]} : gmap bytes bytes)).
Proof.
  exact (find_leaf_logarithmic 256 21 239 1 grown_tree {[sample_key := sample_value]} sample_key grown_holds ltac:(lia) sample_bounds).
Defined.
