(* ===== verification/DbScenarios.v ===== *)
(** * Sessions of the database

    Whole runs of the model from an empty directory, one each, for what the code
    does where it departs from what it means to do.  They are examples: each
    theorem evaluates its run and says nothing of others. *)

From S2P Require Import Prelude Bytes Float64 Entities Codec Fs Pager Cache Tree Wal Db Debug.

(** ** Sessions *)

(** The smallest page size of the documentation, and checkpoints only when
    half of the pool is dirty. *)
Definition small_config : Config :=
  {| cfg_page_size_bytes := 256; cfg_cache_capacity_pages := 64;
     cfg_checkpoint_wal_size_bytes := 100000; cfg_checkpoint_dirty_page_ratio := F64 1 (-1) |}.

(** Opening a database on a directory and running [m] on it: the directory as
    it is then, and the outcome. *)
Definition session_with {A} (c : Config) (dir : DataDir) (m : M DB A) : Result (DataDir * Result A) :=
  d ← db_init c dir;
  let '(d', r) := (db_open;; m) d in mret (data_dir d', r).

Definition session {A} : DataDir -> M DB A -> Result (DataDir * Result A) := session_with small_config.

(** The outcome of a session. *)
Definition answer {A} (r : Result (DataDir * Result A)) : Result A := '(_, x) ← r; x.

Definition put_all (records : list (bytes * bytes)) : M DB unit :=
  mfor records (fun r => put (PyBytes r.1) (PyBytes r.2)).

(** Which of the keys are found. *)
Fixpoint found_keys (keys : list bytes) : M DB (list bool) :=
  match keys with
  | [] => mret []
  | k :: keys => v ← get (PyBytes k); l ← found_keys keys; mret (bool_decide (is_Some v) :: l)
  end.

Definition delete_key (k : bytes) : M DB unit := db_delete (PyBytes k);; mret tt.

(** ** A crash inside a checkpoint *)

Definition short_record (i : nat) : bytes * bytes :=
  ([byte_of_Z (Z.of_nat i)], replicate 20 (byte_of_Z (Z.of_nat i))).

(** Six records, a checkpoint, a seventh record, and the first half of another
    checkpoint, up to and including the fsync of the data file. *)
Definition interrupted_checkpoint : M DB unit :=
  put_all (short_record <$> seq 0 6);;
  checkpoint;;
  put_all (short_record <$> seq 6 1);;
  checkpoint_flush.

Definition after_crash {A B} (crash : File -> File) (m : M DB A) (m' : M DB B) : Result (Result A * Result B) :=
  '(dir, r) ← session empty_dir m;
  '(_, r') ← session (map_dir crash dir) m';
  mret (r, r').

(** A crash in a checkpoint, after the data file has been synced and before
    the checkpoint record is in the log, loses acknowledged records.  Seven
    records are put, each call returns, and the process dies there.  The next
    open replays the log of the last complete checkpoint onto pages that are
    newer than it: three of the seven records are not found, whether the crash
    keeps what was written or only what was synced. *)
Theorem checkpoint_crash_loses_records :
  after_crash crash_lossy interrupted_checkpoint (found_keys ((fun i => (short_record i).1) <$> seq 0 7)) =
    Ok (Ok tt, Ok [true; true; true; false; false; false; true]) /\
  after_crash crash_kept interrupted_checkpoint (found_keys ((fun i => (short_record i).1) <$> seq 0 7)) =
    Ok (Ok tt, Ok [true; true; true; false; false; false; true]).
Proof. split; vm_compute; reflexivity. Qed.

(** ** Keys of very different lengths *)

(** A record of the largest size: a key of [n] bytes that starts with [i]. *)
Definition full_record (n i : nat) : bytes * bytes :=
  (byte_of_Z (Z.of_nat i) :: replicate (n - 1) (byte_of_Z 0), replicate (28 - n) (byte_of_Z 0)).

Definition mixed_record (i : nat) : bytes * bytes :=
  full_record (if bool_decide (i = 12%nat \/ i = 15%nat) then 28 else 2) i.

(** Thirty records put and the last [n] of them deleted again. *)
Definition put_then_delete (n : nat) : M DB unit :=
  put_all (mixed_record <$> seq 0 30);;
  mfor (rev (seq (30 - n) n)) (fun i => delete_key (mixed_record i).1).

(** The assertion that ends the search for a sibling to merge with, which a
    comment calls unreachable, is reached: thirty puts and two deletes on a
    fresh database, every one of them accepted, and a third delete raises
    AssertionError, with the record already taken out of its leaf.  The delete
    is in the log by then: when the process dies there and what was not synced is
    lost, the next open replays it and raises AssertionError too. *)
Theorem merge_assertion_reachable :
  answer (session empty_dir (put_then_delete 2)) = Ok tt /\
  answer (session empty_dir (put_then_delete 3)) = Raise AssertionError /\
  after_crash crash_lossy (put_then_delete 3) (mret tt) = Ok (Raise AssertionError, Raise AssertionError : Result unit).
Proof. split_and!; vm_compute; reflexivity. Qed.

Definition ascending_record (i : nat) : bytes * bytes :=
  full_record (match i with 9%nat | 12%nat => 28 | _ => 15 end) i.

(** A split can leave an internal page that is less than two fifths full
    although the record limit is kept: after twenty puts the repository's own
    checker of the structural invariants accepts the tree, after one more it
    raises. *)
Theorem split_leaves_underfull_page :
  answer (session empty_dir (put_all (ascending_record <$> seq 0 20);; in_tree assert_tree_invariants)) = Ok tt /\
  answer (session empty_dir (put_all (ascending_record <$> seq 0 21))) = Ok tt /\
  answer (session empty_dir (put_all (ascending_record <$> seq 0 21);; in_tree assert_tree_invariants)) =
    Raise AssertionError.
Proof. split_and!; vm_compute; reflexivity. Qed.

(** ** A pool that is too small *)

(** The same database with a pool of four pages. *)
Definition tiny_config : Config :=
  {| cfg_page_size_bytes := 256; cfg_cache_capacity_pages := 4;
     cfg_checkpoint_wal_size_bytes := 100000; cfg_checkpoint_dirty_page_ratio := F64 1 (-1) |}.

(** Going on after whatever [m] comes to, as a client that catches the
    exception does. *)
Definition despite {A B} (m : M DB A) (k : M DB B) : M DB B := fun d => k (m d).1.

(** The calls on a tiny pool, then [close]; and what a later session finds. *)
Definition closed_after {A} (m : M DB A) (n : nat) : Result (Result unit * Result (list bool)) :=
  '(dir, r) ← session_with tiny_config empty_dir (despite m db_close);
  '(_, r') ← session dir (found_keys ((fun i => (short_record i).1) <$> seq 0 n));
  mret (r, r').

(** The checkpoint before a mutation does not make sure that the pool has
    room for it: with a pool of four pages, thirty-six puts return and the
    next one raises DBBufferPoolOverflowError in the middle of a split.  If the
    client then closes the database, which works, the checkpoint makes the
    half-done split permanent: of the thirty-six acknowledged records half are
    never found again.  Closing before that put loses nothing. *)
Theorem pool_overflow_loses_records :
  answer (session_with tiny_config empty_dir (put_all (short_record <$> seq 0 36))) = Ok tt /\
  answer (session_with tiny_config empty_dir (put_all (short_record <$> seq 0 37))) = Raise DBBufferPoolOverflowError /\
  closed_after (put_all (short_record <$> seq 0 36)) 36 = Ok (Ok tt, Ok (replicate 36 true)) /\
  closed_after (put_all (short_record <$> seq 0 37)) 36 = Ok (Ok tt, Ok (replicate 18 true ++ replicate 18 false)).
Proof. split_and!; vm_compute; reflexivity. Qed.

(** ** A scan across [close] and [open] *)

Definition bare_record (i : Z) : bytes * bytes := ([byte_of_Z i], []).

(** A scan gives a record, [m] runs, and the scan is asked for the next. *)
Definition scan_across (m : M DB unit) : M DB (option (bytes * bytes) * option (bytes * bytes)) :=
  put_all [bare_record 2; bare_record 4];;
  g ← db_scan None None;
  '(r1, g) ← db_scan_next g;
  m;;
  '(r2, g) ← db_scan_next g;
  mret (r1, r2).

(** [close] sets the version counter back to zero, so the version check can
    be passed by a scan of an earlier session: two records are put, a scan
    gives the first, the database is closed and opened again, and two more
    records are put before and between them.  The scan then gives its first
    record a second time, where the two puts alone make it raise
    DBConcurrentPageModificationError. *)
Theorem reopened_scan_not_stopped :
  answer (session empty_dir (scan_across (put_all [bare_record 1; bare_record 3]))) = Raise DBConcurrentPageModificationError /\
  answer (session empty_dir (scan_across (db_close;; db_open;; put_all [bare_record 1; bare_record 3]))) =
    Ok (Some (bare_record 2), Some (bare_record 2)).
Proof. split; vm_compute; reflexivity. Qed.
