(* ===== verification/DbCreation.v ===== *)
(** * The creation of a data file

    [Pager.open] decides by the existence of the data file whether it has to
    create the database, and creates it in several writes, the meta page last.
    What a process killed in between leaves behind. *)

From S2P Require Import Prelude Bytes Entities Codec Fs Pager Cache Tree Db CodecFacts PagerFacts DbScenarios.
From Stdlib Require Import Strings.Byte.

(** ** The steps of a creation *)

(** How far a creation has come: the empty file exists; it has been extended by
    the root page; the root page has been written.  The meta page is next. *)
Inductive CreationStage := Touched | Extended | LeafWritten.

Definition create_until (stage : CreationStage) : M Pager unit :=
  modify (set_disk empty_file);;
  modify (set_is_open true);;
  match stage with
  | Touched => mret tt
  | _ =>
      p ← get_state;
      modify (set_meta {| page_size_bytes := pg_page_size_bytes p;
                          root_page_id := DEFAULT_ROOT_PAGE_ID;
                          next_page_id := DEFAULT_ROOT_PAGE_ID;
                          freelist_head_page_id := 0; last_checkpoint_lsn := 0 |}
                (pg_is_meta_dirty p));;
      leaf_page_id ← allocate_page;
      match stage with
      | LeafWritten =>
          data ← lift (encode_page (PLeaf empty_leaf) (pg_page_size_bytes p));
          write_page leaf_page_id data
      | _ => mret tt
      end
  end.

(** [pager_open] on a path without a file is these steps, and then the meta
    page and the fsync. *)
Lemma creation_steps p : pg_is_open p = false -> pg_disk p = None ->
  pager_open p = (create_until LeafWritten;; flush_meta;; fsync) p.
Proof.
  intros Ho Hd. unfold pager_open, bootstrap_initial_db, create_until. mrun. rewrite Ho, Hd.
  destruct (allocate_page _) as [p1 [id|e]]; [|done]. fold empty_leaf.
  change (pg_page_size_bytes (set_is_open true (set_disk empty_file p))) with (pg_page_size_bytes p).
  destruct (encode_page _ _) as [b|e]; [|done]. by destruct (write_page _ _ _) as [p2 [[]|e]].
Qed.

(** ** Files without the magic prefix *)

(** No file of the format begins with these bytes: they are zeros, or missing. *)
Definition blank (f : File) : Prop := Forall (.= x00) (take 8 (f_data f)).

Lemma blank_unreadable f ps : blank f -> MIN_PAGE_SIZE <= ps ->
  decode_meta_page (read_at f 0 ps) = Raise DBCorruptedError.
Proof.
  intros Hf Hps. change MIN_PAGE_SIZE with 52 in Hps. unfold decode_meta_page.
  change (sizeof META_PAGE_NO_CRC + sizeof CRC32_FIELD) with 52.
  change (len DATA_FILE_MAGIC_PREFIX) with 8.
  rewrite !py_slice_take, take_take by lia. unfold read_at. rewrite drop_0, take_take.
  replace ((Z.to_nat 8 `min` Z.to_nat 52) `min` Z.to_nat ps)%nat with 8%nat by lia.
  rewrite bool_decide_eq_false_2; [done|]. intros E. unfold blank in Hf. rewrite E in Hf.
  by inversion_clear Hf.
Qed.

(** Opening a blank file fails before anything is written. *)
Lemma blank_unopenable f ps p : blank f -> pager_init (Some f) ps = Ok p ->
  exists p', pager_open p = (p', Raise DBCorruptedError) /\ pg_disk p' = Some f.
Proof.
  intros Hf. unfold pager_init. destruct (Z.ltb_spec ps MIN_PAGE_SIZE) as [?|Hps]; [done|]. intros [= <-].
  unfold pager_open, read_page, open_file. mrun. cbn [set_is_open pg_is_open pg_disk pg_page_size_bytes].
  change (negb (META_PAGE_ID =? META_PAGE_ID)) with false. cbn [andb].
  unfold META_PAGE_ID. rewrite Z.mul_0_l, blank_unreadable by done. eauto.
Qed.

(** ** A creation that does not reach the meta page *)

Lemma blank_write f pos data : blank f -> 8 <= pos -> 8 <= len (f_data f) -> blank (write_at f pos data).
Proof.
  intros Hf Hp Hl. unfold blank, len in *. simpl.
  pose proof (splice_read_other (f_data f) (Z.to_nat pos) data 0 8) as E. rewrite !drop_0 in E.
  rewrite E; [done|left|]; lia.
Qed.

Lemma creation_blank stage ps p p' r : pager_init None ps = Ok p -> create_until stage p = (p', r) ->
  exists f, pg_disk p' = Some f /\ blank f /\ f_synced f = [].
Proof.
  unfold pager_init. destruct (Z.ltb_spec ps MIN_PAGE_SIZE) as [?|Hps]; [done|]. intros [= <-].
  change MIN_PAGE_SIZE with 52 in Hps.
  unfold create_until, allocate_page, bump_allocate_one_page, extend_file_by_one_page, update_meta,
    meta_page, open_file, write_page, open_file, py_zeros. mrun.
  set (f := append_data empty_file (replicate (Z.to_nat ps) x00)).
  assert (blank f) as Hf.
  { unfold blank, f. simpl. rewrite take_replicate. by apply Forall_replicate. }
  assert (8 <= len (f_data f)) as Hl by (unfold f, len; simpl; rewrite length_replicate; lia).
  destruct stage; simpl.
  - intros [= <- _]. exists empty_file. split; [done|]. split; [constructor|done].
  - destruct (Z.ltb_spec ps 0); [lia|]. intros [= <- _]. by exists f.
  - destruct (Z.ltb_spec ps 0); [lia|]. simpl. destruct (encode_page _ _) as [b|e]; intros [= <- _].
    + exists (write_at f (DEFAULT_ROOT_PAGE_ID * ps) b). split; [done|]. split; [|done].
      apply blank_write; [done| |done]. unfold DEFAULT_ROOT_PAGE_ID. lia.
    + by exists f.
Qed.

(** ** The theorem *)

(** C19. A process killed while it creates the database leaves a directory that
    cannot be used again.  However far the creation has come before the meta
    page is written ([creation_steps]), and whether the crash keeps the writes or loses them, the
    data file exists then, so the next open reads it instead of creating it,
    and every open, with any configuration, raises DBCorruptedError and leaves
    the directory as it was. *)
Theorem interrupted_creation_unopenable stage ps p p' r f crash wal temp c d :
  pager_init None ps = Ok p -> create_until stage p = (p', r) -> pg_disk p' = Some f ->
  crash = crash_kept \/ crash = crash_lossy ->
  let dir := {| dir_data := Some (crash f); dir_wal := wal; dir_wal_temp := temp |} in
  db_init c dir = Ok d ->
  exists d', db_open d = (d', Raise DBCorruptedError) /\ data_dir d' = dir.
Proof.
  intros Hp Hc Hf Hcrash dir. destruct (creation_blank _ _ _ _ _ Hp Hc) as (f' & E & Hb & Hs).
  rewrite Hf in E. injection E as <-.
  assert (blank (crash f)) as Hbc.
  { destruct Hcrash as [-> | ->]; [done|]. unfold blank. simpl. rewrite Hs. constructor. }
  unfold db_init, dir. cbn [dir_data dir_wal dir_wal_temp].
  destruct (pager_init (Some (crash f)) _) as [q|] eqn:Eq; [|done]. intros Ed. injection Ed as <-.
  destruct (blank_unopenable _ _ _ Hbc Eq) as (q' & Eo & Hd).
  unfold db_open, db_pager, in_pool, on_pager, zoom. mrun. simpl. rewrite Eo.
  eexists. split; [done|]. unfold data_dir, dir. simpl. by rewrite Hd.
Qed.

Lemma creation_runs : exists p p' f, pager_init None 256 = Ok p /\
  create_until LeafWritten p = (p', Ok tt) /\ pg_disk p' = Some f.
Proof. do 3 eexists. split; [reflexivity|]. split; [vm_compute; reflexivity|reflexivity]. Qed.

Lemma interrupted_creation_unopenable_witness : exists p p' f d d', pager_init None 256 = Ok p /\
  create_until LeafWritten p = (p', Ok tt) /\ pg_disk p' = Some f /\
  let dir := {| dir_data := Some (crash_kept f); dir_wal := None; dir_wal_temp := None |} in
  db_init small_config dir = Ok d /\ db_open d = (d', Raise DBCorruptedError) /\ data_dir d' = dir.
Proof.
  destruct creation_runs as (p & p' & f & Hp & Hc & Hf).
  destruct (db_init small_config {| dir_data := Some (crash_kept f); dir_wal := None; dir_wal_temp := None |})
    as [d|e] eqn:Ed; [|discriminate Ed].
  destruct (interrupted_creation_unopenable _ _ _ _ _ _ _ None None small_config d Hp Hc Hf (or_introl eq_refl) Ed)
    as (d' & Ho & Hd).
  exists p, p', f, d, d'. done.
Defined.
