(* ===== verification/DbFaults.v ===== *)
(** * A sync that fails

    [_append] writes the record and then syncs the log; when the sync raises,
    the record stays in the file.  What becomes of it. *)

From S2P Require Import Prelude Bytes Float64 Entities Codec Fs Pager Cache Tree Wal Db DbScenarios.
From S2P Require Import CodecFacts CodecTheorems WalFacts WalTheorems.

(** [_append] up to [fsync_file], which raises: the record is written, the LSN
    is counted, and nothing takes either back. *)
Definition append_unsynced (record : WALRecord) : M WAL Z :=
  f ← wal_file;
  encoded ← lift (encode_wal_record record);
  modify (set_lsn (record_lsn record));;
  let f := append_data f encoded in
  modify (set_wal_file f (length (f_data f)));;
  raise (OSError 5).

(** [put] when that happens: the tree is not reached. *)
Definition put_unsynced (key value : PyArg) : M DB unit :=
  check_if_opened;;
  key ← ensure_bytes_type key;
  value ← ensure_bytes_type value;
  in_tree (raise_if_record_too_large key value);;
  maybe_checkpoint;;
  w ← gets db_wal;
  in_wal (append_unsynced (WALPutRecord (wal_current_lsn w + 1) key value));;
  mret tt.

(** The next record that is appended makes the failed one durable with it: the
    log is in order, and holds both. *)
Lemma next_append_keeps w recs r r2 : WalInv w recs -> wal_fits r = true -> record_lsn r = wal_current_lsn w + 1 ->
  wal_fits r2 = true -> record_lsn r2 = record_lsn r + 1 ->
  exists w1 w2, append_unsynced r w = (w1, Raise (OSError 5)) /\ wal_append r2 w1 = (w2, Ok (record_lsn r2)) /\
    WalInv w2 (recs ++ [r; r2]).
Proof.
  intros Hw Hr Hl Hr2 Hl2. pose proof (wal_append_inv w recs r Hw Hr Hl) as Hw1. rewrite (wal_append_run w recs r Hw), Hr in Hw1.
  destruct Hw1 as [Ho Hd Hfit Hseq Hlsn]. cbn [fst] in *.
  assert (record_lsn r2 = last_lsn 0 (recs ++ [r]) + 1) as Hlast by (by rewrite last_lsn_snoc).
  set (w1 := set_wal_file {| f_data := wires (recs ++ [r]); f_synced := wires recs |} (length (wires (recs ++ [r]))) (set_lsn (record_lsn r) w)).
  set (f2 := {| f_data := wires (recs ++ [r]) ++ wal_wire r2; f_synced := wires (recs ++ [r]) ++ wal_wire r2 |}).
  exists w1, (set_wal_stats (count_append (len (wal_wire r2))) (set_wal_file f2 (length (f_data f2)) (set_lsn (record_lsn r2) w1))).
  split; [|split].
  - unfold append_unsynced. rewrite (bind_Ok _ _ _ _ _ (wal_file_run _ _ (wi_open _ _ Hw) (wi_disk _ _ Hw))).
    rewrite encode_wal_record_eq, Hr. unfold w1. by rewrite wires_snoc.
  - unfold wal_append. rewrite (bind_Ok _ _ _ _ _ (wal_file_run w1 _ (wi_open _ _ Hw) eq_refl)).
    by rewrite encode_wal_record_eq, Hr2.
  - replace (recs ++ [r; r2]) with ((recs ++ [r]) ++ [r2]) by (by rewrite <-app_assoc). split.
    + exact (wi_open _ _ Hw).
    + rewrite wires_snoc. done.
    + apply Forall_app. split; [exact Hfit|by constructor].
    + apply sequential_snoc; [exact Hseq|by right].
    + right. by rewrite last_lsn_snoc.
Qed.

(** A record is put and acknowledged; a second put of its key raises, and the
    first value is still there; a put of another key is acknowledged, and the
    process dies. *)
Definition failed_put : M DB (option bytes) :=
  put (PyBytes [byte_of_Z 1]) (PyBytes [byte_of_Z 10]);;
  put_unsynced (PyBytes [byte_of_Z 1]) (PyBytes [byte_of_Z 20]);;
  get (PyBytes [byte_of_Z 1]).

Definition after_failed_put : M DB (option bytes) :=
  despite failed_put (
    value ← get (PyBytes [byte_of_Z 1]);
    put (PyBytes [byte_of_Z 2]) (PyBytes [byte_of_Z 30]);;
    mret value).

(** The value of the put that failed is there after the crash, although the
    database has answered with the older one since. *)
Theorem failed_put_reappears : answer (session empty_dir failed_put) = Raise (OSError 5) /\
  after_crash crash_lossy after_failed_put (get (PyBytes [byte_of_Z 1])) =
    Ok (Ok (Some [byte_of_Z 10]), Ok (Some [byte_of_Z 20])).
Proof. split; vm_compute; reflexivity. Qed.
