(* ===== verification/DbFacts.v ===== *)
(** * The parts of a database together

    How a step of one part acts on the whole; a healthy tree can be written to
    disk page by page, which is the first half of a checkpoint. *)

From S2P Require Import Prelude Bytes Float64 Bisect Entities Codec Fs Pager Cache Tree Wal Db.
From S2P Require Import CodecFacts PageCodecFacts CodecTheorems PagerFacts CacheFacts CacheOps WalFacts WalTheorems.
From S2P Require Import TreeSizes TreeShape TreeSteps TreeStore TreeFind TreeSplit TreeBalance TreeRedistribute.
From S2P Require Import TreeBorrow TreeMerge TreeCascade TreeOps TreeFrame TreeBudget TreePages.

(** ** The pages of a healthy tree can be encoded *)

Lemma id_fits i next : 0 <= i < next -> next <= 2 ^ 64 -> fits 8 i = true.
Proof. intros Hi Hn. apply fits_spec. change (256 ^ Z.of_nat 8) with (2 ^ 64). lia. Qed.

(** Every page of a healthy tree can be written to the file. *)
Lemma page_encodable_in_tree ps kmax T N tr D id p : Settled ps kmax T N tr D -> 80 < ps < 2 ^ 32 ->
  (id, erase p) ∈ nodes T -> lsn_fits p -> page_encodable ps p.
Proof.
  intros [Eps Hr Hroot [Hwf Hp] Hn] Hps Hin Hl.
  assert (forall i, i ∈ (nodes T).*1 -> fits 8 i = true) as Hids.
  { intros i Hi. assert (usable D i) as [Hi' _] by (apply (rep_usable _ _ _ _ _ Hr); by left).
    pose proof (inv_next _ _ _ _ _ (si_pager _ _ _ (rep_inv _ _ _ _ _ Hr))) as Hnext. eapply id_fits; [|apply Hnext]. lia. }
  unfold pages_ok in Hp. rewrite Forall_forall in Hp. pose proof (Hp _ Hin) as Hpl.
  apply placed_root in Hpl as [Hsz _]; [|lia]. simpl in Hsz. unfold erase in Hsz. rewrite page_size_lsn in Hsz.
  destruct p as [[lsn lm slots]|[lsn link slots]|q].
  - destruct (child_in_nodes T id lm slots Hin) as [Hlm Hc]. split; [split; [exact Hl|by apply Hids]|].
    split; [lia|]. eapply Forall_impl; [exact Hc|]. intros s. apply Hids.
  - split; [split; [exact Hl|]|lia]. simpl. apply leaf_in_leaves in Hin. simpl in Hin.
    destruct (chained_link _ _ _ _ (wf_chained _ _ _ Hwf) Hin) as [->|Hlk]; [reflexivity|].
    apply list_elem_of_fmap in Hlk as ([i k] & -> & Hlk). apply Hids. by eapply leaves_sub.
  - destruct (rep_member _ _ _ _ _ _ Hr Hin) as (_ & _ & []).
Qed.

(** ** Running the parts of a database *)

Lemma in_tree_run {A} (m : M BPlusTree A) d tr r : m (db_tree d) = (tr, r) -> in_tree m d = (set_tree tr d, r).
Proof. intros E. unfold in_tree, zoom. by rewrite E. Qed.

Lemma in_wal_run {A} (m : M WAL A) d w r : m (db_wal d) = (w, r) -> in_wal m d = (set_wal w d, r).
Proof. intros E. unfold in_wal, zoom. by rewrite E. Qed.

Lemma in_pool_run {A} (m : M Store A) d s r : m (db_store d) = (s, r) -> in_pool m d = (set_db_store s d, r).
Proof. intros E. unfold in_pool, zoom. by rewrite E. Qed.

Lemma db_pager_run {A} (m : M Pager A) d p r : m (st_pager (db_store d)) = (p, r) ->
  db_pager m d = (set_db_store (set_pager p (db_store d)) d, r).
Proof. intros E. apply in_pool_run. by apply on_pager_run. Qed.

(** A change of the pager's file and meta page that leaves the pages in use
    alone. *)
Lemma rep_pager s D T p' D' : Rep ∅ ∅ s D (nodes T) -> PagerOk p' D' ->
  next_page_id (dk_meta D') = next_page_id (dk_meta D) -> dk_heads D' = dk_heads D -> dk_freed D' = dk_freed D ->
  dk_ps D' = dk_ps D -> (forall i, usable D i -> on_disk D' i = on_disk D i) ->
  Rep ∅ ∅ (set_pager p' s) D' (nodes T).
Proof.
  intros [Hinv Hnd Hs Hu Hlo He] Hp En Eh Ef Eps Hd.
  assert (forall i, usable D' i <-> usable D i) as Hus by (intros i; unfold usable, dk_free; by rewrite En, Eh, Ef).
  split; try done.
  - apply (si_disk _ _ D); [done|done|]. intros i cp Hi. rewrite Hus. pose proof (si_usable _ _ _ Hinv i cp Hi). auto.
  - rewrite Forall_forall in *. intros e Hin. destruct (Hs e Hin) as [Hse ?]. split; [|done].
    eapply sees_view; [|exact Hse]. apply view_preserved, Hd, Hu. left. apply list_elem_of_fmap. by exists e.
  - intros i. by rewrite Hus.
Qed.

(** ** The first half of a checkpoint *)

Record Flushed (s s' : Store) (D D' : Disk) (T : tree) : Prop := {
  fd_rep : Rep ∅ ∅ s' D' (nodes T);
  fd_meta : dk_meta D' = dk_meta D;
  fd_clean : forall i, ~ is_dirty s' i;
  fd_freelist : pg_dirty_freelist_page_ids (st_pager s') = ∅;
  fd_config : same_pool_config s s';
  fd_synced : f_synced (dk_file D') = f_data (dk_file D');
  fd_meta_page : page_at (dk_file D') (dk_ps D) META_PAGE_ID = page_at (dk_file D) (dk_ps D) META_PAGE_ID;
}.

(** Flushing the pool writes pages to the file and changes nothing else. *)
Lemma flush_pool_ok ps kmax T N tr D : Settled ps kmax T N tr D -> 80 < ps < 2 ^ 32 ->
  exists s1 D1, flush_all (tr_store tr) = (s1, Ok tt) /\ Rep ∅ ∅ s1 D1 (nodes T) /\ dk_meta D1 = dk_meta D /\
    (forall i, ~ is_dirty s1 i) /\ same_pool_config (tr_store tr) s1 /\
    page_at (dk_file D1) (dk_ps D) META_PAGE_ID = page_at (dk_file D) (dk_ps D) META_PAGE_ID.
Proof.
  intros Hd Hps. pose proof Hd as [Eps Hr _ _ _]. pose proof (rep_inv _ _ _ _ _ Hr) as Hinv.
  destruct (flush_all_ok (tr_store tr) D Hinv) as (s1 & D1 & E1 & Hinv1 & Hclean & Hview & Em & Eh & Ef & Hcfg & Hheap & _ & _ & Hmp).
  { intros i cp p Hi _ Ho. rewrite Eps. pose proof (rep_entries _ _ _ _ _ Hr i cp Hi) as Hin.
    apply list_elem_of_fmap in Hin as ([j q] & -> & Hin). destruct (rep_member _ _ _ _ _ _ Hr Hin) as (_ & (p' & Hv & Hq & Hl) & _).
    simpl in *. unfold view in Hv. rewrite Hi, Ho in Hv. injection Hv as <-. subst q.
    by eapply page_encodable_in_tree. }
  exists s1, D1. split; [done|]. split; [|done].
  assert (forall i, usable D1 i <-> usable D i) as Hus by (intros i; unfold usable, dk_free; by rewrite Em, Eh, Ef).
  destruct Hr as [_ Hnd Hs Hu Hlo He]. split; try done.
  - rewrite Forall_forall in *. intros e Hin. destruct (Hs e Hin) as [Hse ?]. split; [|done].
    eapply sees_view; [|exact Hse]. apply Hview, Hu. left. apply list_elem_of_fmap. by exists e.
  - intros i. by rewrite Hus.
  - intros i cp Hi. pose proof (si_usable _ _ _ Hinv1 i cp Hi) as Hui. rewrite Hus, Hu in Hui. by destruct Hui.
Qed.

Lemma checkpoint_flush_ok ps kmax T N d D : Settled ps kmax T N (db_tree d) D -> 80 < ps < 2 ^ 32 ->
  exists s' D', checkpoint_flush d = (set_db_store s' d, Ok tt) /\ Flushed (db_store d) s' D D' T.
Proof.
  intros Hd Hps. destruct (flush_pool_ok _ _ _ _ _ _ Hd Hps) as (s1 & D1 & E1 & Hr1 & Em & Hclean & Hcfg & Hmp).
  pose proof (rep_inv _ _ _ _ _ Hr1) as Hinv1.
  destruct (flush_freelist_ok _ _ _ _ _ (si_pager _ _ _ Hinv1)) as (p2 & f2 & E2 & Hp2 & Hdf & _ & _ & _ & Hpages).
  set (D2 := {| dk_file := fsync_file f2; dk_meta := dk_meta D1; dk_heads := dk_heads D1; dk_freed := dk_freed D1 |}).
  set (p3 := bump CPagerFsyncs (set_disk (fsync_file f2) p2)).
  exists (set_pager p3 s1), D2. split.
  - unfold checkpoint_flush. rewrite (bind_Ok _ _ _ _ _ (in_pool_run _ d _ _ E1)).
    rewrite (bind_Ok _ _ _ _ _ (db_pager_run _ (set_db_store s1 d) _ _ E2)).
    exact (db_pager_run _ (set_db_store (set_pager p2 s1) (set_db_store s1 d)) _ _ (fsync_run _ _ _ _ _ Hp2)).
  - assert (forall j, 0 <= j < next_page_id (dk_meta D1) -> j ∉ dk_heads D1 ->
      page_at (fsync_file f2) (dk_ps D1) j = page_at (dk_file D1) (dk_ps D1) j) as Hpg.
    { intros j Hj Hh. change (page_at (fsync_file f2)) with (page_at f2). rewrite <-(si_ps _ _ _ Hinv1). by apply Hpages. }
    pose proof (si_pager _ _ _ Hinv1) as Hpo. split; try done.
    + apply (rep_pager s1 D1); try done; [by apply inv_fsync|].
      intros i [Hi Hfree]. unfold on_disk, disk_page. change (dk_ps D2) with (dk_ps D1).
      rewrite Hpg; [done|lia|]. intros Hin. apply Hfree, elem_of_app. by left.
    + rewrite <-Hmp. unfold dk_ps. rewrite <-Em. apply Hpg.
      * pose proof (inv_next _ _ _ _ _ Hpo). unfold META_PAGE_ID. lia.
      * intros Hin. pose proof (inv_range _ _ _ _ _ Hpo) as Hr0. rewrite Forall_forall in Hr0.
        assert (0 < META_PAGE_ID < next_page_id (dk_meta D1)); [apply Hr0, elem_of_app; by left|by unfold META_PAGE_ID in *; lia].
Qed.
