(* ===== verification/DbCheckpoint.v ===== *)
(** * The checkpoint of a database

    A checkpoint keeps the tree, leaves nothing dirty, and leaves a log whose
    one record is its own. *)

From S2P Require Import Prelude Bytes Float64 Bisect Entities Codec Fs Pager Cache Tree Wal Db.
From S2P Require Import CodecFacts PageCodecFacts CodecTheorems PagerFacts CacheFacts CacheOps WalFacts WalTheorems.
From S2P Require Import TreeSizes TreeShape TreeSteps TreeStore TreeFind TreeSplit TreeBalance TreeRedistribute.
From S2P Require Import TreeBorrow TreeMerge TreeCascade TreeOps TreeFrame TreeBudget DbFacts.


(** ** The parts of a database together

    The tree is [T] on the disk [D] and the log holds [recs]; there are [N]
    page ids and LSNs to use. *)
Record DbBase (ps kmax : Z) (T : tree) (N : Z) (d : DB) (D : Disk) (recs : list WALRecord) : Prop := {
  bs_settled : Settled ps kmax T N (db_tree d) D;
  bs_log : WalInv (db_wal d) recs;
  bs_lsn : 0 <= wal_current_lsn (db_wal d) /\ wal_current_lsn (db_wal d) + N < 2 ^ 64;
  bs_checkpoint_lsn : fits 8 (last_checkpoint_lsn (dk_meta D)) = true;
  bs_capacity : bp_capacity_pages (st_pool (db_store d)) <> 0;
}.

Lemma lsn_fits_bound l : 0 <= l < 2 ^ 64 -> fits 8 l = true.
Proof. intros H. apply fits_spec. exact H. Qed.

(** The meta page of a database fits its encoding. *)
Lemma meta_fits_ok ps kmax T N tr D : Settled ps kmax T N tr D -> 1 <= N -> ps < 2 ^ 32 ->
  fits 8 (last_checkpoint_lsn (dk_meta D)) = true -> meta_fits (dk_meta D) = true /\
  fits 8 (root_page_id (dk_meta D)) = true /\ fits 8 (freelist_head_page_id (dk_meta D)) = true /\
  fits 8 (next_page_id (dk_meta D)) = true.
Proof.
  intros [Eps Hr Hroot _ Hn] Hn1 Hps Hl. pose proof (si_pager _ _ _ (rep_inv _ _ _ _ _ Hr)) as Hp.
  pose proof (inv_next _ _ _ _ _ Hp) as Hnext.
  assert (fits 8 (root_page_id (dk_meta D)) = true) as H1.
  { rewrite Hroot. destruct (rep_member _ _ _ _ _ _ Hr (nodes_root T)) as ((Hi & _) & _). simpl in Hi. eapply id_fits; [|apply Hnext]. lia. }
  assert (fits 8 (freelist_head_page_id (dk_meta D)) = true) as H2.
  { destruct (chain_links _ _ _ _ (inv_chain _ _ _ _ _ Hp)) as [->|Hin]; [reflexivity|].
    pose proof (inv_range _ _ _ _ _ Hp) as Hrg. rewrite Forall_forall in Hrg.
    eapply id_fits; [|apply Hnext]. specialize (Hrg (freelist_head_page_id (dk_meta D))). 
    assert (0 < freelist_head_page_id (dk_meta D) < next_page_id (dk_meta D)); [apply Hrg, elem_of_app; by left|lia]. }
  assert (fits 8 (next_page_id (dk_meta D)) = true) as H3 by (apply lsn_fits_bound; lia).
  split; [|done]. unfold meta_fits. rewrite H1, H2, H3, Hl, !andb_true_r.
  apply fits_spec. change (256 ^ Z.of_nat 4) with (2 ^ 32). unfold dk_ps in Eps.
  pose proof (inv_size_bound _ _ _ _ _ Hp). pose proof (inv_size _ _ _ _ _ Hp). change MIN_PAGE_SIZE with 52 in *. lia.
Qed.

Lemma no_dirty_count s : (forall i, ~ is_dirty s i) -> NoDup (cache_of s).*1 -> dirty_count s = 0.
Proof.
  intros H Hnd. unfold dirty_count, dirty_entries, len.
  destruct (filter _ (cache_of s)) as [|[i cp] l] eqn:E; [done|]. exfalso.
  assert ((i, cp) ∈ filter (fun e : Z * CachedPage => cp_is_dirty e.2 = true) (cache_of s)) as Hin by (rewrite E; left).
  apply list_elem_of_filter in Hin as [Hd Hin]. apply (H i). exists cp. split; [by apply cache_find_nodup|done].
Qed.

Lemma dirty_count_nonneg s : 0 <= dirty_count s.
Proof. unfold dirty_count, len. lia. Qed.

(** A database as a checkpoint leaves it: nothing is dirty, and the synced
    file is the whole state. *)
Record Clean (d : DB) (D : Disk) : Prop := {
  cl_pages : forall i, ~ is_dirty (db_store d) i;
  cl_freelist : pg_dirty_freelist_page_ids (st_pager (db_store d)) = ∅;
  cl_meta : pg_is_meta_dirty (st_pager (db_store d)) = false;
  cl_synced : f_synced (dk_file D) = f_data (dk_file D);
}.

(** The rest of the database, which a checkpoint leaves alone. *)
Definition same_settings (d d' : DB) : Prop :=
  db_checkpoint_wal_size_bytes d' = db_checkpoint_wal_size_bytes d /\
  db_checkpoint_dirty_page_ratio d' = db_checkpoint_dirty_page_ratio d /\
  db_is_opened d' = db_is_opened d /\ db_version_counter d' = db_version_counter d /\
  db_recovery_last_checkpoint_lsn d' = db_recovery_last_checkpoint_lsn d.

(** Writing the meta page does not sync the file. *)
Lemma flush_meta_unsynced p f p' r : pg_disk p = Some f -> flush_meta p = (p', r) ->
  exists f', pg_disk p' = Some f' /\ f_synced f' = f_synced f.
Proof.
  intros Hd. unfold flush_meta, meta_page, write_page, open_file. mrun.
  destruct (pg_meta_page p) as [m|]; [|intros [= <- _]; by exists f].
  destruct (encode_meta_page m) as [b|]; [|intros [= <- _]; by exists f]. rewrite Hd.
  destruct (pg_is_open p); intros [= <- _]; [by eexists|by exists f].
Qed.

(** Writing the meta page of a flushed database, with a new checkpoint LSN. *)
Lemma flush_new_meta s D T lsn : Rep ∅ ∅ s D (nodes T) -> meta_fits (with_checkpoint_lsn lsn (dk_meta D)) = true ->
  exists p1 p2 p3 D', update_meta (with_checkpoint_lsn lsn) (st_pager s) = (p1, Ok tt) /\
    flush_meta p1 = (p2, Ok tt) /\ fsync p2 = (p3, Ok tt) /\
    Rep ∅ ∅ (set_pager p3 s) D' (nodes T) /\ dk_meta D' = with_checkpoint_lsn lsn (dk_meta D) /\
    pg_is_meta_dirty p3 = false /\ pg_dirty_freelist_page_ids p3 = pg_dirty_freelist_page_ids (st_pager s) /\
    exists f2, pg_disk p2 = Some f2 /\ f_synced f2 = f_synced (dk_file D) /\ dk_file D' = fsync_file f2.
Proof.
  intros Hr Hfit. pose proof (si_pager _ _ _ (rep_inv _ _ _ _ _ Hr)) as Hp. unfold PagerOk in Hp.
  set (m := with_checkpoint_lsn lsn (dk_meta D)) in *. set (p1 := set_meta m true (st_pager s)).
  assert (PagerInv p1 (dk_file D) m (dk_heads D) (dk_freed D)) as Hp1 by (unfold p1, m; destruct Hp; by split).
  destruct (flush_meta_ok _ _ _ _ _ Hp1 Hfit) as (p2 & f2 & E2 & Hp2 & Hm2 & Hd2 & _ & Hs2 & Hpages).
  set (p3 := bump CPagerFsyncs (set_disk (fsync_file f2) p2)).
  set (D' := {| dk_file := fsync_file f2; dk_meta := m; dk_heads := dk_heads D; dk_freed := dk_freed D |}).
  exists p1, p2, p3, D'. split.
  { unfold update_meta. by rewrite (bind_Ok _ _ _ _ _ (meta_page_run _ _ _ _ _ Hp)). }
  split; [done|]. split; [by apply (fsync_run _ _ _ _ _ Hp2)|]. split; [|split_and!; try done].
  2:{ destruct (flush_meta_unsynced p1 (dk_file D) p2 _ (inv_disk _ _ _ _ _ Hp1) E2) as (f' & Ef' & Hs').
      pose proof (inv_disk _ _ _ _ _ Hp2) as Ed2. exists f2. split; [done|]. split; [congruence|done]. }
  apply (rep_pager s D); try done; [by apply inv_fsync|].
  intros i [Hi _]. unfold on_disk, disk_page. change (dk_ps D') with (dk_ps D). simpl dk_file.
  change (page_at (fsync_file f2)) with (page_at f2).
  rewrite <-(si_ps _ _ _ (rep_inv _ _ _ _ _ Hr)). change (pg_page_size_bytes (st_pager s)) with (pg_page_size_bytes p1).
  by rewrite Hpages.
Qed.

(** ** The log a checkpoint leaves *)

Lemma sequential_last recs : forall l, Forall (fun r => wal_fits r = true) recs -> 0 <= l -> sequential l recs ->
  l <= last_lsn l recs /\ Forall (fun r => record_lsn r <= last_lsn l recs) recs.
Proof.
  induction recs as [|r recs IH]; intros l Hf Hl; [done|]. intros [Hr Hs].
  apply Forall_cons in Hf as [Hrf Hf]. apply fits_lsn in Hrf. destruct (IH (record_lsn r) Hf Hrf Hs) as [H1 H2].
  change (last_lsn l (r :: recs)) with (last_lsn (record_lsn r) recs). split; [lia|by constructor].
Qed.

(** Only the last record has the last LSN. *)
Lemma kept_last lsn recs r : Forall (fun x => record_lsn x < lsn) recs -> lsn <= record_lsn r -> kept lsn (recs ++ [r]) = [r].
Proof.
  intros Hf Hr. unfold kept. rewrite filter_app, filter_cons_True by done. rewrite filter_nil.
  induction Hf as [|x recs Hx Hf IH]; [done|]. rewrite filter_cons_False by lia. exact IH.
Qed.

Definition checkpoint_record (lsn : Z) (m : MetaPage) : WALRecord :=
  WALCheckpointRecord lsn (root_page_id m) (freelist_head_page_id m) (next_page_id m).

(** ** The stages of a checkpoint *)

(** A checkpoint up to its record in the log, giving the LSN of it. *)
Definition checkpoint_to_record : M DB Z :=
  w ← gets db_wal;
  let checkpoint_lsn := wal_current_lsn w + 1 in
  checkpoint_flush;;
  meta ← db_pager get_meta;
  in_wal (append_checkpoint (root_page_id meta) (freelist_head_page_id meta) (next_page_id meta));;
  mret checkpoint_lsn.

(** How far a checkpoint has come: its record is in the log; the new meta page
    is written; it is synced.  What is left then is the rotation of the log. *)
Inductive CheckpointStage := Recorded | MetaWritten | MetaSynced.

Definition checkpoint_until (stage : CheckpointStage) : M DB Z :=
  lsn ← checkpoint_to_record;
  match stage with
  | Recorded => mret lsn
  | _ =>
      db_pager (update_meta (with_checkpoint_lsn lsn));;
      db_pager flush_meta;;
      match stage with
      | MetaSynced => db_pager fsync;; mret lsn
      | _ => mret lsn
      end
  end.

Lemma checkpoint_stages d : checkpoint d = (lsn ← checkpoint_until MetaSynced; in_wal (truncate_before lsn)) d.
Proof.
  unfold checkpoint, checkpoint_until, checkpoint_to_record. mrun.
  destruct (checkpoint_flush d) as [d1 [[]|e]]; [|done].
  destruct (db_pager get_meta d1) as [d2 [meta|e]]; [|done].
  destruct (in_wal _ d2) as [d3 [?|e]]; [|done].
  destruct (db_pager (update_meta _) d3) as [d4 [[]|e]]; [|done].
  destruct (db_pager flush_meta d4) as [d5 [[]|e]]; [|done].
  by destruct (db_pager fsync d5) as [d6 [[]|e]].
Qed.

(** The stages after the record, from the runs of the pager. *)
Lemma stages_run d s w lsn p2 p3 p4 : checkpoint_to_record d = (set_wal w (set_db_store s d), Ok lsn) ->
  update_meta (with_checkpoint_lsn lsn) (st_pager s) = (p2, Ok tt) -> flush_meta p2 = (p3, Ok tt) -> fsync p3 = (p4, Ok tt) ->
  let reach p := set_db_store (set_pager p s) (set_wal w (set_db_store s d)) in
  checkpoint_until Recorded d = (set_wal w (set_db_store s d), Ok lsn) /\
  checkpoint_until MetaWritten d = (reach p3, Ok lsn) /\ checkpoint_until MetaSynced d = (reach p4, Ok lsn).
Proof.
  intros E1 E2 E3 E4 reach. unfold checkpoint_until.
  split; [by rewrite (bind_Ok _ _ _ _ _ E1)|].
  split; rewrite (bind_Ok _ _ _ _ _ E1), (bind_Ok _ _ _ _ _ (db_pager_run (update_meta _) (set_wal w (set_db_store s d)) p2 (Ok tt) E2)),
    (bind_Ok _ _ _ _ _ (db_pager_run flush_meta (reach p2) p3 (Ok tt) E3)); [done|].
  by rewrite (bind_Ok _ _ _ _ _ (db_pager_run fsync (reach p3) p4 (Ok tt) E4)).
Qed.

(** Up to the record: the pages are in the file and synced, the log ends with
    the record, and the meta page of the file is still the old one. *)
Lemma checkpoint_recorded ps kmax T N d D recs : DbBase ps kmax T N d D recs -> 1 <= N -> 80 < ps < 2 ^ 32 ->
  let lsn := wal_current_lsn (db_wal d) + 1 in
  exists s1 D1 w2, checkpoint_to_record d = (set_wal w2 (set_db_store s1 d), Ok lsn) /\
    Flushed (db_store d) s1 D D1 T /\ WalInv w2 (recs ++ [checkpoint_record lsn (dk_meta D)]) /\ wal_current_lsn w2 = lsn /\
    Forall (fun x => record_lsn x < lsn) recs /\ meta_fits (with_checkpoint_lsn lsn (dk_meta D1)) = true /\
    fits 8 lsn = true.
Proof.
  intros [Hd Hw [Hl0 Hl] Hck Hcap] Hn Hps lsn.
  destruct (checkpoint_flush_ok ps kmax T N d D Hd Hps) as (s1 & D1 & E1 & Hfl).
  pose proof (fd_rep _ _ _ _ _ Hfl) as Hr1. pose proof (fd_meta _ _ _ _ _ Hfl) as Em1.
  set (d1 := set_db_store s1 d) in *.
  destruct (meta_fits_ok ps kmax T N _ D Hd Hn ltac:(lia) Hck) as (Hmf & Hf1 & Hf2 & Hf3).
  assert (fits 8 lsn = true) as Hlsn by (apply lsn_fits_bound; unfold lsn; lia).
  set (r := checkpoint_record lsn (dk_meta D)).
  assert (wal_fits r = true) as Hrf.
  { unfold wal_fits, r, checkpoint_record. cbn [record_lsn payload_fits]. by rewrite Hlsn, Hf1, Hf2, Hf3. }
  pose proof (wal_append_run _ _ r Hw) as Ew. rewrite Hrf in Ew.
  pose proof (wal_append_inv _ _ r Hw Hrf eq_refl) as Hw2. rewrite Ew in Hw2. cbn [fst] in Hw2.
  match type of Ew with _ = (?w, _) => set (w2 := w) in * end.
  exists s1, D1, w2. split.
  { unfold checkpoint_to_record. rewrite (bind_Ok (gets db_wal) _ d d (db_wal d) eq_refl). fold lsn.
    rewrite (bind_Ok _ _ _ _ _ E1). fold d1.
    assert (db_pager get_meta d1 = (d1, Ok (dk_meta D))) as Emeta.
    { pose proof (si_pager _ _ _ (rep_inv _ _ _ _ _ Hr1)) as Hp1. rewrite <-Em1.
      unfold d1. etransitivity; [apply db_pager_run; exact (meta_page_run _ _ _ _ _ Hp1)|]. by destruct s1. }
    rewrite (bind_Ok _ _ _ _ _ Emeta).
    by rewrite (bind_Ok _ _ _ _ _ (in_wal_run (append_checkpoint _ _ _) d1 w2 (Ok lsn) Ew)). }
  split; [done|]. split; [done|]. split; [done|]. split; [|split; [|done]].
  - destruct (sequential_last recs 0) as [_ Hle]; [apply Hw|done|apply Hw|].
    destruct (wi_lsn _ _ Hw) as [->|E]; [constructor|]. rewrite <-E in Hle. eapply Forall_impl; [exact Hle|].
    intros x Hx. unfold lsn. simpl in *. lia.
  - rewrite Em1. unfold meta_fits in *. simpl. rewrite !andb_true_iff in *. tauto.
Qed.

Lemma checkpoint_ok ps kmax T N d D recs : DbBase ps kmax T N d D recs -> 1 <= N -> 80 < ps < 2 ^ 32 ->
  exists d' D', checkpoint d = (d', Ok tt) /\
    DbBase ps kmax T (N - 1) d' D' [checkpoint_record (last_checkpoint_lsn (dk_meta D')) (dk_meta D)] /\ Clean d' D' /\
    1 <= last_checkpoint_lsn (dk_meta D') /\
    same_settings d d' /\ same_pool_config (db_store d) (db_store d') /\
    dk_meta D' = with_checkpoint_lsn (last_checkpoint_lsn (dk_meta D')) (dk_meta D).
Proof.
  intros Hbase Hn Hps. destruct (checkpoint_recorded _ _ _ _ _ _ _ Hbase Hn Hps)
    as (s1 & D1 & w2 & E1 & [Hr1 Em1 Hclean1 Hdf1 Hcfg1 _ _] & Hw2 & Hcl2 & Hold & Hmf & Hlsn).
  set (lsn := wal_current_lsn (db_wal d) + 1) in *. set (d2 := set_wal w2 (set_db_store s1 d)) in *.
  destruct Hbase as [Hd Hw [Hl0 Hl] Hck Hcap].
  destruct (flush_new_meta s1 D1 T lsn Hr1 Hmf) as (p2 & p3 & p4 & D4 & E2 & E3 & E4 & Hr4 & Em4 & Hmd & Hdf4 & f2 & _ & _ & Ef4).
  destruct (truncate_before_run lsn w2 _ Hw2) as (w5 & E5 & Hw5 & _ & Hcur).
  set (d5 := set_wal w5 (set_db_store (set_pager p4 s1) d2)).
  exists d5, D4. split.
  { destruct (stages_run d s1 w2 lsn p2 p3 p4 E1 E2 E3 E4) as (_ & _ & E). rewrite checkpoint_stages, (bind_Ok _ _ _ _ _ E).
    exact (in_wal_run (truncate_before lsn) (set_db_store (set_pager p4 s1) d2) w5 (Ok tt) E5). }
  destruct Hd as [Eps _ Hroot Hok Hnx]. destruct Hcfg1 as [Hc1 Hc2].
  rewrite kept_last in Hw5 by done.
  split; [|split; [split; try done; [exact (eq_trans Hdf4 Hdf1)|by rewrite Ef4]|split; [rewrite Em4; simpl; unfold lsn; lia|split; [done|split; [by split|by rewrite Em4, Em1]]]]].
  split; try done.
  - split; try done.
    + unfold dk_ps in *. rewrite Em4. simpl. by rewrite Em1.
    + rewrite Em4. simpl. by rewrite Em1.
    + rewrite Em4. simpl. rewrite Em1. lia.
  - by rewrite Em4.
  - change (wal_current_lsn (db_wal d5)) with (wal_current_lsn w5). rewrite Hcur, Hcl2. unfold lsn. lia.
  - by rewrite Em4.
  - change (bp_capacity_pages (st_pool s1) <> 0). by rewrite Hc1.
Qed.
