(* ===== verification/DbDurable.v ===== *)
(** * What survives a crash

    The data file as the last checkpoint left it, under the pages appended
    since, and the log of the records since: together they determine the
    records of the database. *)

From S2P Require Import Prelude Bytes Float64 Bisect Entities Codec Fs Pager Cache Tree Wal Db.
From S2P Require Import CodecFacts PageCodecFacts CodecTheorems PagerFacts CacheFacts CacheOps WalFacts WalTheorems.
From S2P Require Import TreeSizes TreeShape TreeSteps TreeStore TreeFind TreeSplit TreeBalance TreeRedistribute.
From S2P Require Import TreeBorrow TreeMerge TreeCascade TreeOps TreeFrame TreeBudget DbFacts DbCheckpoint.

(** ** A tree in a file *)

(** The file of [D] has the pages of the tree [T]; it may begin with the meta
    page of another state. *)
Record TreeFile (ps kmax : Z) (T : tree) (D : Disk) : Prop := {
  im_ps : dk_ps D = ps;
  im_disk : DiskPages (dk_file D) (dk_meta D) (dk_heads D) (dk_freed D);
  im_nodup : NoDup (nodes T).*1;
  im_pages : Forall (fun e => (exists p, on_disk D e.1 = Some p /\ erase p = e.2 /\ lsn_fits p) /\ tree_page e.2) (nodes T);
  im_usable : forall i, usable D i <-> i ∈ (nodes T).*1;
  im_root : root_page_id (dk_meta D) = tid T;
  im_ok : TreeOk ps kmax T;
}.

(** The file of [D] alone holds the tree [T]. *)
Record Image (ps kmax : Z) (T : tree) (D : Disk) : Prop := {
  im_file : TreeFile ps kmax T D;
  im_meta : begins_with (dk_file D) ps (dk_meta D);
}.

Lemma file_of_clean ps kmax T N tr D : Settled ps kmax T N tr D -> (forall i, ~ is_dirty (tr_store tr) i) ->
  pg_dirty_freelist_page_ids (st_pager (tr_store tr)) = ∅ -> TreeFile ps kmax T D.
Proof.
  intros [Eps Hr Hroot Hok _] Hp Hf. pose proof (rep_inv _ _ _ _ _ Hr) as Hinv. split; try done.
  - eapply disk_pages_of_clean; [apply (si_pager _ _ _ Hinv)|done].
  - apply Hr.
  - eapply Forall_impl; [apply (rep_sees _ _ _ _ _ Hr)|]. intros e [(p & Hv & Hpe & Hl) Ht]. split; [|done].
    exists p. split; [|done]. rewrite <-Hv. unfold view. destruct (entry (tr_store tr) e.1) as [cp|] eqn:E; [|done].
    symmetry. apply (si_clean _ _ _ Hinv e.1 cp E); [|apply not_elem_of_empty].
    destruct (cp_is_dirty cp) eqn:Ed; [|done]. exfalso. apply (Hp e.1). by exists cp.
  - intros i. rewrite (rep_usable _ _ _ _ _ Hr). set_solver.
Qed.

Lemma image_of_clean ps kmax T N d D : Settled ps kmax T N (db_tree d) D -> Clean d D -> Image ps kmax T D.
Proof.
  intros Hs [Hp Hf Hm _]. split; [by eapply file_of_clean|]. pose proof (settled_pager _ _ _ _ _ _ Hs) as Hpg.
  rewrite <-(se_ps _ _ _ _ _ _ Hs). unfold dk_ps, begins_with. rewrite (inv_size _ _ _ _ _ Hpg).
  by apply (inv_meta_clean _ _ _ _ _ Hpg).
Qed.

(** The same state on another file. *)
Definition with_file (f : File) (D : Disk) : Disk :=
  {| dk_file := f; dk_meta := dk_meta D; dk_heads := dk_heads D; dk_freed := dk_freed D |}.

Lemma extended_page f f' z ps id : f_data f' = f_data f ++ z -> 0 <= id -> 0 <= ps ->
  (id + 1) * ps <= len (f_data f) -> page_at f' ps id = page_at f ps id.
Proof.
  intros E Hid Hps Hl. rewrite <-(page_at_append f ps id z Hid Hps Hl). unfold page_at, read_at. by rewrite E.
Qed.

Lemma disk_pages_extend f m heads freed f' z : DiskPages f m heads freed -> f_data f' = f_data f ++ z ->
  DiskPages f' m heads freed /\
  forall i, 0 <= i < next_page_id m -> page_at f' (page_size_bytes m) i = page_at f (page_size_bytes m) i.
Proof.
  intros [Hsz Hn Hl Hc Hnd Hrg Henc] E. change MIN_PAGE_SIZE with 52 in Hsz.
  assert (forall i, 0 <= i < next_page_id m -> page_at f' (page_size_bytes m) i = page_at f (page_size_bytes m) i) as Hpg.
  { intros i Hi. apply (extended_page _ _ z); [done|lia|lia|]. etransitivity; [|exact Hl]. nia. }
  split; [|done].
  assert (forall i, 0 <= i < next_page_id m -> disk_page f' (page_size_bytes m) i = disk_page f (page_size_bytes m) i) as Hdp.
  { intros i Hi. unfold disk_page. by rewrite Hpg. }
  assert (forall h, h ∈ heads -> 0 <= h < next_page_id m) as Hh.
  { intros h Hh. rewrite Forall_forall in Hrg. assert (0 < h < next_page_id m) by (apply Hrg, elem_of_app; by left). lia. }
  split; try done.
  - rewrite E. unfold len in *. rewrite length_app. lia.
  - eapply chain_ext; [exact Hc|]. intros x Hx. by rewrite Hdp by auto.
  - rewrite Forall_forall in *. intros h Hin fp. rewrite Hdp by auto. by apply Henc.
Qed.

Lemma file_extend ps kmax T D f z : TreeFile ps kmax T D -> f_data f = f_data (dk_file D) ++ z ->
  TreeFile ps kmax T (with_file f D) /\ page_at f ps META_PAGE_ID = page_at (dk_file D) ps META_PAGE_ID.
Proof.
  intros [Eps Hd Hnd Hp Hu Hroot Hok] E. destruct (disk_pages_extend _ _ _ _ _ _ Hd E) as [Hd' Hpg]. split.
  - split; try done. rewrite Forall_forall in *. intros e He. destruct (Hp e He) as [(p & Ho & Hpe) Ht]. split; [|done].
    exists p. split; [|done]. rewrite <-Ho. assert (usable D e.1) as [Hi _] by (apply Hu, list_elem_of_fmap; by exists e).
    unfold on_disk, disk_page. change (dk_ps (with_file f D)) with (page_size_bytes (dk_meta D)). simpl.
    rewrite Hpg by lia. done.
  - unfold dk_ps in Eps. rewrite <-Eps. apply Hpg. pose proof (di_next _ _ _ _ Hd). unfold META_PAGE_ID. lia.
Qed.

Lemma image_extend ps kmax T D f z : Image ps kmax T D -> f_data f = f_data (dk_file D) ++ z ->
  Image ps kmax T (with_file f D).
Proof.
  intros [Hf Hm] E. destruct (file_extend _ _ _ _ _ _ Hf E) as [Hf' Hpg]. split; [done|].
  unfold begins_with in *. simpl. by rewrite Hpg.
Qed.

(** A store just opened on the file. *)
Definition opened_store (p : Pager) (capacity : Z) : Store :=
  {| st_pager := p; st_pool := pool_init capacity; st_heap := empty_heap |}.

Lemma opened_entry p capacity i cp : entry (opened_store p capacity) i = Some cp -> False.
Proof. discriminate. Qed.

(** Opening a file that begins with the meta page [m0]: the tree is there once
    the pager has the meta page that belongs to it. *)
Lemma file_open ps kmax T D m0 p cfg capacity N stats : TreeFile ps kmax T D -> begins_with (dk_file D) ps m0 ->
  page_size_bytes m0 = ps -> next_page_id (dk_meta D) + N <= 2 ^ 64 ->
  MIN_PAGE_SIZE <= cfg -> pager_init (Some (dk_file D)) cfg = Ok p ->
  exists p', pager_open p = (p', Ok tt) /\ pg_meta_page p' = Some m0 /\ pg_is_meta_dirty p' = false /\
    forall b, (b = false -> m0 = dk_meta D) ->
      Settled ps kmax T N {| tr_store := opened_store (set_meta (dk_meta D) b p') capacity; tr_stats := stats |} D.
Proof.
  intros [Eps Hd Hnd Hp Hu Hroot Hok] Hm0 Em0 HN Hcfg Einit. unfold dk_ps in Eps.
  destruct (pager_open_reads (dk_file D) (dk_meta D) m0 _ _ cfg p Hd) as (p' & E & Em & Eb & Es & Hinv);
    [by rewrite Eps|by rewrite Eps|done|done|].
  exists p'. split; [done|]. split; [done|]. split; [done|]. intros b Hb. specialize (Hinv b Hb).
  split; try done. split; try done.
  - split; try (intros; by edestruct opened_entry); [exact Hinv|constructor|intros l _; apply lookup_empty].
  - intros i. rewrite Hu. set_solver.
Qed.

Lemma image_open ps kmax T D p cfg capacity N stats : Image ps kmax T D -> next_page_id (dk_meta D) + N <= 2 ^ 64 ->
  MIN_PAGE_SIZE <= cfg -> pager_init (Some (dk_file D)) cfg = Ok p ->
  exists p', pager_open p = (p', Ok tt) /\
    Settled ps kmax T N {| tr_store := opened_store p' capacity; tr_stats := stats |} D.
Proof.
  intros [Hf Hm] HN Hcfg Einit.
  destruct (file_open _ _ _ _ _ p cfg capacity N stats Hf Hm (im_ps _ _ _ _ Hf) HN Hcfg Einit) as (p' & E & Em & Eb & Hs).
  exists p'. split; [done|]. specialize (Hs false (fun _ => eq_refl)).
  replace (set_meta (dk_meta D) false p') with p' in Hs; [done|]. destruct p'. simpl in *. by subst.
Qed.

(** ** The records of the log, on a map *)

Definition apply_record (m : gmap bytes bytes) (r : WALRecord) : gmap bytes bytes :=
  match r with
  | WALPutRecord _ key value => <[key := value]> m
  | WALDeleteRecord _ key => delete key m
  | WALCheckpointRecord _ _ _ _ => m
  end.

Definition apply_records (recs : list WALRecord) (m : gmap bytes bytes) : gmap bytes bytes := foldl apply_record m recs.

(** A record of an operation that the tree can be asked to repeat. *)
Definition replayable (ps kmax : Z) (r : WALRecord) : Prop :=
  match r with
  | WALPutRecord _ key value =>
      len key <= kmax /\ calculate_leaf_record_size key value <= get_max_leaf_record_size ps
  | WALDeleteRecord _ _ => True
  | WALCheckpointRecord _ _ _ _ => False
  end.

(** Repeating the records never makes more of them than a tree of height [h]
    holds for certain. *)
Fixpoint small_steps (ps kmax : Z) (h : nat) (rs : list WALRecord) (m : gmap bytes bytes) : Prop :=
  match rs with
  | [] => True
  | r :: rs => small_map ps kmax h m /\ small_steps ps kmax h rs (apply_record m r)
  end.

Lemma small_steps_snoc ps kmax h rs r : forall m, small_steps ps kmax h rs m -> small_map ps kmax h (apply_records rs m) -> small_steps ps kmax h (rs ++ [r]) m.
Proof. induction rs as [|x rs IH]; intros m; [done|]. intros [H1 H2] H3. split; [done|]. by apply IH. Qed.

(** [T] is the tree of the last checkpoint, on the disk [D]; the file has grown
    to [f] since, and the log holds the record of that checkpoint and then
    those of the operations since, which turn the records of [T] into [m]. *)
Record Saved (ps kmax N : Z) (h : nat) (T : tree) (D : Disk) (f : File)
    (rs recs : list WALRecord) (m : gmap bytes bytes) : Prop := {
  sv_image : Image ps kmax T D;
  sv_synced : f_synced f = f_data (dk_file D);
  sv_grown : exists z, f_data f = f_data (dk_file D) ++ z;
  sv_lsn : 1 <= last_checkpoint_lsn (dk_meta D);
  sv_log : exists m', recs = checkpoint_record (last_checkpoint_lsn (dk_meta D)) m' :: rs;
  sv_replay : Forall (replayable ps kmax) rs;
  sv_small : small_steps ps kmax h rs (contents (flat T));
  sv_ids : next_page_id (dk_meta D) + len rs * step_cost h + N <= 2 ^ 64;
  sv_map : apply_records rs (contents (flat T)) = m;
}.

(** What is on disk determines the records [m]; repeating an operation takes
    [step_cost h] page ids. *)
Definition Durable (ps kmax N : Z) (h : nat) (d : DB) (recs : list WALRecord) (m : gmap bytes bytes) : Prop :=
  exists T D f rs, pg_disk (st_pager (db_store d)) = Some f /\ Saved ps kmax N h T D f rs recs m.

Lemma durable_weaken ps kmax N N' h d recs m : N' <= N -> Durable ps kmax N h d recs m -> Durable ps kmax N' h d recs m.
Proof. intros HN (T & D & f & rs & Hd & []). exists T, D, f, rs. split; [done|]. split; try done; lia. Qed.

(** An operation of the tree does not reach what is on disk. *)
Lemma durable_still ps kmax N h d recs m tr : StillFrame (db_tree d) tr ->
  Durable ps kmax N h d recs m -> Durable ps kmax N h (set_tree tr d) recs m.
Proof.
  intros [[_ _ _ _ Hg] _ _] (T & D & f & rs & Hd & Hs). unfold db_store in *. rewrite Hd in Hg.
  destruct Hg as [Hg|(f' & z & [= <-] & Hg)].
  - by exists T, D, f, rs.
  - exists T, D, {| f_data := f_data f ++ z; f_synced := f_synced f |}, rs. split; [exact Hg|].
    destruct Hs as [? ? (z' & Hz)]. split; try done. exists (z' ++ z). simpl. by rewrite Hz, app_assoc.
Qed.

(** Logging an operation changes what is on disk as the operation changes the
    records. *)
Lemma durable_append ps kmax N h d recs m w r : Durable ps kmax N h d recs m -> replayable ps kmax r -> small_map ps kmax h m ->
  Durable ps kmax (N - step_cost h) h (set_wal w d) (recs ++ [r]) (apply_record m r).
Proof.
  intros (T & D & f & rs & Hd & [? ? ? ? (m' & ->) Hrp Hsm Hids <-]) Hr Hm.
  exists T, D, f, (rs ++ [r]). split; [done|]. split; try done.
  - by exists m'.
  - apply Forall_app. split; [done|]. by constructor.
  - by apply small_steps_snoc.
  - unfold len in *. rewrite length_app, Nat2Z.inj_add. simpl. lia.
  - unfold apply_records. by rewrite foldl_app.
Qed.

(** A checkpoint starts over. *)
Lemma durable_checkpoint ps kmax N h T d D m' : DbBase ps kmax T N d D [checkpoint_record (last_checkpoint_lsn (dk_meta D)) m'] ->
  Clean d D -> 1 <= last_checkpoint_lsn (dk_meta D) ->
  Durable ps kmax N h d [checkpoint_record (last_checkpoint_lsn (dk_meta D)) m'] (contents (flat T)).
Proof.
  intros [Hs _ _ _ _] Hc Hl. exists T, D, (dk_file D), [].
  split; [apply (inv_disk _ _ _ _ _ (settled_pager _ _ _ _ _ _ Hs))|]. split; try done.
  - by eapply image_of_clean.
  - apply Hc.
  - exists []. by rewrite app_nil_r.
  - by exists m'.
  - pose proof (se_next _ _ _ _ _ _ Hs). change (len []) with 0. lia.
Qed.
