(* ===== verification/DbOps.v ===== *)
(** * The public operations on a healthy database

    Each call returns, keeps the database healthy, and does to its records, in
    memory and on disk, what the operation of a map does. *)

From S2P Require Import Prelude Bytes Float64 Bisect Entities Codec Fs Pager Cache Tree Wal Db.
From S2P Require Import CodecFacts PageCodecFacts CodecTheorems PagerFacts CacheFacts CacheOps WalFacts WalTheorems.
From S2P Require Import TreeSizes TreeShape TreeSteps TreeStore TreeFind TreeSplit TreeBalance TreeRedistribute.
From S2P Require Import TreeBorrow TreeMerge TreeCascade TreeOps TreeFrame TreeHeight TreeBudget DbFacts DbCheckpoint DbDurable.

(** An open database: [T] is its tree, of a [small_map] of records, which are
    also those on disk; [n] entries of the pool may be made dirty, and
    [N] page ids and LSNs used. *)
Record Holding (ps kmax : Z) (T : tree) (h : nat) (n N : Z) (d : DB) (D : Disk) (recs : list WALRecord) : Prop := {
  ho_base : DbBase ps kmax T N d D recs;
  ho_opened : db_is_opened d = true;
  ho_slack : slack (db_store d) n;
  ho_le : n <= N;
  ho_capacity : n <= bp_capacity_pages (st_pool (db_store d));
  ho_small : small_map ps kmax h (contents (flat T));
  ho_durable : Durable ps kmax N h d recs (contents (flat T));
}.

(** The dirty pages are within the checkpoint threshold. *)
Definition calm (d : DB) : Prop :=
  dirty_count (db_store d) = 0 \/
  exists q, dirty_ratio (db_store d) = Ok q /\ f64_ltb (db_checkpoint_dirty_page_ratio d) q = false.

(** What the operations leave alone. *)
Definition same_setup (d d' : DB) : Prop :=
  db_checkpoint_wal_size_bytes d' = db_checkpoint_wal_size_bytes d /\
  db_checkpoint_dirty_page_ratio d' = db_checkpoint_dirty_page_ratio d /\
  same_pool_config (db_store d) (db_store d').

#[export] Instance same_setup_preorder : PreOrder same_setup.
Proof.
  split; [by intros d|]. unfold same_setup, same_pool_config.
  intros d1 d2 d3 (-> & -> & -> & ->) (-> & -> & -> & ->). done.
Qed.

Lemma base_weaken ps kmax T N N' d D recs : N' <= N -> DbBase ps kmax T N d D recs -> DbBase ps kmax T N' d D recs.
Proof. intros HN []. split; try done; [by eapply settled_weaken|lia]. Qed.

Lemma holding_weaken ps kmax T h n n' N N' d D recs : n' <= n -> N' <= N -> n' <= N' ->
  Holding ps kmax T h n N d D recs -> Holding ps kmax T h n' N' d D recs.
Proof.
  intros Hn HN Hle []. split; try done; [by eapply base_weaken|by apply (slack_weaken _ n)|lia|].
  by apply (durable_weaken _ _ N).
Qed.

Lemma holding_version ps kmax T h n N d D recs v : Holding ps kmax T h n N d D recs ->
  Holding ps kmax T h n N (set_version v d) D recs.
Proof. intros [[] ? ? ? ? ?]. by split. Qed.

Lemma checkpoint_holding ps kmax T h N n d D recs : DbBase ps kmax T N d D recs -> 1 <= N -> 80 < ps < 2 ^ 32 ->
  n <= bp_capacity_pages (st_pool (db_store d)) -> n <= N - 1 ->
  exists d' D' recs', checkpoint d = (d', Ok tt) /\ DbBase ps kmax T (N - 1) d' D' recs' /\ slack (db_store d') n /\
    Durable ps kmax (N - 1) h d' recs' (contents (flat T)) /\ same_settings d d' /\ same_setup d d' /\
    dirty_count (db_store d') = 0 /\ Clean d' D' /\ recs' = [checkpoint_record (last_checkpoint_lsn (dk_meta D')) (dk_meta D)] /\
    dk_meta D' = with_checkpoint_lsn (last_checkpoint_lsn (dk_meta D')) (dk_meta D).
Proof.
  intros Hb HN Hps Hcap Hle.
  destruct (checkpoint_ok ps kmax T N d D recs Hb HN Hps) as (d' & D' & E & Hb' & Hc & Hl & Hset & Hcfg & Hmeta).
  assert (dirty_count (db_store d') = 0) as Hdc.
  { apply no_dirty_count; [apply Hc|]. apply (si_nodup _ _ _ (rep_inv _ _ _ _ _ (se_rep _ _ _ _ _ _ (bs_settled _ _ _ _ _ _ _ Hb')))). }
  exists d', D', [checkpoint_record (last_checkpoint_lsn (dk_meta D')) (dk_meta D)]. split; [done|]. split; [done|].
  split; [right; rewrite Hdc; destruct Hcfg as [-> _]; lia|]. split; [by apply durable_checkpoint|]. split; [done|].
  split; [destruct Hset as (H1 & H2 & _); done|]. by split_and!.
Qed.

Section ops.
Context (ps kmax : Z) (Hb : GoodBounds ps kmax) (Hps : ps < 2 ^ 32).

Lemma ps_range : 80 < ps < 2 ^ 32.
Proof. destruct Hb as [H _ _]. unfold good_page_size in H. lia. Qed.

Lemma should_checkpoint_total T N d D recs : DbBase ps kmax T N d D recs ->
  should_checkpoint d = Ok true \/
  should_checkpoint d = Ok false /\
    exists q, dirty_ratio (db_store d) = Ok q /\ f64_ltb (db_checkpoint_dirty_page_ratio d) q = false.
Proof.
  intros Hd. unfold should_checkpoint, wal_size_bytes. rewrite (wi_disk _ _ (bs_log _ _ _ _ _ _ _ Hd)).
  cbn [mbind Result_bind mret Result_ret]. destruct (_ <? _); [by left|].
  assert (exists q, dirty_ratio (db_store d) = Ok q) as [q Eq].
  { unfold dirty_ratio, f64_div_int. rewrite (proj2 (Z.eqb_neq _ 0) (bs_capacity _ _ _ _ _ _ _ Hd)). by eexists. }
  rewrite Eq. cbn [mbind Result_bind]. destruct (f64_ltb _ q) eqn:El; [by left|right]. split; [done|]. by exists q.
Qed.

Lemma checkpoint_call T h n N d D recs : Holding ps kmax T h n N d D recs -> n <= N - 1 -> 1 <= N ->
  exists d' D', let recs' := [checkpoint_record (last_checkpoint_lsn (dk_meta D')) (dk_meta D')] in
    checkpoint d = (d', Ok tt) /\ Holding ps kmax T h n (N - 1) d' D' recs' /\ same_setup d d' /\
    db_version_counter d' = db_version_counter d /\ dirty_count (db_store d') = 0 /\ Clean d' D'.
Proof.
  intros [Hbase Hop Hs Hle Hcap Hh Hdur] Hn HN.
  destruct (checkpoint_holding ps kmax T h N n d D recs Hbase HN ps_range Hcap Hn)
    as (d' & D' & recs' & E & Hb' & Hs' & Hd' & (_ & _ & Hopen & Hver & _) & Hset & Hdc & Hc & -> & Hm).
  exists d', D'. cbv zeta. replace (checkpoint_record (last_checkpoint_lsn (dk_meta D')) (dk_meta D'))
    with (checkpoint_record (last_checkpoint_lsn (dk_meta D')) (dk_meta D)) by (by rewrite Hm).
  split; [done|]. split; [|done]. split; try done; [by rewrite Hopen|]. destruct Hset as (_ & _ & -> & _). lia.
Qed.

Lemma maybe_checkpoint_holding T h n N d D recs : Holding ps kmax T h n N d D recs -> 1 <= n ->
  exists d' D' recs', maybe_checkpoint d = (d', Ok tt) /\ Holding ps kmax T h (n - 1) (N - 1) d' D' recs' /\
    calm d' /\ same_setup d d' /\ db_version_counter d' = db_version_counter d.
Proof.
  intros Hd Hn. pose proof Hd as [Hbase Hop Hs Hle Hcap Hh Hdur].
  unfold maybe_checkpoint. rewrite (bind_Ok get_state _ d d d eq_refl).
  destruct (should_checkpoint_total _ _ _ _ _ Hbase) as [->|[-> Hq]].
  - rewrite (bind_Ok (lift (Ok true)) _ d d true eq_refl). cbn [when].
    destruct (checkpoint_call T h (n - 1) N d D recs ltac:(eapply (holding_weaken _ _ _ _ n _ N); [..|exact Hd]; lia) ltac:(lia) ltac:(lia))
      as (d' & D' & E & Hd' & Hset & Hver & Hdc & _).
    eexists d', D', _. split; [done|]. split; [done|]. split; [by left|done].
  - rewrite (bind_Ok (lift (Ok false)) _ d d false eq_refl). cbn [when]. exists d, D, recs. split; [done|].
    split; [|split; [by right|done]]. eapply (holding_weaken _ _ _ _ n _ N); [..|exact Hd]; lia.
Qed.

(** ** Logging *)

Lemma record_fits r : 0 <= record_lsn r < 2 ^ 64 ->
  match r with
  | WALPutRecord _ key value => calculate_leaf_record_size key value <= get_max_leaf_record_size ps
  | WALDeleteRecord _ key => len key <= kmax
  | WALCheckpointRecord _ _ _ _ => False
  end -> wal_fits r = true.
Proof.
  intros Hl Hr. unfold wal_fits. rewrite (lsn_fits_bound _ Hl). simpl.
  assert (forall k : bytes, len k < 2 ^ 31 -> fits 4 (len k) = true) as H4.
  { intros k Hk. apply fits_spec. pose proof (len_nonneg k). change (256 ^ Z.of_nat 4) with (2 ^ 32). lia. }
  pose proof ps_range as Hrange.
  destruct r as [lsn key value|lsn key|]; [| |done].
  - unfold calculate_leaf_record_size, get_max_leaf_record_size in Hr.
    change (sizeof LENGTH_FIELD) with 4 in Hr. change (sizeof SLOT_ENTRY) with 8 in Hr. change (sizeof PAGE_HEADER) with 32 in Hr.
    pose proof (len_nonneg key). pose proof (len_nonneg value).
    assert ((ps - 32) / 5 < 2 ^ 30) by (apply Z.div_lt_upper_bound; lia).
    simpl. rewrite !H4 by lia. simpl. apply fits_spec. unfold wal_length, payload_wire, prefixed, len in *.
    rewrite !length_app, !le_encode_length. change (256 ^ Z.of_nat 4) with (2 ^ 32). lia.
  - pose proof (len_nonneg key). destruct Hb as [_ _ Hs]. unfold small_keys in Hs.
    simpl. rewrite !H4 by lia. simpl. apply fits_spec. unfold wal_length, payload_wire, prefixed, len in *.
    rewrite !length_app, !le_encode_length. change (256 ^ Z.of_nat 4) with (2 ^ 32). lia.
Qed.

Lemma append_ok T h n N d D recs op r : Holding ps kmax T h n N d D recs -> 1 <= N ->
  op_record op (wal_current_lsn (db_wal d) + 1) = r -> wal_fits r = true -> replayable ps kmax r ->
  exists w, in_wal (run_append op) d = (set_wal w d, Ok (wal_current_lsn (db_wal d) + 1)) /\
    DbBase ps kmax T (N - 1) (set_wal w d) D (recs ++ [r]) /\
    Durable ps kmax (N - step_cost h) h (set_wal w d) (recs ++ [r]) (apply_record (contents (flat T)) r).
Proof.
  intros [Hd _ _ _ _ Hsm Hdur] HN Hr Hf Hrp. pose proof (bs_log _ _ _ _ _ _ _ Hd) as Hw.
  pose proof (wal_append_run _ _ r Hw) as Ew. rewrite Hf in Ew.
  assert (record_lsn r = wal_current_lsn (db_wal d) + 1) as Hl by (rewrite <-Hr; apply op_record_lsn).
  pose proof (wal_append_inv _ _ r Hw Hf Hl) as Hw2. rewrite Ew in Hw2. cbn [fst] in Hw2.
  match type of Ew with _ = (?w, _) => exists w; set (w2 := w) in * end.
  split; [apply in_wal_run; by rewrite run_append_eq, Hr, <-Hl|]. split; [|by apply durable_append].
  pose proof (bs_lsn _ _ _ _ _ _ _ Hd) as Hlsn.
  destruct (base_weaken _ _ _ N (N - 1) _ _ _ ltac:(lia) Hd). split; try done.
  change (wal_current_lsn (db_wal (set_wal w2 d))) with (record_lsn r). rewrite Hl.
  lia.
Qed.

(** The operation of the tree after its record is in the log. *)
Lemma logged_holding T h N N' d D recs T' n' tr' D' : DbBase ps kmax T N d D recs -> db_is_opened d = true ->
  Durable ps kmax N' h d recs (contents (flat T')) -> Budget ps kmax T' n' N' tr' D' -> N' <= N ->
  small_map ps kmax h (contents (flat T')) ->
  n' <= bp_capacity_pages (st_pool (db_store d)) -> StillFrame (db_tree d) tr' ->
  Holding ps kmax T' h n' N' (set_tree tr' d) D' recs /\ same_setup d (set_tree tr' d).
Proof.
  intros [Hs Hw Hl Hc Hcap] Hop Hdur [Hs' Hsl Hle] HN Hh Hn Hf. pose proof Hf as [_ Hfc Hfe].
  split; [|by split]. split; try done.
  - split; try done; [simpl; lia|by rewrite (still_lsn _ _ _ _ _ _ _ _ _ _ Hs Hs' Hf)|].
    change (bp_capacity_pages (st_pool (tr_store tr')) <> 0). by rewrite Hfc.
  - change (n' <= bp_capacity_pages (st_pool (tr_store tr'))). by rewrite Hfc.
  - by apply durable_still.
Qed.

(** ** The operations *)

Lemma opened_run d : db_is_opened d = true -> check_if_opened d = (d, Ok tt).
Proof. intros H. unfold check_if_opened. by rewrite (bind_Ok get_state _ d d d eq_refl), H. Qed.

Lemma set_tree_same d : set_tree (db_tree d) d = d.
Proof. by destruct d. Qed.

Lemma in_tree_same {A} (m : M BPlusTree A) d r : m (db_tree d) = (db_tree d, r) -> in_tree m d = (d, r).
Proof. intros E. by rewrite (in_tree_run _ _ _ _ E), set_tree_same. Qed.

Lemma small_delete (h : nat) (m : gmap bytes bytes) key : small_map ps kmax h m -> small_map ps kmax h (delete key m).
Proof. unfold small_map. rewrite map_size_delete. generalize (4 * fanout ps kmax ^ Z.of_nat h). destruct (m !! key); simpl; lia. Qed.

Lemma holding_low T h n N d D recs : Holding ps kmax T h n N d D recs -> low h T.
Proof. intros [[Hs] _ _ _ _ Hsm _]. eapply settled_low; [exact Hs|apply Hb|apply Hb|exact Hsm]. Qed.

Lemma holding_budget T h n N d D recs : Holding ps kmax T h n N d D recs -> Budget ps kmax T n N (db_tree d) D.
Proof. intros [[]]. by split. Qed.

(** A call of the tree that only reads. *)
Lemma read_holding {A} (m : M BPlusTree A) (r : Result A) T h n N d D recs : Holding ps kmax T h n N d D recs ->
  moves StillFrame m ->
  (exists s', m (db_tree d) = (set_store s' (db_tree d), r) /\ Budget ps kmax T n N (set_store s' (db_tree d)) D) ->
  exists d', in_tree m d = (d', r) /\ Holding ps kmax T h n N d' D recs /\
    same_setup d d' /\ db_version_counter d' = db_version_counter d /\
    db_wal d' = db_wal d.
Proof.
  intros Hd Hm (s' & E & Hb'). pose proof (Hm (db_tree d)) as Hf. rewrite E in Hf. cbn [fst] in Hf.
  exists (set_tree (set_store s' (db_tree d)) d). split; [by apply in_tree_run|].
  destruct Hd as [[Hs Hw Hl Hc Hcap] Hop _ Hle Hcp Hh Hdur], Hb' as [Hs' Hsl _]. pose proof Hf as [_ Hfc Hfe].
  split; [|by split]. split; try done.
  - split; try done. change (bp_capacity_pages (st_pool (tr_store (set_store s' (db_tree d)))) <> 0). by rewrite Hfc.
  - change (n <= bp_capacity_pages (st_pool (tr_store (set_store s' (db_tree d))))). by rewrite Hfc.
  - by apply durable_still.
Qed.

Lemma search_holding T h n N d D recs key : Holding ps kmax T h n N d D recs -> 1 <= n ->
  exists d', in_tree (search key) d = (d', Ok (contents (flat T) !! key)) /\ Holding ps kmax T h n N d' D recs /\
    same_setup d d' /\ db_version_counter d' = db_version_counter d /\
    db_wal d' = db_wal d.
Proof.
  intros Hd Hn. apply read_holding; [done|apply moves_search|].
  by apply search_budget, Hn; apply (holding_budget _ _ _ _ _ _ _ Hd).
Qed.

(** The steps of an operation from a tree of height [h]: those of the tree,
    a log record, and two checkpoints. *)
Definition db_cost (h : nat) : Z := step_cost h + 3.

(** Logging an operation, running it on the tree, and the checkpoint that may
    follow. *)
Lemma logged_ok {A} T h n N d D recs op r (m : M BPlusTree A) (a : A) lsn : Holding ps kmax T h n N d D recs ->
  step_cost h + 2 <= n -> lsn = wal_current_lsn (db_wal d) + 1 -> op_record op lsn = r ->
  wal_fits r = true -> replayable ps kmax r -> small_map ps kmax h (apply_record (contents (flat T)) r) ->
  (Budget ps kmax T (n - 1) (N - 1) (db_tree d) D -> fits 8 lsn = true ->
   exists tr' T' D', m (db_tree d) = (tr', Ok a) /\
     Budget ps kmax T' (n - 1 - step_cost h) (N - 1 - step_cost h) tr' D' /\
     contents (flat T') = apply_record (contents (flat T)) r /\ StillFrame (db_tree d) tr') ->
  exists d1 d2 T' D' recs', in_wal (run_append op) d = (d1, Ok lsn) /\ in_tree m d1 = (d2, Ok a) /\
    Holding ps kmax T' h (n - 1 - step_cost h) (N - 1 - step_cost h) d2 D' recs' /\
    contents (flat T') = apply_record (contents (flat T)) r /\ same_setup d d2 /\
    db_version_counter d2 = db_version_counter d.
Proof.
  intros Hd Hn -> Hr Hf Hrp Hsm Hm. unfold step_cost in Hn. pose proof Hd as [Hbase Hop Hsl Hle Hcap Hh Hdur].
  destruct (append_ok T h n N d D recs op r Hd ltac:(lia) Hr Hf Hrp) as (w & E1 & Hb1 & Hd1).
  destruct Hm as (tr' & T' & D' & E2 & Hb2 & Hc & Hfr).
  { eapply (budget_weaken _ _ _ n _ N); [..|by apply (holding_budget T h n N d D recs)]; lia. }
  { apply lsn_fits_bound. pose proof (bs_lsn _ _ _ _ _ _ _ Hbase). lia. }
  destruct (logged_holding T h (N - 1) (N - 1 - step_cost h) (set_wal w d) D (recs ++ [r]) T' (n - 1 - step_cost h) tr' D')
    as [Hhold Hset]; try done.
  - rewrite Hc. eapply durable_weaken; [|exact Hd1]. lia.
  - unfold step_cost. lia.
  - by rewrite Hc.
  - unfold step_cost. change (db_store (set_wal w d)) with (db_store d). lia.
  - exists (set_wal w d), (set_tree tr' (set_wal w d)), T', D', (recs ++ [r]).
    split; [done|]. split; [by apply in_tree_run|]. done.
Qed.

Lemma put_ok T h n N d D recs key value : Holding ps kmax T h n N d D recs -> db_cost h <= n ->
  len key <= kmax -> calculate_leaf_record_size key value <= get_max_leaf_record_size ps ->
  small_map ps kmax h (<[key := value]> (contents (flat T))) ->
  exists d' T' D' recs', put (PyBytes key) (PyBytes value) d = (d', Ok tt) /\
    Holding ps kmax T' h (n - db_cost h) (N - db_cost h) d' D' recs' /\
    contents (flat T') = <[key := value]> (contents (flat T)) /\ same_setup d d' /\ calm d' /\
    db_version_counter d' = db_version_counter d + 1.
Proof.
  intros Hd Hn Hkey Hrec Hsm. assert (1 <= n) as Hn1 by (unfold db_cost, step_cost in Hn; lia).
  unfold put. rewrite (bind_Ok _ _ _ _ _ (opened_run d (ho_opened _ _ _ _ _ _ _ _ _ Hd))).
  rewrite (bind_Ok (ensure_bytes_type (PyBytes key)) _ d d key eq_refl), (bind_Ok (ensure_bytes_type (PyBytes value)) _ d d value eq_refl).
  pose proof (too_large_settled ps kmax T N _ D key value (bs_settled _ _ _ _ _ _ _ (ho_base _ _ _ _ _ _ _ _ _ Hd))) as Etl.
  rewrite (proj2 (Z.ltb_ge _ _) Hrec) in Etl. rewrite (bind_Ok _ _ _ _ _ (in_tree_same _ _ _ Etl)).
  destruct (maybe_checkpoint_holding T h n N d D recs Hd Hn1) as (d1 & D1 & recs1 & E1 & Hd1 & _ & Hset1 & Hver1).
  rewrite (bind_Ok _ _ _ _ _ E1).
  set (lsn := wal_current_lsn (db_wal d1) + 1).
  destruct (logged_ok T h (n - 1) (N - 1) d1 D1 recs1 (AppendPut key value) (WALPutRecord lsn key value) (insert key value lsn) tt lsn)
    as (d2 & d3 & T' & D3 & recs3 & E2 & E3 & Hd3 & Hc & Hset3 & Hver3); try done.
  { unfold db_cost in Hn. lia. }
  { apply record_fits; [|done]. pose proof (bs_lsn _ _ _ _ _ _ _ (ho_base _ _ _ _ _ _ _ _ _ Hd1)).
    pose proof (ho_le _ _ _ _ _ _ _ _ _ Hd1). unfold db_cost, step_cost in Hn. simpl record_lsn. unfold lsn. lia. }
  { intros Hbud Hlsn. destruct (insert_budget ps kmax T (n - 1 - 1) (N - 1 - 1) (db_tree d1) D1 key value lsn h Hb Hbud)
      as (tr' & T' & D' & E & Hb' & _ & Hc & Hf); try done; [by apply (holding_low T h (n - 1) (N - 1) d1 D1 recs1)|unfold db_cost in Hn; lia|].
    by exists tr', T', D'. }
  rewrite (bind_Ok (in_wal (append_put key value)) _ _ _ _ E2), (bind_Ok _ _ _ _ _ E3).
  set (d4 := set_version (db_version_counter d3 + 1) d3). rewrite (bind_Ok bump_version _ d3 d4 tt eq_refl).
  apply (holding_version _ _ _ _ _ _ _ _ _ (db_version_counter d3 + 1)) in Hd3. fold d4 in Hd3.
  destruct (maybe_checkpoint_holding T' h _ _ d4 D3 recs3 Hd3) as (d5 & D5 & recs5 & E5 & Hd5 & Hcalm & Hset5 & Hver5).
  { unfold db_cost in Hn. lia. }
  exists d5, T', D5, recs5. split; [exact E5|].
  split; [|split; [done|split; [|split; [done|]]]].
  - eapply holding_weaken; [| | |exact Hd5]; unfold db_cost; [lia..|]. pose proof (ho_le _ _ _ _ _ _ _ _ _ Hd). lia.
  - etransitivity; [exact Hset1|]. etransitivity; [exact Hset3|exact Hset5].
  - rewrite Hver5. simpl. by rewrite Hver3, Hver1.
Qed.

Lemma get_ok T h n N d D recs key : Holding ps kmax T h n N d D recs -> 1 <= n ->
  exists d', get (PyBytes key) d = (d', Ok (contents (flat T) !! key)) /\ Holding ps kmax T h n N d' D recs /\
    same_setup d d' /\ db_version_counter d' = db_version_counter d /\ db_wal d' = db_wal d.
Proof.
  intros Hd Hn. unfold get. rewrite (bind_Ok _ _ _ _ _ (opened_run d (ho_opened _ _ _ _ _ _ _ _ _ Hd))).
  rewrite (bind_Ok (ensure_bytes_type (PyBytes key)) _ d d key eq_refl). by apply search_holding.
Qed.

(** The keys of a well-formed tree are short. *)
Lemma held_key T key v : Wf ps kmax T -> contents (flat T) !! key = Some v -> len key <= kmax.
Proof.
  intros [_ Hs _ Hf] Hv. apply contents_lookup in Hv; [|done]. rewrite Forall_forall in Hf.
  by destruct (Hf _ Hv) as [Hk _].
Qed.

Lemma delete_absent_ok T h n N d D recs key : Holding ps kmax T h n N d D recs -> 1 <= n ->
  contents (flat T) !! key = None ->
  exists d', db_delete (PyBytes key) d = (d', Ok false) /\ Holding ps kmax T h n N d' D recs /\
    same_setup d d' /\ db_version_counter d' = db_version_counter d /\ in_tree (search key) d = (d', Ok None).
Proof.
  intros Hd Hn Hk. unfold db_delete. rewrite (bind_Ok _ _ _ _ _ (opened_run d (ho_opened _ _ _ _ _ _ _ _ _ Hd))).
  rewrite (bind_Ok (ensure_bytes_type (PyBytes key)) _ d d key eq_refl).
  destruct (search_holding T h n N d D recs key Hd Hn) as (d0 & E0 & Hd0 & Hset0 & Hver0 & _).
  rewrite (bind_Ok _ _ _ _ _ E0), Hk. rewrite Hk in E0. by exists d0.
Qed.

Lemma delete_present_ok T h n N d D recs key v : Holding ps kmax T h n N d D recs -> db_cost h <= n ->
  contents (flat T) !! key = Some v ->
  exists d' T' D' recs', db_delete (PyBytes key) d = (d', Ok true) /\
    Holding ps kmax T' h (n - db_cost h) (N - db_cost h) d' D' recs' /\
    contents (flat T') = delete key (contents (flat T)) /\ same_setup d d' /\ calm d' /\
    db_version_counter d' = db_version_counter d + 1.
Proof.
  intros Hd Hn Hk. assert (1 <= n) as Hn1 by (unfold db_cost, step_cost in Hn; lia).
  pose proof (ho_le _ _ _ _ _ _ _ _ _ Hd) as Hle.
  unfold db_delete. rewrite (bind_Ok _ _ _ _ _ (opened_run d (ho_opened _ _ _ _ _ _ _ _ _ Hd))).
  rewrite (bind_Ok (ensure_bytes_type (PyBytes key)) _ d d key eq_refl).
  destruct (search_holding T h n N d D recs key Hd Hn1) as (d0 & E0 & Hd0 & Hset0 & Hver0 & _).
  rewrite (bind_Ok _ _ _ _ _ E0), Hk.
  destruct (maybe_checkpoint_holding T h n N d0 D recs Hd0 Hn1) as (d1 & D1 & recs1 & E1 & Hd1 & _ & Hset1 & Hver1).
  rewrite (bind_Ok _ _ _ _ _ E1). set (lsn := wal_current_lsn (db_wal d1) + 1).
  destruct (logged_ok T h (n - 1) (N - 1) d1 D1 recs1 (AppendDelete key) (WALDeleteRecord lsn key) (tree_delete key lsn) true lsn)
    as (d2 & d3 & T' & D3 & recs3 & E2 & E3 & Hd3 & Hc & Hset3 & Hver3); try done.
  { unfold db_cost in Hn. lia. }
  { pose proof (bs_settled _ _ _ _ _ _ _ (ho_base _ _ _ _ _ _ _ _ _ Hd)) as Hs.
    apply record_fits; [|by apply (held_key T key v); [apply (se_ok _ _ _ _ _ _ Hs)|]].
    pose proof (bs_lsn _ _ _ _ _ _ _ (ho_base _ _ _ _ _ _ _ _ _ Hd1)).
    unfold db_cost, step_cost in Hn. simpl record_lsn. unfold lsn. lia. }
  { eapply small_delete, (ho_small _ _ _ _ _ _ _ _ _ Hd). }
  { intros Hbud Hlsn. unfold db_cost in Hn.
    destruct (delete_budget ps kmax T (n - 1 - 1) (N - 1 - 1) (db_tree d1) D1 key lsn h Hb Hbud)
      as (tr' & T' & D' & E & Hb' & _ & Hc & Hf); [by apply (holding_low T h (n - 1) (N - 1) d1 D1 recs1)|lia|done|].
    rewrite Hk, bool_decide_eq_true_2 in E by by eexists. by exists tr', T', D'. }
  rewrite (bind_Ok (in_wal (append_delete key)) _ _ _ _ E2), (bind_Ok _ _ _ _ _ E3).
  rewrite (bind_Ok (py_assert true) _ d3 d3 tt eq_refl).
  set (d4 := set_version (db_version_counter d3 + 1) d3). rewrite (bind_Ok bump_version _ d3 d4 tt eq_refl).
  apply (holding_version _ _ _ _ _ _ _ _ _ (db_version_counter d3 + 1)) in Hd3. fold d4 in Hd3.
  destruct (maybe_checkpoint_holding T' h _ _ d4 D3 recs3 Hd3) as (d5 & D5 & recs5 & E5 & Hd5 & Hcalm & Hset5 & Hver5).
  { unfold db_cost in Hn. lia. }
  rewrite (bind_Ok _ _ _ _ _ E5).
  exists d5, T', D5, recs5. split; [done|].
  split; [|split; [done|split; [|split; [done|]]]].
  - eapply holding_weaken; [| | |exact Hd5]; unfold db_cost; lia.
  - etransitivity; [exact Hset0|]. etransitivity; [exact Hset1|]. etransitivity; [exact Hset3|exact Hset5].
  - rewrite Hver5. simpl. by rewrite Hver3, Hver1, Hver0.
Qed.
End ops.
