(* ===== verification/DbRecovery.v ===== *)
(** * Opening a database

    Opening after any crash between two writes: the meta page is read, the log
    is replayed on the tree of the last checkpoint with evictions off, a torn
    record at its end is cut off, and a checkpoint follows. *)

From S2P Require Import Prelude Bytes Float64 Bisect Entities Codec Fs Pager Cache Tree Wal Db.
From S2P Require Import CodecFacts PageCodecFacts CodecTheorems PagerFacts CacheFacts CacheOps WalFacts WalTheorems.
From S2P Require Import TreeSizes TreeShape TreeSteps TreeStore TreeFind TreeSplit TreeBalance TreeRedistribute.
From S2P Require Import TreeBorrow TreeMerge TreeCascade TreeOps TreeFrame TreeHeight TreeBudget DbFacts DbCheckpoint DbDurable DbOps.

(** ** The log inside a database *)

#[export] Instance wal_lens_db : WalLens db_wal set_wal.
Proof. split; [done|done|by intros []]. Qed.

(** A pass over the log that only reads it. *)
Lemma visit_pure {T B} (get : T -> WAL) (set : WAL -> T -> T) `{!WalLens get set} (g : B -> WALRecord -> B) recs :
  forall pos acc s, exists p, visit get set pos acc recs (fun acc r => mret (g acc r)) s =
    (set (set_wal_pos p (get s)) s, Ok (foldl g acc recs)).
Proof.
  induction recs as [|r recs IH]; intros pos acc s.
  - exists (wal_pos (get s)). simpl. assert (forall w, set_wal_pos (wal_pos w) w = w) as -> by (by intros []).
    by rewrite lens_set_get.
  - rewrite visit_cons. destruct (IH (pos + length (wal_wire r))%nat (g acc r)
      (set (set_wal_pos (pos + length (wal_wire r)) (get s)) s)) as (p & E).
    exists p. etransitivity; [exact E|]. by rewrite lens_get_set, lens_set_set.
Qed.

Lemma fold_pure {T B} (get : T -> WAL) (set : WAL -> T -> T) `{!WalLens get set} (g : B -> WALRecord -> B) f recs tail acc s :
  Forall (fun r => wal_fits r = true) recs -> sequential 0 recs -> torn tail ->
  wal_is_open (get s) = true -> wal_disk (get s) = Some f -> f_data f = wires recs ++ tail ->
  exists p, for_records get set acc (fun acc r => mret (g acc r)) s =
    (set (set_wal_pos p (get s)) s, Ok (foldl g acc recs)).
Proof.
  intros Hfit Hseq Ht Ho Hd Hf. destruct (torn_end false _ Ht) as (n & Htail).
  rewrite (for_records_visit get set (fun acc r => mret (g acc r)) f recs tail n None acc s);
    [|by intros a r s1 s2 res [= <- _]|done..].
  destruct (visit_pure get set g recs 0%nat acc (set (set_wal_pos 0 (get s)) s)) as (p & E).
  rewrite (bind_Ok _ _ _ _ _ E). rewrite lens_get_set, lens_set_set.
  exists (p + n)%nat. rewrite (bind_Ok _ _ _ (set (set_wal_pos (p + n) (get s)) s) tt); [done|].
  unfold zoom, modify. by rewrite lens_get_set, lens_set_set.
Qed.

(** ** Repeating the records *)

Lemma apply_independent : independent set_wal apply_wal_record.
Proof.
  intros r w d. unfold apply_wal_record, mbind, M_bind, get_state. cbn [db_recovery_last_checkpoint_lsn set_wal].
  destruct (_ <=? _); [done|]. destruct r as [lsn k v|lsn k|]; [| |done].
  - unfold in_tree, zoom. cbn [db_tree set_wal]. by destruct (insert k v lsn (db_tree d)) as [tr [a|e]].
  - unfold in_tree, zoom. cbn [db_tree set_wal]. by destruct (tree_delete k lsn (db_tree d)) as [tr [a|e]].
Qed.

Lemma apply_old r d : record_lsn r <= db_recovery_last_checkpoint_lsn d -> apply_wal_record r d = (d, Ok tt).
Proof.
  intros H. unfold apply_wal_record. rewrite (bind_Ok get_state _ d d d eq_refl). by rewrite (proj2 (Z.leb_le _ _) H).
Qed.

Lemma sequential_above recs : forall l, 1 <= l -> Forall (fun r => wal_fits r = true) recs -> sequential l recs ->
  Forall (fun r => l < record_lsn r /\ fits 8 (record_lsn r) = true) recs.
Proof.
  induction recs as [|r recs IH]; intros l Hl Hf; [done|]. intros [Hr Hs]. apply Forall_cons in Hf as [Hrf Hf].
  assert (record_lsn r = l + 1) as El by lia. constructor.
  - split; [lia|]. unfold wal_fits in Hrf. rewrite !andb_true_iff in Hrf. tauto.
  - eapply Forall_impl; [apply (IH (record_lsn r)); [lia|done|done]|]. intros x [Hx ?]. split; [lia|done].
Qed.

Section recovery.
Context (ps kmax : Z) (Hb : GoodBounds ps kmax) (Hps : ps < 2 ^ 32).

Lemma replay_records_ok rs h : Forall (replayable ps kmax) rs -> forall T N d D,
  Forall (fun r => db_recovery_last_checkpoint_lsn d < record_lsn r /\ fits 8 (record_lsn r) = true) rs ->
  Settled ps kmax T (len rs * step_cost h + N) (db_tree d) D -> 0 <= N ->
  bp_eviction_enabled (st_pool (db_store d)) = false -> small_steps ps kmax h rs (contents (flat T)) ->
  exists tr' T' D', mfor rs apply_wal_record d = (set_tree tr' d, Ok tt) /\ Settled ps kmax T' N tr' D' /\
    contents (flat T') = apply_records rs (contents (flat T)) /\ StillFrame (db_tree d) tr'.
Proof.
  induction 1 as [|r rs Hr Hrs IH]; intros T N d D Hlsn Hs HN Hev Hsm.
  { exists (db_tree d), T, D. rewrite set_tree_same. done. }
  apply Forall_cons in Hlsn as [[Hl Hfit] Hlsn]. destruct Hsm as [Hsm Hsms].
  assert (len (r :: rs) * step_cost h + N = step_cost h + (len rs * step_cost h + N)) as EK by (unfold len; simpl length; lia).
  rewrite EK in Hs. clear EK. assert (0 <= len rs * step_cost h) as Hrest by (unfold len, step_cost; lia).
  set (K := step_cost h + (len rs * step_cost h + N)) in *.
  assert (Budget ps kmax T K K (db_tree d) D) as Hbud by (split; [done|by left|lia]).
  pose proof (settled_low ps kmax T K _ D h Hs ltac:(apply Hb) ltac:(apply Hb) Hsm) as Hh.
  assert (exists tr1 T1 D1, apply_wal_record r d = (set_tree tr1 d, Ok tt) /\
    Settled ps kmax T1 (len rs * step_cost h + N) tr1 D1 /\
    contents (flat T1) = apply_record (contents (flat T)) r /\ StillFrame (db_tree d) tr1)
    as (tr1 & T1 & D1 & E1 & Hs1 & Hc1 & Hf1).
  { unfold apply_wal_record. rewrite (bind_Ok get_state _ d d d eq_refl). rewrite (proj2 (Z.leb_gt _ _) Hl).
    destruct r as [lsn key value|lsn key|]; [| |done].
    - destruct Hr as [Hkey Hrec].
      destruct (insert_budget ps kmax T K K (db_tree d) D key value lsn h Hb Hbud Hh) as (tr1 & T1 & D1 & E & [Hs1 _ _] & _ & ?); try done; [lia|].
      exists tr1, T1, D1. split; [by apply in_tree_run|]. split; [|done]. eapply settled_weaken; [|exact Hs1]. lia.
    - destruct (delete_budget ps kmax T K K (db_tree d) D key lsn h Hb Hbud Hh) as (tr1 & T1 & D1 & E & [Hs1 _ _] & _ & ?); try done; [lia|].
      exists tr1, T1, D1. rewrite (bind_Ok _ _ _ _ _ (in_tree_run _ _ _ _ E)).
      split; [done|]. split; [|done]. eapply settled_weaken; [|exact Hs1]. lia. }
  destruct (IH T1 N (set_tree tr1 d) D1) as (tr2 & T2 & D2 & E2 & Hs2 & Hc2 & Hf2); try done.
  { etransitivity; [|exact Hev]. apply Hf1. }
  { by rewrite Hc1. }
  exists tr2, T2, D2. cbn [mfor]. rewrite (bind_Ok _ _ _ _ _ E1). split; [exact E2|]. split; [done|].
  split; [by rewrite Hc2, Hc1|]. by etransitivity.
Qed.

(** ** The repair of the meta page *)

Lemma db_meta_run d D : PagerOk (st_pager (db_store d)) D -> db_pager get_meta d = (d, Ok (dk_meta D)).
Proof.
  intros Hp. etransitivity; [apply db_pager_run; exact (meta_page_run _ _ _ _ _ Hp)|]. by destruct d as [[[] ?]].
Qed.

(** The records of the log after the LSN of the meta page are [rs]. *)
Definition log_of (l : Z) (rs recs : list WALRecord) : Prop :=
  exists old, recs = old ++ rs /\ Forall (fun r => record_lsn r <= l) old /\ Forall (fun r => l < record_lsn r) rs.

Lemma log_of_nil l : log_of l [] [].
Proof. by exists []. Qed.

Lemma log_of_checkpoint l m rs : 1 <= l -> Forall (fun r => wal_fits r = true) (checkpoint_record l m :: rs) ->
  sequential 0 (checkpoint_record l m :: rs) -> log_of l rs (checkpoint_record l m :: rs).
Proof.
  intros Hl Hf [_ Hs]. exists [checkpoint_record l m]. split; [done|]. split; [by constructor|].
  apply Forall_cons in Hf as [_ Hf]. eapply Forall_impl; [by apply (sequential_above rs l)|]. by intros r [? _].
Qed.

Lemma newest_same rs : Forall (replayable ps kmax) rs -> forall c, foldl newer_checkpoint c rs = c.
Proof. induction 1 as [|r rs Hr Hrs IH]; intros c; [done|]. destruct r; [apply IH|apply IH|done]. Qed.

(** Records up to [l] hold no newer checkpoint. *)
Lemma newest_old l old : Forall (fun r => record_lsn r <= l) old -> forall c,
  (forall r, c = Some r -> record_lsn r <= l) -> forall r, foldl newer_checkpoint c old = Some r -> record_lsn r <= l.
Proof.
  induction 1 as [|x old Hx Hold IH]; intros c Hc; [done|]. apply IH. intros r Hr.
  destruct x as [? ? ?|? ?|lsn ro fr ne]; [by apply Hc|by apply Hc|]. unfold newer_checkpoint in Hr.
  destruct c as [c|]; [|by injection Hr as <-]. destruct (_ <? _); [by injection Hr as <-|by apply Hc].
Qed.

(** The first pass over the log only looks for the newest checkpoint. *)
Lemma repair_run d meta f recs tail : db_pager get_meta d = (d, Ok meta) ->
  Forall (fun r => wal_fits r = true) recs -> sequential 0 recs -> torn tail ->
  wal_is_open (db_wal d) = true -> wal_disk (db_wal d) = Some f -> f_data f = wires recs ++ tail ->
  exists p, let d' := set_wal (set_wal_pos p (db_wal d)) d in
  repair_pager_meta_from_wal_checkpoint d = match foldl newer_checkpoint None recs with
  | Some (WALCheckpointRecord lsn root freelist_head next) =>
      if lsn <=? last_checkpoint_lsn meta then (d', Ok tt)
      else db_pager (update_meta (fun m =>
        with_checkpoint_lsn lsn (with_next next (with_freelist_head freelist_head (with_root root m))))) d'
  | _ => (d', Ok tt)
  end.
Proof.
  intros Hp Hfit Hseq Ht Ho Hd Hf. unfold repair_pager_meta_from_wal_checkpoint.
  rewrite (bind_Ok _ _ _ _ _ Hp).
  destruct (fold_pure db_wal set_wal newer_checkpoint f recs tail None d Hfit Hseq Ht Ho Hd Hf) as (p & E).
  exists p. cbv zeta. rewrite (bind_Ok _ _ _ _ _ E).
  destruct (foldl _ _ _) as [[]|]; [done|done| |done]. by destruct (_ <=? _).
Qed.

Lemma repair_ok d D f rs recs tail : db_pager get_meta d = (d, Ok (dk_meta D)) ->
  Forall (fun r => wal_fits r = true) recs -> sequential 0 recs -> torn tail ->
  wal_is_open (db_wal d) = true -> wal_disk (db_wal d) = Some f -> f_data f = wires recs ++ tail ->
  log_of (last_checkpoint_lsn (dk_meta D)) rs recs -> Forall (replayable ps kmax) rs ->
  exists p, repair_pager_meta_from_wal_checkpoint d = (set_wal (set_wal_pos p (db_wal d)) d, Ok tt).
Proof.
  intros Hp Hfit Hseq Ht Ho Hd Hf (old & -> & Hold & _) Hrs.
  destruct (repair_run d (dk_meta D) f _ tail Hp Hfit Hseq Ht Ho Hd Hf) as (p & E). exists p. cbv zeta in E. rewrite E. clear E.
  rewrite foldl_app, newest_same by done.
  pose proof (newest_old _ _ Hold None ltac:(done)) as Hle. destruct (foldl _ _ _) as [[]|]; [done|done| |done].
  specialize (Hle _ eq_refl). simpl in Hle. by rewrite (proj2 (Z.leb_le _ _) Hle).
Qed.

(** ** Recovery *)

Lemma settled_eviction T N tr D b : Settled ps kmax T N tr D -> Settled ps kmax T N (set_store (set_eviction b (tr_store tr)) tr) D.
Proof. intros [? [[] ? ? ? ? ?] ? ? ?]. by split. Qed.

Lemma skip_old old rs d : Forall (fun r => record_lsn r <= db_recovery_last_checkpoint_lsn d) old ->
  mfor (old ++ rs) apply_wal_record d = mfor rs apply_wal_record d.
Proof. induction 1 as [|r old Hr Hold IH]; [done|]. cbn [mfor app]. by rewrite (bind_Ok _ _ _ _ _ (apply_old r d Hr)). Qed.

(** What is left of [d] after the meta page has been repaired. *)
Definition no_evictions (d : DB) : DB := set_db_store (set_eviction false (db_store d)) d.

Record Repaired (d d1 : DB) : Prop := {
  rp_run : repair_pager_meta_from_wal_checkpoint (no_evictions d) = (d1, Ok tt);
  rp_setup : same_setup (no_evictions d) d1;
  rp_open : wal_is_open (db_wal d1) = true;
  rp_disk : wal_disk (db_wal d1) = wal_disk (db_wal d);
}.

Lemma recover_run T N n d d1 D f rs recs tail h : Repaired d d1 ->
  Settled ps kmax T (len rs * step_cost h + N) (db_tree d1) D ->
  small_steps ps kmax h rs (contents (flat T)) -> Forall (replayable ps kmax) rs -> log_of (last_checkpoint_lsn (dk_meta D)) rs recs ->
  Forall (fun r => wal_fits r = true) recs -> sequential 0 recs -> torn tail ->
  wal_disk (db_wal d) = Some f -> f_data f = wires recs ++ tail ->
  fits 8 (last_checkpoint_lsn (dk_meta D)) = true -> last_lsn 0 recs + N < 2 ^ 64 -> 1 <= N -> n <= N - 1 ->
  n <= bp_capacity_pages (st_pool (db_store d)) -> bp_capacity_pages (st_pool (db_store d)) <> 0 ->
  exists d' T' D' recs', recover d = (d', Ok tt) /\ DbBase ps kmax T' (N - 1) d' D' recs' /\ slack (db_store d') n /\
    contents (flat T') = apply_records rs (contents (flat T)) /\
    Durable ps kmax (N - 1) h d' recs' (contents (flat T')) /\ same_setup d d'.
Proof.
  intros [E0 (Hsz & Hrt & Hcp & Hev1) Ho Ed1] Hs0 Hh Hrp Hlog Hfit Hseq Ht Hd Hf Hck Hlsn HN Hn Hcapn Hcap.
  rewrite <-Ed1 in Hd. clear Ed1. set (l := last_checkpoint_lsn (dk_meta D)) in *.
  set (d0 := no_evictions d) in *. set (d2 := set_recovery_lsn l d1).
  destruct Hlog as (old & Erecs & Hold & Hnew).
  assert (mfor recs apply_wal_record d2 = mfor rs apply_wal_record d2) as Eskip by (rewrite Erecs; by apply skip_old).
  destruct (replay_records_ok rs h Hrp T N d2 D) as (tr3 & T3 & D3 & E3 & Hs3 & Hc3 & Hf3); try done; [|lia|].
  { rewrite Erecs in Hfit. apply Forall_app in Hfit as [_ Hfit]. rewrite Forall_forall in *. intros r Hr.
    split; [by apply Hnew|]. specialize (Hfit r Hr). unfold wal_fits in Hfit. rewrite !andb_true_iff in Hfit. tauto. }
  destruct (torn_end false _ Ht) as (k & Htail).
  destruct (replay_run db_wal set_wal apply_wal_record f recs tail k None d2 apply_independent Hfit Hseq Htail Ho Hd Hf) as (w & Hw & _).
  rewrite Eskip, E3 in Hw. destruct Hw as (E4 & Hw & Hcur). set (d3 := set_wal w (set_tree tr3 d2)) in *.
  set (d4 := set_db_store (set_eviction (bp_eviction_enabled (st_pool (db_store d))) (db_store d3)) d3).
  assert (eviction_disabled db_store set_db_store (repair_pager_meta_from_wal_checkpoint;;
    meta ← db_pager get_meta; modify (set_recovery_lsn (last_checkpoint_lsn meta));;
    replay db_wal set_wal apply_wal_record) d = (d4, Ok tt)) as E.
  { unfold eviction_disabled. fold (no_evictions d). fold d0. rewrite (bind_Ok _ _ _ _ _ E0).
    rewrite (bind_Ok _ _ _ _ _ (db_meta_run d1 D (settled_pager _ _ _ _ _ _ Hs0))).
    rewrite (bind_Ok (modify (set_recovery_lsn l)) _ d1 d2 tt eq_refl). by rewrite E4. }
  pose proof (settled_eviction _ _ _ _ (bp_eviction_enabled (st_pool (db_store d))) Hs3) as Hs4.
  change (set_store _ _) with (db_tree d4) in Hs4. pose proof Hf3 as [_ Hfc _].
  assert (bp_capacity_pages (st_pool (db_store d4)) = bp_capacity_pages (st_pool (db_store d))) as Hc4
    by (etransitivity; [exact Hfc|exact Hcp]).
  assert (DbBase ps kmax T3 N d4 D3 recs) as Hb4.
  { split; try done.
    - change (db_wal d4) with w. rewrite Hcur. split; [|done]. by apply sequential_last.
    - by rewrite (still_lsn _ _ _ _ _ _ _ _ _ _ Hs0 Hs3 Hf3).
    - by rewrite Hc4. }
  destruct (checkpoint_holding ps kmax T3 h N n d4 D3 recs Hb4 HN ltac:(by apply (ps_range ps kmax Hb)))
    as (d5 & D5 & recs5 & E5 & Hb5 & Hsl5 & Hdur5 & _ & Hset5 & _); [by rewrite Hc4|done|].
  exists d5, T3, D5, recs5. unfold recover. rewrite (bind_Ok _ _ _ _ _ E). split; [done|]. split; [done|].
  split; [done|]. split; [done|]. split; [done|]. etransitivity; [|exact Hset5]. by split; [|split; [|split]].
Qed.

(** When the meta page is as new as the log nothing is repaired. *)
Lemma nothing_repaired T N d D f rs recs tail : Settled ps kmax T N (db_tree d) D ->
  Forall (replayable ps kmax) rs -> log_of (last_checkpoint_lsn (dk_meta D)) rs recs ->
  Forall (fun r => wal_fits r = true) recs -> sequential 0 recs -> torn tail ->
  wal_is_open (db_wal d) = true -> wal_disk (db_wal d) = Some f -> f_data f = wires recs ++ tail ->
  exists d1, Repaired d d1 /\ Settled ps kmax T N (db_tree d1) D.
Proof.
  intros Hs Hrp Hlog Hfit Hseq Ht Ho Hd Hf. pose proof (settled_eviction _ _ _ _ false Hs) as Hs0.
  change (set_store _ _) with (db_tree (no_evictions d)) in Hs0.
  destruct (repair_ok (no_evictions d) D f rs recs tail (db_meta_run _ D (settled_pager _ _ _ _ _ _ Hs0))
    Hfit Hseq Ht Ho Hd Hf Hlog Hrp) as (p & E0).
  eexists. split; [split; [exact E0|by split; [|split; [|split]]|done|done]|done].
Qed.

(** ** Opening *)

(** A configuration with [n] pages in its pool. *)
Definition roomy_config (n : Z) (c : Config) : Prop :=
  MIN_PAGE_SIZE <= cfg_page_size_bytes c /\ 0 < n <= cfg_cache_capacity_pages c.

(** The database object of a configuration on a directory. *)
Definition new_db (c : Config) (dir : DataDir) (p : Pager) : DB :=
  {| db_tree := {| tr_store := opened_store p (cfg_cache_capacity_pages c); tr_stats := tree_stats_zero |};
     db_wal := wal_init (dir_wal dir) (dir_wal_temp dir);
     db_checkpoint_wal_size_bytes := cfg_checkpoint_wal_size_bytes c;
     db_checkpoint_dirty_page_ratio := cfg_checkpoint_dirty_page_ratio c;
     db_is_opened := false; db_version_counter := 0; db_recovery_last_checkpoint_lsn := 0 |}.

Definition setup_of (c : Config) (d : DB) : Prop :=
  db_checkpoint_wal_size_bytes d = cfg_checkpoint_wal_size_bytes c /\
  db_checkpoint_dirty_page_ratio d = cfg_checkpoint_dirty_page_ratio c /\
  bp_capacity_pages (st_pool (db_store d)) = cfg_cache_capacity_pages c /\
  bp_eviction_enabled (st_pool (db_store d)) = true.

(** The database that [db_open] makes of a file whose meta page has been read,
    in any state the repair leads to. *)
Definition reading_db (c : Config) (dir : DataDir) (p : Pager) : DB :=
  set_wal (wal_open (wal_init (dir_wal dir) (dir_wal_temp dir))).1 (new_db c dir p).

Lemma open_run c dir p0 p d1 T N n D rs recs tail h : roomy_config n c ->
  pager_init (dir_data dir) (cfg_page_size_bytes c) = Ok p0 -> pager_open p0 = (p, Ok tt) ->
  Repaired (reading_db c dir p) d1 -> Settled ps kmax T (len rs * step_cost h + N) (db_tree d1) D ->
  small_steps ps kmax h rs (contents (flat T)) -> Forall (replayable ps kmax) rs -> log_of (last_checkpoint_lsn (dk_meta D)) rs recs ->
  Forall (fun r => wal_fits r = true) recs -> sequential 0 recs -> torn tail ->
  f_data (default empty_file (dir_wal dir)) = wires recs ++ tail ->
  fits 8 (last_checkpoint_lsn (dk_meta D)) = true -> last_lsn 0 recs + N < 2 ^ 64 -> n <= N - 1 ->
  small_map ps kmax h (apply_records rs (contents (flat T))) ->
  exists d0 d T' D' recs', db_init c dir = Ok d0 /\ db_open d0 = (d, Ok tt) /\
    Holding ps kmax T' h n (N - 1) d D' recs' /\
    contents (flat T') = apply_records rs (contents (flat T)) /\ setup_of c d.
Proof.
  intros [Hpsz Hcap] Ep Eo Hrep Hs Hh Hrp Hlog Hfit Hseq Ht Hf Hck Hlsn Hn Hsm.
  set (d0 := new_db c dir p0). set (d1' := new_db c dir p). set (d2 := reading_db c dir p) in *.
  destruct (recover_run T N n d2 d1 D (default empty_file (dir_wal dir)) rs recs tail h Hrep Hs Hh Hrp Hlog Hfit Hseq Ht eq_refl Hf Hck Hlsn)
    as (d3 & T' & D' & recs' & E & Hb3 & Hsl & Hc & Hdur & (Hw & Hr & Hcfg & Hev)); [lia|lia|simpl; lia|simpl; lia|].
  exists d0, (set_opened true d3), T', D', recs'. split.
  { unfold db_init. by rewrite Ep. }
  split; [|split; [|split; [done|by split]]].
  - unfold db_open. rewrite (bind_Ok _ _ _ _ _ (db_pager_run pager_open d0 p (Ok tt) Eo)).
    change (set_db_store _ d0) with d1'. rewrite (bind_Ok (in_wal wal_open) _ d1' d2 tt eq_refl).
    assert (on_exception recover (in_wal wal_close;; db_pager pager_close) d2 = (d3, Ok tt)) as E2
      by (unfold on_exception; by rewrite E).
    by rewrite (bind_Ok _ _ _ _ _ E2).
  - destruct Hb3. split; try done; [|by rewrite Hc]. change (n <= bp_capacity_pages (st_pool (db_store d3))). rewrite Hcfg. simpl. lia.
Qed.

Lemma open_ok c dir p0 p T N n D rs recs tail h : roomy_config n c ->
  pager_init (dir_data dir) (cfg_page_size_bytes c) = Ok p0 -> pager_open p0 = (p, Ok tt) ->
  Settled ps kmax T (len rs * step_cost h + N) (db_tree (new_db c dir p)) D ->
  small_steps ps kmax h rs (contents (flat T)) -> Forall (replayable ps kmax) rs -> log_of (last_checkpoint_lsn (dk_meta D)) rs recs ->
  Forall (fun r => wal_fits r = true) recs -> sequential 0 recs -> torn tail ->
  f_data (default empty_file (dir_wal dir)) = wires recs ++ tail ->
  fits 8 (last_checkpoint_lsn (dk_meta D)) = true -> last_lsn 0 recs + N < 2 ^ 64 -> n <= N - 1 ->
  small_map ps kmax h (apply_records rs (contents (flat T))) ->
  exists d0 d T' D' recs', db_init c dir = Ok d0 /\ db_open d0 = (d, Ok tt) /\
    Holding ps kmax T' h n (N - 1) d D' recs' /\
    contents (flat T') = apply_records rs (contents (flat T)) /\ setup_of c d.
Proof.
  intros Hr Ep Eo Hs Hh Hrp Hlog Hfit Hseq Ht Hf. intros.
  destruct (nothing_repaired T _ (reading_db c dir p) D _ rs recs tail Hs Hrp Hlog Hfit Hseq Ht eq_refl eq_refl Hf)
    as (d1 & Hrep & Hs1).
  by eapply open_run.
Qed.

(** ** What a client relies on *)

(** [d] is an open database that holds the records [m], a
    [small_map], in memory and, in the form the log and the last
    checkpoint have, on disk; [n] pages of the pool may be made dirty, and [N]
    page ids and LSNs used. *)
Definition db_holds (n N : Z) (h : nat) (d : DB) (m : gmap bytes bytes) : Prop :=
  exists T D recs, Holding ps kmax T h n N d D recs /\ contents (flat T) = m.

(** What a crash between two file operations may leave of the files of [d]:
    what was synced, with anything after it in the data file, and with a part
    of a record after it in the log. *)
Definition crash_leaves (d : DB) (dir : DataDir) : Prop :=
  (exists f f' z, pg_disk (st_pager (db_store d)) = Some f /\ dir_data dir = Some f' /\ f_data f' = f_synced f ++ z) /\
  (exists w w' tail, wal_disk (db_wal d) = Some w /\ dir_wal dir = Some w' /\ f_data w' = f_synced w ++ tail /\ torn tail).

Lemma init_existing f c n : roomy_config n c -> exists p, pager_init (Some f) (cfg_page_size_bytes c) = Ok p.
Proof. intros [Hc _]. unfold pager_init. rewrite (proj2 (Z.ltb_ge _ _) Hc). by eexists. Qed.

(** Opening what a crash has left, or what [close] has. *)
Lemma reopen_ok c dir f w w' z tail n N h recs m temp : roomy_config n c -> dir_data dir = Some f -> dir_wal dir = Some w' ->
  dir_wal_temp dir = temp -> WalInv w recs ->
  (exists T D f0 rs, f_data f = f_data (dk_file D) ++ z /\ Saved ps kmax N h T D f0 rs recs m) ->
  f_data w' = wires recs ++ tail -> torn tail -> 0 <= wal_current_lsn w /\ wal_current_lsn w + N < 2 ^ 64 ->
  n <= N - 1 -> small_map ps kmax h m ->
  exists d0 d, db_init c dir = Ok d0 /\ db_open d0 = (d, Ok tt) /\ db_holds n (N - 1) h d m /\ setup_of c d.
Proof.
  intros Hc Ef Ew _ Hw (T & D & f0 & rs & Hz & [Him _ _ Hl (m' & Erecs) Hrp Hsm Hids Hm]) Hwire Ht [_ Hlsn] Hn Hsmall.
  destruct (init_existing f c n Hc) as [p0 Ep].
  pose proof (image_extend _ _ _ _ f z Him Hz) as Him'.
  destruct (image_open ps kmax T (with_file f D) p0 (cfg_page_size_bytes c) (cfg_cache_capacity_pages c)
    (len rs * step_cost h + N) tree_stats_zero Him') as (p & Eo & Hs); [simpl; lia|apply Hc|done|].
  destruct (open_ok c dir p0 p T N n (with_file f D) rs recs tail h) as (d0 & d & T' & D' & recs' & E0 & E & Hd & Hcont & Hset);
    try done.
  - by rewrite Ef.
  - rewrite Erecs. apply log_of_checkpoint; [exact Hl|rewrite <-Erecs; apply Hw|rewrite <-Erecs; apply Hw].
  - apply Hw.
  - apply Hw.
  - by rewrite Ew.
  - pose proof (wi_fits _ _ Hw) as Hf. rewrite Erecs in Hf. apply Forall_cons in Hf as [Hf _].
    unfold wal_fits in Hf. rewrite !andb_true_iff in Hf. simpl. tauto.
  - destruct (wi_lsn _ _ Hw) as [?|<-]; [congruence|done].
  - by rewrite Hm.
  - exists d0, d. split; [done|]. split; [done|]. split; [|done]. exists T', D', recs'. split; [done|]. by rewrite Hcont.
Qed.

Lemma durable_reopen_ok c dir n' N N' h d D T recs m : roomy_config n' c -> DbBase ps kmax T N d D recs ->
  Durable ps kmax N' h d recs m -> N' <= N -> small_map ps kmax h m -> crash_leaves d dir -> n' <= N' - 1 ->
  exists d0 d', db_init c dir = Ok d0 /\ db_open d0 = (d', Ok tt) /\ db_holds n' (N' - 1) h d' m /\ setup_of c d'.
Proof.
  intros Hc [Hs Hw Hl _ _] (T0 & D0 & f0 & rs & Ef0 & Hsv) HN Hsm
    [(f & f' & z & Ef & Ef' & Hz) (w & w' & tail & Ew & Ew' & Htail & Ht)] Hn.
  pose proof (wi_disk _ _ Hw) as Ed. rewrite Ew in Ed. injection Ed as ->. simpl in Htail.
  rewrite Ef in Ef0. injection Ef0 as <-.
  eapply (reopen_ok c dir f' (db_wal d) w' z tail n' N' h recs); try done; [|lia].
  exists T0, D0, f, rs. split; [|done]. by rewrite Hz, (sv_synced _ _ _ _ _ _ _ _ _ _ Hsv).
Qed.

Lemma crash_reopen_ok c dir n n' N h d m : roomy_config n' c -> db_holds n N h d m -> crash_leaves d dir -> n' <= N - 1 ->
  exists d0 d', db_init c dir = Ok d0 /\ db_open d0 = (d', Ok tt) /\ db_holds n' (N - 1) h d' m /\ setup_of c d'.
Proof.
  intros Hc (T & D & recs & [Hbase _ _ _ _ Hsm Hdur] & <-) Hcr Hn. by eapply durable_reopen_ok.
Qed.

(** A crash that loses all that was not synced, and one that loses nothing. *)
Lemma crash_images n N h d m : db_holds n N h d m ->
  crash_leaves d (map_dir crash_lossy (data_dir d)) /\ crash_leaves d (map_dir crash_kept (data_dir d)).
Proof.
  intros (T & D & recs & [[_ Hw _ _ _] _ _ _ _ _ (T0 & D0 & f & rs & Ef & Hsv)] & _). pose proof (wi_disk _ _ Hw) as Ed.
  destruct (sv_grown _ _ _ _ _ _ _ _ _ _ Hsv) as [z Hz]. rewrite <-(sv_synced _ _ _ _ _ _ _ _ _ _ Hsv) in Hz.
  split; (split; [do 2 eexists|do 2 eexists; exists []; rewrite app_nil_r]).
  - exists []. rewrite app_nil_r. split; [exact Ef|]. split; [simpl; by rewrite Ef|done].
  - split; [exact Ed|]. split; [simpl; by rewrite Ed|]. split; [done|apply torn_nil].
  - exists z. split; [exact Ef|]. split; [simpl; by rewrite Ef|exact Hz].
  - split; [exact Ed|]. split; [simpl; by rewrite Ed|]. split; [done|apply torn_nil].
Qed.

(** Opening an empty directory. *)
Lemma fresh_open_ok c dir n N h : roomy_config n c -> cfg_page_size_bytes c = ps -> dir_data dir = None -> dir_wal dir = None ->
  n <= N - 1 -> N + 2 <= 2 ^ 64 ->
  exists d0 d, db_init c dir = Ok d0 /\ db_open d0 = (d, Ok tt) /\ db_holds n (N - 1) h d ∅ /\ setup_of c d.
Proof.
  intros Hc Hcp Ef Ew Hn HN.
  assert (exists p0, pager_init (dir_data dir) (cfg_page_size_bytes c) = Ok p0) as [p0 Ep].
  { destruct Hc as [Hc _]. rewrite Ef. unfold pager_init. rewrite (proj2 (Z.ltb_ge _ _) Hc). by eexists. }
  pose proof Hb as [Hgps _ _]. pose proof Ep as Ep'. rewrite Ef, Hcp in Ep'.
  assert (MIN_PAGE_SIZE <= ps < 2 ^ 32) as Hmin by (rewrite <-Hcp; split; [apply Hc|rewrite Hcp; exact Hps]).
  destruct (pager_open_fresh ps p0 Hmin Ep') as (p & f & Eo & _).
  destruct (fresh_settled ps kmax p0 p (cfg_cache_capacity_pages c) N tree_stats_zero Hgps Hps Ep' Eo ltac:(lia)) as (D & Hs & Em).
  destruct (open_ok c dir p0 p empty_tree N n D [] [] [] h) as (d0 & d & T' & D' & recs' & E0 & E & Hd & Hcont & Hset); try done.
  - apply log_of_nil.
  - by rewrite Ew.
  - by rewrite Em.
  - change (last_lsn 0 []) with 0. lia.
  - apply (empty_small ps kmax h); apply Hb.
  - exists d0, d. split; [done|]. split; [done|]. split; [|done]. by exists T', D', recs'.
Qed.

(** ** Closing *)

Lemma wal_close_run w recs : WalInv w recs -> exists w', wal_close w = (w', Ok tt) /\
  wal_disk w' = Some {| f_data := wires recs; f_synced := wires recs |} /\ wal_temp w' = wal_temp w.
Proof.
  intros [Ho Hd _ _ _]. unfold wal_close. rewrite (bind_Ok get_state _ w w w eq_refl), Ho. cbn [negb].
  rewrite (bind_Ok _ _ _ _ _ (wal_file_run _ _ Ho Hd)). eexists. by split.
Qed.

Lemma pager_close_clean p D : PagerOk p D -> pg_dirty_freelist_page_ids p = ∅ -> pg_is_meta_dirty p = false ->
  exists p', pager_close p = (p', Ok tt) /\ pg_disk p' = Some (fsync_file (dk_file D)).
Proof.
  intros Hp Hf Hm. unfold pager_close. rewrite (bind_Ok get_state _ p p p eq_refl), (inv_open _ _ _ _ _ Hp), Hf. cbn [negb].
  rewrite bool_decide_eq_true_2 by done. cbn [negb when]. rewrite (bind_Ok (mret tt) _ p p tt eq_refl).
  rewrite (bind_Ok get_state _ p p p eq_refl), Hm. cbn [when]. rewrite (bind_Ok (mret tt) _ p p tt eq_refl).
  rewrite (bind_Ok _ _ _ _ _ (fsync_run _ _ _ _ _ Hp)). eexists. by split.
Qed.

(** Closing, from any state in which the tree and the log are whole. *)
Lemma close_run T N d D recs : DbBase ps kmax T N d D recs -> db_is_opened d = true -> 1 <= N ->
  exists d1 D1 d', let log := [checkpoint_record (last_checkpoint_lsn (dk_meta D1)) (dk_meta D)] in
    DbBase ps kmax T (N - 1) d1 D1 log /\ Clean d1 D1 /\ 1 <= last_checkpoint_lsn (dk_meta D1) /\
    db_close d = (d', Ok tt) /\ db_is_opened d' = false /\
    data_dir d' = {| dir_data := Some (fsync_file (dk_file D1)); dir_wal := Some {| f_data := wires log; f_synced := wires log |};
                     dir_wal_temp := wal_temp (db_wal d1) |}.
Proof.
  intros Hbase Hop HN.
  destruct (checkpoint_ok ps kmax T N d D recs Hbase HN ltac:(by apply (ps_range ps kmax Hb)))
    as (d1 & D1 & E1 & Hb1 & Hcl & Hl1 & (_ & _ & _ & _ & _) & _).
  pose proof Hb1 as [Hs1 Hw1 _ _ _]. destruct (wal_close_run _ _ Hw1) as (w2 & E2 & Hd2 & Ht2).
  destruct (pager_close_clean _ _ (settled_pager _ _ _ _ _ _ Hs1) (cl_freelist _ _ Hcl) (cl_meta _ _ Hcl)) as (p3 & E3 & Hd3).
  set (d2 := set_wal w2 d1). set (d3 := set_db_store (set_pager p3 (db_store d2)) d2).
  exists d1, D1, (set_version 0 (set_opened false d3)). cbv zeta. split; [done|]. split; [done|]. split; [done|].
  split; [|split; [done|unfold data_dir; simpl; by rewrite Hd3, Hd2, Ht2]].
  unfold db_close. rewrite (bind_Ok get_state _ d d d eq_refl), Hop. cbn [negb]. unfold finally.
  rewrite (bind_Ok _ _ _ _ _ E1), (bind_Ok _ _ _ _ _ (in_wal_run wal_close d1 w2 (Ok tt) E2)).
  by rewrite (db_pager_run pager_close (set_wal w2 d1) p3 (Ok tt) E3).
Qed.

Lemma close_ok c n n' N h d m : db_holds n N h d m -> roomy_config n' c -> 1 <= N -> n' <= N - 2 ->
  exists d', db_close d = (d', Ok tt) /\ db_is_opened d' = false /\
    exists d0 d2, db_init c (data_dir d') = Ok d0 /\ db_open d0 = (d2, Ok tt) /\ db_holds n' (N - 2) h d2 m /\ setup_of c d2.
Proof.
  intros (T & D & recs & [Hbase Hop _ _ _ Hsm _] & <-) Hc HN Hn.
  destruct (close_run T N d D recs Hbase Hop HN) as (d1 & D1 & d' & Hb1 & Hcl & Hl1 & E & Hop' & Edir).
  exists d'. split; [done|]. split; [done|].
  pose proof (durable_checkpoint ps kmax (N - 1) h T d1 D1 (dk_meta D) Hb1 Hcl Hl1) as (T0 & D0 & f0 & rs & Ef0 & Hsv).
  pose proof Hb1 as [Hs1 Hw1 Hlsn1 _ _]. replace (N - 2) with (N - 1 - 1) by lia.
  eapply (reopen_ok c _ (fsync_file (dk_file D1)) (db_wal d1) _ [] [] n' (N - 1) h _ (contents (flat T)));
    [done|by rewrite Edir|by rewrite Edir|by rewrite Edir|exact Hw1| | | |exact Hlsn1|lia|done].
  - pose proof (inv_disk _ _ _ _ _ (settled_pager _ _ _ _ _ _ Hs1)) as Ed1. change (tr_store (db_tree d1)) with (db_store d1) in Ed1.
    rewrite Ed1 in Ef0. injection Ef0 as <-.
    exists T0, D0, (dk_file D1), rs. split; [|done]. rewrite app_nil_r. simpl.
    rewrite <-(cl_synced _ _ Hcl). apply (sv_synced _ _ _ _ _ _ _ _ _ _ Hsv).
  - by rewrite app_nil_r.
  - apply torn_nil.
Qed.

(** ** A pool that is large enough *)

(** Whatever the number of dirty pages, the checkpoint threshold is passed or
    [n] more fit in the pool. *)
Definition comfortable (c : Config) (n : Z) : bool :=
  forallb (fun k =>
    match f64_div_int (Z.of_nat k) (cfg_cache_capacity_pages c) with
    | Ok q => f64_ltb (cfg_checkpoint_dirty_page_ratio c) q || (Z.of_nat k + n <=? cfg_cache_capacity_pages c)
    | Raise _ => true
    end) (seq 0 (S (Z.to_nat (cfg_cache_capacity_pages c)))).

Lemma calm_slack c d n n0 : setup_of c d -> calm d -> comfortable c n = true -> n <= cfg_cache_capacity_pages c ->
  slack (db_store d) n0 -> 0 <= n0 -> slack (db_store d) n.
Proof.
  intros (_ & Hr & Hcap & Hev) Hcalm Hc Hn Hs Hn0. right. rewrite Hcap.
  destruct Hs as [Hs|Hs]; [congruence|]. rewrite Hcap in Hs.
  destruct Hcalm as [->|(q & Eq & Hq)]; [lia|]. pose proof (dirty_count_nonneg (db_store d)) as Hpos.
  unfold comfortable in Hc. rewrite forallb_forall in Hc.
  specialize (Hc (Z.to_nat (dirty_count (db_store d)))). rewrite Z2Nat.id in Hc by done.
  unfold dirty_ratio in Eq. rewrite Hcap in Eq. rewrite Eq, <-Hr, Hq in Hc. cbn [orb] in Hc. apply Z.leb_le, Hc, in_seq. lia.
Qed.

(** After the checkpoint that may follow an operation the pool has room for
    another. *)
Lemma renew c T h n n0 N d D recs : Holding ps kmax T h n0 N d D recs -> 0 <= n0 -> setup_of c d -> calm d ->
  comfortable c n = true -> n <= cfg_cache_capacity_pages c -> n <= N -> Holding ps kmax T h n N d D recs.
Proof.
  intros [] Hn0 Hset Hcalm Hc Hn HN. split; try done; [by eapply calm_slack|]. destruct Hset as (_ & _ & -> & _). done.
Qed.
End recovery.
