(* ===== verification/DbStages.v ===== *)
(** * Crashes in the second half of a checkpoint

    Once its record is in the log a checkpoint cannot be undone by a crash: the
    pages are in the data file, and the next open takes from the record what
    the meta page of the file does not say yet. *)

From S2P Require Import Prelude Bytes Float64 Bisect Entities Codec Fs Pager Cache Tree Wal Db.
From S2P Require Import CodecFacts PageCodecFacts CodecTheorems PagerFacts CacheFacts CacheOps WalFacts WalTheorems.
From S2P Require Import TreeSizes TreeShape TreeSteps TreeStore TreeOps TreeHeight TreeBudget.
From S2P Require Import DbFacts DbCheckpoint DbDurable DbOps DbRecovery.

(** ** The log *)

(** The newest checkpoint is the last record. *)
Lemma newest_last lsn m recs : Forall (fun x => record_lsn x < lsn) recs ->
  foldl newer_checkpoint None (recs ++ [checkpoint_record lsn m]) = Some (checkpoint_record lsn m).
Proof.
  intros Hf. rewrite foldl_app. cbn [foldl newer_checkpoint checkpoint_record].
  assert (Forall (fun x => record_lsn x <= lsn - 1) recs) as Hf' by (eapply Forall_impl; [exact Hf|]; simpl; lia).
  pose proof (newest_old _ _ Hf' None ltac:(done)) as Hle. destruct (foldl _ _ _) as [r|]; [|done].
  specialize (Hle r eq_refl). rewrite (proj2 (Z.ltb_lt _ _)); [done|lia].
Qed.

(** Nothing in the log is left to repeat. *)
Lemma log_of_done lsn m recs : Forall (fun x => record_lsn x < lsn) recs ->
  log_of lsn [] (recs ++ [checkpoint_record lsn m]).
Proof.
  intros Hf. exists (recs ++ [checkpoint_record lsn m]). rewrite app_nil_r. split; [done|]. split; [|done].
  apply Forall_app. split; [|by constructor]. eapply Forall_impl; [exact Hf|]. simpl. lia.
Qed.

(** ** The file *)

(** The meta page with the LSN of the checkpoint. *)
Definition relabelled (lsn : Z) (D : Disk) : Disk :=
  {| dk_file := dk_file D; dk_meta := with_checkpoint_lsn lsn (dk_meta D); dk_heads := dk_heads D; dk_freed := dk_freed D |}.

Lemma file_relabelled ps kmax T lsn D : TreeFile ps kmax T D -> TreeFile ps kmax T (relabelled lsn D).
Proof. intros [? [] ? ? ? ? ?]. by split. Qed.

(** The meta page that a file of a database begins with is that of the last
    checkpoint. *)
Lemma begins_with_last ps kmax T N d D recs N' h m : DbBase ps kmax T N d D recs -> Durable ps kmax N' h d recs m ->
  exists m0, begins_with (dk_file D) ps m0 /\ page_size_bytes m0 = ps /\
    exists m1 rs, recs = checkpoint_record (last_checkpoint_lsn m0) m1 :: rs.
Proof.
  intros [Hs _ _ _ _] (T0 & D0 & f & rs & Ef & [[Hf0 Hm0] _ (z & Hz) _ (m1 & Hr) _ _ _ _]).
  pose proof (inv_disk _ _ _ _ _ (settled_pager _ _ _ _ _ _ Hs)) as Ed. unfold db_store in Ef.
  rewrite Ed in Ef. injection Ef as <-. exists (dk_meta D0).
  destruct (file_extend _ _ _ _ _ _ Hf0 Hz) as [_ Hpg]. split; [unfold begins_with; by rewrite Hpg|].
  split; [apply (im_ps _ _ _ _ Hf0)|]. by exists m1, rs.
Qed.

(** The file of a flushed tree has its pages. *)
Lemma flushed_file ps kmax T N d D s1 D1 : Settled ps kmax T N (db_tree d) D -> Flushed (db_store d) s1 D D1 T ->
  TreeFile ps kmax T D1.
Proof.
  intros [Eps _ Hroot Hok Hnx] [Hr1 Em Hcl Hdf _ _ _]. apply (file_of_clean ps kmax T N (set_store s1 (db_tree d))); [|done|done].
  split; [unfold dk_ps; by rewrite Em|done|by rewrite Em|done|by rewrite Em].
Qed.

(** And with the new meta page it is an image of it. *)
Lemma written_image ps kmax T N d D s1 D1 lsn p D2 : Settled ps kmax T N (db_tree d) D -> Flushed (db_store d) s1 D D1 T ->
  Rep ∅ ∅ (set_pager p s1) D2 (nodes T) -> dk_meta D2 = with_checkpoint_lsn lsn (dk_meta D1) -> pg_is_meta_dirty p = false ->
  pg_dirty_freelist_page_ids p = pg_dirty_freelist_page_ids (st_pager s1) -> f_synced (dk_file D2) = f_data (dk_file D2) ->
  Image ps kmax T D2.
Proof.
  intros [Eps _ Hroot Hok Hnx] [_ Em Hcl Hdf _ _ _] Hr Em2 Hmd Hdf2 Hsy.
  apply (image_of_clean ps kmax T N (set_db_store (set_pager p s1) d)).
  - split; [unfold dk_ps; by rewrite Em2, Em|done|by rewrite Em2, Em|done|rewrite Em2, Em; exact Hnx].
  - split; [exact Hcl|exact (eq_trans Hdf2 Hdf)|done|done].
Qed.

Section stages.
Context (ps kmax : Z) (Hb : GoodBounds ps kmax) (Hps : ps < 2 ^ 32).

(** ** Opening after the record *)

(** What the two openings share: the log ends with the record of the
    checkpoint. *)
Record Logged (N lsn : Z) (w : WAL) (m : MetaPage) (recs : list WALRecord) : Prop := {
  lg_inv : WalInv w (recs ++ [checkpoint_record lsn m]);
  lg_lsn : wal_current_lsn w = lsn;
  lg_old : Forall (fun x => record_lsn x < lsn) recs;
  lg_fits : fits 8 lsn = true;
  lg_bound : lsn + N < 2 ^ 64;
}.

Lemma logged_last N lsn w m recs : Logged N lsn w m recs -> last_lsn 0 (recs ++ [checkpoint_record lsn m]) = lsn.
Proof. intros _. unfold last_lsn. by rewrite foldl_app. Qed.

(** The file begins with the meta page of an older checkpoint: the repair
    brings in that of the record. *)
Lemma open_recorded c dir f w T n N h lsn D m0 recs temp : roomy_config n c ->
  dir = {| dir_data := Some f; dir_wal := Some w; dir_wal_temp := temp |} -> f_data f = f_data (dk_file D) ->
  TreeFile ps kmax T D -> begins_with (dk_file D) ps m0 -> page_size_bytes m0 = ps -> last_checkpoint_lsn m0 < lsn ->
  (exists wal, Logged N lsn wal (dk_meta D) recs) -> f_data w = wires (recs ++ [checkpoint_record lsn (dk_meta D)]) ->
  next_page_id (dk_meta D) + N <= 2 ^ 64 -> n <= N - 1 -> small_map ps kmax h (contents (flat T)) ->
  exists d0 d, db_init c dir = Ok d0 /\ db_open d0 = (d, Ok tt) /\ db_holds ps kmax n (N - 1) h d (contents (flat T)) /\ setup_of c d.
Proof.
  intros Hc -> Ef Hf Hm0 Em0 Hl0 [wal Hlog] Ew Hnext Hn Hsmall. set (dir := {| dir_data := _ |}).
  destruct (init_existing f c n Hc) as [p0 Ep].
  assert (f_data f = f_data (dk_file D) ++ []) as Ef' by by rewrite app_nil_r.
  destruct (file_extend _ _ _ _ f [] Hf Ef') as [Hf' Hpg]. pose proof (file_relabelled _ _ _ lsn _ Hf') as Hf2.
  set (D2 := relabelled lsn (with_file f D)) in *.
  assert (begins_with (dk_file D2) ps m0) as Hm2 by (unfold begins_with, D2; simpl; by rewrite Hpg).
  destruct (file_open ps kmax T D2 m0 p0 (cfg_page_size_bytes c) (cfg_cache_capacity_pages c) N tree_stats_zero Hf2 Hm2 Em0)
    as (p & Eo & Epm & _ & Hs); [done|apply Hc|done|].
  specialize (Hs true ltac:(done)). set (p1 := set_meta (dk_meta D2) true p) in *. set (d := reading_db c dir p).
  pose proof (lg_inv _ _ _ _ _ Hlog) as [_ _ Hfit Hseq _].
  assert (db_pager get_meta (no_evictions d) = (no_evictions d, Ok m0)) as Emeta.
  { apply (db_pager_run get_meta (no_evictions d) p (Ok m0)). unfold get_meta, meta_page. mrun.
    change (st_pager _) with p. by rewrite Epm. }
  destruct (repair_run (no_evictions d) m0 w _ [] Emeta Hfit Hseq torn_nil eq_refl eq_refl) as (q & E);
    [by rewrite app_nil_r|]. cbv zeta in E. rewrite (newest_last lsn) in E by apply Hlog. unfold checkpoint_record in E.
  rewrite (proj2 (Z.leb_gt _ _) Hl0) in E.
  set (d' := set_wal _ _) in E.
  assert (page_size_bytes m0 = page_size_bytes (dk_meta D)) as Eps by (rewrite Em0; symmetry; apply (im_ps _ _ _ _ Hf)).
  assert (Repaired d (set_db_store (set_pager p1 (db_store d')) d')) as Hrep.
  { split; [|by split; [|split; [|split]]|done|done]. rewrite E. apply db_pager_run. unfold update_meta, meta_page. mrun.
    change (pg_meta_page (st_pager (db_store d'))) with (pg_meta_page p). rewrite Epm. unfold p1. do 2 f_equal.
    change (dk_meta D2) with (with_checkpoint_lsn lsn (dk_meta D)). unfold with_checkpoint_lsn. simpl. by rewrite Eps. }
  destruct (open_run ps kmax Hb Hps c dir p0 p _ T N n D2 [] (recs ++ [checkpoint_record lsn (dk_meta D)]) [] h Hc Ep Eo Hrep
    (settled_eviction _ _ _ _ _ _ false Hs)) as (d0 & d2 & T' & D' & recs' & E0 & E2 & Hd & Hcont & Hset); try done.
  - by apply log_of_done, Hlog.
  - by rewrite app_nil_r.
  - apply Hlog.
  - rewrite (logged_last _ _ _ _ _ Hlog). apply Hlog.
  - exists d0, d2. split; [done|]. split; [done|]. split; [|done]. by exists T', D', recs'.
Qed.

(** The file begins with the new meta page already. *)
Lemma open_written c dir f w T n N h lsn D m recs temp : roomy_config n c ->
  dir = {| dir_data := Some f; dir_wal := Some w; dir_wal_temp := temp |} -> f_data f = f_data (dk_file D) ->
  Image ps kmax T D -> last_checkpoint_lsn (dk_meta D) = lsn ->
  (exists wal, Logged N lsn wal m recs) -> f_data w = wires (recs ++ [checkpoint_record lsn m]) ->
  next_page_id (dk_meta D) + N <= 2 ^ 64 -> n <= N - 1 -> small_map ps kmax h (contents (flat T)) ->
  exists d0 d, db_init c dir = Ok d0 /\ db_open d0 = (d, Ok tt) /\ db_holds ps kmax n (N - 1) h d (contents (flat T)) /\ setup_of c d.
Proof.
  intros Hc -> Ef Hf El [wal Hlog] Ew Hnext Hn Hsmall. set (dir := {| dir_data := _ |}).
  destruct (init_existing f c n Hc) as [p0 Ep].
  assert (f_data f = f_data (dk_file D) ++ []) as Ef' by by rewrite app_nil_r.
  pose proof (image_extend _ _ _ _ f [] Hf Ef') as Hf'.
  destruct (image_open ps kmax T (with_file f D) p0 (cfg_page_size_bytes c) (cfg_cache_capacity_pages c) N tree_stats_zero Hf')
    as (p & Eo & Hs); [done|apply Hc|done|].
  pose proof (lg_inv _ _ _ _ _ Hlog) as [_ _ Hfit Hseq _].
  destruct (open_ok ps kmax Hb Hps c dir p0 p T N n (with_file f D) [] (recs ++ [checkpoint_record lsn m]) [] h Hc Ep Eo Hs)
    as (d0 & d2 & T' & D' & recs' & E0 & E2 & Hd & Hcont & Hset); try done.
  - change (log_of (last_checkpoint_lsn (dk_meta D)) [] (recs ++ [checkpoint_record lsn m])). rewrite El. by apply log_of_done, Hlog.
  - by rewrite app_nil_r.
  - change (fits 8 (last_checkpoint_lsn (dk_meta D)) = true). rewrite El. apply Hlog.
  - rewrite (logged_last _ _ _ _ _ Hlog). apply Hlog.
  - exists d0, d2. split; [done|]. split; [done|]. split; [|done]. by exists T', D', recs'.
Qed.

(** ** The crash *)

(** The directory after a crash, and any file that a rotation of the log has
    left half done. *)
Definition crashed_dir (crash : File -> File) (temp : option File) (d : DB) : DataDir :=
  {| dir_data := crash <$> dir_data (data_dir d); dir_wal := crash <$> dir_wal (data_dir d); dir_wal_temp := temp |}.

Definition is_crash (crash : File -> File) : Prop := crash = crash_kept \/ crash = crash_lossy.

Lemma synced_crash crash f : is_crash crash -> f_synced f = f_data f -> f_data (crash f) = f_data f.
Proof. by intros [-> | ->]. Qed.

Lemma stage_crash_ok stage c n n' N h d m : db_holds ps kmax n N h d m -> roomy_config n' c -> 1 <= N -> n' <= N - 2 ->
  exists d1 lsn, checkpoint_until stage d = (d1, Ok lsn) /\ forall crash temp, is_crash crash ->
    exists d0 d2, db_init c (crashed_dir crash temp d1) = Ok d0 /\ db_open d0 = (d2, Ok tt) /\
      db_holds ps kmax n' (N - 2) h d2 m /\ setup_of c d2.
Proof.
  intros (T & D & recs & [Hbase _ _ _ _ Hsm Hdur] & <-) Hc HN Hn.
  destruct (checkpoint_recorded _ _ _ _ _ _ _ Hbase HN ltac:(by apply (ps_range ps kmax Hb)))
    as (s1 & D1 & w2 & E1 & Hfl & Hw2 & Hcl & Hold & Hmf & Hlsn).
  set (lsn := wal_current_lsn (db_wal d) + 1) in *. set (d2 := set_wal w2 (set_db_store s1 d)) in *.
  destruct (begins_with_last _ _ _ _ _ _ _ _ _ _ Hbase Hdur) as (m0 & Hm0 & Em0 & m1 & rs & Erecs).
  destruct Hbase as [Hd _ [Hl0 Hl] _ _].
  pose proof Hfl as [Hr1 Em1 Hcl1 Hdf1 _ Hsy1 Hmp1]. pose proof Hd as [Eps _ Hroot Hok Hnx].
  assert (Logged (N - 1) lsn w2 (dk_meta D) recs) as Hlog by (split; [done|done|done|done|unfold lsn; lia]).
  pose proof (wi_disk _ _ Hw2) as Ew2.
  assert (forall crash temp f, is_crash crash -> f_data f = f_data (dk_file D1) -> exists d0 d3,
    db_init c {| dir_data := Some f; dir_wal := crash <$> wal_disk w2; dir_wal_temp := temp |} = Ok d0 /\
    db_open d0 = (d3, Ok tt) /\ db_holds ps kmax n' (N - 2) h d3 (contents (flat T)) /\ setup_of c d3) as Hrec.
  { intros crash temp f Hcr Ef. replace (N - 2) with (N - 1 - 1) by lia. rewrite Ew2.
    eapply (open_recorded c _ f _ T n' (N - 1) h lsn D1 m0 recs temp Hc eq_refl Ef); rewrite ?Em1; try done; try lia.
    - by eapply flushed_file.
    - rewrite Eps in Hmp1. unfold begins_with. by rewrite Hmp1.
    - rewrite Erecs in Hold. by apply Forall_cons in Hold as [? _].
    - by exists w2.
    - by rewrite synced_crash. }
  destruct (flush_new_meta s1 D1 T lsn Hr1 Hmf) as (p2 & p3 & p4 & D4 & E2 & E3 & E4 & Hr4 & Em4 & Hmd & Hdf4 & f2 & Ef2 & Hs2 & Ef4).
  assert (forall crash temp f, is_crash crash -> f_data f = f_data f2 -> exists d0 d3,
    db_init c {| dir_data := Some f; dir_wal := crash <$> wal_disk w2; dir_wal_temp := temp |} = Ok d0 /\
    db_open d0 = (d3, Ok tt) /\ db_holds ps kmax n' (N - 2) h d3 (contents (flat T)) /\ setup_of c d3) as Hnew.
  { intros crash temp f Hcr Ef. replace (N - 2) with (N - 1 - 1) by lia. rewrite Ew2.
    eapply (open_written c _ f _ T n' (N - 1) h lsn D4 (dk_meta D) recs temp Hc eq_refl); rewrite ?Em4, ?Ef4; try done; try lia.
    - eapply written_image; try done. by rewrite Ef4.
    - by exists w2.
    - by rewrite synced_crash.
    - rewrite Em1. simpl. lia. }
  destruct (stages_run d s1 w2 lsn p2 p3 p4 E1 E2 E3 E4) as (ER & EW & ES).
  destruct stage.
  - exists d2, lsn. split; [exact ER|]. intros crash temp Hcr. unfold crashed_dir, data_dir. cbn [dir_data dir_wal].
    change (pg_disk _) with (pg_disk (st_pager s1)). rewrite (inv_disk _ _ _ _ _ (si_pager _ _ _ (rep_inv _ _ _ _ _ Hr1))).
    apply Hrec; [done|]. by apply synced_crash.
  - eexists _, lsn. split; [exact EW|]. intros crash temp Hcr. unfold crashed_dir, data_dir. cbn [dir_data dir_wal].
    change (pg_disk _) with (pg_disk p3). rewrite Ef2.
    destruct Hcr as [-> | ->]; [by apply Hnew; [left|]|]. apply Hrec; [by right|]. simpl. by rewrite Hs2.
  - eexists _, lsn. split; [exact ES|]. intros crash temp Hcr. unfold crashed_dir, data_dir. cbn [dir_data dir_wal].
    change (pg_disk _) with (pg_disk p4). pose proof (inv_disk _ _ _ _ _ (si_pager _ _ _ (rep_inv _ _ _ _ _ Hr4))) as Ef.
    change (pg_disk p4 = Some (dk_file D4)) in Ef. rewrite Ef, Ef4. apply Hnew; [done|]. exact (synced_crash crash (fsync_file f2) Hcr eq_refl).
Qed.
End stages.
