(* ===== verification/DbClient.v ===== *)
(** * A client of the database, and what it is promised

    A client makes calls one after the other, keeps any number of scans and
    asks them for records when it likes.  The specification is a finite map
    with the open scans: a scan gives the records its range had when it was
    first asked, and fails once the map has been changed after its creation. *)

From S2P Require Import Prelude Bytes Float64 Entities Codec Fs Pager Cache Tree Wal Db.
From S2P Require Import CodecFacts CacheFacts WalFacts TreeSizes TreeShape TreeSteps TreeStore TreeFind TreeSplit TreeBalance TreeBorrow.
From S2P Require Import TreeOps TreeFrame TreeBudget TreeScan TreeReads TreeTheorems.
From S2P Require Import DbFacts DbCheckpoint DbDurable DbOps DbRecovery.

(** ** Calls *)

Inductive Call :=
  | CPut (key value : bytes)
  | CGet (key : bytes)
  | CDelete (key : bytes)
  | CScan (start stop : option bytes)
  | CNext (i : nat)                    (* [next] on the [i]-th scan *)
  | CCheckpoint.

Inductive Answer :=
  | Stored
  | Value (value : option bytes)
  | Deleted (was_there : bool)
  | Opened (i : nat)
  | Yielded (record : option (bytes * bytes))   (* [None] is StopIteration *)
  | Checkpointed
  | Failed (e : Exn).

Record Client := { cl_db : DB; cl_scans : list DBScan }.

Definition new_client (d : DB) : Client := {| cl_db := d; cl_scans := [] |}.

Definition answer_of {A} (f : A -> Answer) (r : Result A) : Answer :=
  match r with Ok a => f a | Raise e => Failed e end.

Definition on_db {A} (m : M DB A) (f : A -> Answer) (c : Client) : Client * Answer :=
  let '(d, r) := m (cl_db c) in ({| cl_db := d; cl_scans := cl_scans c |}, answer_of f r).

Definition as_bound (key : option bytes) : option PyArg := PyBytes <$> key.

(** A generator that has raised is finished. *)
Definition finished (g : DBScan) : DBScan :=
  {| ds_scan := with_phase ScanDone (ds_scan g); ds_version_snapshot := ds_version_snapshot g |}.

Definition run_call (call : Call) (c : Client) : Client * Answer :=
  match call with
  | CPut key value => on_db (put (PyBytes key) (PyBytes value)) (fun _ => Stored) c
  | CGet key => on_db (get (PyBytes key)) Value c
  | CDelete key => on_db (db_delete (PyBytes key)) Deleted c
  | CScan start stop =>
      match db_scan (as_bound start) (as_bound stop) (cl_db c) with
      | (d, Ok g) => ({| cl_db := d; cl_scans := cl_scans c ++ [g] |}, Opened (length (cl_scans c)))
      | (d, Raise e) => ({| cl_db := d; cl_scans := cl_scans c |}, Failed e)
      end
  | CNext i =>
      match cl_scans c !! i with
      | None => (c, Failed IndexError)
      | Some g =>
          match db_scan_next g (cl_db c) with
          | (d, Ok (out, g')) => ({| cl_db := d; cl_scans := <[i := g']> (cl_scans c) |}, Yielded out)
          | (d, Raise e) => ({| cl_db := d; cl_scans := <[i := finished g]> (cl_scans c) |}, Failed e)
          end
      end
  | CCheckpoint => on_db checkpoint (fun _ => Checkpointed) c
  end.

Fixpoint run_calls (l : list Call) (c : Client) : Client * list Answer :=
  match l with
  | [] => (c, [])
  | call :: l =>
      let '(c1, a) := run_call call c in
      let '(c2, r) := run_calls l c1 in (c2, a :: r)
  end.

(** ** The specification *)

Inductive Progress :=
  | Unstarted (start stop : option bytes)
  | Left (l : list (bytes * bytes))
  | Finished.

(** [ss_live]: nothing has changed since the scan was created. *)
Record SpecScan := { ss_progress : Progress; ss_live : bool }.

Record Spec := { sp_map : gmap bytes bytes; sp_scans : list SpecScan }.

Definition new_spec (m : gmap bytes bytes) : Spec := {| sp_map := m; sp_scans := [] |}.

(** The next of the records [l]; [over] is where the scan is when there is none. *)
Definition give (live : bool) (l : list (bytes * bytes)) : Progress * Answer :=
  match l with
  | [] => (Finished, Yielded None)
  | r :: l => if live then (Left l, Yielded (Some r)) else (Finished, Failed DBConcurrentPageModificationError)
  end.

(** A scan looks at the map when it is first asked, and after that only checks
    that nothing has changed, also when it has given its last record. *)
Definition spec_next (m : gmap bytes bytes) (s : SpecScan) : Progress * Answer :=
  match ss_progress s with
  | Unstarted start stop => give (ss_live s) (map_range start stop m)
  | Left l => if ss_live s then give true l else (Finished, Failed DBConcurrentPageModificationError)
  | Finished => (Finished, Yielded None)
  end.

(** The map is changed: every scan is out of date. *)
Definition changed (m : gmap bytes bytes) (s : Spec) : Spec :=
  {| sp_map := m; sp_scans := (fun x => {| ss_progress := ss_progress x; ss_live := false |}) <$> sp_scans s |}.

Definition spec_call (ps : Z) (call : Call) (s : Spec) : Spec * Answer :=
  match call with
  | CPut key value =>
      let limit := get_max_leaf_record_size ps in
      let actual := calculate_leaf_record_size key value in
      if limit <? actual then (s, Failed (DBRecordTooLargeError limit actual))
      else (changed (<[key := value]> (sp_map s)) s, Stored)
  | CGet key => (s, Value (sp_map s !! key))
  | CDelete key =>
      match sp_map s !! key with
      | None => (s, Deleted false)
      | Some _ => (changed (delete key (sp_map s)) s, Deleted true)
      end
  | CScan start stop =>
      ({| sp_map := sp_map s; sp_scans := sp_scans s ++ [{| ss_progress := Unstarted start stop; ss_live := true |}] |},
       Opened (length (sp_scans s)))
  | CNext i =>
      match sp_scans s !! i with
      | None => (s, Failed IndexError)
      | Some x =>
          let '(p, a) := spec_next (sp_map s) x in
          ({| sp_map := sp_map s; sp_scans := <[i := {| ss_progress := p; ss_live := ss_live x |}]> (sp_scans s) |}, a)
      end
  | CCheckpoint => (s, Checkpointed)
  end.

Fixpoint spec_calls (ps : Z) (l : list Call) (s : Spec) : Spec * list Answer :=
  match l with
  | [] => (s, [])
  | call :: l =>
      let '(s1, a) := spec_call ps call s in
      let '(s2, r) := spec_calls ps l s1 in (s2, a :: r)
  end.

(** Short keys, and never more records than a tree of height [h] holds for
    certain. *)
Definition call_fits (ps kmax : Z) (h : nat) (call : Call) (s : Spec) : Prop :=
  match call with CPut key _ => len key <= kmax | _ => True end /\ small_map ps kmax h (sp_map (spec_call ps call s).1).

Fixpoint calls_fit (ps kmax : Z) (h : nat) (l : list Call) (s : Spec) : Prop :=
  match l with
  | [] => True
  | call :: l => call_fits ps kmax h call s /\ calls_fit ps kmax h l (spec_call ps call s).1
  end.

(** ** The abstraction *)

(** A scan of the database and what it is promised. *)
Record scan_matches (T : tree) (d : DB) (g : DBScan) (s : SpecScan) : Prop := {
  sm_version : ds_version_snapshot g <= db_version_counter d;
  sm_live : ss_live s = (ds_version_snapshot g =? db_version_counter d);
  sm_progress :
    match ss_progress s with
    | Unstarted start stop => ds_scan g = scan start stop
    | Left l =>
        (exists page idx, sc_phase (ds_scan g) = ScanSuspended page idx) /\
        (ss_live s = true -> pending T (db_store d) (sc_end (ds_scan g)) (sc_phase (ds_scan g)) l)
    | Finished => sc_phase (ds_scan g) = ScanDone
    end;
}.

(** A configuration whose pool copes with trees of height [h]. *)
Definition fits_config (c : Config) (h : nat) : Prop :=
  comfortable c (db_cost h) = true /\ db_cost h <= cfg_cache_capacity_pages c.

(** The client's database is of the configuration [c] and ready for the next
    call, with [N] page ids and LSNs left. *)
Definition session (ps kmax : Z) (c : Config) (N : Z) (h : nat) (cl : Client) (s : Spec) : Prop :=
  exists T D recs, Holding ps kmax T h (db_cost h) N (cl_db cl) D recs /\ setup_of c (cl_db cl) /\
    contents (flat T) = sp_map s /\ Forall2 (scan_matches T (cl_db cl)) (cl_scans cl) (sp_scans s).

Lemma setup_same c d d' : setup_of c d -> same_setup d d' -> setup_of c d'.
Proof. unfold setup_of. intros (<- & <- & <- & <-) (-> & -> & -> & ->). done. Qed.

Lemma db_cost_pos h : 1 <= db_cost h.
Proof. unfold db_cost, step_cost. lia. Qed.

(** ** Calls that only read *)

Definition DbKept (d d' : DB) : Prop := ObjectsKept (db_store d) (db_store d').

#[export] Instance db_kept_preorder : PreOrder DbKept.
Proof. split; [by intros d|]. intros d1 d2 d3 A B. unfold DbKept. by etransitivity. Qed.

Lemma kept_in_tree {A} (m : M BPlusTree A) : moves TreeKept m -> moves DbKept (in_tree m).
Proof. apply moves_zoom. by intros d t Ht. Qed.

Lemma kept_in_pool {A} (m : M Store A) : moves ObjectsKept m -> moves DbKept (in_pool m).
Proof. apply moves_zoom. by intros d s Hs. Qed.

Lemma kept_db_pager {A} (m : M Pager A) : moves DbKept (db_pager m).
Proof. apply kept_in_pool, kept_on_pager. Qed.

Lemma kept_in_wal {A} (m : M WAL A) : moves DbKept (in_wal m).
Proof. apply (moves_zoom _ (fun _ _ => True)); [|done]. by intros d w _. Qed.
#[export] Hint Resolve kept_in_tree kept_in_pool kept_db_pager kept_in_wal : moves.

Lemma kept_checkpoint : moves DbKept checkpoint.
Proof. unfold checkpoint, checkpoint_flush. moves_tac. Qed.

Lemma kept_get key : moves DbKept (get key).
Proof. unfold get, check_if_opened, ensure_bytes_type. moves_tac. Qed.

Lemma kept_db_scan_next g : moves DbKept (db_scan_next g).
Proof. unfold db_scan_next. moves_tac. Qed.

Lemma kept_to {A} (m : M DB A) d d' r : moves DbKept m -> m d = (d', r) -> DbKept d d'.
Proof. intros Hm E. specialize (Hm d). by rewrite E in Hm. Qed.

Lemma holding_rep ps kmax T h n N d D recs : Holding ps kmax T h n N d D recs -> Rep ∅ ∅ (db_store d) D (nodes T).
Proof. intros Hd. exact (se_rep _ _ _ _ _ _ (bs_settled _ _ _ _ _ _ _ (ho_base _ _ _ _ _ _ _ _ _ Hd))). Qed.

Lemma holding_fresh ps kmax T h n N d D recs : Holding ps kmax T h n N d D recs -> fresh_heap (db_store d).
Proof.
  intros Hd. exact (si_fresh _ _ _ (rep_inv _ _ _ _ _ (holding_rep _ _ _ _ _ _ _ _ _ Hd))).
Qed.

(** A scan keeps its promise as long as nothing changes, *)
Lemma matches_kept T d d' g s : fresh_heap (db_store d) -> DbKept d d' -> db_version_counter d' = db_version_counter d ->
  scan_matches T d g s -> scan_matches T d' g s.
Proof.
  intros Hf Hk Hv [Hle Hl Hp]. split; [lia|by rewrite Hv|]. destruct (ss_progress s); try done.
  destruct Hp as [Hph Hp]. split; [done|]. intros Hlive. eapply pending_kept; [done|exact Hk|auto].
Qed.

(** and is out of date after a change. *)
Lemma matches_changed T T' d d' g s : db_version_counter d' = db_version_counter d + 1 -> scan_matches T d g s ->
  scan_matches T' d' g {| ss_progress := ss_progress s; ss_live := false |}.
Proof.
  intros Hv [Hle Hl Hp]. split; [lia|simpl; symmetry; apply Z.eqb_neq; lia|]. simpl. destruct (ss_progress s); try done.
  by destruct Hp.
Qed.

Section calls.
Context (ps kmax : Z) (Hb : GoodBounds ps kmax) (Hps : ps < 2 ^ 32) (c : Config) (h : nat) (Hc : fits_config c h).

(** After a change of the map. *)
Lemma session_changed N cl s d' T' D' recs' : session ps kmax c N h cl s -> 2 * db_cost h <= N ->
  Holding ps kmax T' h (db_cost h - db_cost h) (N - db_cost h) d' D' recs' ->
  same_setup (cl_db cl) d' -> calm d' -> db_version_counter d' = db_version_counter (cl_db cl) + 1 ->
  session ps kmax c (N - db_cost h) h {| cl_db := d'; cl_scans := cl_scans cl |} (changed (contents (flat T')) s).
Proof.
  intros (T & D & recs & Hd & Hset & Hm & Hscans) HN Hd' Hss Hcalm Hv. destruct Hc as [Hcf Hcap]. pose proof (db_cost_pos h).
  pose proof (setup_same _ _ _ Hset Hss) as Hset'. exists T', D', recs'. split; [|split; [done|split; [done|]]].
  - eapply (renew ps kmax c); [exact Hd'|lia|done|done|done|done|lia].
  - simpl. apply Forall2_fmap_r. eapply Forall2_impl; [exact Hscans|]. intros g x. by apply matches_changed.
Qed.

(** After a call that changes no record. *)
Lemma session_same N cl s T D recs n' N' : Holding ps kmax T h n' N' (cl_db cl) D recs -> db_cost h <= n' ->
  N - db_cost h <= N' -> 2 * db_cost h <= N -> setup_of c (cl_db cl) -> contents (flat T) = sp_map s ->
  Forall2 (scan_matches T (cl_db cl)) (cl_scans cl) (sp_scans s) -> session ps kmax c (N - db_cost h) h cl s.
Proof.
  intros Hd Hn HN HN2 Hset Hm Hscans. exists T, D, recs. split; [|done].
  eapply (holding_weaken _ _ _ _ n' _ N'); [..|exact Hd]; lia.
Qed.

Lemma scans_kept T d d' gs xs : fresh_heap (db_store d) -> DbKept d d' -> db_version_counter d' = db_version_counter d ->
  Forall2 (scan_matches T d) gs xs -> Forall2 (scan_matches T d') gs xs.
Proof. intros Hf Hk Hv H. eapply Forall2_impl; [exact H|]. intros g x. by apply matches_kept. Qed.

(** One call, [2 * db_cost h] steps being left. *)
Definition call_promise (call : Call) : Prop := forall N cl s, session ps kmax c N h cl s -> call_fits ps kmax h call s ->
  2 * db_cost h <= N ->
  exists cl', run_call call cl = (cl', (spec_call ps call s).2) /\ session ps kmax c (N - db_cost h) h cl' (spec_call ps call s).1.

Lemma put_too_large_run T n N d D recs key value : Holding ps kmax T h n N d D recs ->
  get_max_leaf_record_size ps < calculate_leaf_record_size key value ->
  put (PyBytes key) (PyBytes value) d =
    (d, Raise (DBRecordTooLargeError (get_max_leaf_record_size ps) (calculate_leaf_record_size key value))).
Proof.
  intros Hd Hbig. unfold put.
  rewrite (bind_Ok _ _ _ _ _ (opened_run d (ho_opened _ _ _ _ _ _ _ _ _ Hd))).
  rewrite (bind_Ok (ensure_bytes_type (PyBytes key)) _ d d key eq_refl).
  rewrite (bind_Ok (ensure_bytes_type (PyBytes value)) _ d d value eq_refl).
  pose proof (too_large_settled ps kmax T N _ D key value (bs_settled _ _ _ _ _ _ _ (ho_base _ _ _ _ _ _ _ _ _ Hd))) as E.
  rewrite (proj2 (Z.ltb_lt _ _) Hbig) in E. by rewrite (bind_Raise _ _ _ _ _ (in_tree_same _ _ _ E)).
Qed.

Lemma call_put key value : call_promise (CPut key value).
Proof.
  intros N cl s Hs [Hkey Hsm] HN. pose proof Hs as (T & D & recs & Hd & Hset & Hm & Hscans). cbn [run_call spec_call] in *.
  destruct (Z.ltb_spec (get_max_leaf_record_size ps) (calculate_leaf_record_size key value)) as [Hbig|Hrec].
  - exists cl. unfold on_db. rewrite (put_too_large_run T _ _ _ D recs key value Hd Hbig). split; [by destruct cl|].
    by eapply session_same; [exact Hd|lia|pose proof (db_cost_pos h); lia|..].
  - cbn [fst snd changed sp_map] in *. rewrite <-Hm in *.
    destruct (put_ok ps kmax Hb Hps T h (db_cost h) N (cl_db cl) D recs key value Hd ltac:(lia) Hkey Hrec Hsm)
      as (d' & T' & D' & recs' & E & Hd' & Hc' & Hss & Hcalm & Hv).
    exists {| cl_db := d'; cl_scans := cl_scans cl |}. unfold on_db. rewrite E. split; [done|]. rewrite <-Hc'.
    by eapply session_changed.
Qed.

Lemma call_get key : call_promise (CGet key).
Proof.
  intros N cl s (T & D & recs & Hd & Hset & Hm & Hscans) Hfit HN. pose proof (db_cost_pos h).
  destruct (get_ok ps kmax T h (db_cost h) N (cl_db cl) D recs key Hd ltac:(lia)) as (d' & E & Hd' & Hss & Hv & _).
  exists {| cl_db := d'; cl_scans := cl_scans cl |}. cbn [run_call spec_call]. unfold on_db. rewrite E, <-Hm. split; [done|].
  eapply session_same; [exact Hd'|lia|lia|lia|by eapply setup_same|done|].
  apply (scans_kept T (cl_db cl)); [by eapply holding_fresh|exact (kept_to _ _ _ _ (kept_get _) E)|done|done].
Qed.

Lemma call_delete key : call_promise (CDelete key).
Proof.
  intros N cl s Hs [_ Hsm] HN. pose proof Hs as (T & D & recs & Hd & Hset & Hm & Hscans). pose proof (db_cost_pos h).
  cbn [run_call spec_call] in *. unfold on_db. rewrite <-Hm in *. destruct (contents (flat T) !! key) as [v|] eqn:Ev.
  - destruct (delete_present_ok ps kmax Hb Hps T h (db_cost h) N (cl_db cl) D recs key v Hd ltac:(lia) Ev)
      as (d' & T' & D' & recs' & E & Hd' & Hc' & Hss & Hcalm & Hv).
    exists {| cl_db := d'; cl_scans := cl_scans cl |}. rewrite E. split; [done|]. cbn [fst]. rewrite <-Hc'.
    by eapply session_changed.
  - destruct (delete_absent_ok ps kmax T h (db_cost h) N (cl_db cl) D recs key Hd ltac:(lia) Ev) as (d' & E & Hd' & Hss & Hv & Es).
    exists {| cl_db := d'; cl_scans := cl_scans cl |}. rewrite E. split; [done|].
    eapply session_same; [exact Hd'|lia|lia|lia|by eapply setup_same|done|].
    apply (scans_kept T (cl_db cl)); [by eapply holding_fresh|exact (kept_to _ _ _ _ (kept_in_tree _ (kept_search _)) Es)|done|done].
Qed.

Lemma call_checkpoint : call_promise CCheckpoint.
Proof.
  intros N cl s (T & D & recs & Hd & Hset & Hm & Hscans) Hfit HN. pose proof (db_cost_pos h).
  destruct (checkpoint_call ps kmax Hb Hps T h (db_cost h) N (cl_db cl) D recs Hd ltac:(lia) ltac:(lia))
    as (d' & D' & E & Hd' & Hss & Hver & _).
  exists {| cl_db := d'; cl_scans := cl_scans cl |}. cbn [run_call spec_call]. unfold on_db. rewrite E. split; [done|].
  eapply session_same; [exact Hd'|lia|lia|lia|by eapply setup_same|done|].
  apply (scans_kept T (cl_db cl)); [by eapply holding_fresh|exact (kept_to _ _ _ _ kept_checkpoint E)|done|done].
Qed.

Lemma call_scan start stop : call_promise (CScan start stop).
Proof.
  intros N cl s (T & D & recs & Hd & Hset & Hm & Hscans) Hfit HN. pose proof (db_cost_pos h).
  cbn [run_call spec_call]. unfold db_scan. set (f := fun _ : unit => _).
  assert ((check_if_opened ≫= f) (cl_db cl) =
    (cl_db cl, Ok {| ds_scan := scan start stop; ds_version_snapshot := db_version_counter (cl_db cl) |})) as ->.
  { rewrite (bind_Ok _ _ _ _ _ (opened_run _ (ho_opened _ _ _ _ _ _ _ _ _ Hd))). by destruct start, stop. }
  rewrite (Forall2_length _ _ _ Hscans). eexists. split; [done|].
  eapply session_same; [exact Hd|lia|lia|lia|done|done|]. apply Forall2_app; [done|]. constructor; [|constructor].
  split; simpl; [lia|by rewrite Z.eqb_refl|done].
Qed.

(** ** The next record *)

Lemma next_run g d d' r : in_tree (scan_next (check_version (ds_version_snapshot g) d) (ds_scan g)) d = (d', r) ->
  db_scan_next g d =
    (d', result_map (fun a => (a.1, {| ds_scan := a.2; ds_version_snapshot := ds_version_snapshot g |})) r).
Proof.
  intros E. unfold db_scan_next. rewrite (bind_Ok (gets _) _ d d _ eq_refl).
  destruct r as [[out g']|e]; [by rewrite (bind_Ok _ _ _ _ _ E)|by rewrite (bind_Raise _ _ _ _ _ E)].
Qed.

(** A step that reads the tree. *)
Lemma reading_step T N d D recs g r s' : Holding ps kmax T h (db_cost h) N d D recs ->
  scan_next (check_version (ds_version_snapshot g) d) (ds_scan g) (db_tree d) = (set_store s' (db_tree d), r) ->
  Budget ps kmax T (db_cost h) N (set_store s' (db_tree d)) D ->
  let d' := set_db_store s' d in
  db_scan_next g d =
    (d', result_map (fun a => (a.1, {| ds_scan := a.2; ds_version_snapshot := ds_version_snapshot g |})) r) /\
  Holding ps kmax T h (db_cost h) N d' D recs /\ same_setup d d'.
Proof.
  intros Hd E Hb' d'. split; [apply next_run; by apply in_tree_run|].
  destruct (read_holding ps kmax (scan_next (check_version (ds_version_snapshot g) d) (ds_scan g)) r T h (db_cost h) N d D recs Hd
    (moves_scan_next _ _) ltac:(by exists s')) as (d2 & E2 & Hd2 & Hss & _).
  rewrite (in_tree_run _ _ _ _ E) in E2. by injection E2 as <-.
Qed.

Definition next_promise T N d D recs g x : Prop :=
  let '(p, a) := spec_next (contents (flat T)) x in
  exists d' r, db_scan_next g d = (d', r) /\ Holding ps kmax T h (db_cost h) N d' D recs /\ same_setup d d' /\
    db_version_counter d' = db_version_counter d /\
    match r with
    | Ok (out, g') => a = Yielded out /\ scan_matches T d' g' {| ss_progress := p; ss_live := ss_live x |}
    | Raise e => a = Failed e /\ p = Finished
    end.

Lemma next_unstarted T N d D recs v start stop : Holding ps kmax T h (db_cost h) N d D recs -> v <= db_version_counter d ->
  next_promise T N d D recs {| ds_scan := scan start stop; ds_version_snapshot := v |}
    {| ss_progress := Unstarted start stop; ss_live := v =? db_version_counter d |}.
Proof.
  intros Hd Hle. pose proof (db_cost_pos h).
  set (g := {| ds_scan := scan start stop; ds_version_snapshot := v |}).
  destruct (started_budget ps kmax T (db_cost h) N (db_tree d) D (check_version v d) start stop (holding_budget _ _ _ _ _ _ _ _ _ Hd) ltac:(lia))
    as (s' & ph & E & Hb' & Hph).
  destruct (reading_step T N d D recs g _ s' Hd E Hb') as (E' & Hd' & Hss). set (d' := set_db_store s' d) in *.
  unfold next_promise, spec_next. cbn [ss_progress ss_live]. unfold check_version in E'.
  destruct (map_range start stop (contents (flat T))) as [|r l]; cbn [give next_answer after_step] in *.
  - eexists d', _. split; [exact E'|]. split; [done|]. split; [done|]. split; [done|]. split; [done|]. by split.
  - destruct (v =? db_version_counter d) eqn:Ev; eexists d', _; (split; [exact E'|]); (split; [done|]); (split; [done|]);
      (split; [done|]); (split; [done|]); [|done]. split; try done; simpl. split; [|done].
    destruct ph as [|page idx|]; try done. by eexists _, _.
Qed.

Lemma next_resumed T N d D recs g l : Holding ps kmax T h (db_cost h) N d D recs ->
  scan_matches T d g {| ss_progress := Left l; ss_live := ds_version_snapshot g =? db_version_counter d |} ->
  next_promise T N d D recs g {| ss_progress := Left l; ss_live := ds_version_snapshot g =? db_version_counter d |}.
Proof.
  intros Hd [Hle _ [(page & idx & Hph) Hp]]. pose proof (db_cost_pos h). unfold next_promise, spec_next. cbn [ss_progress ss_live] in *.
  assert (scan_next (check_version (ds_version_snapshot g) d) (ds_scan g) (db_tree d) =
    scan_next (if ds_version_snapshot g =? db_version_counter d then Ok tt else Raise DBConcurrentPageModificationError)
      (ds_scan g) (db_tree d)) as Ec by done.
  destruct (ds_version_snapshot g =? db_version_counter d) eqn:Ev.
  - destruct (resumed_budget ps kmax T (db_cost h) N (db_tree d) D (ds_scan g) l (holding_budget _ _ _ _ _ _ _ _ _ Hd) ltac:(lia) (Hp eq_refl))
      as (s' & ph & E & Hb' & Hph'). rewrite E in Ec.
    destruct (reading_step T N d D recs g _ s' Hd Ec Hb') as (E' & Hd' & Hss). set (d' := set_db_store s' d) in *.
    destruct l as [|r l]; cbn [give after_step] in *; eexists d', _; (split; [exact E'|]); (split; [done|]); (split; [done|]);
      (split; [done|]); (split; [done|]); (split; [exact Hle|exact (eq_sym Ev)|]); simpl; [done|]. split; [|done].
    destruct ph as [|page' idx'|]; try done. by eexists _, _.
  - assert (scan_next (Raise DBConcurrentPageModificationError) (ds_scan g) (db_tree d) =
      (db_tree d, Raise DBConcurrentPageModificationError)) as E.
    { unfold scan_next. rewrite (page_count_bind _ _ _ _ _ (holding_rep _ _ _ _ _ _ _ _ _ Hd)). by rewrite Hph. }
    rewrite E in Ec. eexists d, _. split; [by apply next_run, in_tree_same|]. done.
Qed.

Lemma next_ok T N d D recs g x : Holding ps kmax T h (db_cost h) N d D recs -> scan_matches T d g x ->
  next_promise T N d D recs g x.
Proof.
  intros Hd Hx. pose proof Hx as [Hle Hl Hp]. destruct x as [p live]. cbn [ss_progress ss_live] in *. subst live.
  destruct p as [start stop|l|].
  - destruct g as [g v]. simpl in *. subst g. by apply next_unstarted.
  - by apply next_resumed.
  - assert (scan_next (check_version (ds_version_snapshot g) d) (ds_scan g) (db_tree d) = (db_tree d, Ok (None, ds_scan g))) as E.
    { unfold scan_next. rewrite (page_count_bind _ _ _ _ _ (holding_rep _ _ _ _ _ _ _ _ _ Hd)). rewrite Hp.
      destruct (ds_scan g). simpl in *. by subst. }
    eexists d, _. split; [by apply next_run, in_tree_same|]. by destruct g.
Qed.

Lemma call_next i : call_promise (CNext i).
Proof.
  intros N cl s (T & D & recs & Hd & Hset & Hm & Hscans) Hfit HN. pose proof (db_cost_pos h). cbn [run_call spec_call].
  destruct (cl_scans cl !! i) as [g|] eqn:Eg.
  - destruct (Forall2_lookup_l _ _ _ _ _ Hscans Eg) as (x & Ex & Hx). rewrite Ex, <-Hm.
    pose proof (next_ok T N (cl_db cl) D recs g x Hd Hx) as Hnext. unfold next_promise in Hnext. destruct (spec_next _ x) as [p a].
    destruct Hnext as (d' & r & E & Hd' & Hss & Hv & Hr). rewrite E.
    pose proof (scans_kept T _ _ _ _ (holding_fresh _ _ _ _ _ _ _ _ _ Hd) (kept_to _ _ _ _ (kept_db_scan_next _) E) Hv Hscans) as Hscans'.
    destruct r as [[out g']|e].
    + destruct Hr as [-> Hg']. eexists. split; [done|].
      eapply session_same; [exact Hd'|lia|lia|lia|by eapply setup_same|done|]. by apply Forall2_insert.
    + destruct Hr as [-> ->]. eexists. split; [done|].
      eapply session_same; [exact Hd'|lia|lia|lia|by eapply setup_same|done|]. apply Forall2_insert; [done|].
      destruct Hx as [Hle Hl _]. split; simpl; [lia|by rewrite Hv|done].
  - assert (sp_scans s !! i = None) as -> by (apply lookup_ge_None; rewrite <-(Forall2_length _ _ _ Hscans); by apply lookup_ge_None). exists cl. split; [done|].
    by eapply session_same; [exact Hd|lia|lia|lia|..].
Qed.

(** ** Any number of calls *)

Lemma call_ok call : call_promise call.
Proof.
  destruct call as [key value|key|key|start stop|i|];
    [apply call_put|apply call_get|apply call_delete|apply call_scan|apply call_next|apply call_checkpoint].
Qed.

Lemma session_ok l : forall N cl s, session ps kmax c N h cl s -> calls_fit ps kmax h l s -> (len l + 1) * db_cost h <= N ->
  exists cl', run_calls l cl = (cl', (spec_calls ps l s).2) /\
    session ps kmax c (N - len l * db_cost h) h cl' (spec_calls ps l s).1.
Proof.
  induction l as [|call l IH]; intros N cl s Hs Hfit HN.
  { exists cl. split; [done|]. change (len [] * db_cost h) with 0. by rewrite Z.sub_0_r. }
  destruct Hfit as [Hcall Hfit]. pose proof (db_cost_pos h).
  assert (len (call :: l) = len l + 1) as El by (unfold len; simpl length; lia). rewrite El in *.
  assert (0 <= len l) by (unfold len; lia).
  destruct (call_ok call N cl s Hs Hcall ltac:(nia)) as (cl1 & E1 & Hs1).
  cbn [run_calls spec_calls]. rewrite E1. destruct (spec_call ps call s) as [s1 a]. cbn [fst snd] in *.
  destruct (IH (N - db_cost h) cl1 s1 Hs1 Hfit ltac:(lia)) as (cl2 & E2 & Hs2). rewrite E2.
  destruct (spec_calls ps l s1) as [s2 r]. exists cl2. split; [done|]. cbn [fst] in *.
  by replace (N - (len l + 1) * db_cost h) with (N - db_cost h - len l * db_cost h) by lia.
Qed.
End calls.

(** ** A database alone *)

(** An open database of the configuration [c] that holds [m] and is ready for
    the next call. *)
Definition serving (ps kmax : Z) (c : Config) (N : Z) (h : nat) (d : DB) (m : gmap bytes bytes) : Prop :=
  db_holds ps kmax (db_cost h) N h d m /\ setup_of c d.

Lemma serving_session ps kmax c N h d m : serving ps kmax c N h d m -> session ps kmax c N h (new_client d) (new_spec m).
Proof. intros [(T & D & recs & Hd & Hm) Hset]. exists T, D, recs. split; [done|]. split; [done|]. split; [done|]. constructor. Qed.

Lemma session_serving ps kmax c N h cl s : session ps kmax c N h cl s -> serving ps kmax c N h (cl_db cl) (sp_map s).
Proof. intros (T & D & recs & Hd & Hset & Hm & _). split; [by exists T, D, recs|done]. Qed.
