(* ===== verification/DbTheorems.v ===== *)
(** * What the database promises

    The public operations against finite maps, for any number of calls, across
    crashes and across [close] and [open]; and their errors. *)

From S2P Require Import Prelude Bytes Float64 Entities Codec Fs Pager Cache Tree Wal Db.
From S2P Require Import CodecFacts PagerFacts CacheFacts WalFacts WalTheorems TreeSizes TreeShape TreeSteps TreeStore TreeFind TreeSplit TreeBudget TreeOps TreeScan TreeTheorems.
From S2P Require Import DbFacts DbCheckpoint DbDurable DbOps DbRecovery DbStages DbClient.

(** ** Samples *)

(** The default configuration: pages of 4096 bytes, a pool of 256 pages and
    checkpoints when half of it is dirty; keys of up to 400 bytes. *)
Lemma default_bounds : GoodBounds 4096 400.
Proof. split; [unfold good_page_size; lia| | |]; vm_compute; discriminate. Qed.

Lemma default_fits : fits_config default_config 13.
Proof. split; vm_compute; [reflexivity|discriminate]. Qed.

Lemma default_roomy : roomy_config (db_cost 13) default_config.
Proof. split; [vm_compute; discriminate|]. change (0 < 124 <= 256). lia. Qed.

Lemma opens_serving ps kmax c N h : GoodBounds ps kmax -> ps < 2 ^ 32 -> cfg_page_size_bytes c = ps ->
  roomy_config (db_cost h) c -> db_cost h <= N -> N + 3 <= 2 ^ 64 ->
  exists d0 d, db_init c empty_dir = Ok d0 /\ db_open d0 = (d, Ok tt) /\ serving ps kmax c N h d ∅.
Proof.
  intros Hb Hps Hc Hr Hn HN.
  destruct (fresh_open_ok ps kmax Hb Hps c empty_dir (db_cost h) (N + 1) h Hr Hc eq_refl eq_refl ltac:(lia) ltac:(lia))
    as (d0 & d & E0 & E & Hd & Hset).
  exists d0, d. split; [done|]. split; [done|]. split; [|done]. by replace (N + 1 - 1) with N in Hd by lia.
Qed.

Lemma default_serving : exists d0 d, db_init default_config empty_dir = Ok d0 /\ db_open d0 = (d, Ok tt) /\
  serving 4096 400 default_config (2 ^ 63) 13 d ∅.
Proof. apply opens_serving; [exact default_bounds|done|done|exact default_roomy|done|done]. Qed.

(** Two scans over one record; the change stops one of them, the other is over. *)
Definition sample_session : list Call :=
  [CPut sample_key sample_value; CGet sample_key; CScan None None; CScan (Some sample_key) None; CNext 0; CCheckpoint;
   CNext 0; CNext 1; CDelete sample_key; CNext 0; CNext 1; CGet sample_key; CPut sample_key (replicate 805 (byte_of_Z 0))].

Definition sample_answers : list Answer :=
  [Stored; Value (Some sample_value); Opened 0; Opened 1; Yielded (Some (sample_key, sample_value)); Checkpointed;
   Yielded None; Yielded (Some (sample_key, sample_value)); Deleted true; Yielded None; Failed DBConcurrentPageModificationError;
   Value None; Failed (DBRecordTooLargeError 804 814)].

Lemma sample_session_spec : (spec_calls 4096 sample_session (new_spec ∅)).2 = sample_answers.
Proof. vm_compute. reflexivity. Qed.

Lemma sample_session_fits : calls_fit 4096 400 13 sample_session (new_spec ∅).
Proof. repeat split; vm_compute; discriminate. Qed.

(** ** Properties *)

(** C2. Any number of calls, from a database of any history: as long as the
    keys are short, there are fewer than [4 * fanout ^ h] records at a time, and
    the pool is one that the checkpoint threshold keeps room in, every put,
    get, delete, checkpoint, opening of a scan and step of any of the open
    scans returns, never overflowing the pool, and gives the answer of the
    specification: a finite map whose scans give the records of their range in
    the order of the keys, whatever the other calls evict meanwhile, and fail
    once the map is changed; too large a record is refused. *)
Theorem db_calls_refine_map ps kmax c h l N d m : GoodBounds ps kmax -> ps < 2 ^ 32 -> fits_config c h ->
  serving ps kmax c N h d m -> calls_fit ps kmax h l (new_spec m) -> (len l + 1) * db_cost h <= N ->
  exists cl, run_calls l (new_client d) = (cl, (spec_calls ps l (new_spec m)).2) /\
    serving ps kmax c (N - len l * db_cost h) h (cl_db cl) (sp_map (spec_calls ps l (new_spec m)).1).
Proof.
  intros Hb Hps Hc Hd Hfit HN.
  destruct (session_ok ps kmax Hb Hps c h Hc l N _ _ (serving_session _ _ _ _ _ _ _ Hd) Hfit HN) as (cl & E & Hs).
  exists cl. split; [done|]. by apply session_serving.
Qed.

Lemma db_calls_refine_map_witness : exists d0 d cl, db_init default_config empty_dir = Ok d0 /\ db_open d0 = (d, Ok tt) /\
  run_calls sample_session (new_client d) = (cl, sample_answers) /\
  serving 4096 400 default_config (2 ^ 63 - 1612) 13 (cl_db cl) (sp_map (spec_calls 4096 sample_session (new_spec ∅)).1).
Proof.
  destruct default_serving as (d0 & d & E0 & E & Hd). exists d0, d.
  destruct (db_calls_refine_map 4096 400 default_config 13 sample_session (2 ^ 63) d ∅ default_bounds eq_refl default_fits
    Hd sample_session_fits ltac:(vm_compute; discriminate)) as (cl & E' & Hcl).
  exists cl. split; [exact E0|]. split; [exact E|]. rewrite <-sample_session_spec. split; [exact E'|exact Hcl].
Defined.

(** C1. Durability: a client makes any calls, and the process dies after the
    last of them.  Whatever a crash leaves of the files, the synced bytes
    of the data file with anything appended to them, the synced log with a part
    of a record after it, and any temporary file, opening the directory again,
    under any configuration with room in its pool, succeeds and serves exactly
    the records that the calls have made.  Losing all that is not synced, and losing
    nothing, are two such crashes. *)
Theorem calls_survive_crash ps kmax c c' h l N d m : GoodBounds ps kmax -> ps < 2 ^ 32 -> fits_config c h ->
  roomy_config (db_cost h) c' -> serving ps kmax c N h d m -> calls_fit ps kmax h l (new_spec m) -> (len l + 2) * db_cost h <= N ->
  exists cl, let d' := cl_db cl in run_calls l (new_client d) = (cl, (spec_calls ps l (new_spec m)).2) /\
    crash_leaves d' (map_dir crash_lossy (data_dir d')) /\ crash_leaves d' (map_dir crash_kept (data_dir d')) /\
    forall dir, crash_leaves d' dir ->
    exists d0 d2, db_init c' dir = Ok d0 /\ db_open d0 = (d2, Ok tt) /\
      serving ps kmax c' (N - len l * db_cost h - 1) h d2 (sp_map (spec_calls ps l (new_spec m)).1).
Proof.
  intros Hb Hps Hc Hc' Hd Hfit HN. pose proof (db_cost_pos h).
  destruct (session_ok ps kmax Hb Hps c h Hc l N _ _ (serving_session _ _ _ _ _ _ _ Hd) Hfit ltac:(lia)) as (cl & E & Hs).
  exists cl. split; [done|]. apply session_serving in Hs as [Hd' _].
  destruct (crash_images ps kmax _ _ _ _ _ Hd') as [Hl Hk]. split; [done|]. split; [done|]. intros dir Hcr.
  destruct (crash_reopen_ok ps kmax Hb Hps c' dir _ (db_cost h) _ h (cl_db cl) _ Hc' Hd' Hcr ltac:(lia))
    as (d0 & d2 & E0 & E2 & Hd2 & Hset). by exists d0, d2.
Qed.

Lemma calls_survive_crash_witness : exists d0 d cl, db_init default_config empty_dir = Ok d0 /\ db_open d0 = (d, Ok tt) /\
  run_calls [CPut sample_key sample_value] (new_client d) = (cl, [Stored]) /\
  crash_leaves (cl_db cl) (map_dir crash_lossy (data_dir (cl_db cl))) /\
  crash_leaves (cl_db cl) (map_dir crash_kept (data_dir (cl_db cl))) /\
  forall dir, crash_leaves (cl_db cl) dir -> exists d1 d2, db_init default_config dir = Ok d1 /\ db_open d1 = (d2, Ok tt) /\
    serving 4096 400 default_config (2 ^ 63 - 125) 13 d2 (<[sample_key := sample_value]> ∅).
Proof.
  destruct default_serving as (d0 & d & E0 & E & Hd). exists d0, d.
  destruct (calls_survive_crash 4096 400 default_config default_config 13 [CPut sample_key sample_value] (2 ^ 63) d ∅
    default_bounds eq_refl default_fits default_roomy Hd) as (cl & E' & Hd').
  { repeat split; vm_compute; discriminate. }
  { vm_compute. discriminate. }
  exists cl. split; [exact E0|]. split; [exact E|]. split; [exact E'|exact Hd'].
Defined.

(** C7. A put interrupted between its log record and its change of the tree:
    once the append to the log has returned, a crash at that point is repaired
    by the next open, which finishes the put. *)
Theorem interrupted_put_completes ps kmax c N h d m key value lsn d1 : GoodBounds ps kmax -> ps < 2 ^ 32 ->
  roomy_config (db_cost h) c -> serving ps kmax c N h d m -> acceptable ps kmax key value ->
  small_map ps kmax h (<[key := value]> m) -> 2 * db_cost h <= N ->
  in_wal (append_put key value) d = (d1, Ok lsn) ->
  forall dir, crash_leaves d1 dir ->
  exists d0 d2, db_init c dir = Ok d0 /\ db_open d0 = (d2, Ok tt) /\
    serving ps kmax c (N - step_cost h - 1) h d2 (<[key := value]> m).
Proof.
  intros Hb Hps Hc [(T & D & recs & Hd & <-) _] [Hkey Hrec] Hsm HN E dir Hcr. pose proof Hd as [[_ _ Hl _ _] _ _ _ _ _ _].
  unfold db_cost in HN. assert (1 <= step_cost h) as Hpos by (unfold step_cost; lia).
  destruct (append_ok ps kmax T h _ N d D recs (AppendPut key value) (WALPutRecord (wal_current_lsn (db_wal d) + 1) key value) Hd)
    as (w & E1 & Hb1 & Hd1); [lia|done|by apply (record_fits ps kmax Hb Hps); [simpl; lia|]|done|].
  assert (d1 = set_wal w d) as -> by (change (in_wal (run_append (AppendPut key value)) d = (d1, Ok lsn)) in E; congruence).
  destruct (durable_reopen_ok ps kmax Hb Hps c dir (db_cost h) (N - 1) (N - step_cost h) h _ D T _ _ Hc Hb1 Hd1 ltac:(lia) Hsm Hcr)
    as (d0 & d2 & E0 & E2 & Hd2 & Hset); [unfold db_cost; lia|]. by exists d0, d2.
Qed.

Lemma append_returns d d1 lsn key value : in_wal (append_put key value) d = (d1, Ok lsn) ->
  (in_wal (append_put key value) d).1 = d1.
Proof. by intros ->. Qed.

Lemma interrupted_put_completes_witness : exists d0 d d1, db_init default_config empty_dir = Ok d0 /\ db_open d0 = (d, Ok tt) /\
  in_wal (append_put sample_key sample_value) d = (d1, Ok (wal_current_lsn (db_wal d) + 1)) /\
  forall dir, crash_leaves d1 dir -> exists d2 d3, db_init default_config dir = Ok d2 /\ db_open d2 = (d3, Ok tt) /\
    serving 4096 400 default_config (2 ^ 63 - 122) 13 d3 (<[sample_key := sample_value]> ∅).
Proof.
  destruct default_serving as (d0 & d & E0 & E & Hd). exists d0, d. pose proof Hd as [(T & D & recs & Hh & _) _].
  pose proof (ho_base _ _ _ _ _ _ _ _ _ Hh) as [_ _ Hl _ _].
  destruct (append_ok 4096 400 T 13 _ (2 ^ 63) d D recs (AppendPut sample_key sample_value)
    (WALPutRecord (wal_current_lsn (db_wal d) + 1) sample_key sample_value) Hh) as (w & E1 & _).
  { lia. }
  { reflexivity. }
  { apply (record_fits 4096 400 default_bounds eq_refl); [simpl; lia|vm_compute; discriminate]. }
  { split; vm_compute; discriminate. }
  exists (set_wal w d). split; [exact E0|]. split; [exact E|]. split; [exact E1|].
  exact (interrupted_put_completes 4096 400 default_config (2 ^ 63) 13 d ∅ sample_key sample_value _ (set_wal w d) default_bounds
    eq_refl default_roomy Hd ltac:(split; vm_compute; discriminate) ltac:(vm_compute; reflexivity) ltac:(vm_compute; discriminate) E1).
Defined.

(** Closing an open database returns, and opening its directory again, under
    any configuration with room in its pool, serves the same records. *)
Theorem close_then_reopen ps kmax c c' N h d m : GoodBounds ps kmax -> ps < 2 ^ 32 -> roomy_config (db_cost h) c' ->
  serving ps kmax c N h d m -> 2 * db_cost h <= N ->
  exists d', db_close d = (d', Ok tt) /\ db_is_opened d' = false /\
    exists d0 d2, db_init c' (data_dir d') = Ok d0 /\ db_open d0 = (d2, Ok tt) /\ serving ps kmax c' (N - 2) h d2 m.
Proof.
  intros Hb Hps Hc' [Hd _] HN. assert (4 <= db_cost h) as H4 by (unfold db_cost, step_cost; lia).
  destruct (close_ok ps kmax Hb Hps c' _ (db_cost h) N h d m Hd Hc' ltac:(lia) ltac:(lia))
    as (d' & E & Ho & d0 & d2 & E0 & E2 & Hd2 & Hset).
  exists d'. split; [done|]. split; [done|]. by exists d0, d2.
Qed.

Lemma close_then_reopen_witness : exists d0 d d', db_init default_config empty_dir = Ok d0 /\ db_open d0 = (d, Ok tt) /\
  db_close d = (d', Ok tt) /\ db_is_opened d' = false /\
  exists d1 d2, db_init default_config (data_dir d') = Ok d1 /\ db_open d1 = (d2, Ok tt) /\
    serving 4096 400 default_config (2 ^ 63 - 2) 13 d2 ∅.
Proof.
  destruct default_serving as (d0 & d & E0 & E & Hd). exists d0, d.
  destruct (close_then_reopen 4096 400 default_config default_config (2 ^ 63) 13 d ∅ default_bounds eq_refl default_roomy Hd
    ltac:(vm_compute; discriminate)) as (d' & E' & Hd').
  exists d'. split; [exact E0|]. split; [exact E|]. split; [exact E'|exact Hd'].
Defined.

(** The body of a [with] statement: a client makes calls, and then may raise. *)
Definition client_body (l : list Call) (raised : option Exn) : M DB unit := fun d =>
  (cl_db (run_calls l (new_client d)).1, match raised with None => Ok tt | Some e => Raise e end).

(** C8. [with DB(...) as db:] around any calls of a client keeps what they did.
    The statement opens the database, and however the calls end, with an
    exception or without, it is closed at the end and the exception of the body
    goes on to the caller unchanged; opening the directory again, under any
    configuration with room in its pool, serves the records the calls have
    made. *)
Theorem with_block_persists ps kmax c c' h l raised N d0 d m : GoodBounds ps kmax -> ps < 2 ^ 32 -> fits_config c h ->
  roomy_config (db_cost h) c' -> db_open d0 = (d, Ok tt) -> serving ps kmax c N h d m -> calls_fit ps kmax h l (new_spec m) ->
  (len l + 2) * db_cost h <= N ->
  exists d', with_block db_enter db_exit (client_body l raised) d0 = (d', match raised with None => Ok tt | Some e => Raise e end) /\
    db_is_opened d' = false /\
    exists d1 d2, db_init c' (data_dir d') = Ok d1 /\ db_open d1 = (d2, Ok tt) /\
      serving ps kmax c' (N - len l * db_cost h - 2) h d2 (sp_map (spec_calls ps l (new_spec m)).1).
Proof.
  intros Hb Hps Hc Hc' Eo Hd Hfit HN. assert (4 <= db_cost h) as H4 by (unfold db_cost, step_cost; lia).
  destruct (session_ok ps kmax Hb Hps c h Hc l N _ _ (serving_session _ _ _ _ _ _ _ Hd) Hfit ltac:(lia)) as (cl & E & Hs).
  apply session_serving in Hs as [Hcl _].
  destruct (close_ok ps kmax Hb Hps c' _ (db_cost h) _ h _ _ Hcl Hc' ltac:(lia) ltac:(lia))
    as (d' & Ec & Ho & d1 & d2 & E1 & E2 & Hd2 & Hset).
  exists d'. split; [|split; [done|by exists d1, d2]].
  unfold with_block, db_enter, db_exit. rewrite (bind_Ok _ _ _ _ _ Eo). unfold client_body. rewrite E. simpl.
  destruct raised; mrun; by rewrite Ec.
Qed.

Lemma with_block_persists_witness : exists d0 d', db_init default_config empty_dir = Ok d0 /\
  with_block db_enter db_exit (client_body [CPut sample_key sample_value] (Some ValueError)) d0 = (d', Raise ValueError) /\
  db_is_opened d' = false /\
  exists d1 d2, db_init default_config (data_dir d') = Ok d1 /\ db_open d1 = (d2, Ok tt) /\
    serving 4096 400 default_config (2 ^ 63 - 126) 13 d2 {[sample_key := sample_value]}.
Proof.
  destruct default_serving as (d0 & d & E0 & E & Hd). exists d0.
  destruct (with_block_persists 4096 400 default_config default_config 13 [CPut sample_key sample_value] (Some ValueError) (2 ^ 63) d0 d ∅
    default_bounds eq_refl default_fits default_roomy E Hd) as (d' & E' & Ho & H); [repeat split; vm_compute; discriminate|vm_compute; discriminate|].
  exists d'. split; [exact E0|]. split; [exact E'|]. split; [exact Ho|]. exact H.
Defined.

(** A checkpoint of a closed database with nothing dirty. *)
Lemma closed_checkpoint d : pg_is_open (st_pager (db_store d)) = false -> get_dirty_page_ids (db_store d) = [] ->
  pg_dirty_freelist_page_ids (st_pager (db_store d)) = ∅ ->
  exists d', checkpoint d = (d', Raise AssertionError) /\ data_dir d' = data_dir d.
Proof.
  intros Ho Hd Hf.
  assert (exists s1, flush_all (db_store d) = (s1, Ok tt) /\ st_pager s1 = st_pager (db_store d)) as (s1 & E1 & Ep).
  { assert (Forall (fun e => cp_is_dirty e.2 = false) (cache_of (db_store d))) as Hc.
    { apply fmap_nil_inv in Hd. unfold dirty_entries in Hd. apply Forall_forall. intros e He.
      destruct (cp_is_dirty e.2) eqn:Ed; [|done]. assert (e ∈ ([] : list (Z * CachedPage))) as H%elem_of_nil; [|done].
      rewrite <-Hd. by apply list_elem_of_filter. }
    assert (exists s1, count_stat add_flush (db_store d) = (s1, Ok tt) /\ st_pager s1 = st_pager (db_store d) /\
      cache_of s1 = cache_of (db_store d)) as (s1 & Es & Ep & Ec) by (by eexists).
    exists s1. split; [|done]. unfold flush_all. rewrite (bind_Ok _ _ _ _ _ Es), (bind_Ok get_state _ _ _ _ eq_refl), Ec.
    clear -Hc. induction Hc as [|e l He Hl IH]; [done|].
    assert (flush_entry e s1 = (s1, Ok tt)) as Ee by (unfold flush_entry; by rewrite He).
    cbn [mfor]. by rewrite (bind_Ok _ _ _ _ _ Ee). }
  assert (flush_dirty_freelist_pages (st_pager s1) = (set_freelists (pg_freelist_cache (st_pager s1)) ∅ (st_pager s1), Ok tt)) as E2.
  { unfold flush_dirty_freelist_pages. rewrite (bind_Ok get_state _ _ _ _ eq_refl), Ep, Hf, elements_empty. reflexivity. }
  set (d1 := set_db_store s1 d). set (p2 := set_freelists _ ∅ (st_pager s1)) in E2.
  assert (fsync p2 = (p2, Raise AssertionError)) as E3.
  { unfold fsync, open_file. mrun. unfold p2. simpl. by rewrite Ep, Ho. }
  assert (exists d', checkpoint_flush d = (d', Raise AssertionError) /\ data_dir d' = data_dir d) as (d' & E & Ed).
  { unfold checkpoint_flush. rewrite (bind_Ok _ _ _ _ _ (in_pool_run _ d _ _ E1)). fold d1.
    rewrite (bind_Ok _ _ _ _ _ (db_pager_run _ d1 _ _ E2)). eexists. split.
    - apply (db_pager_run fsync (set_db_store (set_pager p2 (db_store d1)) d1) p2). exact E3.
    - unfold data_dir. simpl. by rewrite Ep. }
  exists d'. split; [|done]. unfold checkpoint. rewrite (bind_Ok (gets _) _ d d _ eq_refl). cbv zeta.
  unfold mbind at 1, M_bind at 1. by rewrite E.
Qed.

(** C18. What a database answers when it is not open, or to arguments that are
    not bytes.  [put], [get], [delete] and [scan] check that it is open first and
    raise DBClosedError when it is not, [close] then does nothing; on an open
    database an argument that is not bytes is answered with TypeError; in each of
    these cases nothing is changed.  [checkpoint] has no such check: on a
    database whose files are closed and that has nothing to write, it raises
    AssertionError, at the file it expects, and leaves the directory alone. *)
Theorem arguments_checked d : (forall key value s e,
  db_is_opened d = false ->
  put key value d = (d, Raise DBClosedError) /\ get key d = (d, Raise DBClosedError) /\
  db_delete key d = (d, Raise DBClosedError) /\ db_scan s e d = (d, Raise DBClosedError) /\ db_close d = (d, Ok tt)) /\
  (forall key value s, db_is_opened d = true ->
  put PyOther value d = (d, Raise TypeError) /\ put (PyBytes key) PyOther d = (d, Raise TypeError) /\
  get PyOther d = (d, Raise TypeError) /\ db_delete PyOther d = (d, Raise TypeError) /\
  db_scan (Some PyOther) s d = (d, Raise TypeError) /\ db_scan (Some (PyBytes key)) (Some PyOther) d = (d, Raise TypeError) /\
  db_scan None (Some PyOther) d = (d, Raise TypeError)) /\
  (pg_is_open (st_pager (db_store d)) = false -> get_dirty_page_ids (db_store d) = [] ->
   pg_dirty_freelist_page_ids (st_pager (db_store d)) = ∅ ->
   exists d', checkpoint d = (d', Raise AssertionError) /\ data_dir d' = data_dir d).
Proof.
  split; [|split]; [intros..|apply closed_checkpoint];
    unfold put, get, db_delete, db_scan, db_close, check_if_opened, mbind, M_bind, get_state; by rewrite H.
Qed.

(** An open database, and the same one after [close]. *)
Lemma arguments_checked_witness : exists d, db_is_opened d = true /\ put PyOther PyOther d = (d, Raise TypeError) /\
  match db_init default_config empty_dir with
  | Ok d0 =>
      let d1 := ((db_open;; db_close) d0).1 in
      put PyOther PyOther d1 = (d1, Raise DBClosedError) /\ exists d2, checkpoint d1 = (d2, Raise AssertionError) /\ data_dir d2 = data_dir d1
  | Raise _ => False
  end.
Proof.
  destruct default_serving as (d0 & d & E0 & E & [(T & D & recs & Hh & _) _]). exists d.
  pose proof (ho_opened _ _ _ _ _ _ _ _ _ Hh) as Ho. split; [exact Ho|]. split.
  - exact (proj1 (proj1 (proj2 (arguments_checked d)) [] PyOther None Ho)).
  - assert (match db_init default_config empty_dir with
      | Ok d0 => let d1 := ((db_open;; db_close) d0).1 in db_is_opened d1 = false /\ pg_is_open (st_pager (db_store d1)) = false /\
          get_dirty_page_ids (db_store d1) = [] /\ bool_decide (pg_dirty_freelist_page_ids (st_pager (db_store d1)) = ∅) = true
      | Raise _ => False
      end) as H by (vm_compute; repeat split; reflexivity).
    destruct (db_init default_config empty_dir) as [d1|e]; [|exact H]. destruct H as (H1 & H2 & H3 & H4%bool_decide_eq_true).
    set (d2 := ((db_open;; db_close) d1).1) in *. split.
    + exact (proj1 (proj1 (arguments_checked d2) PyOther PyOther None None H1)).
    + exact (proj2 (proj2 (arguments_checked d2)) H2 H3 H4).
Defined.

(** C17. A record over the limit is refused before anything else happens: no
    checkpoint, nothing in the log, the state as it was. *)
Theorem put_too_large ps kmax c N h d m key value : serving ps kmax c N h d m ->
  get_max_leaf_record_size ps < calculate_leaf_record_size key value ->
  put (PyBytes key) (PyBytes value) d =
    (d, Raise (DBRecordTooLargeError (get_max_leaf_record_size ps) (calculate_leaf_record_size key value))).
Proof.
  intros [(T & D & recs & Hd & _) _] Hbig. exact (put_too_large_run ps kmax h T _ N d D recs key value Hd Hbig).
Qed.

Lemma put_too_large_witness : exists d0 d, db_init default_config empty_dir = Ok d0 /\ db_open d0 = (d, Ok tt) /\
  put (PyBytes sample_key) (PyBytes (replicate 805 (byte_of_Z 0))) d = (d, Raise (DBRecordTooLargeError 804 814)).
Proof.
  destruct default_serving as (d0 & d & E0 & E & Hd). exists d0, d. split; [exact E0|]. split; [exact E|].
  exact (put_too_large 4096 400 default_config (2 ^ 63) 13 d ∅ sample_key (replicate 805 (byte_of_Z 0)) Hd ltac:(vm_compute; reflexivity)).
Defined.

(** C10. A checkpoint of a serving database returns and keeps its records.
    After it no page of the pool is dirty, the data file and the log are synced
    as they are, so that a crash finds just what the program has written, and
    the log is its checkpoint record alone, with the LSN and the page ids of
    the meta page: the next recovery replays nothing older. *)
Theorem checkpoint_settles ps kmax c N h d m : GoodBounds ps kmax -> ps < 2 ^ 32 ->
  serving ps kmax c N h d m -> 2 * db_cost h <= N ->
  exists d' f w mt, checkpoint d = (d', Ok tt) /\ serving ps kmax c (N - 1) h d' m /\
    get_dirty_page_ids (db_store d') = [] /\
    dir_data (data_dir d') = Some f /\ f_synced f = f_data f /\ pg_meta_page (st_pager (db_store d')) = Some mt /\
    dir_wal (data_dir d') = Some w /\ f_synced w = f_data w /\ f_data w = wires [checkpoint_record (last_checkpoint_lsn mt) mt].
Proof.
  intros Hb Hps [(T & D & recs & Hd & <-) Hset] HN. pose proof (db_cost_pos h).
  destruct (checkpoint_call ps kmax Hb Hps T h (db_cost h) N d D recs Hd ltac:(lia) ltac:(lia))
    as (d' & D' & E & Hd' & Hss & _ & Hdc & Hclean).
  pose proof (bs_log _ _ _ _ _ _ _ (ho_base _ _ _ _ _ _ _ _ _ Hd')) as [_ Hw _ _ _].
  pose proof (si_pager _ _ _ (rep_inv _ _ _ _ _ (holding_rep _ _ _ _ _ _ _ _ _ Hd'))) as Hp.
  exists d', (dk_file D'), {| f_data := wires [checkpoint_record (last_checkpoint_lsn (dk_meta D')) (dk_meta D')];
    f_synced := wires [checkpoint_record (last_checkpoint_lsn (dk_meta D')) (dk_meta D')] |}, (dk_meta D').
  split; [exact E|]. split; [split; [by exists T, D', [checkpoint_record (last_checkpoint_lsn (dk_meta D')) (dk_meta D')]|by eapply setup_same]|].
  split; [|split; [apply Hp|split; [apply Hclean|split; [apply Hp|by split]]]].
  unfold get_dirty_page_ids. unfold dirty_count, len in Hdc. by destruct (dirty_entries (cache_of (db_store d'))).
Qed.

Lemma checkpoint_settles_witness : exists d0 d d' f w mt, db_init default_config empty_dir = Ok d0 /\ db_open d0 = (d, Ok tt) /\
  checkpoint d = (d', Ok tt) /\ serving 4096 400 default_config (2 ^ 63 - 1) 13 d' ∅ /\
  get_dirty_page_ids (db_store d') = [] /\
  dir_data (data_dir d') = Some f /\ f_synced f = f_data f /\ pg_meta_page (st_pager (db_store d')) = Some mt /\
  dir_wal (data_dir d') = Some w /\ f_synced w = f_data w /\ f_data w = wires [checkpoint_record (last_checkpoint_lsn mt) mt].
Proof.
  destruct default_serving as (d0 & d & E0 & E & Hd). exists d0, d.
  destruct (checkpoint_settles 4096 400 default_config (2 ^ 63) 13 d ∅ default_bounds eq_refl Hd ltac:(vm_compute; discriminate))
    as (d' & f & w & mt & H). exists d', f, w, mt. split; [exact E0|]. split; [exact E|exact H].
Defined.

(** C3. The record in the log is the point at which a checkpoint is done.  A
    checkpoint of a serving database is cut off by a crash after its record is
    in the log, before the new meta page is written, after it is written or
    after it is synced, or in the rotation of the log with any temporary file
    left behind; the crash loses what is not synced, or nothing.  Opening the
    directory again, under any configuration with room in its pool, takes from
    the record what the meta page does not have, and serves the same records. *)
Theorem checkpoint_crash_recovers ps kmax c c' N h d m stage : GoodBounds ps kmax -> ps < 2 ^ 32 ->
  roomy_config (db_cost h) c' -> serving ps kmax c N h d m -> 2 * db_cost h <= N ->
  exists d1 lsn, checkpoint_until stage d = (d1, Ok lsn) /\ forall crash temp, is_crash crash ->
    exists d0 d2, db_init c' (crashed_dir crash temp d1) = Ok d0 /\ db_open d0 = (d2, Ok tt) /\
      serving ps kmax c' (N - 2) h d2 m.
Proof.
  intros Hb Hps Hc [Hd _] HN. assert (12 <= db_cost h) as Hcost by (unfold db_cost, step_cost; lia).
  destruct (stage_crash_ok ps kmax Hb Hps stage c' (db_cost h) (db_cost h) N h d m Hd Hc ltac:(lia) ltac:(lia))
    as (d1 & lsn & E & Hcr).
  exists d1, lsn. split; [done|]. intros crash temp Hk.
  destruct (Hcr crash temp Hk) as (d0 & d2 & E0 & E2 & Hd2 & Hset). by exists d0, d2.
Qed.

Lemma checkpoint_crash_recovers_witness : exists d0 d d1 lsn d2 d3, db_init default_config empty_dir = Ok d0 /\ db_open d0 = (d, Ok tt) /\
  checkpoint_until Recorded d = (d1, Ok lsn) /\ db_init default_config (crashed_dir crash_lossy None d1) = Ok d2 /\
  db_open d2 = (d3, Ok tt) /\ serving 4096 400 default_config (2 ^ 63 - 2) 13 d3 ∅.
Proof.
  destruct default_serving as (d0 & d & E0 & E & Hd). exists d0, d.
  destruct (checkpoint_crash_recovers 4096 400 default_config default_config (2 ^ 63) 13 d ∅ Recorded default_bounds eq_refl
    default_roomy Hd ltac:(vm_compute; discriminate)) as (d1 & lsn & E1 & H).
  destruct (H crash_lossy None (or_intror eq_refl)) as (d2 & d3 & E2 & E3 & Hd3). exists d1, lsn, d2, d3. done.
Defined.
