(* ===== verification/Bench.v ===== *)
(** * The benchmark script ([scripts/bench.py])

    A client of the engine: workloads that fill, read, scan and thin out a fresh
    database, and the measurements taken from it.  The random generator and
    the clocks are a [World] the definitions take as a parameter. *)

From stdpp Require Import strings.
From Stdlib Require Import Strings.Byte Strings.Ascii.
From S2P Require Import Prelude Bytes Float64 Format Entities Codec Fs Pager Cache Tree Wal Db Debug.

(** ** What the script gets from outside

    [random.Random] and [time]: a generator is seeded, gives bytes, floats and
    positions in a sequence; the clocks give nanoseconds and seconds. *)
Class World (W : Type) := {
  seeded : Z -> W -> W;
  draw_bytes : Z -> W -> W * bytes;
  draw_float : W -> W * f64;
  draw_index : nat -> W -> W * nat;
  read_clock_ns : W -> W * Z;
  read_clock : W -> W * f64;
}.

(** What [random] documents. *)
Class WorldOk (W : Type) `{World W} := {
  draw_bytes_len n w : 0 <= n -> len (draw_bytes n w).2 = n;
  draw_index_lt n w : (0 < n)%nat -> ((draw_index n w).2 < n)%nat;
}.

(** ** Parameters and results *)

Record WorkloadParams := {
  n_ops : Z;
  key_size : Z;
  value_size : Z;
  read_pct : f64;
  delete_pct : f64;
  preload_n : Z;
  n_scans : Z;
  scan_limit : option Z;
  steady_size : Z;
  wp_seed : Z;
}.

(** A literal of the source, [n / d]. *)
Definition literal (n d : Z) : f64 := f64_round n d 0.

Definition default_params : WorkloadParams :=
  {| n_ops := 100000; key_size := 16; value_size := 64; read_pct := literal 0 1; delete_pct := literal 0 1;
     preload_n := 0; n_scans := 0; scan_limit := None; steady_size := 0; wp_seed := 42 |}.

Record TreeShape := {
  depth : Z;
  leaf_pages : Z;
  internal_pages : Z;
  avg_leaf_fill : f64;
}.

Record WorkloadResult := {
  preset_name : string;
  wr_params : WorkloadParams;
  wr_page_size_bytes : Z;
  wall_seconds : f64;
  n_measured_ops : Z;
  user_bytes_written : Z;
  latencies_ns : list Z;
  wr_pager_stats : PagerStats;
  wr_tree_stats : TreeStats;
  wr_wal_stats : WALStats;
  wr_buffer_pool_stats : BufferPoolStats;
  data_file_bytes : Z;
  wal_file_bytes : Z;
  tree_shape : TreeShape;
}.

Open Scope string_scope.

(** The presets in the order of the source; the parameters not given there are
    those of [default_params]. *)
Definition PRESETS : list (string * WorkloadParams) :=
  [("sequential-put", default_params);
   ("random-put", default_params);
   ("mixed-rw",
     {| n_ops := 100000; key_size := 16; value_size := 64; read_pct := literal 8 10; delete_pct := literal 5 100;
        preload_n := 20000; n_scans := 0; scan_limit := None; steady_size := 0; wp_seed := 42 |});
   ("scan-heavy",
     {| n_ops := 0; key_size := 16; value_size := 64; read_pct := literal 0 1; delete_pct := literal 0 1;
        preload_n := 50000; n_scans := 100; scan_limit := None; steady_size := 0; wp_seed := 42 |});
   ("delete-churn",
     {| n_ops := 100000; key_size := 16; value_size := 64; read_pct := literal 0 1; delete_pct := literal 5 10;
        preload_n := 50000; n_scans := 0; scan_limit := None; steady_size := 50000; wp_seed := 42 |});
   ("bulk-load",
     {| n_ops := 200000; key_size := 16; value_size := 64; read_pct := literal 0 1; delete_pct := literal 0 1;
        preload_n := 0; n_scans := 0; scan_limit := None; steady_size := 0; wp_seed := 42 |})].

Close Scope string_scope.

(** [d[name]] *)
Definition dict_get {A} (name : string) (d : list (string * A)) : Result A :=
  match list_find (fun e => e.1 = name) d with
  | Some (_, (_, a)) => Ok a
  | None => Raise KeyError
  end.

(** ** Keys *)

Definition digit (d : Z) : byte := byte_of_Z (48 + d).

(** The decimal digits of a non-negative integer; [fuel] of them at most. *)
Fixpoint digits (fuel : nat) (i : Z) : bytes :=
  match fuel with
  | O => []
  | S fuel => if i <? 10 then [digit i] else digits fuel (i / 10) ++ [digit (i mod 10)]
  end.

(** [str(i)]: an integer below [2 ^ n] has no more than [n + 1] digits. *)
Definition decimal (i : Z) : bytes := digits (S (S (Z.to_nat (Z.log2 i)))) i.

(** [s.rjust(size, b"0")] *)
Definition rjust (s : bytes) (size : Z) : bytes := replicate (Z.to_nat (size - len s)) x30 ++ s.

(** [f"{i:0{size}d}"]: a negative size is no format. *)
Definition format_padded (i size : Z) : Result bytes :=
  if size <? 0 then Raise ValueError else Ok (rjust (decimal i) size).

Definition make_sequential_key (i size : Z) : Result bytes :=
  raw ← format_padded i size;
  Ok (if size <=? len raw then py_slice raw 0 size else rjust raw size).

Section bench.
Context {W : Type} `{World W}.

(** ** A run: the database, the outside and what is printed on stderr *)

(** [run_stderr] is what has been printed there, one text for each call of
    [print]. *)
Record Run := { run_db : DB; run_world : W; run_stderr : list string }.

Definition set_run_db (d : DB) (r : Run) : Run :=
  {| run_db := d; run_world := run_world r; run_stderr := run_stderr r |}.
Definition set_run_world (w : W) (r : Run) : Run :=
  {| run_db := run_db r; run_world := w; run_stderr := run_stderr r |}.
Definition add_line (x : string) (r : Run) : Run :=
  {| run_db := run_db r; run_world := run_world r; run_stderr := run_stderr r ++ [x] |}.

Definition of_db {A} (m : M DB A) : M Run A := zoom run_db set_run_db m.
Definition outside {A} (f : W -> W * A) : M Run A :=
  zoom run_world set_run_world (fun w => let '(w', a) := f w in (w', Ok a)).

(** [rng.randbytes(n)]: a negative number of bits is a ValueError. *)
Definition randbytes (n : Z) : M Run bytes :=
  if n <? 0 then raise ValueError else outside (draw_bytes n).

(** [rng.choice(l)] *)
Definition choice {A} (l : list A) : M Run A :=
  match l with
  | [] => raise IndexError
  | _ => i ← outside (draw_index (length l)); lift (py_get l (Z.of_nat i))
  end.

Definition make_random_key (size : Z) : M Run bytes := randbytes size.
Definition make_value (size : Z) : M Run bytes := randbytes size.

(** ** Progress *)

Definition PROGRESS_INTERVAL_SECONDS : f64 := f64_of_int 1.
Definition PROGRESS_LABEL_WIDTH : nat := 25.

(** The carriage return makes each line overwrite the last. *)
Definition progress_line (label : string) (done total : Z) (pct rate : f64) : string :=
  String (ascii_of_nat 13) (align_left PROGRESS_LABEL_WIDTH ("[" +:+ label +:+ "]")) +:+
  align_right 9 (format_comma done) +:+ "/" +:+ align_right 9 (format_comma total) +:+
  " (" +:+ align_right 5 (format_fixed false 1 pct) +:+ "%)  " +:+ align_right 10 (format_fixed true 0 rate) +:+ " ops/s".

Record ProgressReporter := {
  rp_label : string;
  rp_total : Z;
  rp_enabled : bool;
  rp_last_tick : f64;
  rp_start : f64;
}.

Record RunContext := { ctx_preset_name : string; ctx_show_progress : bool }.

Definition reporter_init (label : string) (total : Z) (enabled : bool) : M Run ProgressReporter :=
  now ← outside read_clock;
  mret {| rp_label := label; rp_total := total; rp_enabled := enabled; rp_last_tick := now; rp_start := now |}.

Definition progress_for (ctx : RunContext) (phase : string) (total : Z) : M Run ProgressReporter :=
  reporter_init (ctx_preset_name ctx +:+ ":" +:+ phase) total (ctx_show_progress ctx).

Definition is_positive (x : f64) : bool := f64_ltb (f64_of_int 0) x.

(** The reporter is an object of the loop that owns it: [tick] gives the new one. *)
Definition tick (p : ProgressReporter) (done : Z) : M Run ProgressReporter :=
  if negb (rp_enabled p) || (rp_total p <=? 0) then mret p
  else
    now ← outside read_clock;
    if f64_ltb (f64_sub now (rp_last_tick p)) PROGRESS_INTERVAL_SECONDS then mret p
    else
      let elapsed := f64_sub now (rp_start p) in
      rate ← (if is_positive elapsed then lift (f64_div (f64_of_int done) elapsed) else mret (f64_of_int 0));
      pct ← lift (f64_div (f64_mul (f64_of_int 100) (f64_of_int done)) (f64_of_int (rp_total p)));
      modify (add_line (progress_line (rp_label p) done (rp_total p) pct rate));;
      mret {| rp_label := rp_label p; rp_total := rp_total p; rp_enabled := rp_enabled p;
              rp_last_tick := now; rp_start := rp_start p |}.

Definition finish (p : ProgressReporter) : M Run unit :=
  when (rp_enabled p && (0 <? rp_total p)) (modify (add_line (String (ascii_of_nat 10) ""))).

(** ** Loops *)

(** The variables of a runner's loop. *)
Record Tally := {
  ty_latencies : list Z;
  ty_user_bytes : Z;
  ty_live_keys : list bytes;
}.

Definition no_tally (live_keys : list bytes) : Tally :=
  {| ty_latencies := []; ty_user_bytes := 0; ty_live_keys := live_keys |}.

Definition add_latency (ns : Z) (t : Tally) : Tally :=
  {| ty_latencies := ty_latencies t ++ [ns]; ty_user_bytes := ty_user_bytes t; ty_live_keys := ty_live_keys t |}.
Definition add_user_bytes (n : Z) (t : Tally) : Tally :=
  {| ty_latencies := ty_latencies t; ty_user_bytes := ty_user_bytes t + n; ty_live_keys := ty_live_keys t |}.
Definition set_live_keys (l : list bytes) (t : Tally) : Tally :=
  {| ty_latencies := ty_latencies t; ty_user_bytes := ty_user_bytes t; ty_live_keys := l |}.

(** Iterations [i], [i + 1], ... of a loop body, [n] of them, with a tick after
    each. *)
Fixpoint iterations (n : nat) (i : Z) (body : Z -> Tally -> M Run Tally) (p : ProgressReporter) (t : Tally)
    : M Run (ProgressReporter * Tally) :=
  match n with
  | O => mret (p, t)
  | S n =>
      t ← body i t;
      p ← tick p (i + 1);
      iterations n (i + 1) body p t
  end.

(** [for i in range(n)] with its progress, as every runner has it. *)
Definition with_progress (ctx : RunContext) (phase : string) (n : Z) (body : Z -> Tally -> M Run Tally) (t : Tally)
    : M Run Tally :=
  p ← progress_for ctx phase n;
  '(p, t) ← iterations (Z.to_nat n) 0 body p t;
  finish p;;
  mret t.

(** The operation between the two readings of the clock. *)
Definition timed (op : M Run Tally) : M Run Tally :=
  t0 ← outside read_clock_ns;
  t ← op;
  t1 ← outside read_clock_ns;
  mret (add_latency (t1 - t0) t).

Definition put_bytes (key value : bytes) : M Run unit := of_db (put (PyBytes key) (PyBytes value)).

(** ** The runners *)

Definition measured (t : Tally) : list Z * Z := (ty_latencies t, ty_user_bytes t).

Definition sequential_put_step (params : WorkloadParams) (value : bytes) (i : Z) (t : Tally) : M Run Tally :=
  key ← lift (make_sequential_key i (key_size params));
  t ← timed (put_bytes key value;; mret t);
  mret (add_user_bytes (len key + len value) t).

Definition run_sequential_put (params : WorkloadParams) (ctx : RunContext) : M Run (list Z * Z) :=
  let value := replicate (Z.to_nat (value_size params)) x76 in
  t ← with_progress ctx "measure" (n_ops params) (sequential_put_step params value) (no_tally []);
  mret (measured t).

Definition random_put_step (params : WorkloadParams) (i : Z) (t : Tally) : M Run Tally :=
  key ← make_random_key (key_size params);
  value ← make_value (value_size params);
  t ← timed (put_bytes key value;; mret t);
  mret (add_user_bytes (len key + len value) t).

Definition run_random_put (params : WorkloadParams) (ctx : RunContext) : M Run (list Z * Z) :=
  t ← with_progress ctx "measure" (n_ops params) (random_put_step params) (no_tally []);
  mret (measured t).

Definition preload_step (params : WorkloadParams) (i : Z) (t : Tally) : M Run Tally :=
  key ← make_random_key (key_size params);
  value ← make_value (value_size params);
  put_bytes key value;;
  mret (set_live_keys (ty_live_keys t ++ [key]) t).

Definition preload (n : Z) (params : WorkloadParams) (ctx : RunContext) : M Run (list bytes) :=
  t ← with_progress ctx "preload" n (preload_step params) (no_tally []);
  mret (ty_live_keys t).

(** The counters back to zero, keeping the rest of the object. *)
Definition reset_pager_stats (p : Pager) : Pager :=
  {| pg_disk := pg_disk p; pg_is_open := pg_is_open p; pg_page_size_bytes := pg_page_size_bytes p;
     pg_meta_page := pg_meta_page p; pg_is_meta_dirty := pg_is_meta_dirty p;
     pg_freelist_cache := pg_freelist_cache p;
     pg_dirty_freelist_page_ids := pg_dirty_freelist_page_ids p; pg_stats := pager_stats_zero |}.
Definition reset_tree_stats (t : BPlusTree) : BPlusTree :=
  {| tr_store := tr_store t; tr_stats := tree_stats_zero |}.

Definition reset_stats : M DB unit :=
  db_pager (modify reset_pager_stats);;
  in_tree (modify reset_tree_stats);;
  in_wal (modify (set_wal_stats (fun _ => wal_stats_zero)));;
  in_pool (count_stat (fun _ => pool_stats_zero)).

(** [l.remove(key)]: the first occurrence. *)
Definition py_remove (key : bytes) (l : list bytes) : Result (list bytes) :=
  match list_find (eq key) l with
  | Some (i, _) => Ok (delete i l)
  | None => Raise ValueError
  end.

(** Deleting a key that was put earlier. *)
Definition delete_victim (t : Tally) : M Run Tally :=
  victim ← choice (ty_live_keys t);
  was_deleted ← of_db (db_delete (PyBytes victim));
  if (was_deleted : bool) then
    live_keys ← lift (py_remove victim (ty_live_keys t));
    mret (set_live_keys live_keys t)
  else mret t.

(** Putting a new record and noting its key. *)
Definition put_fresh (params : WorkloadParams) (t : Tally) : M Run Tally :=
  key ← make_random_key (key_size params);
  value ← make_value (value_size params);
  put_bytes key value;;
  mret (add_user_bytes (len key + len value) (set_live_keys (ty_live_keys t ++ [key]) t)).

Definition is_empty {A} (l : list A) : bool := match l with [] => true | _ => false end.

Definition mixed_rw_step (params : WorkloadParams) (i : Z) (t : Tally) : M Run Tally :=
  roll ← outside draw_float;
  timed (
    if f64_ltb roll (read_pct params) && negb (is_empty (ty_live_keys t)) then
      key ← choice (ty_live_keys t);
      of_db (get (PyBytes key));;
      mret t
    else if f64_ltb roll (f64_add (read_pct params) (delete_pct params)) && negb (is_empty (ty_live_keys t)) then
      delete_victim t
    else put_fresh params t).

Definition run_mixed_rw (params : WorkloadParams) (ctx : RunContext) : M Run (list Z * Z) :=
  live_keys ← preload (preload_n params) params ctx;
  of_db reset_stats;;
  t ← with_progress ctx "measure" (n_ops params) (mixed_rw_step params) (no_tally live_keys);
  mret (measured t).

(** A scan read to its end, or to the limit; the fuel is one more than the
    records the pages could hold. *)
Fixpoint consume (fuel : nat) (limit : option Z) (consumed : Z) (g : DBScan) : M DB unit :=
  match fuel with
  | O => raise OutOfFuel
  | S fuel =>
      '(out, g) ← (db_scan_next g : M DB (option (bytes * bytes) * DBScan));
      match out with
      | None => mret tt
      | Some _ =>
          match limit with
          | Some n => if n <=? consumed + 1 then mret tt else consume fuel limit (consumed + 1) g
          | None => consume fuel limit (consumed + 1) g
          end
      end
  end.

Definition scan_fuel (d : DB) : nat :=
  let p := st_pager (db_store d) in
  match pg_meta_page p with
  | Some m => S (Z.to_nat (next_page_id m * pg_page_size_bytes p))
  | None => 1
  end.

Definition full_scan (limit : option Z) : M DB unit :=
  g ← db_scan None None;
  fuel ← gets scan_fuel;
  consume fuel limit 0 g.

Definition scan_heavy_step (params : WorkloadParams) (i : Z) (t : Tally) : M Run Tally :=
  timed (of_db (full_scan (scan_limit params));; mret t).

Definition run_scan_heavy (params : WorkloadParams) (ctx : RunContext) : M Run (list Z * Z) :=
  _ ← preload (preload_n params) params ctx;
  of_db reset_stats;;
  t ← with_progress ctx "measure" (n_scans params) (scan_heavy_step params) (no_tally []);
  mret (ty_latencies t, 0).

(** The tilt towards deletions above the target size and insertions below. *)
Definition delete_probability (params : WorkloadParams) (over : bool) : f64 :=
  f64_add (delete_pct params) (if over then literal 2 10 else f64_opp (literal 2 10)).

Definition delete_churn_step (params : WorkloadParams) (i : Z) (t : Tally) : M Run Tally :=
  let over := steady_size params <? len (ty_live_keys t) in
  roll ← outside draw_float;
  timed (
    if negb (is_empty (ty_live_keys t)) && f64_ltb roll (delete_probability params over) then delete_victim t
    else put_fresh params t).

Definition run_delete_churn (params : WorkloadParams) (ctx : RunContext) : M Run (list Z * Z) :=
  live_keys ← preload (preload_n params) params ctx;
  of_db reset_stats;;
  t ← with_progress ctx "measure" (n_ops params) (delete_churn_step params) (no_tally live_keys);
  mret (measured t).

Definition run_bulk_load (params : WorkloadParams) (ctx : RunContext) : M Run (list Z * Z) :=
  run_random_put params ctx.

Definition RUNNERS : list (string * (WorkloadParams -> RunContext -> M Run (list Z * Z))) :=
  [("sequential-put", run_sequential_put); ("random-put", run_random_put); ("mixed-rw", run_mixed_rw);
   ("scan-heavy", run_scan_heavy); ("delete-churn", run_delete_churn); ("bulk-load", run_bulk_load)]%string.

(** ** The shape of the tree *)

(** The pages the nodes [l] of a walk refer to. *)
Definition level_pages (w : Walk) (l : list nat) : M BPlusTree (list Page) :=
  mapM (fun n => nd ← node_at w n; in_store (deref (node_page nd))) l.

Definition count_pages (f : Page -> bool) (l : list Page) : Z := len (filter (fun p => f p = true) l).

(** [calculate_page_size(page) / page_size] *)
Definition leaf_fill (page_size : Z) (p : Page) : Result f64 := f64_div_int (calculate_page_size p) page_size.

Definition snapshot_tree_shape : M DB TreeShape :=
  w ← in_tree bfs_walk_tree;
  match wk_result w with
  | [] => mret {| depth := 0; leaf_pages := 0; internal_pages := 0; avg_leaf_fill := f64_of_int 0 |}
  | levels =>
      leaf_nodes ← lift (py_get levels (-1));
      pages ← in_tree (mapM (level_pages w) levels);
      last ← in_tree (level_pages w leaf_nodes);
      page_size ← gets (fun d => pg_page_size_bytes (st_pager (db_store d)));
      leaf_fill_fractions ← lift (mapM (leaf_fill page_size) (filter (fun p => is_leaf p = true) last));
      avg_fill ← (match leaf_fill_fractions with
                  | [] => mret (f64_of_int 0)
                  | l => lift (f64_div (f64_sum l) (f64_of_int (len l)))
                  end);
      mret {| depth := len levels; leaf_pages := count_pages is_leaf last;
              internal_pages := count_pages is_internal (concat pages); avg_leaf_fill := avg_fill |}
  end.

(** ** A measurement *)

(** What is collected while the database is open. *)
Definition measure_open (runner : M Run (list Z * Z))
    : M Run (f64 * (list Z * Z) * TreeShape * (PagerStats * TreeStats * WALStats * BufferPoolStats)) :=
  t0 ← outside read_clock;
  out ← runner;
  t1 ← outside read_clock;
  shape ← of_db snapshot_tree_shape;
  of_db (in_pool flush_all);;
  d ← gets run_db;
  mret (f64_sub t1 t0, out, shape,
        (pg_stats (st_pager (db_store d)), tr_stats (db_tree d), wal_stats (db_wal d), bp_stats (st_pool (db_store d)))).

(** [path.stat().st_size] *)
Definition file_size (f : option File) : Result Z :=
  match f with Some f => Ok (len (f_data f)) | None => Raise FileNotFoundError end.

(** The keyword arguments [measure] leaves out have their defaults. *)
Definition bench_config (page_size_bytes : Z) : Config :=
  {| cfg_page_size_bytes := page_size_bytes; cfg_cache_capacity_pages := cfg_cache_capacity_pages default_config;
     cfg_checkpoint_wal_size_bytes := cfg_checkpoint_wal_size_bytes default_config;
     cfg_checkpoint_dirty_page_ratio := cfg_checkpoint_dirty_page_ratio default_config |}.

Definition measure_files (preset : string) (params : WorkloadParams) (page_size_bytes : Z)
    (runner : M Run (list Z * Z)) : M Run WorkloadResult :=
  of_db db_open;;
  '(wall, (latencies, user_bytes), shape, (ps, ts, ws, bs)) ← try_finally (measure_open runner) (of_db db_close);
  dir ← gets (fun r => data_dir (run_db r));
  data_size ← lift (file_size (dir_data dir));
  wal_size ← lift (file_size (dir_wal dir));
  mret {| preset_name := preset; wr_params := params; wr_page_size_bytes := page_size_bytes; wall_seconds := wall;
          n_measured_ops := len latencies; user_bytes_written := user_bytes; latencies_ns := latencies;
          wr_pager_stats := ps; wr_tree_stats := ts; wr_wal_stats := ws; wr_buffer_pool_stats := bs;
          data_file_bytes := data_size; wal_file_bytes := wal_size; tree_shape := shape |}.

(** The directory is wiped first, so the database object finds no file.  The
    state of a measurement is what it leaves outside and on stderr. *)
Definition measure (preset : string) (params : WorkloadParams) (page_size_bytes : Z) (show_progress : bool)
    : M (W * list string) WorkloadResult := fun '(w, lines) =>
  let w := seeded (wp_seed params) w in
  match
    runner ← dict_get preset RUNNERS;
    d ← db_init (bench_config page_size_bytes) empty_dir;
    Ok (runner params {| ctx_preset_name := preset; ctx_show_progress := show_progress |}, d)
  with
  | Raise e => (w, lines, Raise e)
  | Ok (runner, d) =>
      let '(s, r) := measure_files preset params page_size_bytes runner
                       {| run_db := d; run_world := w; run_stderr := lines |} in
      (run_world s, run_stderr s, r)
  end.

(** ** The command line *)

(** The parsed arguments, [None] for an option not given. *)
Record Namespace := {
  ns_workload : option string;
  ns_all : bool;
  ns_page_size : Z;
  ns_json : bool;
  ns_no_progress : bool;
  ns_n_ops : option Z;
  ns_key_size : option Z;
  ns_value_size : option Z;
  ns_read_pct : option f64;
  ns_delete_pct : option f64;
  ns_preload_n : option Z;
  ns_n_scans : option Z;
  ns_scan_limit : option Z;
  ns_steady_size : option Z;
  ns_seed : option Z;
}.

Definition merge_overrides (base : WorkloadParams) (args : Namespace) : WorkloadParams :=
  {| n_ops := default (n_ops base) (ns_n_ops args);
     key_size := default (key_size base) (ns_key_size args);
     value_size := default (value_size base) (ns_value_size args);
     read_pct := default (read_pct base) (ns_read_pct args);
     delete_pct := default (delete_pct base) (ns_delete_pct args);
     preload_n := default (preload_n base) (ns_preload_n args);
     n_scans := default (n_scans base) (ns_n_scans args);
     scan_limit := match ns_scan_limit args with Some n => Some n | None => scan_limit base end;
     steady_size := default (steady_size base) (ns_steady_size args);
     wp_seed := default (wp_seed base) (ns_seed args) |}.

(** [sorted] of the preset names. *)
Definition sorted_names : list string := merge_sort String.le PRESETS.*1.

(** [None]: [parser.error] prints a message and exits. *)
Definition preset_names (args : Namespace) : option (list string) :=
  if ns_all args then Some sorted_names
  else match ns_workload args with
       | Some EmptyString | None => None
       | Some name => Some [name]
       end.

(** The measurements of [main], one after the other. *)
Definition main_results (args : Namespace) : M (W * list string) (option (list WorkloadResult)) :=
  match preset_names args with
  | None => mret None
  | Some names =>
      results ← mapM (fun name => base ← lift (dict_get name PRESETS);
                                  measure name (merge_overrides base args) (ns_page_size args) (negb (ns_no_progress args))) names;
      mret (Some results)
  end.
End bench.
