(* ===== verification/BenchText.v ===== *)
(** * The reports of the benchmark script

    The summary of a result, as the text that is printed and as the dictionary
    for JSON, and the command that prints them. *)

From stdpp Require Import strings.
From Stdlib Require Import Strings.Byte Strings.Ascii.
From S2P Require Import Prelude Bytes Float64 Format Pager Cache Tree Wal Db Bench.

(** ** Numbers of a summary *)

(** Samples in ascending order. *)
Definition percentile (sorted_samples : list Z) (p : f64) : Result Z :=
  match sorted_samples with
  | [] => Ok 0
  | _ =>
      let idx := Z.min (f64_trunc (f64_mul p (f64_of_int (len sorted_samples)))) (len sorted_samples - 1) in
      py_get sorted_samples idx
  end.

Open Scope string_scope.

Fixpoint in_units (value : f64) (units : list string) : option string :=
  match units with
  | [] => None
  | [unit] => Some (format_fixed true 2 value +:+ " " +:+ unit)
  | unit :: units =>
      if f64_ltb value (f64_of_int 1024) then Some (format_fixed true 2 value +:+ " " +:+ unit)
      else match f64_div value (f64_of_int 1024) with
           | Ok value => in_units value units
           | Raise _ => None
           end
  end.

Definition format_bytes (n : Z) : string :=
  match in_units (f64_round n 1 0) ["B"; "KB"; "MB"; "GB"] with
  | Some s => s
  | None => format_int n +:+ " B"
  end.

Definition write_amplification (r : WorkloadResult) : Result string :=
  if (user_bytes_written r =? 0)%Z then Ok "n/a"
  else
    let disk_bytes := page_writes (wr_pager_stats r) * wr_page_size_bytes r + bytes_appended (wr_wal_stats r) in
    ratio ← f64_div_int disk_bytes (user_bytes_written r);
    Ok (format_fixed false 2 ratio +:+ "x").

Definition cache_hit_ratio (r : WorkloadResult) : Result string :=
  let stats := wr_buffer_pool_stats r in
  let total := cache_hits stats + cache_misses stats in
  if (total =? 0)%Z then Ok "n/a"
  else
    ratio ← f64_div (f64_mul (f64_of_int 100) (f64_of_int (cache_hits stats))) (f64_of_int total);
    Ok (format_fixed false 1 ratio +:+ "%").

(** [result.n_measured_ops / result.wall_seconds if result.wall_seconds > 0 else 0.0] *)
Definition ops_per_second (r : WorkloadResult) : Result f64 :=
  if f64_ltb (f64_of_int 0) (wall_seconds r) then f64_div (f64_of_int (n_measured_ops r)) (wall_seconds r)
  else Ok (f64_of_int 0).

(** ** The text report *)

Definition newline : string := String (ascii_of_nat 10) "".

Definition render_text (r : WorkloadResult) : Result string :=
  let sorted_lat := merge_sort Z.le (latencies_ns r) in
  p50 ← percentile sorted_lat (literal 50 100); p50 ← f64_div_int p50 1000;
  p95 ← percentile sorted_lat (literal 95 100); p95 ← f64_div_int p95 1000;
  p99 ← percentile sorted_lat (literal 99 100); p99 ← f64_div_int p99 1000;
  max_lat ← (match sorted_lat with
             | [] => Ok (f64_of_int 0)
             | _ => max ← py_get sorted_lat (-1); f64_div_int max 1000
             end);
  ops_per_sec ← ops_per_second r;
  let shape := tree_shape r in
  bytes_per_key ← (if negb (leaf_pages shape =? 0)%Z then f64_div_int (data_file_bytes r) (leaf_pages shape)
                   else Ok (f64_of_int 0));
  let p := wr_params r in
  let header :=
    "=== " +:+ preset_name r +:+ " (n_ops=" +:+ format_int (n_ops p) +:+ ", key_size=" +:+ format_int (key_size p) +:+
    ", value_size=" +:+ format_int (value_size p) +:+ ", page_size=" +:+ format_int (wr_page_size_bytes r) +:+ ") ===" in
  write_amp ← write_amplification r;
  hit_ratio ← cache_hit_ratio r;
  let ps := wr_pager_stats r in
  let bs := wr_buffer_pool_stats r in
  let ts := wr_tree_stats r in
  let ws := wr_wal_stats r in
  let lines :=
  [header;
   "";
   "Throughput:";
   "  ops/sec:             " +:+ align_right 14 (format_fixed true 0 ops_per_sec);
   "  wall time:           " +:+ align_right 14 (format_fixed false 3 (wall_seconds r)) +:+ "s";
   "  measured ops:        " +:+ align_right 14 (format_comma (n_measured_ops r));
   "";
   "Latency (µs):";
   "  p50:                 " +:+ align_right 14 (format_fixed true 1 p50);
   "  p95:                 " +:+ align_right 14 (format_fixed true 1 p95);
   "  p99:                 " +:+ align_right 14 (format_fixed true 1 p99);
   "  max:                 " +:+ align_right 14 (format_fixed true 1 max_lat);
   "";
   "Tree shape:";
   "  depth:               " +:+ align_right 14 (format_int (depth shape));
   "  leaf pages:          " +:+ align_right 14 (format_comma (leaf_pages shape));
   "  internal pages:      " +:+ align_right 14 (format_comma (internal_pages shape));
   "  avg leaf fill:       " +:+ align_right 13 (format_fixed false 1 (f64_mul (avg_leaf_fill shape) (f64_of_int 100))) +:+ "%";
   "";
   "Disk:";
   "  data file:           " +:+ align_right 14 (format_bytes (data_file_bytes r));
   "  WAL:                 " +:+ align_right 14 (format_bytes (wal_file_bytes r));
   "  bytes/leaf page:     " +:+ align_right 14 (format_fixed true 1 bytes_per_key);
   "  user bytes written:  " +:+ align_right 14 (format_bytes (user_bytes_written r));
   "  write amplification: " +:+ align_right 14 write_amp;
   "";
   "Pager counters:";
   "  page reads:          " +:+ align_right 14 (format_comma (page_reads ps));
   "  page writes:         " +:+ align_right 14 (format_comma (page_writes ps));
   "  pages allocated:     " +:+ align_right 14 (format_comma (pages_allocated ps));
   "  pages freed:         " +:+ align_right 14 (format_comma (pages_freed ps));
   "  pages reused:        " +:+ align_right 14 (format_comma (pages_reused_from_freelist ps));
   "  meta flushes:        " +:+ align_right 14 (format_comma (meta_flushes ps));
   "  fsyncs:              " +:+ align_right 14 (format_comma (pager_fsyncs ps));
   "";
   "Buffer pool counters:";
   "  cache hits:          " +:+ align_right 14 (format_comma (cache_hits bs));
   "  cache misses:        " +:+ align_right 14 (format_comma (cache_misses bs));
   "  hit ratio:           " +:+ align_right 14 hit_ratio;
   "  evictions:           " +:+ align_right 14 (format_comma (evictions bs));
   "  flushes:             " +:+ align_right 14 (format_comma (flushes bs));
   "  dirty pages flushed: " +:+ align_right 14 (format_comma (dirty_pages_flushed bs));
   "";
   "Tree counters:";
   "  leaf splits:         " +:+ align_right 14 (format_comma (leaf_splits ts));
   "  internal splits:     " +:+ align_right 14 (format_comma (internal_splits ts));
   "  leaf merges:         " +:+ align_right 14 (format_comma (leaf_merges ts));
   "  internal merges:     " +:+ align_right 14 (format_comma (internal_merges ts));
   "  leaf redistributes:  " +:+ align_right 14 (format_comma (leaf_redistributes ts));
   "  internal redistr.:   " +:+ align_right 14 (format_comma (internal_redistributes ts));
   "  root collapses:      " +:+ align_right 14 (format_comma (root_collapses ts));
   "";
   "WAL counters:";
   "  records appended:    " +:+ align_right 14 (format_comma (records_appended ws));
   "  bytes appended:      " +:+ align_right 14 (format_bytes (bytes_appended ws));
   "  fsyncs:              " +:+ align_right 14 (format_comma (wal_fsyncs ws));
   "  truncations:         " +:+ align_right 14 (format_comma (truncations ws))] in
  Ok (String.concat newline lines).

Close Scope string_scope.

(** ** The JSON report *)

(** The dictionary of [render_json]: what it computes, beside the fields of the
    result it copies. *)
Record JsonReport := {
  js_result : WorkloadResult;
  js_ops_per_sec : f64;
  js_p50 : Z;
  js_p95 : Z;
  js_p99 : Z;
  js_max : Z;
  js_write_amplification : string;
  js_hit_ratio : string;
}.

Definition render_json (r : WorkloadResult) : Result JsonReport :=
  let sorted_lat := merge_sort Z.le (latencies_ns r) in
  ops_per_sec ← ops_per_second r;
  p50 ← percentile sorted_lat (literal 50 100);
  p95 ← percentile sorted_lat (literal 95 100);
  p99 ← percentile sorted_lat (literal 99 100);
  max ← (match sorted_lat with [] => Ok 0 | _ => py_get sorted_lat (-1) end);
  write_amp ← write_amplification r;
  hit_ratio ← cache_hit_ratio r;
  Ok {| js_result := r; js_ops_per_sec := ops_per_sec; js_p50 := p50; js_p95 := p95; js_p99 := p99; js_max := max;
        js_write_amplification := write_amp; js_hit_ratio := hit_ratio |}.

(** ** The command *)

(** What [main] prints: a list for [json.dumps], or texts with an empty line
    after each. *)
Inductive Printed :=
  | PrintedJson (reports : list JsonReport)
  | PrintedTexts (texts : list string).

Section main.
Context {W : Type} `{World W}.

(** [None] is the exit of [parser.error]; otherwise the exit code and what is
    printed. *)
Definition main (args : Namespace) : M (W * list string) (option (Z * Printed)) :=
  results ← main_results args;
  match results with
  | None => mret None
  | Some results =>
      if ns_json args then reports ← lift (mapM render_json results); mret (Some (0, PrintedJson reports))
      else texts ← lift (mapM render_text results); mret (Some (0, PrintedTexts texts))
  end.
End main.
