(* ===== verification/BenchKeys.v ===== *)
(** * The keys of the sequential workload

    As long as the numbers have no more digits than the key size, the keys are
    all of that size and in the order of the numbers. *)

From Stdlib Require Import Strings.Byte.
From S2P Require Import Prelude Bytes Float64 Bench.

(** The last [w] decimal digits of [i], with leading zeros. *)
Fixpoint padded (w : nat) (i : Z) : bytes :=
  match w with
  | O => []
  | S w => padded w (i / 10) ++ [digit (i mod 10)]
  end.

Lemma padded_length w : forall i, length (padded w i) = w.
Proof. induction w as [|w IH]; intros i; [done|]. simpl. rewrite length_app, IH. simpl. lia. Qed.

Lemma padded_zero w : padded w 0 = replicate w x30.
Proof.
  induction w as [|w IH]; [done|]. change (padded (S w) 0) with (padded w 0 ++ [x30]). rewrite IH.
  by rewrite <-replicate_S_end.
Qed.

Lemma digits_padded fuel : forall w i, (0 < fuel)%nat -> 0 <= i < 10 ^ Z.of_nat fuel -> 0 <= i < 10 ^ Z.of_nat w -> (0 < w)%nat ->
  replicate (w - length (digits fuel i)) x30 ++ digits fuel i = padded w i /\ (length (digits fuel i) <= w)%nat.
Proof.
  induction fuel as [|fuel IH]; intros w i Hf Hi Hw Hpos; [lia|]. destruct w as [|w]; [lia|]. cbn [digits].
  rewrite Nat2Z.inj_succ, Z.pow_succ_r in Hi, Hw by lia. destruct (Z.ltb_spec i 10) as [Hlt|Hge].
  - cbn [length padded]. rewrite Z.div_small, Z.mod_small, padded_zero by lia. replace (S w - 1)%nat with w by lia. split; [done|lia].
  - pose proof (Z.div_lt_upper_bound i 10 (10 ^ Z.of_nat fuel) ltac:(lia) ltac:(lia)).
    pose proof (Z.div_lt_upper_bound i 10 (10 ^ Z.of_nat w) ltac:(lia) ltac:(lia)).
    pose proof (Z.div_le_lower_bound i 10 1 ltac:(lia) ltac:(lia)).
    destruct fuel as [|fuel]; [change (10 ^ Z.of_nat 0) with 1 in *; lia|]. destruct w as [|w]; [change (10 ^ Z.of_nat 0) with 1 in *; lia|].
    destruct (IH (S w) (i / 10)) as [E Hl]; [lia|lia|lia|lia|].
    rewrite length_app. cbn [length padded]. replace (S (S w) - (length (digits (S fuel) (i / 10)) + 1))%nat
      with (S w - length (digits (S fuel) (i / 10)))%nat by lia.
    split; [|lia]. rewrite app_assoc, E. done.
Qed.

Lemma decimal_fuel i : 0 <= i -> i < 10 ^ Z.of_nat (S (S (Z.to_nat (Z.log2 i)))).
Proof.
  intros Hi. pose proof (Z.log2_nonneg i). destruct (Z.eq_dec i 0) as [->|]; [done|].
  pose proof (Z.log2_spec i ltac:(lia)) as [_ Hl].
  rewrite !Nat2Z.inj_succ, Z2Nat.id by done. rewrite Z.pow_succ_r by lia.
  pose proof (Z.pow_le_mono_l 2 10 (Z.succ (Z.log2 i)) ltac:(lia)). lia.
Qed.

(** The key of a number that fits. *)
Definition sequential_key (size : Z) (i : Z) : bytes := padded (Z.to_nat size) i.

Lemma make_sequential_key_ok i size : 0 < size -> 0 <= i < 10 ^ size -> make_sequential_key i size = Ok (sequential_key size i).
Proof.
  intros Hs Hi. unfold make_sequential_key, format_padded. destruct (Z.ltb_spec size 0); [lia|].
  destruct (digits_padded (S (S (Z.to_nat (Z.log2 i)))) (Z.to_nat size) i ltac:(lia)) as [E Hl];
    [split; [lia|apply decimal_fuel; lia]|rewrite Z2Nat.id by lia; lia|lia|].
  fold (decimal i) in E, Hl. cbn [mbind Result_bind].
  assert (rjust (decimal i) size = sequential_key size i) as ->.
  { unfold rjust, sequential_key, len. rewrite <-E. by rewrite Z2Nat.inj_sub, Nat2Z.id by lia. }
  assert (len (sequential_key size i) = size) as El by (unfold len, sequential_key; rewrite padded_length; lia).
  rewrite El, Z.leb_refl. f_equal. unfold py_slice, py_bound. rewrite El. simpl.
  replace (Z.to_nat (Z.min (Z.max 0 0) size)) with 0%nat by lia.
  rewrite drop_0, take_ge; [done|]. rewrite (proj2 (Z.ltb_ge size 0)) by lia. unfold sequential_key. rewrite padded_length. lia.
Qed.

Lemma sequential_key_len size i : 0 <= size -> len (sequential_key size i) = size.
Proof. intros H. unfold len, sequential_key. rewrite padded_length. lia. Qed.

(** Longer numbers are cut, so that the key has its size in any case. *)
Lemma make_sequential_key_total i size : 0 <= size -> exists key, make_sequential_key i size = Ok key /\ len key = size.
Proof.
  intros Hs. unfold make_sequential_key, format_padded. rewrite (proj2 (Z.ltb_ge size 0)) by done. cbn [mbind Result_bind].
  set (raw := rjust (decimal i) size). eexists. split; [done|].
  assert (size <= len raw) as Hl by (unfold raw, rjust, len; rewrite length_app, length_replicate; unfold len; lia).
  rewrite (proj2 (Z.leb_le _ _)) by done. unfold py_slice, py_bound. rewrite (proj2 (Z.ltb_ge size 0)) by done. simpl.
  replace (Z.to_nat (Z.min (Z.max 0 0) (len raw))) with 0%nat by (unfold len; lia). unfold len in *. rewrite drop_0, length_take. lia.
Qed.

(** ** The order of the keys *)

Lemma bytes_lt_app a b x y : length a = length b -> bytes_lt a b -> bytes_lt (a ++ x) (b ++ y).
Proof.
  unfold bytes_lt. revert b. induction a as [|c a IH]; intros [|d b] Hl; try done. simpl app. rewrite !bytes_ltb_cons.
  intros [H|[-> H]]; [by left|right]. split; [done|]. apply IH; [by injection Hl|done].
Qed.

Lemma bytes_lt_tail a x y : bytes_lt x y -> bytes_lt (a ++ x) (a ++ y).
Proof. unfold bytes_lt. induction a as [|c a IH]; [done|]. intros H. simpl app. apply bytes_ltb_cons. right. auto. Qed.

Lemma digit_lt a b : 0 <= a < b -> b < 10 -> bytes_lt [digit a] [digit b].
Proof.
  intros Ha Hb. apply bytes_ltb_cons. left. unfold digit. rewrite !byte_to_of_Z, !Z.mod_small by lia. lia.
Qed.

Lemma padded_lt w : forall i j, 0 <= i < j -> j < 10 ^ Z.of_nat w -> bytes_lt (padded w i) (padded w j).
Proof.
  induction w as [|w IH]; intros i j Hi Hj; [change (10 ^ Z.of_nat 0) with 1 in Hj; lia|]. cbn [padded].
  rewrite Nat2Z.inj_succ, Z.pow_succ_r in Hj by lia.
  pose proof (Z.div_mod i 10). pose proof (Z.div_mod j 10). pose proof (Z.mod_pos_bound i 10). pose proof (Z.mod_pos_bound j 10).
  destruct (Z.eq_dec (i / 10) (j / 10)) as [E|Hne].
  - rewrite E. apply bytes_lt_tail, digit_lt; lia.
  - apply bytes_lt_app; [by rewrite !padded_length|]. apply IH; [|apply Z.div_lt_upper_bound; lia].
    pose proof (Z.div_le_mono i j 10). pose proof (Z.div_pos i 10). lia.
Qed.

Lemma sequential_key_lt size i j : 0 <= size -> 0 <= i < j -> j < 10 ^ size ->
  bytes_lt (sequential_key size i) (sequential_key size j).
Proof. intros Hs Hi Hj. apply padded_lt; [done|]. by rewrite Z2Nat.id. Qed.

(** The keys of [n] numbers, in order. *)
Definition sequential_keys (size : Z) (n : nat) : list bytes := (fun i => sequential_key size (Z.of_nat i)) <$> seq 0 n.
