(* ===== verification/BenchFacts.v ===== *)
(** * Facts about the workloads

    What the calls of the script promise on a serving database, the loops with
    their progress reports, and the steps of the runners. *)

From Stdlib Require Import Strings.Byte.
From stdpp Require Import strings.
From S2P Require Import Prelude Bytes Float64 Entities Codec Fs Pager Cache Tree Wal Db Debug.
From S2P Require Import PagerFacts CacheFacts WalFacts TreeSizes TreeShape TreeSteps TreeStore TreeFind TreeBorrow TreeOps TreeFrame TreeHeight TreeBudget TreeScan TreeReads TreePages.
From S2P Require Import DebugWalk DbFacts DbCheckpoint DbDurable DbOps DbRecovery DbClient Bench BenchKeys.

(** ** The number of records a file has room for *)

Definition page_fits (ps : Z) (e : Z * Page) : Prop := calculate_page_size e.2 <= ps.

Lemma records_bound ps t : 0 <= ps -> Forall (page_fits ps) (nodes t) -> 16 * count t <= ps * len (nodes t).
Proof.
  intros Hps. induction t as [id link slots|id c kids IHc IHk] using tree_induction; intros Hp.
  - apply Forall_cons in Hp as [Hp _]. unfold page_fits, leaf_of in Hp. cbn [snd] in Hp. rewrite leaf_page_size in Hp.
    unfold count. change (flat (Leaf id link slots)) with (Rec <$> slots). rewrite records_Rec.
    change (len (nodes (Leaf id link slots))) with 1. simpl leaf_slots in Hp.
    enough (16 * len slots <= leaf_body slots) by lia. clear. induction slots as [|s slots IH]; [done|].
    rewrite len_cons, leaf_body_cons. pose proof (len_nonneg (lslot_key s)). pose proof (len_nonneg (lslot_value s)). lia.
  - rewrite (nodes_below (Node id c kids)) in Hp |- *. apply Forall_cons in Hp as [_ Hp]. simpl below in *. apply Forall_app in Hp as [Hc Hk].
    rewrite len_cons, len_app. unfold count in *. change (flat (Node id c kids)) with (flat c ++ kids_flat kids). rewrite records_app, len_app.
    enough (16 * len (records (kids_flat kids)) <= ps * len (kids_nodes kids)) by (specialize (IHc Hc); lia). clear IHc Hc.
    induction kids as [|[key t] kids IH]; [change (0 <= ps * 0); lia|].
    change (kids_flat ((key, t) :: kids)) with (Sep key :: flat t ++ kids_flat kids). change (records (Sep key :: ?l)) with (records l).
    change (kids_nodes ((key, t) :: kids)) with (nodes t ++ kids_nodes kids) in *. apply Forall_app in Hk as [Ht Hk].
    apply Forall_cons in IHk as [IHt IHk]. specialize (IHt Ht). specialize (IH IHk Hk).
    rewrite records_app, !len_app. simpl in IHt. lia.
Qed.

Lemma map_range_length start stop m : (length (map_range start stop m) <= size m)%nat.
Proof.
  unfold map_range. rewrite merge_sort_Permutation. etransitivity; [apply length_filter|]. by rewrite length_map_to_list.
Qed.

Section bench.
Context {W : Type} `{WorldOk W}.
Context (ps kmax : Z) (Hb : GoodBounds ps kmax) (Hps : ps < 2 ^ 32) (c : Config) (h : nat) (Hc : fits_config c h).

(** ** A database with room for [k] more calls *)

Record ready (k : Z) (d : DB) (m : gmap bytes bytes) : Prop := {
  rd_serving : exists N, serving ps kmax c N h d m /\ (k + 2) * db_cost h <= N;
  rd_count : 0 <= k;
  rd_small : Z.of_nat (size m) + k < 4 * fanout ps kmax ^ Z.of_nat h;
}.

Lemma ready_weaken k k' d m : 0 <= k' <= k -> ready k d m -> ready k' d m.
Proof.
  intros Hk [(N & Hs & HN) _ Hsm]. pose proof (db_cost_pos h). split; [|lia..]. exists N. split; [done|nia].
Qed.

(** One call, on a client without scans. *)
Lemma ready_call k d m call : ready (k + 1) d m -> 0 <= k -> call_fits ps kmax h call (new_spec m) ->
  Z.of_nat (size (sp_map (spec_call ps call (new_spec m)).1)) <= Z.of_nat (size m) + 1 ->
  exists cl', run_call call (new_client d) = (cl', (spec_call ps call (new_spec m)).2) /\
    ready k (cl_db cl') (sp_map (spec_call ps call (new_spec m)).1).
Proof.
  intros [(N & Hs & HN) _ Hsm] Hk Hfit Hsize. pose proof (db_cost_pos h).
  destruct (call_ok ps kmax Hb Hps c h Hc call N _ _ (serving_session _ _ _ _ _ _ _ Hs) Hfit ltac:(nia)) as (cl' & E & Hs').
  exists cl'. split; [done|]. apply session_serving in Hs'. split; [|done|lia]. exists (N - db_cost h). split; [done|nia].
Qed.

Lemma size_insert_le (m : gmap bytes bytes) key value : Z.of_nat (size (<[key := value]> m)) <= Z.of_nat (size m) + 1.
Proof. rewrite map_size_insert. destruct (m !! key); simpl; lia. Qed.

Lemma ready_put k d m key value : ready (k + 1) d m -> 0 <= k -> len key <= kmax ->
  calculate_leaf_record_size key value <= get_max_leaf_record_size ps ->
  exists d', put (PyBytes key) (PyBytes value) d = (d', Ok tt) /\ ready k d' (<[key := value]> m).
Proof.
  intros Hr Hk Hkey Hrec. pose proof (size_insert_le m key value) as Hle.
  assert (spec_call ps (CPut key value) (new_spec m) = (new_spec (<[key := value]> m), Stored)) as Espec.
  { unfold spec_call. cbv zeta. rewrite (proj2 (Z.ltb_ge _ _)) by lia. reflexivity. }
  destruct (ready_call k d m (CPut key value) Hr Hk) as (cl' & E & Hr'); rewrite ?Espec in *; [|done|].
  - split; [done|]. rewrite Espec. destruct Hr as [_ _ Hsm]. unfold small_map. simpl. lia.
  - cbn [run_call] in E. unfold on_db in E. cbn [cl_db new_client] in E. destruct (put _ _ d) as [d' [[]|e]]; [|done].
    injection E as <-. by exists d'.
Qed.

Lemma ready_get k d m key : ready (k + 1) d m -> 0 <= k -> exists d', get (PyBytes key) d = (d', Ok (m !! key)) /\ ready k d' m.
Proof.
  intros Hr Hk. destruct (ready_call k d m (CGet key) Hr Hk) as (cl' & E & Hr').
  - split; [done|]. destruct Hr as [_ _ Hsm]. unfold small_map. simpl. lia.
  - simpl. lia.
  - cbn [run_call spec_call] in E. unfold on_db in E. cbn [cl_db new_client] in E. destruct (get _ d) as [d' [v|e]]; [|done].
    injection E as <- Ev. exists d'. by rewrite Ev.
Qed.

Lemma ready_delete k d m key : ready (k + 1) d m -> 0 <= k ->
  exists d', db_delete (PyBytes key) d = (d', Ok (bool_decide (is_Some (m !! key)))) /\ ready k d' (delete key m).
Proof.
  intros Hr Hk. pose proof (rd_small _ _ _ Hr) as Hsm.
  assert (Z.of_nat (size (delete key m)) <= Z.of_nat (size m)) as Hle by (rewrite map_size_delete; destruct (m !! key); simpl; lia).
  assert (spec_call ps (CDelete key) (new_spec m) = (new_spec (delete key m), Deleted (bool_decide (is_Some (m !! key))))) as Espec.
  { cbn [spec_call]. simpl. destruct (m !! key) eqn:E; [done|]. by rewrite delete_id. }
  destruct (ready_call k d m (CDelete key) Hr Hk) as (cl' & E & Hr'); rewrite ?Espec in *; [|simpl; lia|].
  - split; [done|]. rewrite Espec. unfold small_map. simpl. lia.
  - cbn [run_call] in E. unfold on_db in E. cbn [cl_db new_client] in E. destruct (db_delete _ d) as [d' [b|e]]; [|done].
    injection E as <- Ev. exists d'. split; [|done]. by rewrite Ev.
Qed.
(** ** Counters *)

Definition without_stats (d : DB) : DB := (reset_stats d).1.

Lemma rep_without_stats s D ns t : Rep ∅ ∅ s D ns -> Rep ∅ ∅ (set_pool_stats t (set_pager (reset_pager_stats (st_pager s)) s)) D ns.
Proof.
  intros [Hi Hnd Hs Hu Hl He]. split; try done. destruct Hi as [Hp Hn Hj Ho Hf Hus Hcl]. split; try done.
  destruct Hp. by split.
Qed.

Lemma holding_without_stats T n N d D recs : Holding ps kmax T h n N d D recs -> Holding ps kmax T h n N (without_stats d) D recs.
Proof.
  intros [[Hs Hl Hlsn Hcl Hcap] Ho Hsl Hle Hca Hsm Hdur]. split; try done. destruct Hs as [Eps Hr Hroot Hok Hn].
  split; try done; [|by destruct Hl]. split; try done.
  by apply (rep_without_stats (db_store d) D (nodes T) pool_stats_zero).
Qed.

Lemma ready_reset k d m : ready k d m -> exists d', reset_stats d = (d', Ok tt) /\ ready k d' m.
Proof.
  intros [(N & [(T & D & recs & Hd & Hm) Hset] & HN) Hk Hsm]. exists (without_stats d). split; [done|]. split; [|done..].
  exists N. split; [|done]. split; [|done]. exists T, D, recs. split; [by apply holding_without_stats|done].
Qed.
(** ** Scans *)

Lemma consume_left limit l : forall fuel consumed T N d D recs g, Holding ps kmax T h (db_cost h) N d D recs ->
  scan_matches T d g {| ss_progress := Left l; ss_live := true |} -> (length l < fuel)%nat ->
  exists d', consume fuel limit consumed g d = (d', Ok tt) /\ Holding ps kmax T h (db_cost h) N d' D recs /\ same_setup d d'.
Proof.
  induction l as [|r l IH]; intros [|fuel] consumed T N d D recs g Hd Hg Hf; simpl in Hf; try lia;
    pose proof (next_ok ps kmax h T N d D recs g _ Hd Hg) as (d1 & out & E & Hd1 & Hss & _ & Hout); cbn [consume];
    destruct out as [[out g']|e]; try (by destruct Hout); destruct Hout as [Eout Hg']; injection Eout as <-;
    rewrite (bind_Ok _ _ _ _ _ E).
  - by exists d1.
  - assert (exists d', consume fuel limit (consumed + 1) g' d1 = (d', Ok tt) /\ Holding ps kmax T h (db_cost h) N d' D recs /\ same_setup d d')
      as (d2 & E2 & Hd2).
    { destruct (IH fuel (consumed + 1) T N d1 D recs g' Hd1 Hg' ltac:(lia)) as (d2 & E2 & Hd2 & Hss2).
      exists d2. split; [done|]. split; [done|]. by etransitivity. }
    destruct limit as [n|]; [destruct (n <=? consumed + 1); [by exists d1|]|]; by exists d2.
Qed.

Lemma scan_fuel_enough T N d D recs : Holding ps kmax T h (db_cost h) N d D recs ->
  (length (map_range None None (contents (flat T))) < scan_fuel d)%nat.
Proof.
  intros Hd. pose proof (holding_rep _ _ _ _ _ _ _ _ _ Hd) as Hr. pose proof (si_pager _ _ _ (rep_inv _ _ _ _ _ Hr)) as Hp.
  pose proof (bs_settled _ _ _ _ _ _ _ (ho_base _ _ _ _ _ _ _ _ _ Hd)) as [Eps _ _ [Hwf Hok] _].
  unfold scan_fuel. rewrite (inv_meta _ _ _ _ _ Hp), (si_ps _ _ _ (rep_inv _ _ _ _ _ Hr)), Eps.
  pose proof (map_range_length None None (contents (flat T))) as Hl. rewrite (contents_size T) in Hl by apply Hwf.
  pose proof (gb_ps _ _ Hb) as [Hps' _]. pose proof (inv_next _ _ _ _ _ Hp).
  assert (16 * count T <= ps * len (nodes T)) as Hcount.
  { apply records_bound; [lia|]. eapply Forall_impl; [exact Hok|]. intros e [[He _]|[_ [He _]]]; exact He. }
  assert (len (nodes T) <= next_page_id (dk_meta D)) as Hnodes.
  { destruct (nodup_below_bound (nodes T).*1 (next_page_id (dk_meta D)) (rep_nodup _ _ _ _ _ Hr)) as [H'|H'].
    - intros i Hi. apply (rep_usable _ _ _ _ _ Hr). by left.
    - unfold len. rewrite length_fmap in H'. lia.
    - lia. }
  unfold count, len in *. nia.
Qed.

Lemma ready_scan k d m limit : ready k d m -> exists d', full_scan limit d = (d', Ok tt) /\ ready k d' m.
Proof.
  intros [(N & [(T & D & recs & Hd & Hm) Hset] & HN) Hk Hsm]. pose proof (db_cost_pos h).
  set (g := {| ds_scan := scan None None; ds_version_snapshot := db_version_counter d |}).
  assert (db_scan None None d = (d, Ok g)) as Eg.
  { unfold db_scan. by rewrite (bind_Ok _ _ _ _ _ (opened_run _ (ho_opened _ _ _ _ _ _ _ _ _ Hd))). }
  assert (exists d', full_scan limit d = (d', Ok tt) /\ Holding ps kmax T h (db_cost h) N d' D recs /\ same_setup d d')
    as (d' & E & Hd' & Hss).
  { unfold full_scan. rewrite (bind_Ok _ _ _ _ _ Eg), (bind_Ok (gets _) _ d d _ eq_refl).
    pose proof (scan_fuel_enough _ _ _ _ _ Hd) as Hfuel. destruct (scan_fuel d) as [|fuel]; [lia|]. cbn [consume].
    pose proof (next_unstarted ps kmax h T N d D recs (db_version_counter d) None None Hd ltac:(lia)) as Hnext.
    fold g in Hnext. unfold next_promise, spec_next in Hnext. cbn [ss_progress ss_live] in Hnext. rewrite Z.eqb_refl in Hnext.
    destruct (map_range None None (contents (flat T))) as [|r l]; cbn [give] in Hnext;
      destruct Hnext as (d1 & out & E & Hd1 & Hss & _ & Hout);
      destruct out as [[out g']|e]; try (by destruct Hout); destruct Hout as [Eout Hg']; injection Eout as <-;
      rewrite (bind_Ok _ _ _ _ _ E); [by exists d1|].
    simpl in Hfuel. destruct (consume_left limit l fuel 1 T N d1 D recs g' Hd1 Hg' ltac:(lia)) as (d2 & E2 & Hd2 & Hss2).
    destruct limit as [n|]; [destruct (n <=? 0 + 1); [by exists d1|]|];
      (exists d2; split; [exact E2|]; split; [done|]; by etransitivity). }
  exists d'. split; [done|]. split; [|done..]. exists N. split; [|done]. split; [by exists T, D, recs|]. by eapply setup_same.
Qed.
End bench.
