(* ===== verification/BenchRuns.v ===== *)
(** * The runners of the benchmark script

    A rule for computations that return, whatever the generator and the clocks
    give; with it, every runner goes to its end on a database that has room for
    its calls. *)

From Stdlib Require Import Strings.Byte.
From stdpp Require Import strings.
From S2P Require Import Prelude Bytes Float64 Entities Codec Fs Pager Cache Tree Wal Db.
From S2P Require Import TreeSizes TreeOps TreeHeight DbOps DbClient Bench BenchKeys BenchFacts.

(** ** Computations that return *)

Section ends.
Context {W : Type} `{WorldOk W}.
Implicit Types r : Run (W := W).

(** [m] returns, with a value and a database that satisfy [Q]; what else has
    happened outside does not matter. *)
Definition ends {A} (m : M Run A) (r : Run) (Q : A -> DB -> Prop) : Prop :=
  exists r' a, m r = (r', Ok a) /\ Q a (run_db r').

Lemma ends_ret {A} (a : A) r (Q : A -> DB -> Prop) : Q a (run_db r) -> ends (mret a) r Q.
Proof. intros HQ. by exists r, a. Qed.

Lemma ends_bind {A B} (m : M Run A) (f : A -> M Run B) r Q :
  ends m r (fun a d => forall r', run_db r' = d -> ends (f a) r' Q) -> ends (m ≫= f) r Q.
Proof.
  intros (r1 & a & E & HQ). destruct (HQ r1 eq_refl) as (r2 & b & E2 & HQ2). exists r2, b. by rewrite (bind_Ok _ _ _ _ _ E).
Qed.

Lemma ends_mono {A} (m : M Run A) r (Q Q' : A -> DB -> Prop) : ends m r Q -> (forall a d, Q a d -> Q' a d) -> ends m r Q'.
Proof. intros (r' & a & E & HQ) Himp. exists r', a. auto. Qed.

Lemma ends_outside {A} (f : W -> W * A) r (Q : A -> DB -> Prop) :
  Q (f (run_world r)).2 (run_db r) -> ends (outside f) r Q.
Proof.
  intros HQ. unfold ends, outside, zoom. destruct (f (run_world r)) as [w a]. by exists (set_run_world w r), a.
Qed.

Lemma ends_of_db {A} (m : M DB A) r d a (Q : A -> DB -> Prop) : m (run_db r) = (d, Ok a) -> Q a d -> ends (of_db m) r Q.
Proof. intros E HQ. exists (set_run_db d r), a. unfold of_db, zoom. by rewrite E. Qed.

Lemma ends_line x r (Q : unit -> DB -> Prop) : Q tt (run_db r) -> ends (modify (add_line x)) r Q.
Proof. intros HQ. by exists (add_line x r), tt. Qed.

Lemma ends_lift {A} (x : Result A) a r (Q : A -> DB -> Prop) : x = Ok a -> Q a (run_db r) -> ends (lift x) r Q.
Proof. intros -> HQ. by exists r, a. Qed.

Lemma ends_randbytes n r (Q : bytes -> DB -> Prop) : 0 <= n -> (forall b, len b = n -> Q b (run_db r)) -> ends (randbytes n) r Q.
Proof.
  intros Hn HQ. unfold randbytes. rewrite (proj2 (Z.ltb_ge n 0)) by done. apply ends_outside, HQ, draw_bytes_len. done.
Qed.

Lemma ends_choice {A} (l : list A) r (Q : A -> DB -> Prop) : l <> [] -> (forall x, x ∈ l -> Q x (run_db r)) -> ends (choice l) r Q.
Proof.
  intros Hl HQ. unfold choice. destruct l as [|y l]; [done|]. set (l' := y :: l) in *.
  apply ends_bind, ends_outside. intros r' Hr.
  pose proof (draw_index_lt (length l') (run_world r) ltac:(simpl; lia)) as Hi. set (i := (draw_index _ _).2) in *.
  destruct (lookup_lt_is_Some_2 l' i Hi) as [x Hx]. apply (ends_lift _ x); [|rewrite Hr; by apply HQ, (list_elem_of_lookup_2 _ i)].
  unfold py_get, py_index, len. rewrite (proj2 (Z.ltb_ge (Z.of_nat i) 0)) by lia.
  rewrite (proj2 (Z.leb_le 0 (Z.of_nat i))), (proj2 (Z.ltb_lt (Z.of_nat i) _)) by lia. simpl. by rewrite Nat2Z.id, Hx.
Qed.

(** ** Progress *)

Lemma positive_nonzero x : is_positive x = true -> f_mant x <> 0.
Proof. unfold is_positive, f64_ltb. rewrite Z.ltb_lt. intros Hx E. rewrite E in Hx. simpl in Hx. lia. Qed.

Lemma f64_div_ok a b : f_mant b <> 0 -> exists q, f64_div a b = Ok q.
Proof. intros Hb. unfold f64_div. rewrite (proj2 (Z.eqb_neq _ _)) by done. by eexists. Qed.

Lemma ends_tick p done r (Q : ProgressReporter -> DB -> Prop) : (forall p', Q p' (run_db r)) -> ends (tick p done) r Q.
Proof.
  intros HQ. unfold tick. destruct (negb (rp_enabled p)); [by apply ends_ret|]. cbn [orb].
  destruct (Z.leb_spec (rp_total p) 0); [by apply ends_ret|]. apply ends_bind, ends_outside. intros r1 E1.
  destruct (f64_ltb _ _); [apply ends_ret; by rewrite E1|]. apply ends_bind.
  apply (ends_mono _ _ (fun _ d => d = run_db r)).
  { destruct (is_positive _) eqn:Ep; [|by apply ends_ret]. apply positive_nonzero in Ep.
    destruct (f64_div_ok (f64_of_int done) _ Ep) as [q Eq]. by apply (ends_lift _ q). }
  intros rate d -> r2 E2. apply ends_bind.
  destruct (f64_div_ok (f64_mul (f64_of_int 100) (f64_of_int done)) (f64_of_int (rp_total p)) ltac:(simpl; lia)) as [q Eq].
  apply (ends_lift _ q); [done|]. intros r3 E3. apply ends_bind, ends_line. intros r4 E4. apply ends_ret.
  rewrite E4, E3, E2. apply HQ.
Qed.

Lemma ends_iterations body (I : Z -> Tally -> DB -> Prop) n : forall i p t r,
  (forall j t r, i <= j < i + Z.of_nat n -> I j t (run_db r) -> ends (body j t) r (I (j + 1))) ->
  I i t (run_db r) -> ends (iterations n i body p t) r (fun a => I (i + Z.of_nat n) a.2).
Proof.
  induction n as [|n IH]; intros i p t r Hbody Hi; cbn [iterations].
  - apply ends_ret. by rewrite Z.add_0_r.
  - apply ends_bind. eapply ends_mono; [apply Hbody; [lia|done]|]. intros t1 d1 Hi1 r1 E1. apply ends_bind, ends_tick.
    intros p' r2 E2. replace (i + Z.of_nat (S n)) with (i + 1 + Z.of_nat n) by lia. apply IH; [|by rewrite E2, E1].
    intros j t2 r3 Hj. apply Hbody. lia.
Qed.

(** The loop of a runner keeps an invariant indexed by the iterations done. *)
Lemma ends_progress ctx phase n body t (I : Z -> Tally -> DB -> Prop) r :
  (forall j t r, 0 <= j < n -> I j t (run_db r) -> ends (body j t) r (I (j + 1))) ->
  I 0 t (run_db r) -> ends (with_progress ctx phase n body t) r (I (Z.max 0 n)).
Proof.
  intros Hbody Hi. unfold with_progress. apply ends_bind. unfold progress_for, reporter_init.
  apply ends_bind, ends_outside. intros r1 E1. apply ends_ret. intros r2 E2. apply ends_bind.
  eapply ends_mono; [apply (ends_iterations body I)|].
  - intros j t' r' Hj. apply Hbody. lia.
  - by rewrite E2, E1.
  - intros [p' t'] d Hd r3 E3. simpl in Hd. replace (Z.of_nat (Z.to_nat n)) with (Z.max 0 n) in Hd by lia. apply ends_bind.
    apply (ends_mono _ _ (fun _ d' => d' = d)).
    { unfold finish. destruct (_ && _); [by apply ends_line|by apply ends_ret]. }
    intros _ d' -> r4 E4. apply ends_ret. by rewrite E4.
Qed.

Lemma ends_timed op r (Q : Tally -> DB -> Prop) :
  (forall r', run_db r' = run_db r -> ends op r' (fun t d => forall ns, Q (add_latency ns t) d)) -> ends (timed op) r Q.
Proof.
  intros Hop. unfold timed. apply ends_bind, ends_outside. intros r1 E1. apply ends_bind.
  eapply ends_mono; [by apply Hop|]. intros t d HQ r2 E2. apply ends_bind, ends_outside. intros r3 E3. apply ends_ret.
  rewrite E3, E2. apply HQ.
Qed.
End ends.

(** ** The invariants of the loops *)

Section runners.
Context {W : Type} `{WorldOk W}.
Implicit Types r : Run (W := W).
Context (ps kmax : Z) (Hb : GoodBounds ps kmax) (Hps : ps < 2 ^ 32) (c : Config) (h : nat) (Hc : fits_config c h).
Context (params : WorkloadParams).

(** Keys and records of the workload are within the bounds. *)
Record sizes_ok : Prop := {
  so_key : 0 <= key_size params <= kmax;
  so_value : 0 <= value_size params;
  so_record : 8 + key_size params + value_size params <= get_max_leaf_record_size ps;
}.
Context (Hsizes : sizes_ok).

Lemma record_fits_page (key value : bytes) : len key = key_size params -> len value = value_size params ->
  len key <= kmax /\ calculate_leaf_record_size key value <= get_max_leaf_record_size ps.
Proof.
  intros Hk Hv. destruct Hsizes as [Hkey Hval Hrec]. split; [lia|]. unfold calculate_leaf_record_size.
  change (sizeof LENGTH_FIELD) with 4. lia.
Qed.

Lemma ends_put k m r (key value : bytes) (Q : unit -> DB -> Prop) : ready ps kmax c h (k + 1) (run_db r) m -> 0 <= k ->
  len key = key_size params -> len value = value_size params ->
  (forall d, ready ps kmax c h k d (<[key := value]> m) -> Q tt d) -> ends (put_bytes key value) r Q.
Proof.
  intros Hr Hk Hkey Hval HQ. destruct (record_fits_page key value Hkey Hval) as [Hfk Hfr].
  destruct (ready_put ps kmax Hb Hps c h Hc k (run_db r) m key value Hr Hk Hfk Hfr) as (d & E & Hr').
  apply (ends_of_db _ _ d tt); [done|by apply HQ].
Qed.

(** Every record of the database has its key among the live keys. *)
Definition covers (live : list bytes) (m : gmap bytes bytes) : Prop := forall key, is_Some (m !! key) -> key ∈ live.

Lemma covers_put live m key value : covers live m -> covers (live ++ [key]) (<[key := value]> m).
Proof.
  intros Hl k Hk. apply elem_of_app. destruct (decide (k = key)) as [->|Hne]; [right; by apply list_elem_of_singleton|left].
  apply Hl. by rewrite lookup_insert_ne in Hk.
Qed.

(** A key is removed with its record, so that a second occurrence of it may stay. *)
Lemma covers_remove live m key : covers live m -> key ∈ live ->
  exists live', py_remove key live = Ok live' /\ covers live' (delete key m).
Proof.
  intros Hl Hin. unfold py_remove. destruct (list_find (eq key) live) as [[i x]|] eqn:E.
  - apply list_find_Some in E as (Hi & <- & _). eexists. split; [done|]. intros k Hk.
    assert (k <> key) as Hne by (intros ->; rewrite lookup_delete_eq in Hk; by apply is_Some_None in Hk).
    rewrite lookup_delete_ne in Hk by done. apply Hl in Hk. rewrite (delete_Permutation _ _ _ Hi) in Hk.
    by apply elem_of_cons in Hk as [->|Hk].
  - apply list_find_None in E. rewrite Forall_forall in E. by apply E in Hin.
Qed.

(** What a loop has done: a call for each iteration. *)
Inductive BenchOp :=
  | OPut (key value : bytes)
  | OGet (key : bytes)
  | ODelete (key : bytes)
  | OScan.

Definition op_effect (op : BenchOp) (m : gmap bytes bytes) : gmap bytes bytes :=
  match op with
  | OPut key value => <[key := value]> m
  | ODelete key => delete key m
  | OGet _ | OScan => m
  end.

(** The records left by [ops], the first one first. *)
Definition ops_effect (ops : list BenchOp) (m : gmap bytes bytes) : gmap bytes bytes := foldl (fun m op => op_effect op m) m ops.

(** The bytes the user has put. *)
Definition op_bytes (op : BenchOp) : Z := match op with OPut key value => len key + len value | _ => 0 end.
Definition ops_bytes (ops : list BenchOp) : Z := foldr (fun op n => op_bytes op + n) 0 ops.

Lemma ops_effect_app ops1 ops2 m : ops_effect (ops1 ++ ops2) m = ops_effect ops2 (ops_effect ops1 m).
Proof. apply foldl_app. Qed.

Lemma ops_bytes_snoc ops op : ops_bytes (ops ++ [op]) = ops_bytes ops + op_bytes op.
Proof. induction ops as [|o ops IH]; simpl; [lia|]. rewrite IH. lia. Qed.

(** The calls a workload is made of, puts of keys and values of its sizes. *)
Definition sized_put (op : BenchOp) : Prop :=
  match op with OPut key value => len key = key_size params /\ len value = value_size params | _ => False end.
Definition mixed_op (op : BenchOp) : Prop := match op with OPut _ _ => sized_put op | OGet _ | ODelete _ => True | OScan => False end.
Definition churn_op (op : BenchOp) : Prop := match op with OPut _ _ => sized_put op | ODelete _ => True | _ => False end.

(** The tally of a loop that has made the calls [ops], all of the kind [P], on
    the records [m0], of which it has left [m]. *)
Record history (P : BenchOp -> Prop) (m0 : gmap bytes bytes) (ops : list BenchOp) (t : Tally) (m : gmap bytes bytes) : Prop := {
  hi_latencies : len (ty_latencies t) = len ops;
  hi_user_bytes : ty_user_bytes t = ops_bytes ops;
  hi_kind : Forall P ops;
  hi_map : m = ops_effect ops m0;
}.

Lemma history_next P m0 ops t t' m op : history P m0 ops t m -> P op -> len (ty_latencies t') = len (ty_latencies t) + 1 ->
  ty_user_bytes t' = ty_user_bytes t + op_bytes op -> history P m0 (ops ++ [op]) t' (op_effect op m).
Proof.
  intros [Hl Hu Hk ->] Hop El Eu. split.
  - by rewrite El, len_app, Hl.
  - by rewrite Eu, Hu, ops_bytes_snoc.
  - by apply Forall_app_2, Forall_singleton.
  - by rewrite ops_effect_app.
Qed.

Lemma history_snoc P m0 ops t t' m ns op : history P m0 ops t m -> P op -> ty_latencies t' = ty_latencies t ->
  ty_user_bytes t' = ty_user_bytes t + op_bytes op -> history P m0 (ops ++ [op]) (add_latency ns t') (op_effect op m).
Proof. intros Hh Hop El Eu. apply (history_next P m0 ops t); [done|done| |done]. simpl. by rewrite len_app, El. Qed.

Lemma history_start P m0 live : history P m0 [] (no_tally live) m0.
Proof. by split. Qed.

(** The state of a loop of calls of the kind [P], on [m0], with [n - j]
    iterations left, and [k] calls after it. *)
Definition churning (P : BenchOp -> Prop) (m0 : gmap bytes bytes) (n k j : Z) (t : Tally) (d : DB) : Prop :=
  exists ops m, history P m0 ops t m /\ len ops = j /\ ready ps kmax c h (n - j + k) d m /\ covers (ty_live_keys t) m.

Section churn.
Context (P : BenchOp -> Prop) (m0 : gmap bytes bytes).
Context (Hput : forall op, sized_put op -> P op) (Hdel : forall key, P (ODelete key)).

Lemma ends_put_fresh n k j t r : 0 <= j < n -> 0 <= k -> churning P m0 n k j t (run_db r) ->
  ends (put_fresh params t) r (fun t' d => forall ns, churning P m0 n k (j + 1) (add_latency ns t') d).
Proof.
  intros Hj Hk (ops & m & Hh & Hlen & Hr & Hcov). unfold put_fresh. pose proof (so_key Hsizes). pose proof (so_value Hsizes).
  apply ends_bind, ends_randbytes; [lia|]. intros key Hkey r1 E1.
  apply ends_bind, ends_randbytes; [lia|]. intros value Hval r2 E2.
  apply ends_bind, (ends_put (n - (j + 1) + k) m); [rewrite E2, E1; by replace (n - (j + 1) + k + 1) with (n - j + k) by lia|lia|done|done|].
  intros d Hr' r3 E3. apply ends_ret. intros ns. exists (ops ++ [OPut key value]), (<[key := value]> m).
  split; [apply (history_snoc P m0 ops t _ m ns (OPut key value)); [done|by apply Hput|done|done]|]. split; [rewrite len_app, Hlen; done|].
  split; [by rewrite E3|by apply covers_put].
Qed.

Lemma ends_delete_victim n k j t r : 0 <= j < n -> 0 <= k -> churning P m0 n k j t (run_db r) -> ty_live_keys t <> [] ->
  ends (delete_victim t) r (fun t' d => forall ns, churning P m0 n k (j + 1) (add_latency ns t') d).
Proof.
  intros Hj Hk (ops & m & Hh & Hlen & Hr & Hcov) Hne. unfold delete_victim. apply ends_bind, ends_choice; [done|]. intros key Hkey r1 E1.
  rewrite <-E1 in Hr. replace (n - j + k) with (n - (j + 1) + k + 1) in Hr by lia.
  destruct (ready_delete ps kmax Hb Hps c h Hc (n - (j + 1) + k) (run_db r1) m key Hr ltac:(lia)) as (d & E & Hr').
  assert (forall t' ns, ty_latencies t' = ty_latencies t -> ty_user_bytes t' = ty_user_bytes t ->
    history P m0 (ops ++ [ODelete key]) (add_latency ns t') (delete key m)) as Hh'.
  { intros t' ns El Eu. apply (history_snoc P m0 ops t _ m ns (ODelete key)); [done|apply Hdel|done|]. rewrite Eu. simpl. lia. }
  assert (len (ops ++ [ODelete key]) = j + 1) as Hlen' by (rewrite len_app, Hlen; done).
  apply ends_bind, (ends_of_db _ _ _ _ _ E). intros r2 E2. case_bool_decide as Hm.
  - destruct (covers_remove _ m key Hcov Hkey) as (live' & El & Hcov').
    apply ends_bind, (ends_lift _ _ _ _ El). intros r3 E3. apply ends_ret. intros ns.
    eexists _, _. split; [by apply Hh'|]. split; [done|]. split; [by rewrite E3, E2|done].
  - apply ends_ret. intros ns. eexists _, _. split; [by apply Hh'|]. split; [done|]. split; [by rewrite E2|].
    intros k' Hk'. apply Hcov. destruct (decide (k' = key)) as [->|Hne']; [by rewrite lookup_delete_eq in Hk'; apply is_Some_None in Hk'|].
    by rewrite lookup_delete_ne in Hk'.
Qed.
End churn.

(** ** The steps *)

Lemma ends_mixed_rw_step m0 n k j t r : 0 <= j < n -> 0 <= k -> churning mixed_op m0 n k j t (run_db r) ->
  ends (mixed_rw_step params j t) r (churning mixed_op m0 n k (j + 1)).
Proof.
  intros Hj Hk Hch. assert (forall op, sized_put op -> mixed_op op) as Hput by (by intros []).
  unfold mixed_rw_step. apply ends_bind, ends_outside. intros r1 E1. apply ends_timed. intros r2 E2.
  rewrite <-E1, <-E2 in Hch. destruct (ty_live_keys t) as [|key l] eqn:El.
  - cbn [is_empty negb]. rewrite !andb_false_r. by apply ends_put_fresh.
  - cbn [is_empty negb]. rewrite !andb_true_r. rewrite <-El. assert (ty_live_keys t <> []) as Hne by (by rewrite El).
    destruct (f64_ltb _ (read_pct params)); [|destruct (f64_ltb _ _); [by apply ends_delete_victim|by apply ends_put_fresh]].
    destruct Hch as (ops & m & Hh & Hlen & Hr & Hcov). apply ends_bind, ends_choice; [done|]. intros key' _ r3 E3. rewrite <-E3 in Hr.
    replace (n - j + k) with (n - (j + 1) + k + 1) in Hr by lia.
    destruct (ready_get ps kmax Hb Hps c h Hc _ _ _ key' Hr ltac:(lia)) as (d & E & Hr').
    apply ends_bind, (ends_of_db _ _ _ _ _ E). intros r4 E4. apply ends_ret. intros ns.
    exists (ops ++ [OGet key']), m. split; [apply (history_snoc mixed_op m0 ops t _ m ns (OGet key')); [done|done|done|simpl; lia]|].
    split; [rewrite len_app, Hlen; done|]. split; [by rewrite E4|done].
Qed.

Lemma ends_delete_churn_step m0 n k j t r : 0 <= j < n -> 0 <= k -> churning churn_op m0 n k j t (run_db r) ->
  ends (delete_churn_step params j t) r (churning churn_op m0 n k (j + 1)).
Proof.
  intros Hj Hk Hch. assert (forall op, sized_put op -> churn_op op) as Hput by (by intros []).
  unfold delete_churn_step. apply ends_bind, ends_outside. intros r1 E1. apply ends_timed. intros r2 E2.
  rewrite <-E1, <-E2 in Hch. destruct (is_empty (ty_live_keys t)) eqn:El; [by apply ends_put_fresh|].
  cbn [negb andb]. destruct (f64_ltb _ _); [|by apply ends_put_fresh]. apply ends_delete_victim; [done..|].
  intros E. by rewrite E in El.
Qed.

Definition is_scan (op : BenchOp) : Prop := op = OScan.

Definition scanning (m : gmap bytes bytes) (j : Z) (t : Tally) (d : DB) : Prop :=
  exists ops, history is_scan m ops t m /\ len ops = j /\ ready ps kmax c h 0 d m.

Lemma ends_scan_heavy_step m j t r : scanning m j t (run_db r) -> ends (scan_heavy_step params j t) r (scanning m (j + 1)).
Proof.
  intros (ops & Hh & Hlen & Hr). unfold scan_heavy_step. apply ends_timed. intros r1 E1. rewrite <-E1 in Hr.
  destruct (ready_scan ps kmax Hb c h _ _ _ (scan_limit params) Hr) as (d & E & Hr').
  apply ends_bind, (ends_of_db _ _ _ _ _ E). intros r2 E2. apply ends_ret. intros ns. exists (ops ++ [OScan]).
  split; [apply (history_snoc is_scan m ops t _ m ns OScan); [done|done|done|simpl; lia]|].
  split; [rewrite len_app, Hlen; done|by rewrite E2].
Qed.

(** ** Loading *)

(** Puts of [put_bytes], counted after the clock is read. *)
Lemma ends_counted_put k m t r (key value : bytes) (Q : Tally -> DB -> Prop) :
  ready ps kmax c h (k + 1) (run_db r) m -> 0 <= k -> len key = key_size params -> len value = value_size params ->
  (forall t' d, len (ty_latencies t') = len (ty_latencies t) + 1 ->
     ty_user_bytes t' = ty_user_bytes t + (key_size params + value_size params) -> ready ps kmax c h k d (<[key := value]> m) -> Q t' d) ->
  ends (t ← timed (put_bytes key value;; mret t); mret (add_user_bytes (len key + len value) t)) r Q.
Proof.
  intros Hr Hk Hkey Hval HQ. apply ends_bind, ends_timed. intros r1 E1. rewrite <-E1 in Hr.
  apply ends_bind, (ends_put k m); [done..|]. intros d Hd r2 E2. apply ends_ret. intros ns r3 E3. apply ends_ret.
  apply HQ; [simpl; by rewrite len_app|simpl; lia|by rewrite E3, E2].
Qed.

(** The state of a loading loop. *)
Definition loading (n : Z) (j : Z) (t : Tally) (d : DB) : Prop :=
  exists ops m, history sized_put ∅ ops t m /\ len ops = j /\ ready ps kmax c h (n - j) d m.

Lemma loading_put n j (key value : bytes) ops m t t' d : history sized_put ∅ ops t m -> len ops = j ->
  len key = key_size params -> len value = value_size params -> len (ty_latencies t') = len (ty_latencies t) + 1 ->
  ty_user_bytes t' = ty_user_bytes t + (key_size params + value_size params) ->
  ready ps kmax c h (n - (j + 1)) d (<[key := value]> m) -> loading n (j + 1) t' d.
Proof.
  intros Hh Hlen Hkey Hval El Eu Hr. exists (ops ++ [OPut key value]), (<[key := value]> m). split; [|split; [|done]].
  - apply (history_next sized_put ∅ ops t _ m (OPut key value)); [done|done|done|simpl; lia].
  - rewrite len_app, Hlen. done.
Qed.

Lemma ends_random_put_step n j t r : 0 <= j < n -> loading n j t (run_db r) -> ends (random_put_step params j t) r (loading n (j + 1)).
Proof.
  intros Hj (ops & m & Hh & Hlen & Hr). unfold random_put_step. pose proof (so_key Hsizes). pose proof (so_value Hsizes).
  apply ends_bind, ends_randbytes; [lia|]. intros key Hkey r1 E1. apply ends_bind, ends_randbytes; [lia|]. intros value Hval r2 E2.
  rewrite <-E1, <-E2 in Hr. replace (n - j) with (n - (j + 1) + 1) in Hr by lia.
  apply (ends_counted_put (n - (j + 1)) m); [done|lia|done|done|]. intros t' d El Eu Hr'. by eapply loading_put.
Qed.

Lemma ends_sequential_put_step n value j t r : len value = value_size params -> 0 <= j < n -> loading n j t (run_db r) ->
  ends (sequential_put_step params value j t) r (loading n (j + 1)).
Proof.
  intros Hval Hj (ops & m & Hh & Hlen & Hr). unfold sequential_put_step.
  destruct (make_sequential_key_total j (key_size params) ltac:(apply Hsizes)) as (key & E & Hkey).
  apply ends_bind, (ends_lift _ _ _ _ E). intros r1 E1. rewrite <-E1 in Hr. replace (n - j) with (n - (j + 1) + 1) in Hr by lia.
  apply (ends_counted_put (n - (j + 1)) m); [done|lia|done|done|]. intros t' d El Eu Hr'. by eapply loading_put.
Qed.

(** The state of a preloading loop, [k] calls to follow. *)
Definition preloading (n k j : Z) (t : Tally) (d : DB) : Prop :=
  exists ops, Forall sized_put ops /\ len ops = j /\ ready ps kmax c h (n - j + k) d (ops_effect ops ∅) /\
    covers (ty_live_keys t) (ops_effect ops ∅).

Lemma ends_preload_step n k j t r : 0 <= j < n -> 0 <= k -> preloading n k j t (run_db r) ->
  ends (preload_step params j t) r (preloading n k (j + 1)).
Proof.
  intros Hj Hk (ops & Hops & Hlen & Hr & Hcov). unfold preload_step. pose proof (so_key Hsizes). pose proof (so_value Hsizes).
  apply ends_bind, ends_randbytes; [lia|]. intros key Hkey r1 E1. apply ends_bind, ends_randbytes; [lia|]. intros value Hval r2 E2.
  rewrite <-E1, <-E2 in Hr. replace (n - j + k) with (n - (j + 1) + k + 1) in Hr by lia.
  apply ends_bind, (ends_put (n - (j + 1) + k) (ops_effect ops ∅)); [done|lia|done|done|]. intros d Hr' r3 E3. apply ends_ret.
  exists (ops ++ [OPut key value]). rewrite ops_effect_app. split; [by apply Forall_app_2, Forall_singleton|].
  split; [rewrite len_app, Hlen; done|]. split; [by rewrite E3|by apply covers_put].
Qed.

(** ** The runners *)

(** The calls that may change something, or are measured. *)
Definition calls_of : Z := Z.max 0 (preload_n params) + Z.max 0 (n_ops params) + Z.max 0 (n_scans params).

Definition measured_ops (name : string) : Z :=
  Z.max 0 (if decide (name = "scan-heavy"%string) then n_scans params else n_ops params).

(** The records put before the measurement. *)
Definition preloads (name : string) : Z :=
  Z.max 0 (if decide (name ∈ ["mixed-rw"; "scan-heavy"; "delete-churn"]%string) then preload_n params else 0).

(** The calls a workload makes: the put workloads nothing but puts. *)
Definition op_kind (name : string) : BenchOp -> Prop :=
  if decide (name = "mixed-rw"%string) then mixed_op
  else if decide (name = "delete-churn"%string) then churn_op
  else if decide (name = "scan-heavy"%string) then is_scan
  else sized_put.

(** The calls of a run: [pre] before the measurement, [ops] measured. *)
Record traced (npre n : Z) (kind : BenchOp -> Prop) (pre ops : list BenchOp) : Prop := {
  tc_preload : len pre = npre;
  tc_preload_puts : Forall sized_put pre;
  tc_ops : len ops = n;
  tc_kind : Forall kind ops;
}.

Definition trace (name : string) : list BenchOp -> list BenchOp -> Prop := traced (preloads name) (measured_ops name) (op_kind name).

(** What a runner gives: a latency for each operation, the bytes of the records
    put meanwhile, and a database that still serves and holds what the calls
    leave. *)
Definition run_outcome (npre n : Z) (kind : BenchOp -> Prop) (out : list Z * Z) (d : DB) : Prop :=
  exists pre ops, traced npre n kind pre ops /\ len out.1 = n /\ out.2 = ops_bytes ops /\
    ready ps kmax c h 0 d (ops_effect (pre ++ ops) ∅).

Definition runs_out (npre n : Z) (kind : BenchOp -> Prop) (runner : M (Run (W := W)) (list Z * Z)) : Prop := forall r,
  ready ps kmax c h calls_of (run_db r) ∅ -> ends runner r (run_outcome npre n kind).

Lemma churning_outcome pre npre kind n k t d : len pre = npre -> Forall sized_put pre ->
  churning kind (ops_effect pre ∅) n k n t d -> 0 <= k -> run_outcome npre n kind (measured t) d.
Proof.
  intros Hpre Hpp (ops & m & [Hl Hu Hkind ->] & Hlen & Hr & _) Hk. exists pre, ops. split; [by split|].
  split; [simpl; by rewrite Hl|]. split; [done|]. rewrite ops_effect_app. eapply ready_weaken; [|exact Hr]. lia.
Qed.

(** Preloading and the reset of the counters, with [k] calls to follow. *)
Lemma ends_preloaded k ctx r (rest : list bytes -> M Run (list Z * Z)) Q :
  ready ps kmax c h (Z.max 0 (preload_n params) + k) (run_db r) ∅ -> 0 <= k ->
  (forall live pre r', len pre = Z.max 0 (preload_n params) -> Forall sized_put pre ->
    ready ps kmax c h k (run_db r') (ops_effect pre ∅) -> covers live (ops_effect pre ∅) -> ends (rest live) r' Q) ->
  ends (live_keys ← preload (preload_n params) params ctx; of_db reset_stats;; rest live_keys) r Q.
Proof.
  intros Hr Hk Hrest. unfold preload. apply ends_bind, ends_bind. set (n := preload_n params) in *.
  eapply ends_mono; [apply (ends_progress _ _ n _ _ (preloading (Z.max 0 n) k))|].
  - intros j t r' Hj. apply ends_preload_step; lia.
  - exists []. split; [done|]. split; [done|]. split; [by replace (Z.max 0 n - 0 + k) with (Z.max 0 n + k) by lia|].
    intros key [v Hv]. change ((∅ : gmap bytes bytes) !! key = Some v) in Hv. by rewrite lookup_empty in Hv.
  - intros t d (pre & Hpp & Hpre & Hm & Hcov) r1 E1. apply ends_ret. intros r2 E2. rewrite <-E1, <-E2 in Hm.
    replace (Z.max 0 n - Z.max 0 n + k) with k in Hm by lia. destruct (ready_reset ps kmax c h k _ _ Hm) as (d' & E & Hm').
    apply ends_bind, (ends_of_db _ _ _ _ _ E). intros r3 E3. apply (Hrest _ pre); [done|done|by rewrite E3|done].
Qed.

(** A churning loop after a preload. *)
Lemma churn_runs kind step ctx : (forall m0 n j t r, 0 <= j < n -> churning kind m0 n 0 j t (run_db r) ->
    ends (step j t) r (churning kind m0 n 0 (j + 1))) ->
  runs_out (Z.max 0 (preload_n params)) (Z.max 0 (n_ops params)) kind
    (live_keys ← preload (preload_n params) params ctx; of_db reset_stats;;
     t ← with_progress ctx "measure" (n_ops params) step (no_tally live_keys); mret (measured t)).
Proof.
  intros Hstep r Hr. set (n := n_ops params) in *. apply (ends_preloaded (Z.max 0 n)).
  - eapply ready_weaken; [|exact Hr]. unfold calls_of. lia.
  - lia.
  - intros live pre r1 Hpre Hpp Hm Hcov. apply ends_bind.
    eapply ends_mono; [apply (ends_progress _ _ n _ _ (churning kind (ops_effect pre ∅) (Z.max 0 n) 0))|].
    + intros j t r2 Hj. apply Hstep; lia.
    + exists [], (ops_effect pre ∅). split; [apply history_start|]. split; [done|].
      split; [by replace (Z.max 0 n - 0 + 0) with (Z.max 0 n) by lia|done].
    + intros t d Hd r2 E2. apply ends_ret. rewrite E2. by eapply churning_outcome.
Qed.

Lemma mixed_rw_runs ctx : runs_out (Z.max 0 (preload_n params)) (Z.max 0 (n_ops params)) mixed_op (run_mixed_rw params ctx).
Proof. apply churn_runs. intros m0 n j t r Hj. by apply ends_mixed_rw_step. Qed.

Lemma delete_churn_runs ctx : runs_out (Z.max 0 (preload_n params)) (Z.max 0 (n_ops params)) churn_op (run_delete_churn params ctx).
Proof. apply churn_runs. intros m0 n j t r Hj. by apply ends_delete_churn_step. Qed.

Lemma ops_bytes_scans ops : Forall is_scan ops -> ops_bytes ops = 0.
Proof. induction 1 as [|op ops -> _ IH]; [done|exact IH]. Qed.

Lemma scan_heavy_runs ctx : runs_out (Z.max 0 (preload_n params)) (Z.max 0 (n_scans params)) is_scan (run_scan_heavy params ctx).
Proof.
  intros r Hr. unfold run_scan_heavy. set (n := n_scans params) in *. apply (ends_preloaded 0 _ _ (fun _ => _)).
  - eapply ready_weaken; [|exact Hr]. unfold calls_of. lia.
  - lia.
  - intros live pre r1 Hpre Hpp Hm _. apply ends_bind.
    eapply ends_mono; [apply (ends_progress _ _ n _ _ (scanning (ops_effect pre ∅)))|].
    + intros j t r2 Hj. apply ends_scan_heavy_step.
    + exists []. split; [apply history_start|done].
    + intros t d (ops & [Hl Hu Hkind Hm'] & Hlen & Hr') r2 E2. apply ends_ret. exists pre, ops. split; [by split|].
      split; [simpl; by rewrite Hl|]. split; [by rewrite ops_bytes_scans|]. by rewrite ops_effect_app, <-Hm', E2.
Qed.

Lemma loading_runs n ctx body : (forall j t r, 0 <= j < n -> loading (Z.max 0 n) j t (run_db r) -> ends (body j t) r (loading (Z.max 0 n) (j + 1))) ->
  Z.max 0 n <= calls_of ->
  runs_out 0 (Z.max 0 n) sized_put (t ← with_progress ctx "measure" n body (no_tally []); mret (measured t)).
Proof.
  intros Hbody Hn r Hr. apply ends_bind. eapply ends_mono; [apply (ends_progress _ _ n _ _ (loading (Z.max 0 n)))|].
  - done.
  - exists [], ∅. split; [apply history_start|]. split; [done|]. eapply ready_weaken; [|exact Hr]. lia.
  - intros t d (ops & m & [Hl Hu Hkind ->] & Hlen & Hm) r2 E2. apply ends_ret. exists [], ops. split; [by split|].
    split; [simpl; by rewrite Hl|]. split; [done|]. rewrite E2. by replace (Z.max 0 n - Z.max 0 n) with 0 in Hm by lia.
Qed.

Lemma random_put_runs ctx : runs_out 0 (Z.max 0 (n_ops params)) sized_put (run_random_put params ctx).
Proof.
  apply loading_runs; [|unfold calls_of; lia]. intros j t r Hj. apply ends_random_put_step. lia.
Qed.

Lemma sequential_put_runs ctx : runs_out 0 (Z.max 0 (n_ops params)) sized_put (run_sequential_put params ctx).
Proof.
  apply loading_runs; [|unfold calls_of; lia]. intros j t r Hj. apply ends_sequential_put_step; [|lia].
  unfold len. rewrite length_replicate. pose proof (so_value Hsizes). lia.
Qed.

Lemma dict_get_in {A} name (d : list (string * A)) a : dict_get name d = Ok a -> (name, a) ∈ d.
Proof.
  unfold dict_get. destruct (list_find _ d) as [[i [n x]]|] eqn:E; [|done]. intros [= ->].
  apply list_find_Some in E as (Hi & Hn & _). simpl in Hn. subst. by eapply list_elem_of_lookup_2.
Qed.

Lemma runners_run ctx : Forall (fun e => runs_out (preloads e.1) (measured_ops e.1) (op_kind e.1) (e.2 params ctx)) RUNNERS.
Proof.
  repeat constructor; [apply sequential_put_runs|apply random_put_runs|apply mixed_rw_runs|apply scan_heavy_runs
    |apply delete_churn_runs|apply random_put_runs].
Qed.
End runners.
