(* ===== verification/BenchShape.v ===== *)
(** * The measured shape of the tree

    What the script reports of the tree is what the tree is: its levels, its
    leaves and its internal pages. *)

From stdpp Require Import strings.
From S2P Require Import Prelude Bytes Float64 Entities Codec Fs Pager Cache Tree Wal Db Debug.
From S2P Require Import PagerFacts CacheFacts TreeSizes TreeShape TreeSteps TreeStore TreeFind TreeBalance TreeBorrow TreeOps TreeFrame TreeHeight TreeBudget TreePages TreeReads.
From S2P Require Import DebugWalk DebugFacts DbFacts DbCheckpoint DbDurable DbOps DbRecovery DbClient Bench BenchFacts BenchRuns.

(** ** The walk leaves the file alone *)

Lemma moves_page_id_to_node id : moves StillFrame (page_id_to_node id).
Proof. unfold page_id_to_node. moves_tac. Qed.
#[export] Hint Resolve moves_page_id_to_node : moves.

Lemma moves_add_children n level ids : forall w, moves StillFrame (add_children n level w ids).
Proof. induction ids as [|id ids IH]; intros w; simpl; unfold add_child; moves_tac. Qed.
#[export] Hint Resolve moves_add_children : moves.

Lemma moves_bfs_loop fuel : forall w, moves StillFrame (bfs_loop fuel w).
Proof. induction fuel as [|fuel IH]; intros w; cbn [bfs_loop]; moves_tac; try apply IH. Qed.
#[export] Hint Resolve moves_bfs_loop : moves.

Lemma moves_walk : moves StillFrame bfs_walk_tree.
Proof. unfold bfs_walk_tree. moves_tac. Qed.

(** ** Counting pages *)

Definition is_node (t : tree) : bool := match t with Node _ _ _ => true | Leaf _ _ _ => false end.

(** The pages of the trees [ts], in order. *)
Definition pages_of (ps : list Page) (ts : list tree) : Prop := Forall2 (fun p t => erase p = root_of t) ps ts.

Lemma pages_of_leaves ps ts : pages_of ps ts -> Forall (uniform 0) ts -> count_pages is_leaf ps = len ts /\ count_pages is_internal ps = 0 /\
  filter (fun p => is_leaf p = true) ps = ps.
Proof.
  unfold count_pages, len. induction 1 as [|p t ps ts Hp Hps IH]; [done|]. intros [Ht Hts]%Forall_cons.
  apply uniform_leaf in Ht as (id & link & slots & ->). apply erase_leaf in Hp as (lsn & ->). destruct (IH Hts) as (E1 & E2 & E3).
  rewrite !(filter_cons_True (fun p => is_leaf p = true)), (filter_cons_False (fun p => is_internal p = true)) by done.
  rewrite E3 in *. split; [simpl; lia|]. split; [exact E2|done].
Qed.

Lemma pages_of_nodes ps ts : pages_of ps ts -> Forall (fun t => is_node t = true) ts -> count_pages is_internal ps = len ts.
Proof.
  unfold count_pages, len. induction 1 as [|p t ps ts Hp Hps IH]; [done|]. intros [Ht Hts]%Forall_cons. specialize (IH Hts).
  destruct t as [|id c kids]; [done|]. apply erase_internal in Hp as (lsn & ->).
  rewrite (filter_cons_True (fun p => is_internal p = true)) by done. simpl. lia.
Qed.

Lemma count_pages_app f l1 l2 : count_pages f (l1 ++ l2) = count_pages f l1 + count_pages f l2.
Proof. unfold count_pages. by rewrite filter_app, len_app. Qed.

(** The LSN of a page does not tell its kind. *)
Lemma count_pages_of f ps ts : (forall p, f (erase p) = f p) -> pages_of ps ts -> count_pages f ps = count_pages f (root_of <$> ts).
Proof.
  intros Hf. unfold count_pages. induction 1 as [|p t ps ts Hp _ IH]; [done|]. rewrite fmap_cons, !filter_cons, <-Hp, Hf.
  case_decide; [|done]. rewrite !len_cons. by rewrite IH.
Qed.

Lemma count_pages_perm f l1 l2 : l1 ≡ₚ l2 -> count_pages f l1 = count_pages f l2.
Proof. intros Hp. unfold count_pages, len. by rewrite Hp. Qed.

(** Every page is on one level. *)
Lemma levels_nodes h : forall l, Forall (uniform h) l -> root_of <$> concat (tree_levels h l) ≡ₚ (flat_map nodes l).*2.
Proof.
  assert (forall l, (flat_map nodes l).*2 ≡ₚ (root_of <$> l) ++ (flat_map nodes (next_level l)).*2) as Hstep.
  { induction l as [|t l IH]; [done|]. cbn [flat_map next_level]. rewrite nodes_subtrees. fold (next_level l).
    rewrite flat_map_app, !fmap_app, !fmap_cons, IH. simpl. f_equiv. rewrite !app_assoc. f_equiv. apply Permutation_app_comm. }
  induction h as [|h IH]; intros l Hu; rewrite Hstep.
  - rewrite (next_level_leaves l Hu). simpl. by rewrite !app_nil_r.
  - cbn [tree_levels concat]. rewrite fmap_app. f_equiv. apply IH. by apply uniform_next.
Qed.

Lemma count_leaf_internal l : Forall tree_page l -> count_pages is_leaf l + count_pages is_internal l = len l.
Proof.
  unfold count_pages. induction 1 as [|p l Hp Hl IH]; [done|].
  rewrite !filter_cons, len_cons. destruct p; try done; simpl; rewrite ?len_cons; lia.
Qed.

Lemma node_pages T e : e ∈ nodes T -> tree_page e.2.
Proof.
  induction T as [id link slots|id c kids IHc IHk] using tree_induction; intros He.
  - by apply list_elem_of_singleton in He as ->.
  - rewrite nodes_Node, elem_of_cons, elem_of_app in He. destruct He as [->|[He|He]]; [done|auto|].
    apply kids_nodes_elem in He as (kt & Hk & He). rewrite Forall_forall in IHk. by apply (IHk kt).
Qed.

(** All levels but the last are of internal pages. *)
Lemma inner_levels h : forall l, Forall (uniform h) l ->
  exists ls ts, tree_levels h l = ls ++ [ts] /\ Forall (fun t => is_node t = true) (concat ls) /\ Forall (uniform 0) ts /\ length ls = h /\
    (l <> [] -> ts <> []).
Proof.
  induction h as [|h IH]; intros l Hu; [by exists [], l|].
  destruct (IH (next_level l) (uniform_next _ _ Hu)) as (ls & ts & E & Hi & Hts & Hl & Hne). exists (l :: ls), ts.
  simpl. rewrite E, Hl. split; [done|]. split; [|split; [done|split; [done|]]].
  - apply Forall_app. split; [|done]. eapply Forall_impl; [exact Hu|]. by intros [] Ht.
  - intros Hl'. apply Hne. destruct l as [|t l]; [done|]. apply Forall_cons in Hu as [Ht _]. by destruct t.
Qed.

Lemma roots_leaves ts : Forall (uniform 0) ts -> count_pages is_leaf (root_of <$> ts) = len ts.
Proof.
  unfold count_pages. induction 1 as [|t ts Ht Hts IH]; [done|]. apply uniform_leaf in Ht as (id & link & slots & ->).
  rewrite fmap_cons, filter_cons_True, !len_cons by done. lia.
Qed.

Lemma roots_nodes ts : Forall (fun t => is_node t = true) ts -> count_pages is_leaf (root_of <$> ts) = 0.
Proof.
  unfold count_pages. induction 1 as [|t ts Ht Hts IH]; [done|]. destruct t; [done|]. by rewrite fmap_cons, filter_cons_False by done.
Qed.

(** ** The loops of the snapshot *)

Lemma mapM_runs {S A B C} (f : A -> M S B) (Q : B -> C -> Prop) s l cs :
  Forall2 (fun a c => exists b, f a s = (s, Ok b) /\ Q b c) l cs ->
  exists bs, mapM f l s = (s, Ok bs) /\ Forall2 Q bs cs.
Proof.
  induction 1 as [|a c l cs (b & E & HQ) _ (bs & E2 & HQ2)]; [by exists []|].
  exists (b :: bs). split; [|by constructor]. simpl. by rewrite (bind_Ok _ _ _ _ _ E), (bind_Ok _ _ _ _ _ E2).
Qed.

Lemma leaf_fills_ok page_size l : page_size <> 0 -> exists fs, mapM (leaf_fill page_size) l = Ok fs /\ length fs = length l.
Proof.
  intros Hps. induction l as [|p l (fs & E & El)]; [by exists []|].
  assert (exists f, leaf_fill page_size p = Ok f) as [f Ef].
  { unfold leaf_fill, f64_div_int. rewrite (proj2 (Z.eqb_neq _ _)) by done. by eexists. }
  exists (f :: fs). simpl. rewrite Ef. cbn [mbind Result_bind]. rewrite E. split; [done|simpl; by rewrite El].
Qed.

(** ** The snapshot *)

Section snapshot.
Context (ps kmax : Z) (Hb : GoodBounds ps kmax) (Hps : ps < 2 ^ 32) (h : nat).

(** The shape is that of the tree [T], no higher than [h]. *)
Record shape_of (T : tree) (s : TreeShape) : Prop := {
  sh_depth : exists k, (k <= h)%nat /\ uniform k T /\ depth s = Z.of_nat k + 1;
  sh_leaves : 1 <= leaf_pages s;
  sh_leaf_pages : leaf_pages s = count_pages is_leaf (nodes T).*2;
  sh_internal_pages : internal_pages s = count_pages is_internal (nodes T).*2;
}.

Lemma shape_pages T s : shape_of T s -> leaf_pages s + internal_pages s = len (nodes T).
Proof.
  intros [_ _ -> ->]. rewrite count_leaf_internal; [unfold len; by rewrite length_fmap|].
  apply Forall_fmap, Forall_forall. intros e He. by apply (node_pages T).
Qed.

(** Reading the pages of a level. *)
Lemma level_pages_ok T D tr k w gs kids l ts : Rep ∅ ∅ (tr_store tr) D (nodes T) ->
  Materialized (tr_store tr) w gs kids (tree_levels k [T]) -> at_indices gs l ts ->
  exists pages, level_pages w l tr = (tr, Ok pages) /\ pages_of pages ts.
Proof.
  intros Hr Hm Hl. apply mapM_runs. eapply Forall2_impl; [exact Hl|]. intros i t Hi.
  destruct (node_ok T D tr k Hr w gs kids Hm i t Hi) as (nd & p & En & _ & Ep & Hp & _).
  exists p. by rewrite (bind_Ok _ _ _ _ _ En).
Qed.

Lemma pages_of_concat pss tss : Forall2 pages_of pss tss -> pages_of (concat pss) (concat tss).
Proof. induction 1 as [|p t pss tss Hp _ IH]; [constructor|]. by apply Forall2_app. Qed.

Lemma snapshot_ok T n N d D recs : Holding ps kmax T h n N d D recs -> 1 <= n ->
  exists d' s, snapshot_tree_shape d = (d', Ok s) /\ Holding ps kmax T h n N d' D recs /\ same_setup d d' /\ shape_of T s.
Proof.
  intros Hd Hn. pose proof (holding_budget ps kmax T h n N d D recs Hd) as [Hs Hsl Hle]. pose proof Hs as [Eps Hr Hroot [Hwf Hok] _].
  destruct (holding_low ps kmax Hb T h n N d D recs Hd) as (k & Hkh & Hu).
  destruct (walk_ok T D (n - 1) ltac:(lia) k (db_tree d)) as (s1 & w & gs & kids & E & [Hr1 Hs1] & Hm & Hlen); [|done|done|].
  { split; [done|]. by replace (n - 1 + 1) with n by lia. }
  replace (n - 1 + 1) with n in Hs1 by lia.
  destruct (read_holding ps kmax bfs_walk_tree (Ok w) T h n N d D recs Hd moves_walk) as (d1 & E1 & Hd1 & Hss & _).
  { exists s1. split; [done|]. split; [|done|done]. split; try done; apply Hs. }
  assert (d1 = set_db_store s1 d) as ->.
  { rewrite (in_tree_run _ _ _ _ E) in E1. by injection E1 as <-. }
  set (d1 := set_db_store s1 d) in *. destruct (inner_levels k [T] ltac:(by repeat constructor)) as (ls & ts & El & Hin & Hlf & Hll & Hne).
  specialize (Hne ltac:(done)). pose proof (mt_levels _ _ _ _ _ Hm) as Hlev.
  assert (exists lvls lvl, wk_result w = lvls ++ [lvl] /\ at_indices gs lvl ts) as (lvls & lvl & Ew & Hlvl).
  { rewrite El in Hlev. apply Forall2_app_inv_r in Hlev as (a & b & _ & Hb' & ->). apply Forall2_cons_inv_r in Hb' as (x & l' & Hx & Hnil & ->).
    apply Forall2_nil_inv_r in Hnil as ->. by exists a, x. }
  set (tr1 := db_tree d1).
  assert (exists pss, mapM (level_pages w) (wk_result w) tr1 = (tr1, Ok pss) /\ Forall2 pages_of pss (tree_levels k [T])) as (pss & Ep & Hpss).
  { apply mapM_runs. eapply Forall2_impl; [exact Hlev|]. intros l us Hl. by eapply level_pages_ok. }
  destruct (level_pages_ok T D tr1 k w gs kids lvl ts Hr1 Hm Hlvl) as (last & Elast & Hlast).
  destruct (pages_of_leaves _ _ Hlast Hlf) as (Hcl & Hci & Hfil).
  assert (pg_page_size_bytes (st_pager (db_store d1)) = ps) as Epsz.
  { rewrite <-Eps. apply (si_ps _ _ _ (rep_inv _ _ _ _ _ Hr1)). }
  destruct (leaf_fills_ok ps last ltac:(pose proof (gb_ps _ _ Hb) as [? _]; lia)) as (fills & Ef & Hfl).
  assert (1 <= len ts) as Hts by (destruct ts; [done|unfold len; simpl; lia]).
  assert (length last = length ts) as Hlt by (by apply Forall2_length in Hlast).
  destruct (f64_div_ok (f64_sum fills) (f64_of_int (len fills))) as [avg Eavg]; [unfold len in *; simpl; lia|].
  exists d1, {| depth := len (wk_result w); leaf_pages := count_pages is_leaf last; internal_pages := count_pages is_internal (concat pss);
    avg_leaf_fill := avg |}.
  split; [|split; [done|split; [done|]]].
  - unfold snapshot_tree_shape. rewrite (bind_Ok _ _ _ _ _ E1).
    assert (lift (py_get (wk_result w) (-1)) d1 = (d1, Ok lvl)) as Eg by (unfold lift; by rewrite Ew, py_get_last).
    destruct (wk_result w) as [|r0 rs] eqn:Er; [by destruct lvls|]. rewrite (bind_Ok _ _ _ _ _ Eg).
    assert (in_tree (mapM (level_pages w) (r0 :: rs)) d1 = (d1, Ok pss)) as -> % (bind_Ok _ _ _ _ _) by (by apply in_tree_same).
    assert (in_tree (level_pages w lvl) d1 = (d1, Ok last)) as -> % (bind_Ok _ _ _ _ _) by (by apply in_tree_same).
    rewrite (bind_Ok (gets _) _ d1 d1 _ eq_refl), Epsz, Hfil.
    assert (lift (mapM (leaf_fill ps) last) d1 = (d1, Ok fills)) as -> % (bind_Ok _ _ _ _ _) by (unfold lift; by rewrite Ef).
    destruct fills as [|f fills]; [unfold len in *; simpl in Hfl; lia|].
    assert (lift (f64_div (f64_sum (f :: fills)) (f64_of_int (len (f :: fills)))) d1 = (d1, Ok avg)) as -> % (bind_Ok _ _ _ _ _)
      by (unfold lift; by rewrite Eavg). done.
  - assert (root_of <$> concat (tree_levels k [T]) ≡ₚ (nodes T).*2) as Hnodes.
    { rewrite levels_nodes by (by repeat constructor). simpl. by rewrite app_nil_r. }
    split; cbn [depth leaf_pages internal_pages].
    + exists k. split; [done|]. split; [done|]. unfold len. rewrite (Forall2_length _ _ _ Hlev), tree_levels_length. lia.
    + lia.
    + rewrite <-(count_pages_perm _ _ _ Hnodes), El, concat_app, fmap_app, count_pages_app, Hcl.
      cbn [concat]. rewrite app_nil_r, (roots_leaves ts Hlf), (roots_nodes _ Hin). lia.
    + rewrite <-(count_pages_perm _ _ _ Hnodes). apply (count_pages_of is_internal); [by intros []|]. by apply pages_of_concat.
Qed.
End snapshot.
