(* ===== verification/BenchSequential.v ===== *)
(** * What the sequential workload leaves in the database

    With keys that do not run out, the records are those of the numbers, and a
    scan gives them in the order they were put. *)

From Stdlib Require Import Strings.Byte.
From stdpp Require Import strings.
From S2P Require Import Prelude Bytes Float64 Entities Codec Fs Pager Cache Tree Wal Db Bisect.
From S2P Require Import TreeSizes TreeShape TreeScan TreeOps DbClient Bench BenchKeys BenchFacts BenchRuns.

Definition sequential_records (params : WorkloadParams) (n : nat) : list (bytes * bytes) :=
  (., replicate (Z.to_nat (value_size params)) x76) <$> sequential_keys (key_size params) n.

Lemma sequential_records_keys params n : (sequential_records params n).*1 = sequential_keys (key_size params) n.
Proof. unfold sequential_records. rewrite <-list_fmap_compose. apply list_fmap_id. Qed.

Lemma sequential_keys_snoc size n : sequential_keys size (S n) = sequential_keys size n ++ [sequential_key size (Z.of_nat n)].
Proof. unfold sequential_keys. by rewrite seq_S, fmap_app. Qed.

Lemma sequential_keys_sorted size n : 0 <= size -> Z.of_nat n <= 10 ^ size -> keys_lt (sequential_keys size n).
Proof.
  intros Hs. induction n as [|n IH]; intros Hn; [constructor|]. rewrite sequential_keys_snoc. apply keys_lt_app.
  split; [apply IH; lia|]. split; [repeat constructor|]. apply Forall_forall. intros k Hk. apply Forall_singleton.
  apply list_elem_of_fmap in Hk as (i & -> & Hi%elem_of_seq). apply sequential_key_lt; lia.
Qed.

Lemma sequential_records_nodup params n : 0 <= key_size params -> Z.of_nat n <= 10 ^ key_size params ->
  NoDup (sequential_records params n).*1.
Proof. intros Hs Hn. rewrite sequential_records_keys. by apply keys_lt_nodup, sequential_keys_sorted. Qed.

(** A full scan of a map made of a sorted list gives the list. *)
Lemma full_range_sorted l : keys_lt l.*1 -> map_range None None (list_to_map l : gmap bytes bytes) = l.
Proof.
  intros Hl. symmetry. apply map_range_unique; [done|]. intros key value.
  rewrite elem_of_map_range, <-elem_of_list_to_map by (by apply keys_lt_nodup).
  split; [|by intros [? _]]. intros Hin. split; [done|]. split; [by destruct key|done].
Qed.

(** One more record. *)
Lemma sequential_records_insert params n : 0 <= key_size params -> Z.of_nat (S n) <= 10 ^ key_size params ->
  <[sequential_key (key_size params) (Z.of_nat n) := replicate (Z.to_nat (value_size params)) x76]>
    (list_to_map (sequential_records params n) : gmap bytes bytes) = list_to_map (sequential_records params (S n)).
Proof.
  intros Hs Hn. pose proof (sequential_records_nodup params (S n) Hs Hn) as Hnd. unfold sequential_records in *.
  rewrite sequential_keys_snoc, fmap_app in *. simpl in *. rewrite fmap_app in Hnd. simpl in Hnd.
  rewrite list_to_map_snoc; [done|]. apply NoDup_app in Hnd as (_ & Hd & _). intros Hin. apply (Hd _ Hin). left.
Qed.

Section sequential.
Context {W : Type} `{WorldOk W}.
Context (ps kmax : Z) (Hb : GoodBounds ps kmax) (Hps : ps < 2 ^ 32) (c : Config) (h : nat) (Hc : fits_config c h).
Context (params : WorkloadParams) (Hsizes : sizes_ok ps kmax params).
Implicit Types r : Run (W := W).

Definition sequenced (n j : Z) (t : Tally) (d : DB) : Prop :=
  len (ty_latencies t) = j /\ ready ps kmax c h (n - j) d (list_to_map (sequential_records params (Z.to_nat j))).

Lemma sequenced_step n j t r : 0 < key_size params -> n <= 10 ^ key_size params -> 0 <= j < n -> sequenced n j t (run_db r) ->
  ends (sequential_put_step params (replicate (Z.to_nat (value_size params)) x76) j t) r (sequenced n (j + 1)).
Proof.
  intros Hk Hn Hj [Hl Hr]. unfold sequential_put_step. pose proof (so_value _ _ _ Hsizes).
  apply ends_bind, (ends_lift _ _ _ _ (make_sequential_key_ok j _ Hk ltac:(lia))). intros r1 E1. rewrite <-E1 in Hr.
  replace (n - j) with (n - (j + 1) + 1) in Hr by lia.
  apply (ends_counted_put ps kmax Hb Hps c h Hc params Hsizes (n - (j + 1)) _ t _ _ _ _ Hr); [lia|apply sequential_key_len; lia| |].
  { unfold len. rewrite length_replicate. lia. }
  intros t' d El _ Hr'. split; [lia|]. rewrite <-(Z2Nat.id j) in Hr' at 2 by lia.
  rewrite sequential_records_insert in Hr' by lia. by replace (Z.to_nat (j + 1)) with (S (Z.to_nat j)) by lia.
Qed.

Lemma sequential_put_loads ctx r : 0 < key_size params -> 0 <= n_ops params <= 10 ^ key_size params ->
  ready ps kmax c h (n_ops params) (run_db r) ∅ ->
  ends (run_sequential_put params ctx) r (fun out d => len out.1 = n_ops params /\
    ready ps kmax c h 0 d (list_to_map (sequential_records params (Z.to_nat (n_ops params))))).
Proof.
  intros Hk [Hn0 Hn] Hr. unfold run_sequential_put. apply ends_bind.
  eapply ends_mono; [apply (ends_progress _ _ (n_ops params) _ _ (sequenced (n_ops params)))|].
  - intros j t r1 Hj. by apply sequenced_step.
  - split; [done|]. by rewrite Z.sub_0_r.
  - intros t d [Hl Hr'] r2 E2. rewrite Z.max_r in Hl, Hr' by done. apply ends_ret. split; [done|].
    rewrite E2. by rewrite Z.sub_diag in Hr'.
Qed.
End sequential.
