(* ===== verification/BenchMeasure.v ===== *)
(** * A measurement from end to end

    The runner on a fresh database, the snapshot, the flush of the pool, closing,
    and the sizes of the files left. *)

From stdpp Require Import strings.
From S2P Require Import Prelude Bytes Float64 Entities Codec Fs Pager Cache Tree Wal Db Debug.
From S2P Require Import PagerFacts CodecFacts CacheFacts WalFacts TreeSizes TreeShape TreeSteps TreeStore TreeFind TreeBorrow TreeOps TreeHeight TreeBudget TreePages.
From S2P Require Import DbFacts DbCheckpoint DbDurable DbOps DbRecovery DbClient Bench BenchFacts BenchRuns BenchShape.

(** The bytes of a log of one checkpoint record. *)
Definition CHECKPOINT_BYTES : Z := 41.

Lemma checkpoint_wire_len lsn m : len (wires [checkpoint_record lsn m]) = CHECKPOINT_BYTES.
Proof. reflexivity. Qed.

Section measure.
Context {W : Type} `{WorldOk W}.
Context (ps kmax : Z) (Hb : GoodBounds ps kmax) (Hps : ps < 2 ^ 32) (c : Config) (h : nat) (Hc : fits_config c h).
Context (params : WorkloadParams) (Hsizes : sizes_ok ps kmax params).
Implicit Types r : Run (W := W).

(** A database whose tree and log are whole, with its pages written or not. *)
Definition whole (T : tree) (d : DB) : Prop := db_is_opened d = true /\ exists N D recs, DbBase ps kmax T N d D recs /\ 1 <= N.

(** Flushing the pool outside a checkpoint keeps that, although a crash would
    now find other pages on disk. *)
Lemma flush_whole T n N d D recs : Holding ps kmax T h n N d D recs -> 1 <= N ->
  exists d', in_pool flush_all d = (d', Ok tt) /\ whole T d'.
Proof.
  intros [[Hs Hl Hlsn Hcl Hcap] Ho _ _ _ _ _] HN.
  destruct (flush_pool_ok ps kmax T N (db_tree d) D Hs ltac:(by apply (ps_range ps kmax Hb))) as (s1 & D1 & E & Hr1 & Em & _ & Hcfg & _).
  exists (set_db_store s1 d). split; [by apply in_pool_run|]. split; [done|]. exists N, D1, recs. split; [|done].
  destruct Hs as [Eps Hr Hroot Hok Hn]. split; [|done|done|by rewrite Em|].
  - split; [unfold dk_ps in *; by rewrite Em|done|by rewrite Em|done|by rewrite Em].
  - destruct Hcfg as [Hcfg _]. change (bp_capacity_pages (st_pool s1) <> 0). by rewrite Hcfg.
Qed.

Lemma close_whole T d : whole T d -> exists d' f w, db_close d = (d', Ok tt) /\ dir_data (data_dir d') = Some f /\
  dir_wal (data_dir d') = Some w /\ (len (nodes T) + 1) * ps <= len (f_data f) /\ len (f_data w) = CHECKPOINT_BYTES.
Proof.
  intros [Ho (N & D & recs & Hbase & HN)].
  destruct (close_run ps kmax Hb Hps T N d D recs Hbase Ho HN) as (d1 & D1 & d' & Hb1 & _ & _ & E & _ & Edir).
  eexists d', _, _. rewrite Edir. split; [done|]. split; [done|]. split; [done|]. split; [|apply checkpoint_wire_len].
  pose proof (bs_settled _ _ _ _ _ _ _ Hb1) as [Eps Hr _ _ _]. pose proof (si_pager _ _ _ (rep_inv _ _ _ _ _ Hr)) as Hp.
  pose proof (inv_length _ _ _ _ _ Hp) as Hlen. rewrite (si_ps _ _ _ (rep_inv _ _ _ _ _ Hr)), Eps in Hlen. simpl.
  pose proof (inv_next _ _ _ _ _ Hp). pose proof (gb_ps _ _ Hb) as [? _].
  destruct (nodup_below_bound (nodes T).*1 (next_page_id (dk_meta D1)) (rep_nodup _ _ _ _ _ Hr)) as [H'|H'].
  - intros i Hi. apply (rep_usable _ _ _ _ _ Hr). by left.
  - rewrite length_fmap in H'. unfold len in *. nia.
  - lia.
Qed.

(** What the runner and the snapshot give: the calls [pre] and [ops] have left
    their records in the tree [T], whose shape is reported. *)
Definition observed (npre n : Z) (kind : BenchOp -> Prop) (out : list Z * Z) (shape : TreeShape) (T : tree) : Prop :=
  exists pre ops, traced params npre n kind pre ops /\ len out.1 = n /\ out.2 = ops_bytes ops /\
    contents (flat T) = ops_effect (pre ++ ops) ∅ /\ TreeOk ps kmax T /\ shape_of h T shape.

Lemma holding_tree T n N d D recs : Holding ps kmax T h n N d D recs -> TreeOk ps kmax T.
Proof. intros Hd. apply (bs_settled _ _ _ _ _ _ _ (ho_base _ _ _ _ _ _ _ _ _ Hd)). Qed.

(** What is collected while the database is open. *)
Lemma measure_open_ok npre n kind runner r : runs_out ps kmax c h params npre n kind runner ->
  ready ps kmax c h (calls_of params) (run_db r) ∅ ->
  ends (measure_open runner) r (fun '(wall, out, shape, stats) d => exists T, observed npre n kind out shape T /\ whole T d).
Proof.
  intros Hrun Hr. unfold measure_open. apply ends_bind, ends_outside. intros r1 E1. rewrite <-E1 in Hr.
  apply ends_bind. eapply ends_mono; [by apply Hrun|].
  intros out d (pre & ops & Htr & Hlen & Hub & [(N & [(T & D & recs & Hd & Hm) _] & HN) _ _]) r2 E2.
  pose proof (db_cost_pos h). apply ends_bind, ends_outside. intros r3 E3. rewrite <-E2, <-E3 in Hd.
  destruct (snapshot_ok ps kmax Hb h T _ N _ D recs Hd ltac:(lia)) as (d4 & shape & E4 & Hd4 & _ & Hsh).
  apply ends_bind, (ends_of_db _ _ _ _ _ E4). intros r4 E4'. rewrite <-E4' in Hd4.
  destruct (flush_whole T _ N _ D recs Hd4 ltac:(lia)) as (d5 & E5 & Hw).
  apply ends_bind, (ends_of_db _ _ _ _ _ E5). intros r5 E5'. apply ends_bind. exists r5, (run_db r5). split; [done|].
  intros r6 E6. apply ends_ret. exists T. split; [|by rewrite E6, E5']. pose proof (holding_tree _ _ _ _ _ _ Hd). by exists pre, ops.
Qed.

Lemma ends_try_finally {A} (m : M Run A) (f : M DB unit) r (Q : A -> DB -> Prop) :
  ends m r (fun a d => exists d', f d = (d', Ok tt) /\ Q a d') -> ends (try_finally m (of_db f)) r Q.
Proof.
  intros (r' & a & E & d' & Ef & HQ). exists (set_run_db d' r'), a. unfold try_finally. rewrite E.
  unfold of_db, zoom. by rewrite Ef.
Qed.

(** The workloads that only put. *)
Definition put_workloads : list string := ["sequential-put"; "random-put"; "bulk-load"]%string.

(** What a measurement reports.  [ro_run]: there are calls [pre] and [ops] of the
    kinds and in the numbers of the workload, such that the user bytes are those
    of the puts of [ops], and a balanced tree [T] that holds what all the calls
    leave, of which the pages are counted, leaves and internal ones, and which
    is in the data file with the meta page. *)
Record report_ok (name : string) (result : WorkloadResult) : Prop := {
  ro_names : preset_name result = name /\ wr_params result = params /\ wr_page_size_bytes result = ps;
  ro_ops : n_measured_ops result = measured_ops params name;
  ro_latencies : len (latencies_ns result) = measured_ops params name;
  ro_run : exists pre ops T k, trace params name pre ops /\ user_bytes_written result = ops_bytes ops /\
    contents (flat T) = ops_effect (pre ++ ops) ∅ /\ TreeOk ps kmax T /\
    (k <= h)%nat /\ uniform k T /\ depth (tree_shape result) = Z.of_nat k + 1 /\
    leaf_pages (tree_shape result) = count_pages is_leaf (nodes T).*2 /\
    internal_pages (tree_shape result) = count_pages is_internal (nodes T).*2 /\
    (len (nodes T) + 1) * ps <= data_file_bytes result;
  ro_put_bytes : name ∈ put_workloads ->
    user_bytes_written result = measured_ops params name * (key_size params + value_size params);
  ro_scan_bytes : name = "scan-heavy"%string -> user_bytes_written result = 0;
  ro_levels : depth (tree_shape result) - 1 <= internal_pages (tree_shape result);
  ro_wal : wal_file_bytes result = CHECKPOINT_BYTES;
}.

Lemma ops_bytes_puts ops : Forall (sized_put params) ops -> ops_bytes ops = len ops * (key_size params + value_size params).
Proof.
  induction 1 as [|op ops Hop _ IH]; [done|]. rewrite len_cons. destruct op as [key value| | |]; [|done..]. destruct Hop as [Hk Hv].
  change (ops_bytes (OPut key value :: ops)) with (len key + len value + ops_bytes ops). rewrite IH, Hk, Hv. lia.
Qed.

Lemma put_workload_kind name : name ∈ put_workloads -> op_kind params name = sized_put params.
Proof. intros Hin. unfold put_workloads in Hin. repeat (apply elem_of_cons in Hin as [->|Hin]; [done|]). by apply elem_of_nil in Hin. Qed.

(** Each level above the leaves has an internal page. *)
Lemma uniform_internal T : forall k, uniform k T -> Z.of_nat k <= count_pages is_internal (nodes T).*2.
Proof.
  induction T as [id link slots|id c0 kids IHc _] using tree_induction; intros [|k] Hu; try done. destruct Hu as [Hu0 _].
  specialize (IHc k Hu0). rewrite nodes_Node, fmap_cons, fmap_app. unfold count_pages in *.
  rewrite filter_cons_True, len_cons, filter_app, len_app by done.
  pose proof (len_nonneg (filter (fun p => is_internal p = true) (kids_nodes kids).*2)). lia.
Qed.

Lemma measure_files_ok name runner r d : runs_out ps kmax c h params (preloads params name) (measured_ops params name) (op_kind params name) runner ->
  db_open (run_db r) = (d, Ok tt) -> ready ps kmax c h (calls_of params) d ∅ ->
  ends (measure_files name params ps runner) r (fun result _ => report_ok name result).
Proof.
  intros Hrun Eo Hr. unfold measure_files. apply ends_bind, (ends_of_db _ _ _ _ _ Eo). intros r1 E1. rewrite <-E1 in Hr.
  apply ends_bind. apply (ends_mono _ _ (fun '(wall, out, shape, stats) d => exists T f w,
    observed (preloads params name) (measured_ops params name) (op_kind params name) out shape T /\
    dir_data (data_dir d) = Some f /\ dir_wal (data_dir d) = Some w /\
    (len (nodes T) + 1) * ps <= len (f_data f) /\ len (f_data w) = CHECKPOINT_BYTES)).
  { apply ends_try_finally. eapply ends_mono; [by apply measure_open_ok|].
    intros [[[wall out] shape] stats] d' (T & Hobs & Hw). destruct (close_whole T d' Hw) as (d2 & f & w & E & H2).
    exists d2. split; [done|]. by exists T, f, w. }
  intros [[[wall [lat ub]] shape] [[[st1 st2] st3] st4]] d' (T & f & w & (pre & ops & Htr & Hlen & Hub & Hm & Hok & Hsh) & Ef & Ew & Hfl & Hwl) r2 E2.
  apply ends_bind. exists r2, (data_dir (run_db r2)). split; [done|]. intros r3 _. rewrite E2, Ef, Ew.
  apply ends_bind, (ends_lift _ (len (f_data f))); [done|]. intros r4 _.
  apply ends_bind, (ends_lift _ (len (f_data w))); [done|]. intros r5 _. apply ends_ret.
  destruct Hsh as [(k & Hk & Hu & Hd) Hlv Hlp Hip]. simpl in Hub, Hlen. split; simpl; try done.
  - exists pre, ops, T, k. do 9 (split; [done|]). done.
  - intros Hin. rewrite Hub. destruct Htr as [_ _ <- Hkind]. apply ops_bytes_puts. by rewrite (put_workload_kind name Hin) in Hkind.
  - intros ->. rewrite Hub. apply ops_bytes_scans. apply Htr.
  - rewrite Hd, Hip. pose proof (uniform_internal T k Hu). lia.
Qed.
End measure.
