(* ===== verification/BenchReport.v ===== *)
(** * The numbers of a report

    The percentiles are elements of the samples, in order: the products in
    double precision that give their ranks are too close to the exact ones to
    leave the list or to change places. *)

From stdpp Require Import strings.
From Stdlib Require Import Strings.Ascii.
From S2P Require Import Prelude Float64 Format Messages Pager Cache Tree Wal Bench BenchText BenchRuns.

(** A rank: a fraction with 53 bits of mantissa times a number of samples. *)
Lemma rank_value m n : 2 ^ 52 <= m < 2 ^ 53 -> 1 <= n ->
  exists v, f64_trunc (f64_mul (F64 m (-53)) (f64_of_int n)) = v / 2 ^ 53 /\ m * n - n < v < m * n + n /\ 0 <= v.
Proof.
  intros Hm Hn. unfold f64_mul, f64_of_int. simpl f_mant. simpl f_exp. change (-53 + 0) with (-53).
  destruct (f64_round_int (m * n) (-53)) as (s & Hs & Hr & ->); [nia|].
  pose proof (Z.pow_pos_nonneg 2 s ltac:(lia) Hs) as Hp. pose proof (round_half_even_bound (m * n) (2 ^ s) Hp) as [Hb1 Hb2].
  set (r := round_half_even (m * n) (2 ^ s)) in *. exists (r * 2 ^ s).
  change (2 ^ 52) with 4503599627370496 in *. change (2 ^ 53) with 9007199254740992 in *.
  assert (0 <= r) as Hr0 by nia. split; [|nia].
  unfold f64_trunc. simpl f_mant. simpl f_exp. destruct (Z.leb_spec 0 (-53 + s)) as [H53|H53].
  - assert (2 ^ s = 2 ^ (-53 + s) * 9007199254740992) as Es.
    { change 9007199254740992 with (2 ^ 53). rewrite <-Z.pow_add_r by lia. f_equal. lia. }
    by rewrite Es, Z.mul_assoc, Z.div_mul.
  - rewrite Z.quot_div_nonneg by (try lia; apply Z.pow_pos_nonneg; lia).
    replace 9007199254740992 with (2 ^ (- (-53 + s)) * 2 ^ s) by (rewrite <-Z.pow_add_r by lia; by replace (- (-53 + s) + s) with 53 by lia).
    rewrite Z.div_mul_cancel_r; [done| |lia]. assert (0 < 2 ^ (- (-53 + s))) by (apply Z.pow_pos_nonneg; lia). lia.
Qed.

Definition rank (m n : Z) : Z := f64_trunc (f64_mul (F64 m (-53)) (f64_of_int n)).

Lemma rank_bounds m n : 2 ^ 52 <= m < 2 ^ 53 -> 1 <= n -> 0 <= rank m n < n.
Proof.
  intros Hm Hn. destruct (rank_value m n Hm Hn) as (v & E & Hv & Hv0). unfold rank. rewrite E.
  split; [by apply Z.div_pos|]. apply Z.div_lt_upper_bound; [done|]. nia.
Qed.

Lemma rank_mono m1 m2 n : 2 ^ 52 <= m1 -> m1 + 2 <= m2 -> m2 < 2 ^ 53 -> 1 <= n -> rank m1 n <= rank m2 n.
Proof.
  intros H1 H2 H3 Hn. destruct (rank_value m1 n ltac:(lia) Hn) as (v1 & E1 & Hv1 & _).
  destruct (rank_value m2 n ltac:(lia) Hn) as (v2 & E2 & Hv2 & _). unfold rank. rewrite E1, E2.
  apply Z.div_le_mono; [done|]. nia.
Qed.

(** ** Percentiles *)

Lemma percentile_at l m : l <> [] -> 2 ^ 52 <= m < 2 ^ 53 ->
  exists x, percentile l (F64 m (-53)) = Ok x /\ l !! Z.to_nat (rank m (len l)) = Some x.
Proof.
  intros Hl Hm. assert (1 <= len l) as Hn by (destruct l; [done|unfold len; simpl; lia]).
  pose proof (rank_bounds m (len l) Hm Hn) as Hr.
  destruct (lookup_lt_is_Some_2 l (Z.to_nat (rank m (len l)))) as [x Hx]; [unfold len in *; lia|]. exists x. split; [|done].
  unfold percentile. destruct l as [|y l]; [done|]. fold (rank m (len (y :: l))). rewrite Z.min_l by lia.
  rewrite <-(py_get_lookup _ _ _ Hx). f_equal. lia.
Qed.

Lemma sorted_lookup l i j x y : StronglySorted Z.le l -> l !! i = Some x -> l !! j = Some y -> (i <= j)%nat -> x <= y.
Proof.
  intros Hs. revert i j. induction Hs as [|z l Hs IH Hz]; intros i j Hi Hj Hij; [done|].
  destruct i as [|i], j as [|j]; simpl in *; [|..|].
  - by simplify_eq.
  - injection Hi as <-. rewrite Forall_forall in Hz. by apply Hz, (list_elem_of_lookup_2 _ j).
  - lia.
  - apply (IH i j); [done..|lia].
Qed.

Lemma literal_50 : literal 50 100 = F64 4503599627370496 (-53).
Proof. vm_compute. reflexivity. Qed.
Lemma literal_95 : literal 95 100 = F64 8556839292003942 (-53).
Proof. vm_compute. reflexivity. Qed.
Lemma literal_99 : literal 99 100 = F64 8917127262193582 (-53).
Proof. vm_compute. reflexivity. Qed.

Lemma percentiles l : l <> [] -> StronglySorted Z.le l ->
  exists p50 p95 p99 mx, percentile l (literal 50 100) = Ok p50 /\ percentile l (literal 95 100) = Ok p95 /\
    percentile l (literal 99 100) = Ok p99 /\ py_get l (-1) = Ok mx /\ p50 <= p95 <= p99 /\ p99 <= mx /\
    p50 ∈ l /\ p95 ∈ l /\ p99 ∈ l /\ mx ∈ l.
Proof.
  intros Hl Hs. rewrite literal_50, literal_95, literal_99.
  assert (1 <= len l) as Hn by (destruct l; [done|unfold len; simpl; lia]).
  destruct (percentile_at l 4503599627370496 Hl ltac:(lia)) as (p50 & E50 & L50).
  destruct (percentile_at l 8556839292003942 Hl ltac:(lia)) as (p95 & E95 & L95).
  destruct (percentile_at l 8917127262193582 Hl ltac:(lia)) as (p99 & E99 & L99).
  destruct l as [|mx l _] using rev_ind; [done|].
  assert ((l ++ [mx]) !! length l = Some mx) as Lmx by (by rewrite lookup_app_r, Nat.sub_diag by lia).
  exists p50, p95, p99, mx. rewrite py_get_last. split; [done|]. split; [done|]. split; [done|]. split; [done|].
  pose proof (rank_mono 4503599627370496 8556839292003942 (len (l ++ [mx])) ltac:(lia) ltac:(lia) ltac:(lia) Hn).
  pose proof (rank_mono 8556839292003942 8917127262193582 (len (l ++ [mx])) ltac:(lia) ltac:(lia) ltac:(lia) Hn).
  pose proof (rank_bounds 8917127262193582 (len (l ++ [mx])) ltac:(lia) Hn) as Hb99.
  assert (len (l ++ [mx]) = Z.of_nat (length l) + 1) as El by (unfold len; rewrite length_app; simpl; lia).
  split; [split; (eapply sorted_lookup; [exact Hs|eassumption|eassumption|lia])|].
  split; [eapply sorted_lookup; [exact Hs|exact L99|exact Lmx|lia]|].
  split_and!; by eapply list_elem_of_lookup_2.
Qed.

(** ** The report *)

Lemma merge_sort_empty : merge_sort Z.le [] = [].
Proof. done. Qed.

Lemma sorted_percentiles l : l <> [] -> exists s p50 p95 p99 mx, merge_sort Z.le l = s /\ s <> [] /\
  percentile s (literal 50 100) = Ok p50 /\ percentile s (literal 95 100) = Ok p95 /\ percentile s (literal 99 100) = Ok p99 /\
  py_get s (-1) = Ok mx /\ p50 <= p95 <= p99 /\ p99 <= mx /\ Forall (fun x => x ∈ l) [p50; p95; p99; mx].
Proof.
  intros Hl. assert (merge_sort Z.le l <> []) as Hs.
  { intros E. apply Hl, Permutation_nil_r. by rewrite <-E, merge_sort_Permutation. }
  assert (StronglySorted Z.le (merge_sort Z.le l)) as Hsort by (apply StronglySorted_merge_sort; apply _).
  destruct (percentiles (merge_sort Z.le l) Hs Hsort) as (p50 & p95 & p99 & mx & E1 & E2 & E3 & E4 & [? ?] & H2 & I1 & I2 & I3 & I4).
  exists (merge_sort Z.le l), p50, p95, p99, mx. split_and!; try done.
  repeat constructor; by rewrite <-(merge_sort_Permutation Z.le l).
Qed.

Lemma ops_per_sec_ok r : exists q, ops_per_second r = Ok q.
Proof.
  unfold ops_per_second. destruct (f64_ltb (f64_of_int 0) (wall_seconds r)) eqn:E; [|by eexists]. apply f64_div_ok. by apply positive_nonzero.
Qed.

(** A text that ends in another letter is not n/a. *)
Lemma other_end (s : string) c : c <> "a"%char -> s +:+ String c EmptyString <> "n/a"%string.
Proof.
  intros Hc E. apply (string_app_inj s "n/" (String c EmptyString) "a") in E as [_ E]; [by injection E|].
  apply (f_equal String.length) in E. rewrite append_length in E. simpl in *. lia.
Qed.

Lemma write_amplification_ok r : exists q, write_amplification r = Ok q /\ (q = "n/a"%string <-> user_bytes_written r = 0).
Proof.
  unfold write_amplification. destruct (Z.eqb_spec (user_bytes_written r) 0) as [E|E]; [by eexists|].
  unfold f64_div_int. rewrite (proj2 (Z.eqb_neq _ _) E). cbn [mbind Result_bind]. eexists. split; [done|].
  split; [|done]. intros Hq. by apply other_end in Hq.
Qed.

Lemma cache_hit_ratio_ok r : exists q, cache_hit_ratio r = Ok q.
Proof.
  unfold cache_hit_ratio. destruct (Z.eqb_spec (cache_hits (wr_buffer_pool_stats r) + cache_misses (wr_buffer_pool_stats r)) 0) as [E|E];
    [by eexists|].
  destruct (f64_div_ok (f64_mul (f64_of_int 100) (f64_of_int (cache_hits (wr_buffer_pool_stats r))))
    (f64_of_int (cache_hits (wr_buffer_pool_stats r) + cache_misses (wr_buffer_pool_stats r))) E) as [q ->].
  by eexists.
Qed.

(** Both reports can be made of every result. *)
Lemma render_text_ok r : exists text, render_text r = Ok text.
Proof.
  destruct (ops_per_sec_ok r) as [ops Eops]. destruct (write_amplification_ok r) as (wa & Ewa & _).
  destruct (cache_hit_ratio_ok r) as [hit Ehit].
  assert (exists p50 p95 p99, percentile (merge_sort Z.le (latencies_ns r)) (literal 50 100) = Ok p50 /\
    percentile (merge_sort Z.le (latencies_ns r)) (literal 95 100) = Ok p95 /\
    percentile (merge_sort Z.le (latencies_ns r)) (literal 99 100) = Ok p99) as (p50 & p95 & p99 & E50 & E95 & E99).
  { destruct (decide (latencies_ns r = [])) as [->|Hl]; [by exists 0, 0, 0|].
    destruct (sorted_percentiles _ Hl) as (s & p50 & p95 & p99 & mx & -> & _ & E1 & E2 & E3 & _). by exists p50, p95, p99. }
  assert (exists mx, (match merge_sort Z.le (latencies_ns r) with
    | [] => Ok (f64_of_int 0) | _ => max ← py_get (merge_sort Z.le (latencies_ns r)) (-1); f64_div_int max 1000 end) = Ok mx) as (mx & Emx).
  { destruct (decide (latencies_ns r = [])) as [->|Hl]; [by eexists|].
    destruct (sorted_percentiles _ Hl) as (s & ? & ? & ? & mx & -> & Hs & _ & _ & _ & E4 & _). destruct s as [|y s]; [done|].
    rewrite E4. by eexists. }
  assert (forall n, f64_div_int n 1000 = Ok (f64_round n 1000 0)) as Hd by done.
  unfold render_text. rewrite E50. cbn [mbind Result_bind]. rewrite Hd. cbn [mbind Result_bind].
  rewrite E95. cbn [mbind Result_bind]. rewrite Hd. cbn [mbind Result_bind].
  rewrite E99. cbn [mbind Result_bind]. rewrite Hd. cbn [mbind Result_bind].
  rewrite Emx. cbn [mbind Result_bind]. rewrite Eops. cbn [mbind Result_bind].
  assert (exists b, (if negb (leaf_pages (tree_shape r) =? 0) then f64_div_int (data_file_bytes r) (leaf_pages (tree_shape r))
    else Ok (f64_of_int 0)) = Ok b) as (b & Eb).
  { destruct (Z.eqb_spec (leaf_pages (tree_shape r)) 0) as [E|E]; [by eexists|]. simpl. unfold f64_div_int.
    rewrite (proj2 (Z.eqb_neq _ _) E). by eexists. }
  rewrite Eb. cbn [mbind Result_bind]. rewrite Ewa. cbn [mbind Result_bind]. rewrite Ehit. cbn [mbind Result_bind]. by eexists.
Qed.

Lemma render_json_ok r : exists report, render_json r = Ok report.
Proof.
  destruct (ops_per_sec_ok r) as [ops Eops]. destruct (write_amplification_ok r) as (wa & Ewa & _).
  destruct (cache_hit_ratio_ok r) as [hit Ehit]. unfold render_json. rewrite Eops. cbn [mbind Result_bind].
  destruct (decide (latencies_ns r = [])) as [->|Hl].
  - rewrite merge_sort_empty. cbn [percentile mbind Result_bind]. rewrite Ewa. cbn [mbind Result_bind]. rewrite Ehit. by eexists.
  - destruct (sorted_percentiles _ Hl) as (s & p50 & p95 & p99 & mx & -> & Hs & E1 & E2 & E3 & E4 & _).
    rewrite E1, E2, E3. cbn [mbind Result_bind]. destruct s as [|y s]; [done|]. rewrite E4. cbn [mbind Result_bind].
    rewrite Ewa. cbn [mbind Result_bind]. rewrite Ehit. by eexists.
Qed.
