(* ===== verification/BenchTheorems.v ===== *)
(** * The benchmark script: properties

    The script runs to its end, whatever the random generator and the clocks
    give, and the sequential workload is one. *)

From Stdlib Require Import Strings.Byte.
From stdpp Require Import strings.
From S2P Require Import Prelude Bytes Float64 Entities Codec Fs Pager Cache Tree Wal Db.
From S2P Require Import Debug CacheFacts TreeSizes TreeShape TreeStore TreeSteps TreeScan TreeOps TreeHeight TreeBudget TreePages DbCheckpoint DbDurable DbOps DbRecovery DbClient.
From S2P Require Import Bench BenchText BenchKeys BenchFacts BenchRuns BenchShape BenchSequential BenchMeasure BenchReport.

(** A workload whose keys and records are in bounds, and which never puts more
    records than a tree of height [h] holds for certain. *)
Record workload_ok (ps kmax : Z) (h : nat) (params : WorkloadParams) : Prop := {
  wo_sizes : sizes_ok ps kmax params;
  wo_count : calls_of params < 4 * fanout ps kmax ^ Z.of_nat h;
  wo_budget : (calls_of params + 2) * db_cost h + 3 <= 2 ^ 64;
}.

Section main.
Context {W : Type} `{WorldOk W}.
Context (ps kmax : Z) (Hb : GoodBounds ps kmax) (Hps : ps < 2 ^ 32) (h : nat) (Hc : fits_config (bench_config ps) h).

Lemma fresh_ready k : 0 <= k < 4 * fanout ps kmax ^ Z.of_nat h -> (k + 2) * db_cost h + 3 <= 2 ^ 64 ->
  exists d0 d, db_init (bench_config ps) empty_dir = Ok d0 /\ db_open d0 = (d, Ok tt) /\ ready ps kmax (bench_config ps) h k d ∅.
Proof.
  intros Hk HN. pose proof (db_cost_pos h). pose proof (gb_ps _ _ Hb) as [? _].
  assert (roomy_config (db_cost h) (bench_config ps)) as Hr by (split; [change MIN_PAGE_SIZE with 52; simpl; lia|split; [lia|apply Hc]]).
  destruct (fresh_open_ok ps kmax Hb Hps (bench_config ps) empty_dir (db_cost h) ((k + 2) * db_cost h + 1) h Hr eq_refl eq_refl eq_refl)
    as (d0 & d & E0 & E & Hd & Hset); [nia|lia|].
  exists d0, d. split; [done|]. split; [done|]. split; [|lia|rewrite map_size_empty; lia].
  exists ((k + 2) * db_cost h + 1 - 1). split; [done|lia].
Qed.

Lemma dict_get_total {A} name (d : list (string * A)) : name ∈ d.*1 -> exists a, dict_get name d = Ok a.
Proof.
  intros Hin. apply list_elem_of_fmap in Hin as (e & -> & He). unfold dict_get.
  destruct (list_find (fun x => x.1 = e.1) d) as [[i [n a]]|] eqn:E; [by exists a|].
  apply list_find_None in E. rewrite Forall_forall in E. by destruct (E e He).
Qed.

Lemma measure_ok name params show w lines : name ∈ PRESETS.*1 -> workload_ok ps kmax h params ->
  exists s result, measure name params ps show (w, lines) = (s, Ok result) /\ report_ok ps kmax h params name result.
Proof.
  intros Hname [Hsizes Hcount Hbudget].
  destruct (dict_get_total name (RUNNERS (W := W)) Hname) as [runner Erun].
  pose proof (dict_get_in _ _ _ Erun) as Hin.
  pose proof (runners_run ps kmax Hb Hps _ h Hc params Hsizes {| ctx_preset_name := name; ctx_show_progress := show |}) as Hall.
  rewrite Forall_forall in Hall. specialize (Hall _ Hin). simpl in Hall.
  destruct (fresh_ready (calls_of params)) as (d0 & d & E0 & E & Hr); [unfold calls_of in *; lia|done|].
  destruct (measure_files_ok ps kmax Hb Hps _ h params name _
    {| run_db := d0; run_world := seeded (wp_seed params) w; run_stderr := lines |} d Hall E Hr) as (r' & result & Em & Hres).
  eexists _, result. unfold measure. rewrite Erun. cbn [mbind Result_bind]. rewrite E0. cbn [mbind Result_bind]. by rewrite Em.
Qed.
End main.

(** ** Samples *)

(** An outside that counts: bytes, positions and times follow from a number. *)
#[local] Instance counting : World Z := {
  seeded s _ := s;
  draw_bytes n w := (w + 1, replicate (Z.to_nat n) (byte_of_Z w));
  draw_float w := (w + 1, f64_round (w mod 100) 100 0);
  draw_index n w := (w + 1, Z.to_nat (w mod Z.of_nat n));
  read_clock_ns w := (w + 1, w);
  read_clock w := (w + 1, f64_of_int w);
}.

#[local] Instance counting_ok : WorldOk Z.
Proof.
  split.
  - intros n w Hn. unfold len. simpl. rewrite length_replicate. lia.
  - intros n w Hn. simpl. pose proof (Z.mod_pos_bound w (Z.of_nat n)). lia.
Qed.

(** [bench.py --all] *)
Definition all_args : Namespace :=
  {| ns_workload := None; ns_all := true; ns_page_size := DEFAULT_PAGE_SIZE; ns_json := false; ns_no_progress := false; ns_n_ops := None;
     ns_key_size := None; ns_value_size := None; ns_read_pct := None; ns_delete_pct := None; ns_preload_n := None;
     ns_n_scans := None; ns_scan_limit := None; ns_steady_size := None; ns_seed := None |}.

Lemma bench_bounds : GoodBounds 4096 400.
Proof. split; [unfold good_page_size; lia| | |]; vm_compute; discriminate. Qed.

Lemma bench_fits : fits_config (bench_config 4096) 13.
Proof. split; vm_compute; [reflexivity|discriminate]. Qed.

Lemma presets_ok : Forall (fun e => workload_ok 4096 400 13 (merge_overrides e.2 all_args)) PRESETS.
Proof. repeat constructor; vm_compute; discriminate. Qed.

(** ** Printing *)

Definition len_printed (p : Printed) : Z :=
  match p with PrintedJson l => len l | PrintedTexts l => len l end.

Lemma mapM_total {A B} (f : A -> Result B) l : (forall a, exists b, f a = Ok b) -> exists k, mapM f l = Ok k /\ len k = len l.
Proof.
  intros Hf. induction l as [|a l (k & Ek & Hk)]; [by exists []|]. destruct (Hf a) as [b Eb]. exists (b :: k). split.
  - cbn [mapM]. rewrite Eb. cbn [mbind Result_bind]. by rewrite Ek.
  - unfold len in *. simpl. lia.
Qed.

(** Once the measurements are there, [main] prints a report for each and
    returns 0. *)
Lemma print_ok {W} `{World W} args st (s : W * list string) results : main_results args st = (s, Ok (Some results)) ->
  exists printed, main args st = (s, Ok (Some (0, printed))) /\ len_printed printed = len results.
Proof.
  intros E. unfold main. rewrite (bind_Ok _ _ _ _ _ E). destruct (ns_json args).
  - destruct (mapM_total render_json results) as (k & Ek & Hk); [apply render_json_ok|].
    exists (PrintedJson k). by rewrite Ek.
  - destruct (mapM_total render_text results) as (k & Ek & Hk); [apply render_text_ok|].
    exists (PrintedTexts k). by rewrite Ek.
Qed.

(** ** Properties *)

(** C36. The script runs to its end.  Whatever the random generator and the clocks
    give, when the page size and the sizes of keys and records are in bounds and
    the workloads put fewer than [4 * fanout ^ h] records, every measurement
    [main] makes returns: no call of the runner raises, no scan runs out of
    fuel, and the database closes; [main] prints a report for each workload, as
    text or for JSON, and its exit code is 0.  A report counts as many operations
    and latencies as the parameters ask for.  Its user bytes are all operations
    times the size of a record for the workloads that only put, zero for the
    scans, and for the mixed ones the bytes of the puts of some sequence of
    that many calls; its depth and its leaf and internal pages are those of one
    balanced tree, of at most [h] levels above the leaves, that holds what such
    a sequence leaves, and whose pages are in the data file with the meta page
    (the file may be longer); the log is left with its checkpoint record alone. *)
Theorem bench_completes {W} `{WorldOk W} ps kmax h args names w lines : GoodBounds ps kmax -> ps < 2 ^ 32 ->
  fits_config (bench_config ps) h -> ns_page_size args = ps -> preset_names args = Some names ->
  Forall (fun name => exists base, dict_get name PRESETS = Ok base /\ workload_ok ps kmax h (merge_overrides base args)) names ->
  exists s results printed, main args (w, lines) = (s, Ok (Some (0, printed))) /\ len_printed printed = len names /\
    main_results args (w, lines) = (s, Ok (Some results)) /\
    Forall2 (fun name result => exists base, dict_get name PRESETS = Ok base /\
      let params := merge_overrides base args in report_ok ps kmax h params name result) names results.
Proof.
  intros Hb Hps Hc Eps Enames Hall.
  enough (exists s results, main_results args (w, lines) = (s, Ok (Some results)) /\
    Forall2 (fun name result => exists base, dict_get name PRESETS = Ok base /\
      let params := merge_overrides base args in report_ok ps kmax h params name result) names results) as (s & results & E & Hres).
  { destruct (print_ok args (w, lines) s results E) as (printed & Ep & El). exists s, results, printed. split; [done|]. split; [|done].
    rewrite El. unfold len. by rewrite (Forall2_length _ _ _ Hres). }
  unfold main_results. rewrite Enames, Eps. clear Enames.
  match goal with |- context [mapM ?f names] => set (g := f) end.
  enough (forall s, exists s' results, mapM g names s = (s', Ok results) /\
    Forall2 (fun name result => exists base, dict_get name PRESETS = Ok base /\
      let params := merge_overrides base args in report_ok ps kmax h params name result) names results)
    as Hrun.
  { destruct (Hrun (w, lines)) as (s' & results & E & Hres). exists s', results. by rewrite (bind_Ok _ _ _ _ _ E). }
  induction Hall as [|name names (base & Ebase & Hok) _ IH]; intros [w0 lines0]; [by exists (w0, lines0), []|].
  destruct (measure_ok ps kmax Hb Hps h Hc name (merge_overrides base args) (negb (ns_no_progress args)) w0 lines0)
    as (s1 & result & E1 & Hres1); [|done|].
  { apply list_elem_of_fmap. exists (name, base). split; [done|]. by apply dict_get_in. }
  destruct (IH s1) as (s2 & results & E2 & Hres2). exists s2, (result :: results). split; [|constructor; [by exists base|done]].
  simpl. assert (g name (w0, lines0) = (s1, Ok result)) as Eg by (unfold g; by rewrite Ebase).
  by rewrite (bind_Ok _ _ _ _ _ Eg), (bind_Ok _ _ _ _ _ E2).
Qed.

Lemma bench_completes_witness : exists s results printed, main (W := Z) all_args (0, []) = (s, Ok (Some (0, printed))) /\
  len_printed printed = len sorted_names /\ main_results (W := Z) all_args (0, []) = (s, Ok (Some results)) /\
  Forall2 (fun name result => exists base, dict_get name PRESETS = Ok base /\
    let params := merge_overrides base all_args in report_ok 4096 400 13 params name result) sorted_names results.
Proof.
  refine (bench_completes (W := Z) 4096 400 13 all_args sorted_names 0 [] bench_bounds eq_refl bench_fits eq_refl eq_refl _).
  pose proof presets_ok as Hok. repeat (apply Forall_cons in Hok as [? Hok]).
  repeat (apply Forall_cons; split; [eexists; split; [vm_compute; reflexivity|eassumption]|]). apply Forall_nil; exact I.
Defined.

(** C37. Each runner of the script counts what it does.  On a fresh database with
    room for its calls it returns, whatever the generator and the clocks give; it
    has preloaded as many records as the parameters ask for where the workload
    preloads, and has then made as many calls as they ask for: puts alone,
    scans alone, or puts and deletes with or without gets.  It gives one latency
    for each, as user bytes the bytes of the keys and values of the puts among
    them, the preloaded ones not counted, and the database holds exactly the
    records that all these calls leave. *)
Theorem runner_counts_bytes {W} `{WorldOk W} ps kmax c h params name runner ctx (r : Run (W := W)) : GoodBounds ps kmax -> ps < 2 ^ 32 ->
  fits_config c h -> sizes_ok ps kmax params -> dict_get name RUNNERS = Ok runner ->
  ready ps kmax c h (calls_of params) (run_db r) ∅ ->
  exists r' latencies user_bytes pre ops, runner params ctx r = (r', Ok (latencies, user_bytes)) /\
    trace params name pre ops /\ len latencies = len ops /\ user_bytes = ops_bytes ops /\
    ready ps kmax c h 0 (run_db r') (ops_effect (pre ++ ops) ∅).
Proof.
  intros Hb Hps Hc Hsizes Erun Hr. pose proof (runners_run ps kmax Hb Hps c h Hc params Hsizes ctx) as Hall.
  rewrite Forall_forall in Hall. destruct (Hall _ (dict_get_in _ _ _ Erun) r Hr) as (r' & [lat ub] & E & pre & ops & Htr & Hl & Hu & Hr').
  exists r', lat, ub, pre, ops. simpl in *. split; [exact E|]. split; [exact Htr|]. split; [|done]. rewrite Hl. symmetry. apply Htr.
Qed.

Lemma runner_counts_bytes_witness : exists d0 d, db_init default_config empty_dir = Ok d0 /\ db_open d0 = (d, Ok tt) /\
  let params := {| n_ops := 5; key_size := 16; value_size := 64; read_pct := literal 8 10; delete_pct := literal 5 100;
                   preload_n := 20; n_scans := 0; scan_limit := None; steady_size := 0; wp_seed := 42 |} in
  let ctx := {| ctx_preset_name := "mixed-rw"%string; ctx_show_progress := true |} in
  exists r' latencies user_bytes pre ops,
    run_mixed_rw params ctx {| run_db := d; run_world := 0; run_stderr := [] |} = (r', Ok (latencies, user_bytes)) /\
    trace params "mixed-rw" pre ops /\ len latencies = len ops /\ user_bytes = ops_bytes ops /\
    ready 4096 400 default_config 13 0 (run_db r') (ops_effect (pre ++ ops) ∅).
Proof.
  destruct (fresh_ready 4096 400 bench_bounds eq_refl 13 bench_fits 25) as (d0 & d & E0 & E & Hr);
    [split; [lia|reflexivity]|vm_compute; discriminate|]. exists d0, d. split; [exact E0|]. split; [exact E|].
  apply (runner_counts_bytes (W := Z) 4096 400 default_config 13 _ "mixed-rw" run_mixed_rw _ {| run_db := d; run_world := 0; run_stderr := [] |}
    bench_bounds eq_refl bench_fits); [|reflexivity|exact Hr].
  split; [split; discriminate|discriminate|discriminate].
Defined.

(** C38. The tree snapshot of a report is that of the tree.  On a database
    that serves any records it returns and leaves them; the leaf pages and the
    internal pages it counts are the pages of that kind among those that can be
    reached from the root, each counted once; and the depth is the number of
    levels: a page so many steps below the root is a leaf exactly when it is on
    the last one.  Of the average fill nothing is said but that it is computed. *)
Theorem snapshot_counts_pages ps kmax c N h d m : GoodBounds ps kmax -> ps < 2 ^ 32 -> serving ps kmax c N h d m ->
  exists d' shape ids, snapshot_tree_shape d = (d', Ok shape) /\ serving ps kmax c N h d' m /\
    NoDup ids /\ (forall i, i ∈ ids <-> reachable (db_store d) i) /\
    leaf_pages shape = len (filter (fun i => page_is is_leaf (db_store d) i = true) ids) /\
    internal_pages shape = len (filter (fun i => page_is is_internal (db_store d) i = true) ids) /\
    1 <= leaf_pages shape /\ 1 <= depth shape <= Z.of_nat h + 1 /\
    forall n i, at_level (db_store d) n i ->
      Z.of_nat n < depth shape /\ (page_is is_leaf (db_store d) i = true <-> Z.of_nat n + 1 = depth shape).
Proof.
  intros Hb Hps [(T & D & recs & Hd & Hm) Hset]. pose proof (db_cost_pos h).
  destruct (snapshot_ok ps kmax Hb h T _ N d D recs Hd ltac:(lia)) as (d' & shape & E & Hd' & Hss & [(k & Hk & Hu & Hdep) Hlv Hlp Hip]).
  pose proof (holding_rep _ _ _ _ _ _ _ _ _ Hd) as Hr.
  pose proof (se_root _ _ _ _ _ _ (bs_settled _ _ _ _ _ _ _ (ho_base _ _ _ _ _ _ _ _ _ Hd))) as Hroot.
  destruct (reachable_nodes (db_store d) D T Hr Hroot) as (Hnd & Hin & Hcount).
  exists d', shape, (nodes T).*1. split; [exact E|]. split; [split; [by exists T, D, recs|by eapply setup_same]|].
  split; [done|]. split; [done|]. unfold len. rewrite !Hcount by (intros []; done). split; [exact Hlp|]. split; [exact Hip|].
  split; [done|]. split; [lia|]. intros n i Hl. destruct (level_kind (db_store d) D T Hr Hroot k n i Hu Hl) as [Hn ->]. lia.
Qed.

Lemma snapshot_counts_pages_witness : exists d0 d, db_init default_config empty_dir = Ok d0 /\ db_open d0 = (d, Ok tt) /\
  exists d' shape ids, snapshot_tree_shape d = (d', Ok shape) /\
    (forall i, i ∈ ids <-> reachable (db_store d) i) /\
    leaf_pages shape = len (filter (fun i => page_is is_leaf (db_store d) i = true) ids).
Proof.
  destruct (fresh_ready 4096 400 bench_bounds eq_refl 13 bench_fits 25) as (d0 & d & E0 & E & [(N & Hs & _) _ _]);
    [split; [lia|reflexivity]|vm_compute; discriminate|]. exists d0, d. split; [exact E0|]. split; [exact E|].
  destruct (snapshot_counts_pages 4096 400 (bench_config 4096) N 13 d ∅ bench_bounds eq_refl Hs)
    as (d' & shape & ids & Es & _ & _ & Hids & Hl & _). exists d', shape, ids. split; [exact Es|]. split; [exact Hids|exact Hl].
Defined.

(** C40. The sequential workload is sequential: when the numbers have no more
    digits than the key size, it returns and leaves the database with one record
    for each number, and their keys are in the order of the numbers, so that a
    full scan gives the records in the order they were put. *)
Theorem sequential_put_in_order {W} `{WorldOk W} ps kmax c h params ctx (r : Run (W := W)) : GoodBounds ps kmax -> ps < 2 ^ 32 ->
  fits_config c h -> sizes_ok ps kmax params -> 0 < key_size params -> 0 <= n_ops params <= 10 ^ key_size params ->
  ready ps kmax c h (n_ops params) (run_db r) ∅ ->
  exists r' out m, run_sequential_put params ctx r = (r', Ok out) /\ len out.1 = n_ops params /\
    ready ps kmax c h 0 (run_db r') m /\ map_range None None m = sequential_records params (Z.to_nat (n_ops params)) /\
    Bisect.keys_lt (sequential_records params (Z.to_nat (n_ops params))).*1.
Proof.
  intros Hb Hps Hc Hsizes Hk Hn Hr.
  destruct (sequential_put_loads ps kmax Hb Hps c h Hc params Hsizes ctx r Hk Hn Hr) as (r' & out & E & Hl & Hr').
  assert (Bisect.keys_lt (sequential_records params (Z.to_nat (n_ops params))).*1) as Hs.
  { rewrite sequential_records_keys. apply sequential_keys_sorted; lia. }
  eexists r', out, _. split; [exact E|]. split; [done|]. split; [exact Hr'|]. split; [by apply full_range_sorted|done].
Qed.

Lemma sequential_put_in_order_witness : exists d0 d, db_init default_config empty_dir = Ok d0 /\ db_open d0 = (d, Ok tt) /\
  let r := {| run_db := d; run_world := 0; run_stderr := [] |} in
  let ctx := {| ctx_preset_name := "sequential-put"%string; ctx_show_progress := true |} in
  exists r' out m, run_sequential_put default_params ctx r = (r', Ok out) /\ len out.1 = 100000 /\
    ready 4096 400 default_config 13 0 (run_db r') m /\
    map_range None None m = sequential_records default_params (Z.to_nat (n_ops default_params)) /\
    Bisect.keys_lt (sequential_records default_params (Z.to_nat (n_ops default_params))).*1.
Proof.
  destruct (fresh_ready 4096 400 bench_bounds eq_refl 13 bench_fits 100000) as (d0 & d & E0 & E & Hr);
    [split; [lia|reflexivity]|vm_compute; discriminate|]. exists d0, d. split; [exact E0|]. split; [exact E|].
  apply (sequential_put_in_order (W := Z) 4096 400 default_config 13 default_params _ {| run_db := d; run_world := 0; run_stderr := [] |}
    bench_bounds eq_refl bench_fits); [|reflexivity|split; discriminate|exact Hr].
  split; [split; discriminate|discriminate|discriminate].
Defined.

(** C39. The reports of a result, as text and for JSON, can always be made, without a
    division by zero or a rank outside the samples.  The three percentiles and the maximum are
    latencies of the run and in ascending order, or zero when there is none; the
    write amplification reads n/a exactly when no user bytes were written. *)
Theorem json_report_ordered r : exists report text, render_json r = Ok report /\ render_text r = Ok text /\ js_result report = r /\
  (latencies_ns r = [] /\ [js_p50 report; js_p95 report; js_p99 report; js_max report] = [0; 0; 0; 0] \/
   js_p50 report <= js_p95 report <= js_p99 report /\ js_p99 report <= js_max report /\
   Forall (fun x => x ∈ latencies_ns r) [js_p50 report; js_p95 report; js_p99 report; js_max report]) /\
  (js_write_amplification report = "n/a"%string <-> user_bytes_written r = 0).
Proof.
  destruct (ops_per_sec_ok r) as [ops Eops]. destruct (write_amplification_ok r) as (wa & Ewa & Hwa).
  destruct (cache_hit_ratio_ok r) as [hit Ehit]. destruct (render_text_ok r) as [text Etext]. unfold render_json. rewrite Eops. cbn [mbind Result_bind].
  destruct (latencies_ns r) as [|x l] eqn:El.
  - rewrite merge_sort_empty. cbn [percentile mbind Result_bind]. rewrite Ewa. cbn [mbind Result_bind]. rewrite Ehit. cbn [mbind Result_bind].
    eexists _, text. split; [done|]. split; [exact Etext|]. split; [done|]. split; [by left|done].
  - destruct (sorted_percentiles (x :: l)) as (s & p50 & p95 & p99 & mx & Es & Hs & E1 & E2 & E3 & E4 & H1 & H2 & H3); [done|].
    rewrite Es, E1, E2, E3. cbn [mbind Result_bind]. destruct s as [|y s]; [done|]. rewrite E4. cbn [mbind Result_bind].
    rewrite Ewa. cbn [mbind Result_bind]. rewrite Ehit. cbn [mbind Result_bind].
    eexists _, text. split; [done|]. split; [exact Etext|]. split; [done|]. split; [right; split; [exact H1|by split]|done].
Qed.

(** Numbers with more digits are cut to the key size: of twenty puts with keys
    of one byte, half overwrite a record put before. *)
Definition short_keys : WorkloadParams :=
  {| n_ops := 20; key_size := 1; value_size := 1; read_pct := literal 0 1; delete_pct := literal 0 1;
     preload_n := 0; n_scans := 0; scan_limit := None; steady_size := 0; wp_seed := 42 |}.

Definition short_run : M (Run (W := Z)) (nat * list bytes) :=
  of_db db_open;;
  out ← run_sequential_put short_keys {| ctx_preset_name := "sequential-put"%string; ctx_show_progress := false |};
  g ← of_db (in_tree (take_scan 30 (scan None None)));
  mret (length out.1, (fun r => r.1) <$> (g : list (bytes * bytes))).

Theorem sequential_put_overwrites :
  match db_init default_config empty_dir with
  | Ok d => (short_run {| run_db := d; run_world := 0; run_stderr := [] |}).2 =
      Ok (20%nat, [[x30]; [x31]; [x32]; [x33]; [x34]; [x35]; [x36]; [x37]; [x38]; [x39]])
  | Raise _ => False
  end.
Proof. vm_compute. reflexivity. Qed.
